(* ===== verification/_CoqProject ===== *)
-Q . S2P
Prelude.v
GoStrings.v
GoSort.v
GoJson.v
GoCrypto.v
ApiTypes.v
Secrets.v
Resources.v
Render.v
Ingress.v
Cluster.v
OAuthClientController.v
AutheliaController.v
System.v
Script.v
Discipline.v
Concurrent.v
Progress.v
Watches.v
Permissions.v
Main.v
GoHeap.v
DeepCopy.v
Examples.v
