(* ===== verification/Prelude.v ===== *)
(** * Heliop: a Kubernetes operator for Authelia, verified

    Heliop runs Authelia, an authentication portal.  Its users declare an
    [Authelia] (one portal), [AutheliaOAuthClient]s (applications that log in
    through it) and annotations on their Ingresses (access rules).  Two
    controllers turn these into a running portal:

    - the client controller gives every confidential client a Secret with a
      generated client secret and its PBKDF2 digest, once;
    - the Authelia controller collects the clients of an Authelia and the access
      rules of all Ingresses, renders the configuration, and writes the core
      Secret, ConfigMap, Service, data volume claim, Deployment and status.

    They meet only in the cluster: the client controller writes a digest into a
    Secret and its name into the client's status, and the Authelia controller
    reads it there; until it is there, the client counts as missing, and the
    reconcile asks to be called again.

    This library models all the Go code of the operator, [internal/controller],
    [api/v1alpha1] (the generated deep copies included) and [cmd/main.go], by
    translation of the source into executable definitions of the same names, and
    proves what the operator promises.

    ** Files

    What the Go code stands on (the language and its standard library):
    - [Prelude]: errors, panics, and the state monad of effectful code; byte
      strings; automation (hint database [go], rewriting database [str]);
    - [GoStrings]: [strings], [unicode/utf8], [unicode.ToLower];
    - [GoSort]: [sort.Strings], [sort.SliceStable]; [sort.Slice] is class
      [UnstableSort], since its result on equal elements is unspecified;
    - [GoJson]: [json.Unmarshal] into [map[string]any], as a parser;
    - [GoCrypto]: [crypto/rand] on a finite tape of bytes, [rand.Int], base64,
      hex, PEM, SHA-256, SHA-512, HMAC and PBKDF2 (with test vectors);
    - [GoHeap]: memory with typed cells, references to fields and elements,
      slices, and the specification of a deep copy.

    The program, one file per source file:
    - [ApiTypes]: [api/v1alpha1/*_types.go], and the fields of the Kubernetes
      objects that the operator reads or writes (the rest of an object is one
      opaque field that has to be carried along);
    - [Secrets]: [secrets.go];  [Resources]: [resources.go];
      [Render]: [render.go];  [Ingress]: [ingress.go];
    - [Cluster]: not a source file but the boundary: the API server and
      [controllerutil] as classes ([Api], [Owners]) with their laws
      ([ApiLaws], [OwnersLaws]), [controllerutil.CreateOrUpdate] as a function
      of them, and Module [Memory], a concrete API server for which all the
      laws are proved;
    - [OAuthClientController]: [autheliaoauthclient_controller.go];
      [AutheliaController]: [authelia_controller.go];
    - [Watches]: the two [SetupWithManager] methods, the registration of the types
      ([groupversion_info.go]), and the requests an event makes;
      [Permissions]: the controllers' RBAC markers, the role generated from
      them ([config/rbac/role.yaml]), and what a request needs;
    - [Main]: [cmd/main.go]: flags, options, start-up, exit codes;
    - [DeepCopy]: [zz_generated.deepcopy.go], on the heap of [GoHeap].

    The whole:
    - [System]: the two controllers and everybody else as a step relation, a
      reconcile being one step;
    - [Script]: the same controllers request by request: run against a list of
      answers, a reconcile stops at the first request without an answer, and one
      more answer continues the run ([played_extends]);
    - [Discipline]: what every request of a reconcile satisfies ([job_good]), and
      how many there are ([every_job_ends]);
    - [Concurrent]: a server with resource versions, stale caches and failures,
      and any number of interleaved reconciles;
    - [Progress]: servers that do what they are asked, and convergence;
    - [Examples]: a concrete cluster; the theorems applied to its runs.

    ** Reading the definitions

    A Go function that returns [(T, error)] is a function to [outcome T]: [Ok],
    [Err], or [Panic] for the run-time panics the code could raise (writing to
    a nil map, a failed type assertion).  An effectful function is in [M S],
    state passing over [S]: [entropy] (the bytes that [rand.Reader] will still
    return), [cluster] (what the API server holds), or both.  A failing call
    keeps the state it reached: a failed reconcile has done the writes before
    the failure, and some theorems are about exactly that.  Closures passed to
    [CreateOrUpdate] are functions from the object read to the object wanted.
    Maps are [gmap]s; a map field that the code compares with nil is an [option]
    ([content] reads nil as empty).  Nested maps updated through references
    ([childMap]) are updated and written back.  A short name shared by several
    Go types carries a prefix ([au_], [oc_], [om_], ...).

    ** What is proved

    The system ([System], [Concurrent], [Progress]).  Core secrets, and the secrets
    of clients that stay confidential, are never rotated or lost, as long as
    others leave those values alone: in every interleaving of any number of
    reconciles of both controllers, request by request, with reads from stale
    caches, lost answers and abandoned runs ([core_secrets_concurrent],
    [client_secrets_concurrent]; with whole reconciles as steps,
    [core_secrets_stable], [client_secrets_stable]).  When requests do not fail,
    the Authelia's configuration can be rendered, no object belongs to somebody
    else and there is enough entropy, one round over the clients is enough for the
    next reconcile of their Authelia to succeed with all of them in the
    configuration ([system_converges]).  A reconciled client is ready for the
    Authelia controller, with the right ID and the digest stored for it
    ([client_becomes_ready]); repeated reconciles from the same sources, with
    distinct client IDs, do not restart the pods ([no_spurious_rollout]).  A
    reconcile ends after a bounded number of requests, whatever it is told
    ([every_job_ends]).  A change of anything that concerns an Authelia makes a
    request for it, but for the change of an Ingress while the Authelias cannot
    be listed ([events_reach_authelia]).  Every request and every watch of a
    controller is granted by its own RBAC markers and by the operator's role,
    which is up to date with them ([requests_permitted]).

    The controllers.  A successful reconcile leaves the objects as specified
    ([Reconcile_client_ok], [Reconcile_authelia_ok]); any reconcile, failed ones
    included, touches only its own objects, keeps the core values and the
    credentials of confidential clients, and does not panic, but for one input
    ([Reconcile_client_safe],
    [Reconcile_authelia_safe]); a second reconcile of a client changes nothing
    ([Reconcile_client_idempotent]); a malformed configuration is reported and
    nothing is written ([Reconcile_parse_error]); clients and rules are collected
    exactly and independently of the listing order ([collectClients_spec],
    [collectIngressRules_spec]).

    The configuration ([Render]).  [renderConfig] equals an abstract
    specification, written as updates at paths of a tree
    ([renderConfig_refines]); from it: rules first, user settings kept, cookies
    kept, operator settings forced, order independence, and a round trip of
    rendered clients.

    Access rules ([Ingress]).  A rule can only name its own Ingress's hosts
    ([rule_confined]); which annotations become rules; the sort is stable, a
    permutation, and puts specific rules first.

    Objects ([Resources]).  The references between pod, Secrets, ConfigMap,
    claim and Service all resolve.  Volume names of [_FILE] variables are DNS
    labels.  For distinct variables with names of Authelia's shape the volumes are
    distinct and every path given to Authelia shows the intended Secret key
    ([operator_files_served], [settings_secret_wired]); names that differ only in
    separators, or only after 63 characters, always clash
    ([volume_names_can_clash]).

    Secrets ([Secrets]).  Generated values have the documented form, are complete
    and never replaced; every alphanumeric value of a length is produced by
    equally many tapes ([generateAlphanumeric_unbiased]); digests parse back to
    the salt and key.

    The program ([Main]).  Flags are read back from the command line that spells
    them out ([command_line_roundtrip]); HTTP/2 is off and the metrics are
    protected unless a flag says otherwise ([servers_protected]); start-up stops
    at the first failure, and the manager is started only after everything it
    needs has been set up, in the right order ([start_up_safe]).

    Deep copies ([DeepCopy]).  The copy of every API type looks the same, lives in
    new cells, and neither side sees what is written to the other
    ([DeepCopy_independent]): a reconciler may change the object it fetched
    without harm to the cache.  [DeepCopyObject] never wraps a nil pointer
    ([DeepCopyObject_spec]).

    ** Assumptions

    Only about code outside the repository, as class laws, each of them proved
    for a concrete instance:
    - the API server ([ApiLaws]): requests act on one object, an update does not
      change a status nor a status update the rest, reads return what is stored.
      Every request may fail, and a failed write may have been performed.  The
      theorems of [Concurrent] do without this interface: there a read may
      return any earlier state, and the only protection is that an update is
      refused when the resource version is not the current one;
    - [Reliable], for the theorems of [Progress] only: requests do not fail;
    - owner references ([OwnersLaws]): setting one is idempotent and changes
      only that list;
    - map iteration and [sort.Slice] give some order among those documented;
    - RSA keys ([RSA]) and the YAML encoder ([Yaml]) are functions;
    - the owner handler of controller-runtime finds the controller of an object
      ([OwnerHandlerLaws]); flags of other packages do not touch the program's
      variables ([OtherFlags]); the deep copies of other packages' types are deep
      copies ([ExternalCopies]).
    In [System] and [Progress] a reconcile runs from start to end before the next
    one starts; in [Concurrent] it does not.

    ** Fuel and bounds

    The JSON parser has the length of its text as fuel, and [parse_value_fuel]
    proves that it always suffices.  [rand.Int] draws until a value is accepted:
    each draw consumes a byte of the finite tape, whose length is the fuel, and
    an exhausted tape is the reader's error; statements quantify over all
    tapes.  Everything else is structural ([Parse] consumes its arguments;
    [range_elements] counts down the length of a slice).  Integers of the program (replica
    and port numbers, lengths) never wrap: they are copied or counted up from
    zero, never computed with.

    ** Not modelled

    Log messages; the code of controller-runtime and client-go behind the
    interfaces named above; rate limiting and the work queue (a request is
    enqueued, when it is served is not modelled); manifests other than the role,
    and tests.  Of the
    deep copies, a call whose two arguments are the same variable: the
    generated code never makes one.

    ** Order of the work, and what it leaves open

    The order was: the pure parts ([Secrets], [Resources], [Render], [Ingress]),
    the boundary ([Cluster]), the two controllers, the system; then the
    interleaved system, convergence, watches, rights, start-up and deep copies.
    Extensions that suggest themselves, in order: idempotence of the Authelia
    controller up to what the server keeps; the work queue, so that convergence
    follows from the events instead of a given round; the encoder of the YAML
    text. *)

From Stdlib Require Export Ascii Lia.
From stdpp Require Export base gmap strings list option sorting.

(** * Errors, panics and outcomes

    A Go function of this program that can fail returns [(T, error)]; the
    callers test [err != nil] and return early.  [outcome] is that pair with
    the impossible combinations removed, plus the run-time panics the code
    could raise. *)

(** The [reason] of a Kubernetes API status error. *)
Inductive api_reason :=
  | NotFound
  | AlreadyExists
  | Conflict
  | OtherReason (reason : string).

Inductive go_error :=
  | ErrNew (msg : string)                   (* errors.New, library errors *)
  | ErrWrap (prefix : string) (e : go_error) (* fmt.Errorf("prefix: %w", e) *)
  | ErrApi (reason : api_reason).           (* *apierrors.StatusError *)

Inductive go_panic :=
  | NilMapWrite        (* assignment to entry in nil map *)
  | TypeAssertion      (* interface conversion failed *)
  | NilDereference     (* invalid memory address or nil pointer dereference *)
  | IndexOutOfRange.   (* index out of range *)

Inductive outcome (A : Type) :=
  | Ok (a : A)
  | Err (e : go_error)
  | Panic (p : go_panic).
Arguments Ok {A} a.
Arguments Err {A} e.
Arguments Panic {A} p.

#[export] Instance api_reason_eq_dec : EqDecision api_reason.
Proof. solve_decision. Defined.
#[export] Instance go_error_eq_dec : EqDecision go_error.
Proof. solve_decision. Defined.
#[export] Instance go_panic_eq_dec : EqDecision go_panic.
Proof. solve_decision. Defined.
#[export] Instance outcome_eq_dec `{EqDecision A} : EqDecision (outcome A).
Proof. solve_decision. Defined.

#[export] Instance outcome_ret : MRet outcome := fun A a => Ok a.
#[export] Instance outcome_bind : MBind outcome := fun A B f m =>
  match m with Ok a => f a | Err e => Err e | Panic p => Panic p end.

Definition is_ok {A} (o : outcome A) : bool :=
  match o with Ok _ => true | _ => false end.

(** [apierrors.IsNotFound], which looks through wrapped errors. *)
Fixpoint IsNotFound (e : go_error) : bool :=
  match e with
  | ErrApi NotFound => true
  | ErrWrap _ e => IsNotFound e
  | _ => false
  end.

(** * Effects

    Code that has effects (the API server, the entropy source) is a state
    transformer returning an [outcome].  The state reached is returned whatever
    the outcome: effects performed before an error stay performed. *)
Definition M (W A : Type) : Type := W -> outcome A * W.

#[export] Instance M_ret {W} : MRet (M W) := fun A a w => (Ok a, w).
#[export] Instance M_bind {W} : MBind (M W) := fun A B f m w =>
  match m w with
  | (Ok a, w') => f a w'
  | (Err e, w') => (Err e, w')
  | (Panic p, w') => (Panic p, w')
  end.

(** Return an error, or the outcome of a pure computation. *)
Definition throw {W A} (e : go_error) : M W A := fun w => (Err e, w).
Definition lift {W A} (o : outcome A) : M W A := fun w => (o, w).

(** Run [m] and hand its result or its error to the continuation, the way
    [if err := f(); err != nil { ... }] does; a panic propagates. *)
Definition try {W A B} (m : M W A) (k : A + go_error -> M W B) : M W B := fun w =>
  match m w with
  | (Ok a, w') => k (inl a) w'
  | (Err e, w') => k (inr e) w'
  | (Panic p, w') => (Panic p, w')
  end.

(** A computation that always ends in a value or an error. *)
Definition no_panic {W A} (m : M W A) : Prop := forall w p, (m w).1 <> Panic p.

(** * Bytes

    A Go [string] or [[]byte] is a sequence of bytes: Rocq's [string] is
    exactly that.  [bytes_of] and [string_of] go to the numbers and back. *)
Definition bytes_of (s : string) : list N :=
  N_of_ascii <$> String.list_ascii_of_string s.
Definition string_of (bs : list N) : string :=
  String.string_of_list_ascii (ascii_of_N <$> bs).

(** [s[i:]] and [s[:i]] *)
Fixpoint str_drop (n : nat) (s : string) : string :=
  match n, s with
  | 0, _ => s
  | S n', String _ s' => str_drop n' s'
  | S _, EmptyString => EmptyString
  end.
Fixpoint str_take (n : nat) (s : string) : string :=
  match n, s with
  | S n', String c s' => String c (str_take n' s')
  | _, _ => EmptyString
  end.


(** * Automation *)

Create HintDb go discriminated.

(** Split a goal or a hypothesis on the outcome of the sub-computation it
    matches on. *)
Ltac case_outcome :=
  match goal with
  | H : context [match ?m with Ok _ => _ | Err _ => _ | Panic _ => _ end] |- _ =>
      let E := fresh "E" in destruct m eqn:E; simplify_eq/=
  | |- context [match ?m with Ok _ => _ | Err _ => _ | Panic _ => _ end] =>
      let E := fresh "E" in destruct m eqn:E; simplify_eq/=
  end.

(** [lia] with the Euclidean equations of [/] and [mod]. *)
Ltac div_lia := Zify.zify; Z.to_euclidean_division_equations; lia.

(** Membership in lists written out with [::] and [++], propositionally. *)
Ltac list_mem :=
  rewrite ?elem_of_cons, ?elem_of_app, ?list_elem_of_singleton, ?elem_of_nil in *;
  solve [ tauto | intuition congruence ].

(** [inv_bind H]: a successful bind is a success followed by a success. *)
Lemma bind_Ok {A B} (m : outcome A) (f : A -> outcome B) b :
  m ≫= f = Ok b -> exists a, m = Ok a /\ f a = Ok b.
Proof. destruct m; simpl; intros; simplify_eq; eauto. Qed.

Lemma M_bind_Ok {W A B} (m : M W A) (f : A -> M W B) w b w' :
  (m ≫= f) w = (Ok b, w') -> exists a w1, m w = (Ok a, w1) /\ f a w1 = (Ok b, w').
Proof.
  unfold mbind, M_bind. destruct (m w) as [[a|e|p] w1]; intros; simplify_eq; eauto.
Qed.

Lemma try_Ok {W A B} (m : M W A) (k : A + go_error -> M W B) w b w' :
  try m k w = (Ok b, w') ->
  (exists a w1, m w = (Ok a, w1) /\ k (inl a) w1 = (Ok b, w')) \/
  (exists e w1, m w = (Err e, w1) /\ k (inr e) w1 = (Ok b, w')).
Proof. unfold try. destruct (m w) as [[a|e|p] w1]; intros; simplify_eq; eauto 6. Qed.

Ltac inv_bind H :=
  let a := fresh "a" in let w := fresh "w" in
  let H1 := fresh "Hm" in let H2 := fresh "Hk" in
  first [ apply M_bind_Ok in H as (a & w & H1 & H2)
        | apply bind_Ok in H as (a & H1 & H2) ].

Lemma no_panic_ret {W A} (a : A) : no_panic (W:=W) (mret a).
Proof. intros w p; done. Qed.
Lemma no_panic_throw {W A} e : no_panic (W:=W) (A:=A) (throw e).
Proof. intros w p; done. Qed.
Lemma no_panic_bind {W A B} (m : M W A) (f : A -> M W B) :
  no_panic m -> (forall a, no_panic (f a)) -> no_panic (m ≫= f).
Proof.
  intros Hm Hf w p. unfold mbind, M_bind. specialize (Hm w p).
  destruct (m w) as [[a|e|q] w1]; simpl in *; [apply Hf|done|].
  by intros [= ->].
Qed.
Lemma no_panic_try {W A B} (m : M W A) (k : A + go_error -> M W B) :
  no_panic m -> (forall r, no_panic (k r)) -> no_panic (try m k).
Proof.
  intros Hm Hk w p. unfold try. specialize (Hm w p).
  destruct (m w) as [[a|e|q] w1]; simpl in *; try apply Hk.
  by intros [= ->].
Qed.
#[export] Hint Resolve no_panic_ret no_panic_throw no_panic_bind no_panic_try : go.

(** * Generic lemmas on lists *)

Lemma elem_of_ne_nil {A} (x : A) l : x ∈ l -> l <> [].
Proof. by destruct 1. Qed.

(** * Generic lemmas on strings *)

Lemma str_app_nil_l (t : string) : "" +:+ t = t.
Proof. done. Qed.
Lemma str_app_cons c (s t : string) : String c s +:+ t = String c (s +:+ t).
Proof. done. Qed.

Lemma bytes_of_nil : bytes_of "" = [].
Proof. done. Qed.
Lemma bytes_of_cons c s : bytes_of (String c s) = N_of_ascii c :: bytes_of s.
Proof. done. Qed.
Lemma string_of_nil : string_of [] = "".
Proof. done. Qed.
Lemma string_of_cons b bs : string_of (b :: bs) = String (ascii_of_N b) (string_of bs).
Proof. done. Qed.

Create Rewrite HintDb str.
#[export] Hint Rewrite str_app_nil_l str_app_cons bytes_of_nil bytes_of_cons string_of_nil
  string_of_cons : str.

(** Induction on a string, with the recursive equations of append and of the
    byte view rewritten. *)
Tactic Notation "str_induction" ident(s) "as" simple_intropattern(pat) :=
  induction s as pat; simpl; autorewrite with str in *.

Lemma bytes_of_app s t : bytes_of (s +:+ t) = bytes_of s ++ bytes_of t.
Proof. str_induction s as [|c s IH]; [done|]. by rewrite IH. Qed.

Lemma string_of_bytes_of s : string_of (bytes_of s) = s.
Proof.
  str_induction s as [|c s IH]; [done|]. by rewrite ascii_N_embedding, IH.
Qed.

Lemma bytes_of_string_of bs :
  Forall (fun b => b < 256)%N bs -> bytes_of (string_of bs) = bs.
Proof.
  induction 1 as [|b bs Hb _ IH]; autorewrite with str; [done|].
  by rewrite IH, N_ascii_embedding.
Qed.

Lemma bytes_of_inj s t : bytes_of s = bytes_of t -> s = t.
Proof. intros H. by rewrite <- (string_of_bytes_of s), H, string_of_bytes_of. Qed.

Lemma length_bytes_of s : length (bytes_of s) = String.length s.
Proof. str_induction s as [|c s IH]; [done|]. by rewrite <- IH. Qed.

Lemma length_string_of bs : String.length (string_of bs) = length bs.
Proof. induction bs as [|b bs IH]; autorewrite with str; simpl; [done|]. by rewrite IH. Qed.

Lemma bytes_of_bound s : Forall (fun b => b < 256)%N (bytes_of s).
Proof. str_induction s as [|c s IH]; constructor; [apply N_ascii_bounded|done]. Qed.

Lemma str_app_assoc (s t u : string) : (s +:+ t) +:+ u = s +:+ (t +:+ u).
Proof. str_induction s as [|c s IH]; [done|]. by rewrite IH. Qed.
Lemma str_app_nil_r (s : string) : s +:+ "" = s.
Proof. str_induction s as [|c s IH]; [done|]. by rewrite IH. Qed.
Lemma str_app_inj_l (s t u : string) : s +:+ t = s +:+ u -> t = u.
Proof. apply (inj (String.append s)). Qed.
Lemma str_app_inj_r (s t u : string) : s +:+ u = t +:+ u -> s = t.
Proof.
  intros H. apply bytes_of_inj. apply (f_equal bytes_of) in H.
  rewrite !bytes_of_app in H. by apply app_inv_tail in H.
Qed.
Lemma str_app_length (s t : string) :
  String.length (s +:+ t) = String.length s + String.length t.
Proof. str_induction s as [|c s IH]; [done|]. by rewrite IH. Qed.

Lemma str_take_drop n s : str_take n s +:+ str_drop n s = s.
Proof.
  revert n. str_induction s as [|c s IH]; intros [|n]; simpl; autorewrite with str; try done.
  by rewrite IH.
Qed.
Lemma str_drop_length n s : String.length (str_drop n s) = String.length s - n.
Proof. revert n. induction s as [|c s IH]; intros [|n]; simpl; auto. Qed.
Lemma str_take_length n s : String.length (str_take n s) = Nat.min n (String.length s).
Proof. revert n. induction s as [|c s IH]; intros [|n]; simpl; auto. Qed.
Lemma str_take_ge n s : String.length s <= n -> str_take n s = s.
Proof.
  revert n. induction s as [|c s IH]; intros [|n]; simpl; intros; auto with lia.
  f_equal. apply IH. lia.
Qed.
Lemma bytes_of_str_take n s : bytes_of (str_take n s) = take n (bytes_of s).
Proof.
  revert n. str_induction s as [|c s IH]; intros [|n]; simpl; autorewrite with str; try done.
  by rewrite IH.
Qed.
Lemma bytes_of_str_drop n s : bytes_of (str_drop n s) = drop n (bytes_of s).
Proof.
  revert n. str_induction s as [|c s IH]; intros [|n]; simpl; autorewrite with str; done.
Qed.
Lemma str_drop_app s t : str_drop (String.length s) (s +:+ t) = t.
Proof. by str_induction s as [|c s IH]. Qed.
