(* ===== verification/GoStrings.v ===== *)
(** The parts of Go's [strings], [unicode/utf8] and [unicode] packages the
    operator uses, on byte strings: prefix and suffix tests, byte search,
    UTF-8 decoding as done by [range] over a string, encoding as done by
    [string([]rune)], lower-casing and trimming. *)

From S2P Require Import Prelude.

Definition HasPrefix (s prefix : string) : bool := String.prefix prefix s.

(** [len(s) >= len(suffix) && s[len(s)-len(suffix):] == suffix] *)
Definition HasSuffix (s suffix : string) : bool :=
  (String.length suffix <=? String.length s)%nat &&
  String.eqb (str_drop (String.length s - String.length suffix) s) suffix.

(** Index of the first byte [c]; Go's [-1] is [None]. *)
Fixpoint IndexByte (s : string) (c : ascii) : option nat :=
  match s with
  | EmptyString => None
  | String c' s' => if Ascii.eqb c' c then Some 0 else S <$> IndexByte s' c
  end.

(** * UTF-8 *)

Local Open Scope N_scope.

Definition RuneError : N := 65533. (* U+FFFD *)

Definition in_range (lo hi b : N) : bool := (lo <=? b) && (b <=? hi).
Definition is_cont (b : N) : bool := in_range 128 191 b.

(** The accepted range of the second byte of a 3- or 4-byte sequence: excludes
    overlong forms, surrogates and runes above U+10FFFF. *)
Definition second_ok (b0 b1 : N) : bool :=
  if b0 =? 224 then in_range 160 191 b1
  else if b0 =? 237 then in_range 128 159 b1
  else if b0 =? 240 then in_range 144 191 b1
  else if b0 =? 244 then in_range 128 143 b1
  else is_cont b1.

(** [for _, r := range s]: the runes of a byte string.  A byte that does not
    start a valid sequence yields [RuneError] and is skipped alone. *)
Fixpoint runes (bs : list N) : list N :=
  match bs with
  | [] => []
  | b0 :: l1 =>
    if b0 <? 128 then b0 :: runes l1
    else match l1 with
    | [] => RuneError :: runes l1
    | b1 :: l2 =>
      if in_range 194 223 b0 && is_cont b1
      then (b0 - 192) * 64 + (b1 - 128) :: runes l2
      else match l2 with
      | [] => RuneError :: runes l1
      | b2 :: l3 =>
        if in_range 224 239 b0 && second_ok b0 b1 && is_cont b2
        then ((b0 - 224) * 64 + (b1 - 128)) * 64 + (b2 - 128) :: runes l3
        else match l3 with
        | [] => RuneError :: runes l1
        | b3 :: l4 =>
          if in_range 240 244 b0 && second_ok b0 b1 && is_cont b2 && is_cont b3
          then (((b0 - 240) * 64 + (b1 - 128)) * 64 + (b2 - 128)) * 64 + (b3 - 128) :: runes l4
          else RuneError :: runes l1
        end
      end
    end
  end.

(** Unicode scalar values: what [utf8.ValidRune] accepts. *)
Definition ValidRune (r : N) : bool :=
  (r <? 55296) || in_range 57344 1114111 r.

(** [utf8.AppendRune]: an invalid rune is encoded as [RuneError]. *)
Definition encode_rune (r : N) : list N :=
  let r := if ValidRune r then r else RuneError in
  if r <? 128 then [r]
  else if r <? 2048 then [192 + r / 64; 128 + r mod 64]
  else if r <? 65536 then [224 + r / 4096; 128 + (r / 64) mod 64; 128 + r mod 64]
  else [240 + r / 262144; 128 + (r / 4096) mod 64; 128 + (r / 64) mod 64; 128 + r mod 64].

Definition encode_runes (rs : list N) : list N := rs ≫= encode_rune.

(** * Letter case *)

Definition is_upper (r : N) : bool := in_range 65 90 r.
Definition is_lower (r : N) : bool := in_range 97 122 r.
Definition is_digit (r : N) : bool := in_range 48 57 r.

(** [unicode.ToLower] as far as an ASCII test can tell: ASCII letters are
    lowered, U+0130 and U+212A are the only other runes with an ASCII lower case
    ([i] and [k]); every remaining rune has a lower case outside ASCII, for which
    the rune itself stands. *)
Definition unicode_ToLower (r : N) : N :=
  if is_upper r then r + 32
  else if r =? 304 then 105
  else if r =? 8490 then 107
  else r.

(** [strings.ToLower] *)
Definition ToLower (s : string) : string :=
  string_of (encode_runes (unicode_ToLower <$> runes (bytes_of s))).

(** * Trimming of one ASCII byte *)

Fixpoint trim_left (c : N) (l : list N) : list N :=
  match l with
  | b :: l' => if b =? c then trim_left c l' else l
  | [] => []
  end.
Definition trim (c : N) (l : list N) : list N :=
  reverse (trim_left c (reverse (trim_left c l))).

(** [strings.Trim(s, string(c))] for an ASCII [c] *)
Definition Trim (s : string) (c : ascii) : string :=
  string_of (trim (N_of_ascii c) (bytes_of s)).

(** * Lemmas *)

Lemma encode_rune_nonempty r : encode_rune r <> [].
Proof. unfold encode_rune. repeat case_match; done. Qed.

Lemma encode_rune_ascii r : r < 128 -> encode_rune r = [r].
Proof. 
  intros H. unfold encode_rune, ValidRune.
  assert ((r <? 55296) = true) as -> by (apply N.ltb_lt; lia).
  cbn [orb]. by rewrite (proj2 (N.ltb_lt _ _) H).
Qed.

Lemma encode_runes_ascii rs :
  Forall (fun r => r < 128) rs -> encode_runes rs = rs.
Proof.
  unfold encode_runes. induction 1 as [|r rs H _ IH]; [done|].
  rewrite bind_cons, IH. by rewrite encode_rune_ascii.
Qed.

Lemma runes_ascii bs : Forall (fun b => b < 128) bs -> runes bs = bs.
Proof.
  induction 1 as [|b bs H _ IH]; [done|]. simpl.
  destruct (N.ltb_spec b 128); [by rewrite IH|lia].
Qed.

Lemma in_range_true lo hi b : lo <= b <= hi -> in_range lo hi b = true.
Proof. unfold in_range. intros. apply andb_true_intro. by rewrite !N.leb_le. Qed.
Lemma in_range_false lo hi b : b < lo \/ hi < b -> in_range lo hi b = false.
Proof.
  unfold in_range. intros H. apply not_true_is_false. rewrite andb_true_iff, !N.leb_le. lia.
Qed.

Lemma is_cont_digit d : d < 64 -> is_cont (128 + d) = true.
Proof. intros. apply in_range_true. lia. Qed.

Lemma second_ok_3 q d :
  d < 64 -> (q = 0 -> 32 <= d) -> (q = 13 -> d < 32) -> q < 16 ->
  second_ok (224 + q) (128 + d) = true.
Proof.
  intros. unfold second_ok.
  destruct (N.eqb_spec (224 + q) 224); [apply in_range_true; lia|].
  destruct (N.eqb_spec (224 + q) 237); [apply in_range_true; lia|].
  destruct (N.eqb_spec (224 + q) 240); [lia|].
  destruct (N.eqb_spec (224 + q) 244); [lia|]. by apply is_cont_digit.
Qed.

Lemma second_ok_4 q d :
  d < 64 -> (q = 0 -> 16 <= d) -> (q = 4 -> d < 16) -> q < 5 ->
  second_ok (240 + q) (128 + d) = true.
Proof.
  intros. unfold second_ok.
  destruct (N.eqb_spec (240 + q) 224); [lia|].
  destruct (N.eqb_spec (240 + q) 237); [lia|].
  destruct (N.eqb_spec (240 + q) 240); [apply in_range_true; lia|].
  destruct (N.eqb_spec (240 + q) 244); [apply in_range_true; lia|]. by apply is_cont_digit.
Qed.

(** Decoding of a 2-, 3- and 4-byte sequence given by its digits in base 64. *)
Lemma runes_2 q d l :
  2 <= q -> q < 32 -> d < 64 -> runes ((192 + q) :: (128 + d) :: l) = q * 64 + d :: runes l.
Proof.
  intros. unfold runes at 1; fold runes. destruct (N.ltb_spec (192 + q) 128); [lia|].
  rewrite (in_range_true 194 223 (192 + q)), (is_cont_digit d) by (done || lia). cbn [andb]. f_equal. lia.
Qed.

Lemma runes_3 q d e l :
  q < 16 -> d < 64 -> e < 64 -> (q = 0 -> 32 <= d) -> (q = 13 -> d < 32) ->
  runes ((224 + q) :: (128 + d) :: (128 + e) :: l) = (q * 64 + d) * 64 + e :: runes l.
Proof.
  intros. unfold runes at 1; fold runes. destruct (N.ltb_spec (224 + q) 128); [lia|].
  rewrite (in_range_false 194 223 (224 + q)), (in_range_true 224 239 (224 + q)),
    (second_ok_3 q d), (is_cont_digit e) by (done || lia).
  cbn [andb]. f_equal. lia.
Qed.

Lemma runes_4 q d e f l :
  q < 5 -> d < 64 -> e < 64 -> f < 64 -> (q = 0 -> 16 <= d) -> (q = 4 -> d < 16) ->
  runes ((240 + q) :: (128 + d) :: (128 + e) :: (128 + f) :: l)
  = ((q * 64 + d) * 64 + e) * 64 + f :: runes l.
Proof.
  intros. unfold runes at 1; fold runes. destruct (N.ltb_spec (240 + q) 128); [lia|].
  rewrite (in_range_false 194 223 (240 + q)), (in_range_false 224 239 (240 + q)),
    (in_range_true 240 244 (240 + q)), (second_ok_4 q d), (is_cont_digit e),
    (is_cont_digit f) by (done || lia).
  cbn [andb]. f_equal. lia.
Qed.

Lemma ValidRune_spec r :
  ValidRune r = true <-> r < 55296 \/ 57344 <= r <= 1114111.
Proof.
  unfold ValidRune, in_range. rewrite orb_true_iff, andb_true_iff, N.ltb_lt, !N.leb_le. lia.
Qed.

(** Decoding undoes encoding, rune by rune. *)
Lemma runes_encode_rune r l :
  ValidRune r = true -> runes (encode_rune r ++ l) = r :: runes l.
Proof.
  intros Hv. unfold encode_rune. rewrite Hv. apply ValidRune_spec in Hv.
  destruct (N.ltb_spec r 128) as [H1|H1].
  { cbn [runes app]. by rewrite (proj2 (N.ltb_lt _ _) H1). }
  destruct (N.ltb_spec r 2048) as [H2|H2]; [|destruct (N.ltb_spec r 65536) as [H3|H3]];
    cbn [app].
  - rewrite runes_2 by div_lia. f_equal. div_lia.
  - rewrite runes_3 by div_lia. f_equal. div_lia.
  - rewrite runes_4 by div_lia. f_equal. div_lia.
Qed.

Lemma runes_encode_runes rs :
  Forall (fun r => ValidRune r = true) rs -> runes (encode_runes rs) = rs.
Proof.
  unfold encode_runes. induction 1 as [|r rs H _ IH]; [done|].
  rewrite bind_cons, runes_encode_rune by done. by rewrite IH.
Qed.

(** * Decoding an arbitrary byte string *)

(** One step of decoding: which bytes the first rune takes. *)
Lemma runes_cases b0 l1 :
  (b0 < 128 /\ runes (b0 :: l1) = b0 :: runes l1) \/
  (exists b1 l2, l1 = b1 :: l2 /\ 194 <= b0 <= 223 /\ 128 <= b1 <= 191 /\
    runes (b0 :: l1) = (b0 - 192) * 64 + (b1 - 128) :: runes l2) \/
  (exists b1 b2 l3, l1 = b1 :: b2 :: l3 /\ 224 <= b0 <= 239 /\ second_ok b0 b1 = true /\
    128 <= b1 <= 191 /\ 128 <= b2 <= 191 /\
    runes (b0 :: l1) = ((b0 - 224) * 64 + (b1 - 128)) * 64 + (b2 - 128) :: runes l3) \/
  (exists b1 b2 b3 l4, l1 = b1 :: b2 :: b3 :: l4 /\ 240 <= b0 <= 244 /\ second_ok b0 b1 = true /\
    128 <= b1 <= 191 /\ 128 <= b2 <= 191 /\ 128 <= b3 <= 191 /\
    runes (b0 :: l1) =
      (((b0 - 240) * 64 + (b1 - 128)) * 64 + (b2 - 128)) * 64 + (b3 - 128) :: runes l4) \/
  (128 <= b0 /\ runes (b0 :: l1) = RuneError :: runes l1).
Proof.
  assert (forall lo hi b, in_range lo hi b = true -> lo <= b <= hi) as Hr.
  { unfold in_range. intros lo hi b [?%N.leb_le ?%N.leb_le]%andb_true_iff. done. }
  assert (forall b c, second_ok b c = true -> 128 <= c <= 191) as Hs.
  { unfold second_ok, is_cont. intros b c. repeat case_match; intros ?%Hr; lia. }
  unfold runes at 1 3 5 7 9; fold runes.
  destruct (N.ltb_spec b0 128) as [H0|H0]; [by left|right].
  destruct l1 as [|b1 l2]; [by do 3 right|].
  destruct (in_range 194 223 b0 && is_cont b1) eqn:E2.
  { left. apply andb_true_iff in E2 as [?%Hr ?%Hr]. eauto 8. }
  right. destruct l2 as [|b2 l3]; [by do 2 right|].
  destruct (in_range 224 239 b0 && second_ok b0 b1 && is_cont b2) eqn:E3.
  { left. apply andb_true_iff in E3 as [[?%Hr Hs1]%andb_true_iff ?%Hr].
    pose proof (Hs _ _ Hs1). eauto 12. }
  right. destruct l3 as [|b3 l4]; [by right|].
  destruct (in_range 240 244 b0 && second_ok b0 b1 && is_cont b2 && is_cont b3) eqn:E4.
  { left. apply andb_true_iff in E4 as [[[?%Hr Hs1]%andb_true_iff ?%Hr]%andb_true_iff ?%Hr].
    pose proof (Hs _ _ Hs1). eauto 14. }
  by right.
Qed.

(** Induction following the steps of decoding. *)
Lemma runes_ind (P : list N -> Prop) :
  P [] -> (forall b0 l1, (forall l, l `suffix_of` l1 -> P l) -> P (b0 :: l1)) -> forall bs, P bs.
Proof.
  intros H0 H1 bs. induction bs as [bs IH] using (induction_ltof1 _ length).
  destruct bs as [|b0 l1]; [done|]. apply H1. intros l Hl. apply IH.
  unfold ltof. apply suffix_length in Hl. simpl. lia.
Qed.

Lemma second_ok_surrogate b0 b1 : second_ok b0 b1 = true -> b0 = 237 -> b1 < 160.
Proof.
  unfold second_ok, in_range. intros H ->. simpl in H.
  apply andb_true_iff in H as [?%N.leb_le ?%N.leb_le]. lia.
Qed.
Lemma second_ok_max b0 b1 : second_ok b0 b1 = true -> b0 = 244 -> b1 < 144.
Proof.
  unfold second_ok, in_range. intros H ->. simpl in H.
  apply andb_true_iff in H as [?%N.leb_le ?%N.leb_le]. lia.
Qed.

(** Decoding yields Unicode scalar values. *)
Lemma runes_valid bs : Forall (fun r => ValidRune r = true) (runes bs).
Proof.
  induction bs as [|b0 l1 IH] using runes_ind; [constructor|].
  destruct (runes_cases b0 l1)
    as [(H0 & ->)|[(b1 & l2 & -> & H0 & H1 & ->)
       |[(b1 & b2 & l3 & -> & H0 & Hs & H1 & H2 & ->)
       |[(b1 & b2 & b3 & l4 & -> & H0 & Hs & H1 & H2 & H3 & ->)|(H0 & ->)]]]];
    (constructor; [|apply IH]).
  - apply ValidRune_spec. lia.
  - done.
  - apply ValidRune_spec. lia.
  - by apply suffix_cons_r.
  - apply ValidRune_spec. pose proof (second_ok_surrogate _ _ Hs). 
    destruct (decide (b0 = 237)); lia.
  - by do 2 apply suffix_cons_r.
  - apply ValidRune_spec. pose proof (second_ok_max _ _ Hs).
    destruct (decide (b0 = 244)); [|destruct (decide (b0 = 240))]; try lia.
    subst. unfold second_ok, in_range in Hs. simpl in Hs.
    apply andb_true_iff in Hs as [?%N.leb_le ?%N.leb_le]. lia.
  - by do 3 apply suffix_cons_r.
  - done.
  - done.
Qed.

(** An ASCII byte is never swallowed. *)
Lemma elem_of_runes_ascii c bs : c < 128 -> c ∈ bs -> c ∈ runes bs.
Proof.
  intros Hc. induction bs as [|b0 l1 IH] using runes_ind; [done|]. intros Hin.
  destruct (runes_cases b0 l1)
    as [(H0 & ->)|[(b1 & l2 & -> & H0 & H1 & ->)
       |[(b1 & b2 & l3 & -> & H0 & Hs & H1 & H2 & ->)
       |[(b1 & b2 & b3 & l4 & -> & H0 & Hs & H1 & H2 & H3 & ->)|(H0 & ->)]]]];
    rewrite !elem_of_cons in Hin; apply elem_of_cons.
  - destruct Hin as [->|Hin]; [by left|right]. by apply IH.
  - right. destruct Hin as [->|[->|Hin]]; [lia..|].
    apply IH; [by apply suffix_cons_r|done].
  - right. destruct Hin as [->|[->|[->|Hin]]]; [lia..|].
    apply IH; [by do 2 apply suffix_cons_r|done].
  - right. destruct Hin as [->|[->|[->|[->|Hin]]]]; [lia..|].
    apply IH; [by do 3 apply suffix_cons_r|done].
  - right. destruct Hin as [->|Hin]; [lia|]. by apply IH.
Qed.

Lemma encode_rune_bytes r : Forall (fun b => b < 256) (encode_rune r).
Proof.
  unfold encode_rune.
  assert ((if ValidRune r then r else RuneError) <= 1114111) as Hr.
  { destruct (ValidRune r) eqn:E; [|done]. apply ValidRune_spec in E. lia. }
  revert Hr. generalize (if ValidRune r then r else RuneError). intros r' Hr.
  destruct (N.ltb_spec r' 128); [repeat constructor; lia|].
  destruct (N.ltb_spec r' 2048); [repeat constructor; div_lia|].
  destruct (N.ltb_spec r' 65536); repeat constructor; div_lia.
Qed.

Lemma encode_runes_bytes rs : Forall (fun b => b < 256) (encode_runes rs).
Proof. apply Forall_bind. rewrite Forall_forall. intros. apply encode_rune_bytes. Qed.

Lemma unicode_ToLower_valid r : ValidRune r = true -> ValidRune (unicode_ToLower r) = true.
Proof.
  unfold unicode_ToLower, is_upper, in_range. intros H.
  destruct (N.leb_spec 65 r), (N.leb_spec r 90); simpl; repeat case_match; try done;
    apply ValidRune_spec; lia.
Qed.

(** The runes of the lower-cased string. *)
Lemma runes_ToLower s :
  runes (bytes_of (ToLower s)) = unicode_ToLower <$> runes (bytes_of s).
Proof.
  unfold ToLower. rewrite bytes_of_string_of by apply encode_runes_bytes.
  apply runes_encode_runes, Forall_fmap. eapply Forall_impl; [apply runes_valid|].
  intros r. apply unicode_ToLower_valid.
Qed.

(** * Trimming *)

Lemma trim_left_suffix c l : trim_left c l `suffix_of` l.
Proof.
  induction l as [|b l IH]; simpl; [done|]. case_match; [by apply suffix_cons_r|done].
Qed.
Lemma trim_left_head c l : head (trim_left c l) <> Some c.
Proof.
  induction l as [|b l IH]; simpl; [done|].
  destruct (N.eqb_spec b c); [done|]. simpl. congruence.
Qed.
Lemma trim_left_id c l : head l <> Some c -> trim_left c l = l.
Proof. destruct l as [|b l]; simpl; [done|]. intros H. destruct (N.eqb_spec b c); [congruence|done]. Qed.
Lemma trim_left_elem c l x : x ∈ l -> x <> c -> x ∈ trim_left c l.
Proof.
  intros Hx Hne. induction l as [|b l IH]; simpl; [done|].
  apply elem_of_cons in Hx as [->|Hx].
  - destruct (N.eqb_spec b c); [done|]. left.
  - case_match; [by apply IH|by right].
Qed.

Lemma elem_of_trim c l x : x ∈ l -> x <> c -> x ∈ trim c l.
Proof.
  intros Hx Hne. unfold trim. apply elem_of_reverse, trim_left_elem; [|done].
  apply elem_of_reverse. by apply trim_left_elem.
Qed.
Lemma trim_sublist c l x : x ∈ trim c l -> x ∈ l.
Proof.
  unfold trim. rewrite elem_of_reverse. intros Hx.
  destruct (trim_left_suffix c (reverse (trim_left c l))) as [k1 E1].
  destruct (trim_left_suffix c l) as [k2 E2].
  rewrite E2. apply elem_of_app. right.
  rewrite <- elem_of_reverse, E1. apply elem_of_app. by right.
Qed.
Lemma trim_length c l : (length (trim c l) <= length l)%nat.
Proof.
  unfold trim. rewrite length_reverse.
  pose proof (suffix_length _ _ (trim_left_suffix c (reverse (trim_left c l)))) as H1.
  pose proof (suffix_length _ _ (trim_left_suffix c l)) as H2.
  rewrite length_reverse in H1. lia.
Qed.
Lemma trim_last c l : last (trim c l) <> Some c.
Proof. unfold trim. rewrite last_reverse. apply trim_left_head. Qed.
Lemma trim_head c l : head (trim c l) <> Some c.
Proof.
  unfold trim. destruct (trim_left_suffix c (reverse (trim_left c l))) as [k E].
  apply (f_equal reverse) in E. rewrite reverse_involutive, reverse_app in E.
  intros Hh. apply (trim_left_head c l). rewrite E.
  by destruct (reverse (trim_left c (reverse (trim_left c l)))).
Qed.
Lemma trim_id c l : head l <> Some c -> last l <> Some c -> trim c l = l.
Proof.
  intros Hh Hl. unfold trim. rewrite (trim_left_id c l) by done.
  rewrite trim_left_id by (by rewrite head_reverse). apply reverse_involutive.
Qed.
