(* ===== verification/GoSort.v ===== *)
(** Go's [sort] package as the operator uses it.

    - [sort.Strings]: the sorted permutation of a list of byte strings (equal
      strings are indistinguishable, so it is unique).
    - [sort.SliceStable(less)]: a stable insertion sort by the caller's [less].
    - [sort.Slice(less)]: documented as {e not} stable.  The class
      [UnstableSort] states what is documented: the result is a permutation of
      the input, ordered by [less] when [less] is a strict weak order.  A client
      proved against the class is right for every implementation of it. *)

From S2P Require Import Prelude.

(** * Orders given by a boolean [less] function *)

Class StrictWeakOrder {A} (less : A -> A -> bool) : Prop := {
  less_irrefl x : less x x = false;
  less_trans x y z : less x y = true -> less y z = true -> less x z = true;
  less_cotrans x y z : less x z = true -> less x y = true \/ less y z = true
}.

(** [y] may stand before [x]: it is not the case that [less x y]. *)
Definition not_after {A} (less : A -> A -> bool) (x y : A) : Prop := less y x = false.

(** [less] decides between any two distinct elements of [l]. *)
Definition trichotomous_on {A} (less : A -> A -> bool) (l : list A) : Prop :=
  forall x y, x ∈ l -> y ∈ l -> less x y = false -> less y x = false -> x = y.

(** * The sorts *)

Definition sort_Strings (l : list string) : list string := merge_sort String.le l.

(** [a < b] on strings: byte-wise lexicographic. *)
Definition str_lt (a b : string) : bool := String.ltb a b.

Fixpoint stable_insert {A} (less : A -> A -> bool) (x : A) (l : list A) : list A :=
  match l with
  | [] => [x]
  | y :: l' => if less y x then y :: stable_insert less x l' else x :: l
  end.

Definition SliceStable {A} (less : A -> A -> bool) (l : list A) : list A :=
  foldr (stable_insert less) [] l.

Class UnstableSort : Type := {
  sort_Slice : forall {A}, (A -> A -> bool) -> list A -> list A;
  sort_Slice_perm : forall {A} (less : A -> A -> bool) l, sort_Slice less l ≡ₚ l;
  sort_Slice_sorted : forall {A} (less : A -> A -> bool) l,
    StrictWeakOrder less -> StronglySorted (not_after less) (sort_Slice less l)
}.

(** * sort.Strings *)

Lemma StronglySorted_sublist {A} (R : A -> A -> Prop) l1 l2 :
  l1 `sublist_of` l2 -> StronglySorted R l2 -> StronglySorted R l1.
Proof.
  induction 1 as [|x l1 l2 Hs IH|x l1 l2 Hs IH]; intros H; [done| |];
    inversion H as [|? ? H2 Hx]; subst; [|by apply IH].
  constructor; [by apply IH|]. rewrite Forall_forall in Hx |- *. intros y Hy.
  apply Hx. by eapply elem_of_sublist.
Qed.

Lemma StronglySorted_impl {A} (R R' : A -> A -> Prop) l :
  (forall a b, R a b -> R' a b) -> StronglySorted R l -> StronglySorted R' l.
Proof.
  intros Himpl. induction 1 as [|x l _ IH Hx]; constructor; [done|].
  eapply Forall_impl; [exact Hx|]. auto.
Qed.

Lemma sort_Strings_perm l : sort_Strings l ≡ₚ l.
Proof. apply merge_sort_Permutation. Qed.

Lemma sort_Strings_sorted l : StronglySorted String.le (sort_Strings l).
Proof. apply StronglySorted_merge_sort; apply _. Qed.

#[export] Instance sort_Strings_proper : Proper ((≡ₚ) ==> (=)) sort_Strings.
Proof.
  intros l1 l2 H. apply (StronglySorted_unique String.le); auto using sort_Strings_sorted.
  by rewrite !sort_Strings_perm.
Qed.

Lemma elem_of_sort_Strings x l : x ∈ sort_Strings l <-> x ∈ l.
Proof. by rewrite sort_Strings_perm. Qed.

Lemma sort_Strings_nil_inv l : sort_Strings l = [] -> l = [].
Proof. intros H. apply Permutation_nil_r. rewrite <- H. symmetry. apply sort_Strings_perm. Qed.

(** * Byte-wise order of strings *)

Lemma str_lt_spec a b : str_lt a b = true <-> (a ≤ b)%string /\ a <> b.
Proof.
  unfold str_lt, String.ltb, String.le, String.leb.
  destruct (String.compare a b) eqn:E; simpl; split; intros H; try done.
  - apply String.compare_eq_iff in E. by destruct H.
  - split; [done|]. intros ->.
    pose proof (String.compare_antisym b b) as E'. rewrite E in E'. by simpl in E'.
  - by destruct H.
Qed.

Lemma str_lt_false a b : str_lt a b = false <-> (b ≤ a)%string.
Proof.
  rewrite <- not_true_iff_false, str_lt_spec. split; intros H.
  - destruct (decide (a = b)) as [->|Hne]; [reflexivity|].
    destruct (total String.le a b) as [?|?]; [by destruct H|done].
  - intros [H1 H2]. apply H2. by apply (anti_symm String.le).
Qed.

#[export] Instance str_lt_strict : StrictWeakOrder str_lt.
Proof.
  split.
  - intros x. by apply str_lt_false.
  - intros x y z [H1 N1]%str_lt_spec [H2 N2]%str_lt_spec. apply str_lt_spec.
    split; [by etrans|]. intros ->. apply N1. by apply (anti_symm String.le).
  - intros x y z H. destruct (str_lt x y) eqn:E; [by left|right].
    apply str_lt_false in E. apply str_lt_spec in H as [H N]. apply str_lt_spec.
    split; [by etrans|]. intros ->. apply N. by apply (anti_symm String.le).
Qed.

Lemma str_lt_trichotomy a b : str_lt a b = false -> str_lt b a = false -> a = b.
Proof. rewrite !str_lt_false. intros. by apply (anti_symm String.le). Qed.

(** * Stable insertion sort *)

Section stable.
Context {A : Type} (less : A -> A -> bool) `{!StrictWeakOrder less}.

#[local] Instance not_after_trans : Transitive (not_after less).
Proof.
  intros x y z H1 H2. unfold not_after in *.
  destruct (less z x) eqn:E; [|done].
  destruct (less_cotrans z y x E) as [H|H]; congruence.
Qed.

Lemma stable_insert_perm x l : stable_insert less x l ≡ₚ x :: l.
Proof.
  induction l as [|y l IH]; simpl; [done|]. case_match; [|done].
  rewrite IH. constructor.
Qed.

Lemma SliceStable_perm l : SliceStable less l ≡ₚ l.
Proof.
  induction l as [|x l IH]; [done|]. simpl.
  by rewrite stable_insert_perm, IH.
Qed.

Lemma less_asym x y : less x y = true -> less y x = false.
Proof.
  intros H. destruct (less y x) eqn:E; [|done].
  pose proof (less_trans x y x H E). by rewrite less_irrefl in *.
Qed.

Lemma stable_insert_sorted x l :
  StronglySorted (not_after less) l ->
  StronglySorted (not_after less) (stable_insert less x l).
Proof.
  induction 1 as [|y l Hl IH Hy]; simpl; [by repeat constructor|].
  destruct (less y x) eqn:E.
  - constructor; [done|]. rewrite stable_insert_perm. constructor; [|done].
    by apply less_asym.
  - assert (not_after less x y) as Hxy by done. constructor; [by constructor|].
    constructor; [done|]. eapply Forall_impl; [exact Hy|].
    intros z Hz. by etrans.
Qed.

Lemma SliceStable_sorted l : StronglySorted (not_after less) (SliceStable less l).
Proof. induction l as [|x l IH]; simpl; [constructor|]. by apply stable_insert_sorted. Qed.

(** Stability: elements [less] does not tell apart keep their order. *)
Definition tied (x y : A) : Prop := less x y = false /\ less y x = false.
#[local] Instance tied_dec x y : Decision (tied x y).
Proof. unfold tied. apply _. Defined.

Lemma stable_insert_filter z x l :
  filter (tied z) (stable_insert less x l) = filter (tied z) (x :: l).
Proof.
  induction l as [|y l IH]; simpl; [done|].
  destruct (less y x) eqn:E; [|done].
  rewrite filter_cons, IH, !filter_cons.
  destruct (decide (tied z y)) as [[Hy1 Hy2]|]; [|done].
  destruct (decide (tied z x)) as [[Hx1 Hx2]|]; [exfalso|done].
  destruct (less_cotrans y z x E); congruence.
Qed.

Lemma SliceStable_stable z l : filter (tied z) (SliceStable less l) = filter (tied z) l.
Proof.
  induction l as [|x l IH]; [done|]. simpl.
  by rewrite stable_insert_filter, !filter_cons, IH.
Qed.
End stable.

(** * Uniqueness of the sorted permutation

    When [less] tells the elements apart, every sort gives the same list. *)
Section unique.
Context {A : Type} (less : A -> A -> bool).

Lemma sorted_perm_unique l1 l2 :
  trichotomous_on less l1 ->
  StronglySorted (not_after less) l1 -> StronglySorted (not_after less) l2 ->
  l1 ≡ₚ l2 -> l1 = l2.
Proof.
  intros Htri H1. revert l2 Htri.
  induction H1 as [|x l1 _ IH Hx]; intros l2 Htri H2 Hp.
  { by apply Permutation_nil_l in Hp. }
  destruct H2 as [|y l2 H2 Hy]; [by apply Permutation_nil_r in Hp|].
  assert (x = y) as ->.
  { assert (y ∈ x :: l1) as Hy1 by (rewrite Hp; left).
    assert (x ∈ y :: l2) as Hx2 by (rewrite <- Hp; left).
    apply elem_of_cons in Hy1 as [->|Hy1]; [done|].
    apply elem_of_cons in Hx2 as [->|Hx2]; [done|].
    rewrite Forall_forall in Hx, Hy. apply Htri; [left|by right| |].
    - by apply (Hy x).
    - by apply (Hx y). }
  apply Permutation_cons_inv in Hp. f_equal. apply IH; try done.
  intros a b Ha Hb. apply Htri; by right.
Qed.

Context `{!StrictWeakOrder less}.

Lemma trichotomous_on_perm l1 l2 :
  l1 ≡ₚ l2 -> trichotomous_on less l1 -> trichotomous_on less l2.
Proof. intros Hp H x y. rewrite <- Hp. apply H. Qed.

Lemma SliceStable_perm_eq l1 l2 :
  l1 ≡ₚ l2 -> trichotomous_on less l1 -> SliceStable less l1 = SliceStable less l2.
Proof.
  intros Hp Ht. apply sorted_perm_unique; try by apply SliceStable_sorted.
  - eapply trichotomous_on_perm; [|exact Ht]. by rewrite SliceStable_perm.
  - by rewrite !SliceStable_perm.
Qed.

Lemma sort_Slice_perm_eq `{s1 : UnstableSort} `{s2 : UnstableSort} l1 l2 :
  l1 ≡ₚ l2 -> trichotomous_on less l1 ->
  @sort_Slice s1 _ less l1 = @sort_Slice s2 _ less l2.
Proof.
  intros Hp Ht. apply sorted_perm_unique; try by apply sort_Slice_sorted.
  - eapply trichotomous_on_perm; [|exact Ht]. by rewrite sort_Slice_perm.
  - by rewrite !sort_Slice_perm.
Qed.
End unique.

(** Insertion sort meets the documented contract of [sort.Slice]; it is what Go
    runs on slices of at most 12 elements. *)
Definition insertion_sort : UnstableSort := {|
  sort_Slice := @SliceStable;
  sort_Slice_perm := @SliceStable_perm;
  sort_Slice_sorted := fun A less l H => SliceStable_sorted less l
|}.

(** Comparing by a key. *)
#[export] Instance on_key_strict {A B} (f : A -> B) (less : B -> B -> bool) :
  StrictWeakOrder less -> StrictWeakOrder (fun x y => less (f x) (f y)).
Proof.
  intros H. split; intros.
  - apply less_irrefl.
  - by eapply less_trans.
  - by apply less_cotrans.
Qed.

Lemma trichotomous_on_key {A} (f : A -> string) l :
  NoDup (f <$> l) -> trichotomous_on (fun x y => str_lt (f x) (f y)) l.
Proof.
  intros Hnd x y Hx Hy H1 H2. assert (f x = f y) as Hf by by apply str_lt_trichotomy.
  apply list_elem_of_lookup in Hx as [i Hi], Hy as [j Hj].
  assert (i = j) as ->; [|congruence].
  eapply NoDup_lookup; [exact Hnd| |].
  - rewrite list_lookup_fmap, Hi. done.
  - rewrite list_lookup_fmap, Hj. simpl. by rewrite Hf.
Qed.
