(* ===== verification/GoJson.v ===== *)
(** [encoding/json]: decoding a JSON text into a Go [map[string]any].

    [any] is what [json.Unmarshal] builds: [nil], [bool], [float64], [string],
    [[]any] and [map[string]any].  The decoder follows the library: the whole
    text is first checked against the grammar (nesting depth included), then
    decoded; a later duplicate key replaces an earlier one; a number that
    overflows [float64] is an error; ill-formed UTF-8 and lone surrogates in
    strings become U+FFFD.

    The parser runs on fuel; [parse_value_fuel] shows that the fuel
    [Unmarshal] gives it is always enough. *)

From S2P Require Import Prelude GoStrings.
From Stdlib Require Import SpecFloat.

Inductive any :=
  | VNull
  | VBool (b : bool)
  | VNum (f : spec_float)          (* float64 *)
  | VStr (s : string)
  | VArr (l : list any)
  | VObj (m : gmap string any).

(** * Scanning *)

Local Open Scope N_scope.

(** A syntax tree with the text of numbers and strings left as it is. *)
Inductive raw :=
  | RNull
  | RBool (b : bool)
  | RNum (lit : list N)
  | RStr (content : list N)
  | RArr (l : list raw)
  | RObj (l : list (list N * raw)).

Definition is_ws (c : N) : bool := (c =? 32) || (c =? 9) || (c =? 13) || (c =? 10).

Fixpoint skip_ws (l : list N) : list N :=
  match l with
  | c :: l' => if is_ws c then skip_ws l' else l
  | [] => []
  end.

Definition is_hex (c : N) : bool := is_digit c || in_range 97 102 c || in_range 65 70 c.

(** The characters allowed after a backslash (other than [u]): b, f, n, r, t,
    backslash, slash and the double quote. *)
Definition is_escape (c : N) : bool :=
  (c =? 98) || (c =? 102) || (c =? 110) || (c =? 114) || (c =? 116)
  || (c =? 92) || (c =? 47) || (c =? 34).

Definition prepend (p : list N) (o : option (list N * list N)) : option (list N * list N) :=
  match o with Some (a, r) => Some (p ++ a, r) | None => None end.

(** The text of a string up to its closing quote, and what follows. *)
Fixpoint scan_string (l : list N) : option (list N * list N) :=
  match l with
  | [] => None
  | c :: l1 =>
    if c =? 34 then Some ([], l1)
    else if c =? 92 then
      match l1 with
      | [] => None
      | e :: l2 =>
        if is_escape e then prepend [c; e] (scan_string l2)
        else if e =? 117 then
          match l2 with
          | h1 :: h2 :: h3 :: h4 :: l3 =>
            if is_hex h1 && is_hex h2 && is_hex h3 && is_hex h4
            then prepend [c; e; h1; h2; h3; h4] (scan_string l3) else None
          | _ => None
          end
        else None
      end
    else if c <? 32 then None
    else prepend [c] (scan_string l1)
  end.

Fixpoint scan_digits (l : list N) : list N * list N :=
  match l with
  | c :: l' => if is_digit c then let (ds, r) := scan_digits l' in (c :: ds, r) else ([], l)
  | [] => ([], [])
  end.

(** At least one digit. *)
Definition scan_digits1 (l : list N) : option (list N * list N) :=
  match scan_digits l with
  | ([], _) => None
  | r => Some r
  end.

Definition scan_frac (l : list N) : option (list N * list N) :=
  match l with
  | c :: l' => if c =? 46 then prepend [c] (scan_digits1 l') else Some ([], l)
  | [] => Some ([], l)
  end.

Definition scan_exp (l : list N) : option (list N * list N) :=
  match l with
  | c :: l' =>
    if (c =? 101) || (c =? 69) then
      match l' with
      | s :: l'' => if (s =? 43) || (s =? 45) then prepend [c; s] (scan_digits1 l'')
                    else prepend [c] (scan_digits1 l')
      | [] => None
      end
    else Some ([], l)
  | [] => Some ([], l)
  end.

Definition scan_int (l : list N) : option (list N * list N) :=
  match l with
  | c :: l' => if c =? 48 then Some ([c], l') else scan_digits1 l
  | [] => None
  end.

(** [-? int frac? exp?] *)
Definition scan_number (l : list N) : option (list N * list N) :=
  let sign := match l with c :: _ => if c =? 45 then [c] else [] | [] => [] end in
  let l1 := match l with c :: l' => if c =? 45 then l' else l | [] => [] end in
  match scan_int l1 with
  | None => None
  | Some (i, l2) =>
    match scan_frac l2 with
    | None => None
    | Some (f, l3) => prepend (sign ++ i ++ f) (scan_exp l3)
    end
  end.

(** [l] without the prefix [p] *)
Fixpoint scan_word (p l : list N) : option (list N) :=
  match p, l with
  | [], _ => Some l
  | a :: p', b :: l' => if a =? b then scan_word p' l' else None
  | _ :: _, [] => None
  end.

Inductive parsed (A : Type) :=
  | PErr
  | PFuel                      (* out of fuel: never, see parse_value_fuel *)
  | PRes (a : A) (rest : list N).
Arguments PErr {A}.
Arguments PFuel {A}.
Arguments PRes {A} a rest.

Definition of_scan {A} (f : list N -> A) (o : option (list N * list N)) : parsed A :=
  match o with Some (a, r) => PRes (f a) r | None => PErr end.
Definition of_word {A} (a : A) (o : option (list N)) : parsed A :=
  match o with Some r => PRes a r | None => PErr end.

Definition maxNestingDepth : N := 10000.

Section parse.
(** the parser of a nested value, with less fuel *)
Context (value : N -> list N -> parsed raw).

(** The first characters of an array's or object's body decide whether it is
    empty; then elements separated by commas up to the closing bracket. *)
Definition after_element {A} (close : N) (a : A) (more : list N -> parsed (list A))
    (l : list N) : parsed (list A) :=
  match skip_ws l with
  | c :: l' =>
    if c =? 44 then
      match more l' with PRes r l'' => PRes (a :: r) l'' | PErr => PErr | PFuel => PFuel end
    else if c =? close then PRes [a] l' else PErr
  | [] => PErr
  end.

Fixpoint parse_elems (fuel : nat) (d : N) (l : list N) : parsed (list raw) :=
  match fuel with
  | O => PFuel
  | S f =>
    match value d l with
    | PRes v l1 => after_element 93 v (parse_elems f d) l1
    | PErr => PErr
    | PFuel => PFuel
    end
  end.

Fixpoint parse_members (fuel : nat) (d : N) (l : list N) : parsed (list (list N * raw)) :=
  match fuel with
  | O => PFuel
  | S f =>
    match skip_ws l with
    | q :: l1 =>
      if q =? 34 then
        match scan_string l1 with
        | Some (k, l2) =>
          match skip_ws l2 with
          | c :: l3 =>
            if c =? 58 then
              match value d l3 with
              | PRes v l4 => after_element 125 (k, v) (parse_members f d) l4
              | PErr => PErr
              | PFuel => PFuel
              end
            else PErr
          | [] => PErr
          end
        | None => PErr
        end
      else PErr
    | [] => PErr
    end
  end.
End parse.

Definition pmap {A B} (f : A -> B) (p : parsed A) : parsed B :=
  match p with PRes a r => PRes (f a) r | PErr => PErr | PFuel => PFuel end.

(** A value at nesting depth [d]. *)
Fixpoint parse_value (fuel : nat) (d : N) (l : list N) : parsed raw :=
  match fuel with
  | O => PFuel
  | S f =>
    match skip_ws l with
    | [] => PErr
    | c :: l1 =>
      if c =? 123 then                                   (* { *)
        if maxNestingDepth <=? d then PErr
        else match skip_ws l1 with
             | c2 :: l2 =>
               if c2 =? 125 then PRes (RObj []) l2
               else pmap RObj (parse_members (parse_value f) (length l1) (d + 1) l1)
             | [] => PErr
             end
      else if c =? 91 then                               (* [ *)
        if maxNestingDepth <=? d then PErr
        else match skip_ws l1 with
             | c2 :: l2 =>
               if c2 =? 93 then PRes (RArr []) l2
               else pmap RArr (parse_elems (parse_value f) (length l1) (d + 1) l1)
             | [] => PErr
             end
      else if c =? 34 then of_scan RStr (scan_string l1)
      else if c =? 116 then of_word (RBool true) (scan_word [114; 117; 101] l1)
      else if c =? 102 then of_word (RBool false) (scan_word [97; 108; 115; 101] l1)
      else if c =? 110 then of_word RNull (scan_word [117; 108; 108] l1)
      else of_scan RNum (scan_number (c :: l1))
    end
  end.

(** The whole text: one value and white space. *)
Definition parse_text (bs : list N) : option raw :=
  match parse_value (S (length bs)) 0 bs with
  | PRes v rest => match skip_ws rest with [] => Some v | _ => None end
  | _ => None
  end.

(** * Decoding *)

Definition hex_val (c : N) : N :=
  if is_digit c then c - 48 else if in_range 97 102 c then c - 87 else c - 55.
Definition hex4 (h1 h2 h3 h4 : N) : N :=
  ((hex_val h1 * 16 + hex_val h2) * 16 + hex_val h3) * 16 + hex_val h4.

Definition escape_val (c : N) : N :=
  if c =? 98 then 8 else if c =? 102 then 12 else if c =? 110 then 10
  else if c =? 114 then 13 else if c =? 116 then 9 else c.

Definition high_surrogate (r : N) : bool := in_range 55296 56319 r.
Definition low_surrogate (r : N) : bool := in_range 56320 57343 r.

(** The runes of a scanned string with its escapes resolved. *)
Fixpoint unescape (l : list N) : list N :=
  match l with
  | [] => []
  | c :: l1 =>
    if c =? 92 then
      match l1 with
      | [] => []
      | e :: l2 =>
        if e =? 117 then
          match l2 with
          | h1 :: h2 :: h3 :: h4 :: l3 =>
            let r := hex4 h1 h2 h3 h4 in
            if high_surrogate r then
              match l3 with
              | b :: u :: g1 :: g2 :: g3 :: g4 :: l4 =>
                let r1 := hex4 g1 g2 g3 g4 in
                if (b =? 92) && (u =? 117) && low_surrogate r1
                then (r - 55296) * 1024 + (r1 - 56320) + 65536 :: unescape l4
                else RuneError :: unescape l3
              | _ => RuneError :: unescape l3
              end
            else if low_surrogate r then RuneError :: unescape l3
            else r :: unescape l3
          | _ => []
          end
        else escape_val e :: unescape l2
      end
    else c :: unescape l1
  end.

Definition unquote (content : list N) : string :=
  string_of (encode_runes (unescape (runes content))).

Local Open Scope Z_scope.

Definition digits_val (ds : list N) : Z :=
  foldl (fun acc d => acc * 10 + (Z.of_N d - 48)) 0 ds.

(** [strconv.ParseFloat] stops accumulating an exponent that reached 10000. *)
Definition exp_val (ds : list N) : Z :=
  foldl (fun e d => if e <? 10000 then e * 10 + (Z.of_N d - 48) else e) 0 ds.

(** [sign * digits * 10^e] correctly rounded to [float64]; [None] on overflow. *)
Definition round_decimal (neg : bool) (mant : Z) (e : Z) : option spec_float :=
  match mant with
  | Zpos m =>
    let num := Z.to_pos (Zpos m * 10 ^ Z.max e 0) in
    let den := Z.to_pos (10 ^ Z.max (- e) 0) in
    match SFdiv 53 1024 (S754_finite neg num 0) (S754_finite false den 0) with
    | S754_infinity _ => None
    | f => Some f
    end
  | _ => Some (S754_zero neg)
  end.

(** The parts of a number literal accepted by [scan_number]. *)
Definition ParseFloat (lit : list N) : option spec_float :=
  let neg := match lit with c :: _ => (c =? 45)%N | [] => false end in
  let l1 := if neg then tail lit else lit in
  let (i, l2) := scan_digits l1 in
  let (f, l3) := match l2 with
                 | c :: l' => if (c =? 46)%N then scan_digits l' else ([], l2)
                 | [] => ([], l2)
                 end in
  let e := match l3 with
           | _ :: s :: l' => if (s =? 45)%N then - exp_val l'
                             else if (s =? 43)%N then exp_val l' else exp_val (s :: l')
           | _ => 0
           end in
  round_decimal neg (digits_val (i ++ f)) (e - Z.of_nat (length f)).

Definition insert_all (ms : list (string * any)) : gmap string any :=
  foldl (fun m kv => <[kv.1 := kv.2]> m) ∅ ms.

(** [None]: a number does not fit [float64]. *)
Fixpoint decode (r : raw) : option any :=
  match r with
  | RNull => Some VNull
  | RBool b => Some (VBool b)
  | RNum lit => VNum <$> ParseFloat lit
  | RStr s => Some (VStr (unquote s))
  | RArr l =>
    VArr <$> (fix go (l : list raw) : option (list any) :=
      match l with
      | [] => Some []
      | x :: l' => match decode x with
                   | Some v => cons v <$> go l'
                   | None => None
                   end
      end) l
  | RObj l =>
    (fun ms => VObj (insert_all ms)) <$> (fix go (l : list (list N * raw)) : option (list (string * any)) :=
      match l with
      | [] => Some []
      | (k, x) :: l' => match decode x with
                        | Some v => cons (unquote k, v) <$> go l'
                        | None => None
                        end
      end) l
  end.

Definition SyntaxError : go_error := ErrNew "json: syntax error".
Definition UnmarshalTypeError : go_error := ErrNew "json: cannot unmarshal".

(** [json.Unmarshal(data, &m)] for [m] of type [map[string]any].  [None] is the
    nil map, which the text [null] assigns. *)
Definition Unmarshal (data : string) : outcome (option (gmap string any)) :=
  match parse_text (bytes_of data) with
  | None => Err SyntaxError
  | Some RNull => Ok None
  | Some (RObj l) => match decode (RObj l) with
                     | Some (VObj m) => Ok (Some m)
                     | _ => Err UnmarshalTypeError
                     end
  | Some _ => Err UnmarshalTypeError
  end.

(** * Type switches on [any] *)

Definition as_string (v : option any) : option string :=
  match v with Some (VStr s) => Some s | _ => None end.
Definition as_slice (v : option any) : option (list any) :=
  match v with Some (VArr l) => Some l | _ => None end.
Definition as_map (v : option any) : option (gmap string any) :=
  match v with Some (VObj m) => Some m | _ => None end.

Lemma Unmarshal_no_panic data p : Unmarshal data <> Panic p.
Proof.
  unfold Unmarshal. destruct (parse_text _) as [[| | | | |]|]; try done.
  by destruct (decode _) as [[]|].
Qed.

(** * The fuel is enough *)

Local Open Scope nat_scope.

(** What follows a scanned token is strictly shorter than [l]. *)
Definition shorter {A} (o : option (A * list N)) (l : list N) : Prop :=
  match o with Some (_, r) => length r < length l | None => True end.

(** Parsing [l] ends, and consumes something. *)
Definition ends {A} (p : parsed A) (l : list N) : Prop :=
  match p with PFuel => False | PErr => True | PRes _ r => length r < length l end.

Lemma skip_ws_length l : length (skip_ws l) <= length l.
Proof. induction l as [|c l IH]; simpl; [done|]. case_match; simpl; lia. Qed.

Lemma prepend_shorter p o l l' :
  shorter o l -> length l <= length l' -> shorter (prepend p o) l'.
Proof. destruct o as [[a r]|]; simpl; [lia|done]. Qed.

Lemma scan_string_shorter l : shorter (scan_string l) l.
Proof.
  revert l. fix IH 1. intros [|c l1]; simpl; [done|].
  case_match; [simpl; lia|].
  case_match.
  - destruct l1 as [|e l2]; [done|]. case_match.
    + eapply prepend_shorter; [apply IH|simpl; lia].
    + case_match; [|done].
      destruct l2 as [|h1 [|h2 [|h3 [|h4 l3]]]]; try done.
      case_match; [|done]. eapply prepend_shorter; [apply IH|simpl; lia].
  - case_match; [done|]. eapply prepend_shorter; [apply IH|simpl; lia].
Qed.

Lemma scan_digits_length l : length (scan_digits l).2 <= length l.
Proof.
  induction l as [|c l IH]; simpl; [done|]. case_match; [|simpl; lia].
  destruct (scan_digits l); simpl in *; lia.
Qed.

Lemma scan_digits1_shorter l : shorter (scan_digits1 l) l.
Proof.
  unfold scan_digits1. destruct l as [|c l]; simpl; [done|]. destruct (is_digit c); [|done].
  pose proof (scan_digits_length l). destruct (scan_digits l); simpl in *; lia.
Qed.

Lemma scan_int_shorter l : shorter (scan_int l) l.
Proof.
  destruct l as [|c l]; [done|]. cbn [scan_int]. case_match; [simpl; lia|].
  apply scan_digits1_shorter.
Qed.

Lemma scan_frac_length l r : scan_frac l = Some r -> length r.2 <= length l.
Proof.
  destruct l as [|c l]; cbn [scan_frac]; [intros; by simplify_eq|].
  case_match; [|intros; by simplify_eq]. pose proof (scan_digits1_shorter l) as Hs.
  destruct (scan_digits1 l) as [[ds r']|]; simpl in *; intros; simplify_eq; simpl; lia.
Qed.

Lemma scan_exp_length l r : scan_exp l = Some r -> length r.2 <= length l.
Proof.
  destruct l as [|c l]; cbn [scan_exp]; [intros; by simplify_eq|].
  case_match; [|intros; by simplify_eq]. destruct l as [|s l]; [done|].
  case_match.
  - pose proof (scan_digits1_shorter l).
    destruct (scan_digits1 l) as [[ds r']|]; simpl in *; intros; simplify_eq; simpl; lia.
  - pose proof (scan_digits1_shorter (s :: l)).
    destruct (scan_digits1 (s :: l)) as [[ds r']|]; simpl in *; intros; simplify_eq; simpl; lia.
Qed.

Lemma scan_number_shorter l : shorter (scan_number l) l.
Proof.
  unfold scan_number.
  set (l1 := match l with c :: l' => if (c =? 45)%N then l' else l | [] => [] end).
  assert (length l1 <= length l) as Hl by (subst l1; destruct l; [done|]; case_match; simpl; lia).
  pose proof (scan_int_shorter l1) as Hi. destruct (scan_int l1) as [[i l2]|]; [|done].
  destruct (scan_frac l2) as [[f l3]|] eqn:Hf; [|done]. apply scan_frac_length in Hf.
  destruct (scan_exp l3) as [[e l4]|] eqn:He; [|done]. apply scan_exp_length in He.
  simpl in *. lia.
Qed.

Lemma scan_word_length p l r : scan_word p l = Some r -> length r <= length l.
Proof.
  revert l. induction p as [|a p IH]; intros [|b l]; simpl; intros; simplify_eq; try done.
  case_match; [|done]. match goal with E : _ = Some _ |- _ => apply IH in E end. lia.
Qed.

Lemma of_scan_ends {A} (f : list N -> A) o l l' :
  shorter o l -> length l <= length l' -> ends (of_scan f o) l'.
Proof. destruct o as [[a r]|]; simpl; [lia|done]. Qed.

Lemma of_word_ends {A} (a : A) p l l' :
  length l < length l' -> ends (of_word a (scan_word p l)) l'.
Proof.
  intros. destruct (scan_word p l) eqn:E; [|done]. apply scan_word_length in E. simpl. lia.
Qed.

Lemma after_element_ends {A} close (a : A) more l l' :
  (forall r, length r < length l -> ends (more r) r) -> length l <= length l' ->
  ends (after_element close a more l) l'.
Proof.
  intros Hm Hl. unfold after_element. pose proof (skip_ws_length l).
  destruct (skip_ws l) as [|c r]; [done|]. simpl in *.
  case_match; [|case_match; simpl; [lia|done]].
  specialize (Hm r ltac:(lia)). destruct (more r); simpl in *; [done..|lia].
Qed.

Section fuel.
Context (value : N -> list N -> parsed raw) (m : nat).
Hypothesis value_ends : forall d l, length l <= m -> ends (value d l) l.

Lemma parse_elems_ends k d l :
  1 <= k -> length l <= k -> length l <= m -> ends (parse_elems value k d l) l.
Proof.
  revert l. induction k as [|k IH]; intros l Hk Hl Hm; [lia|]. simpl.
  pose proof (value_ends d l Hm) as Hv. destruct (value d l) as [| |v r]; [done..|].
  simpl in Hv. apply after_element_ends; [|lia].
  intros r' Hr. apply IH; lia.
Qed.

Lemma parse_members_ends k d l :
  1 <= k -> length l <= k -> length l <= m -> ends (parse_members value k d l) l.
Proof.
  revert l. induction k as [|k IH]; intros l Hk Hl Hm; [lia|]. simpl.
  pose proof (skip_ws_length l). destruct (skip_ws l) as [|q l1]; [done|]. simpl in *.
  case_match; [|done]. pose proof (scan_string_shorter l1) as Hs.
  destruct (scan_string l1) as [[key l2]|]; [|done]. simpl in Hs.
  pose proof (skip_ws_length l2). destruct (skip_ws l2) as [|c l3]; [done|]. simpl in *.
  case_match; [|done].
  pose proof (value_ends d l3 ltac:(lia)) as Hv. destruct (value d l3) as [| |v r]; [done..|].
  simpl in Hv. apply after_element_ends; [|lia]. intros r' Hr. apply IH; lia.
Qed.
End fuel.

Lemma pmap_ends {A B} (f : A -> B) p l l' :
  ends p l -> length l <= length l' -> ends (pmap f p) l'.
Proof. destruct p; simpl; [done..|lia]. Qed.

Lemma parse_value_fuel n d l : length l < n -> ends (parse_value n d l) l.
Proof.
  revert d l. induction n as [|n IH]; intros d l Hl; [lia|]. cbn [parse_value].
  pose proof (skip_ws_length l) as Hw. destruct (skip_ws l) as [|c l1]; [done|]. simpl in Hw.
  assert (forall d' l', length l' <= length l1 -> ends (parse_value n d' l') l') as IH'
    by (intros; apply IH; lia).
  destruct (c =? 123)%N; [|destruct (c =? 91)%N].
  1,2: destruct (maxNestingDepth <=? d)%N; [done|];
    pose proof (skip_ws_length l1) as Hw2; destruct (skip_ws l1) as [|c2 l2]; [done|];
    simpl in Hw2; case_match; [simpl; lia|]; eapply pmap_ends; [|exact (Nat.lt_le_incl _ _ Hw)].
  1: apply (parse_members_ends _ (length l1)); [done|lia..].
  1: apply (parse_elems_ends _ (length l1)); [done|lia..].
  repeat (case_match; [first
    [ apply of_word_ends; simpl; lia
    | eapply of_scan_ends; [apply scan_string_shorter|simpl; lia] ]|]).
  eapply of_scan_ends; [apply scan_number_shorter|done].
Qed.
