(* ===== verification/GoCrypto.v ===== *)
(** Go's cryptographic and encoding packages as the operator uses them:
    [crypto/rand] over an explicit source of entropy, [math/big]-style uniform
    integers, [encoding/base64], [encoding/hex], [encoding/pem], the SHA-2
    hashes, HMAC and PBKDF2.

    [rand.Reader] is a finite tape of bytes: reading past its end is the error a
    failing reader returns, so a statement about all tapes covers the failing
    sources as well, and loops that draw until a value is accepted end.  (The
    reader of Go 1.24 and later ends the program instead of returning an error,
    so there the [err != nil] branches of the code, which are kept in the model,
    are not taken.)

    RSA key generation is a randomized search and the DER encoding of a key is a
    large format of its own; class [RSA] takes both as operations. *)

From S2P Require Import Prelude.

Local Open Scope N_scope.

(** * crypto/rand *)

Abbreviation entropy := (list N) (only parsing).

Definition ErrEntropy : go_error := ErrNew "crypto/rand: read error".

(** [io.ReadFull(rand.Reader, buf)] with [len(buf) = n]; also [rand.Read]. *)
Definition ReadFull (n : nat) : M entropy (list N) := fun tape =>
  if decide (n <= length tape)%nat then (Ok (take n tape), drop n tape)
  else (Err ErrEntropy, []).

Definition be_decode (bs : list N) : N := foldl (fun acc b => acc * 256 + b) 0 bs.

(** [bytes[0] &= mask] *)
Definition mask_first (mask : N) (bs : list N) : list N :=
  match bs with b :: bs' => N.land b mask :: bs' | [] => [] end.

(** The loop of [rand.Int]: draw [k] bytes, mask the first, accept below [max].
    Every round consumes [k >= 1] bytes, so the length of the tape is fuel
    enough (one more round than the tape can feed). *)
Fixpoint rand_Int_loop (fuel : nat) (k : nat) (mask max : N) (tape : entropy) :
    outcome N * entropy :=
  match fuel with
  | O => (Err ErrEntropy, tape)
  | S fuel' =>
    match ReadFull k tape with
    | (Ok bs, tape') =>
      let n := be_decode (mask_first mask bs) in
      if n <? max then (Ok n, tape') else rand_Int_loop fuel' k mask max tape'
    | (Err e, tape') => (Err e, tape')
    | (Panic p, tape') => (Panic p, tape')
    end
  end.

(** [rand.Int(rand.Reader, max)] for [max > 0] *)
Definition rand_Int (max : N) : M entropy N := fun tape =>
  let bitLen := N.size (max - 1) in
  if bitLen =? 0 then (Ok 0, tape)
  else
    let k := (bitLen + 7) / 8 in
    let b := if bitLen mod 8 =? 0 then 8 else bitLen mod 8 in
    rand_Int_loop (S (length tape)) (N.to_nat k) (2 ^ b - 1) max tape.

(** * encoding/base64 *)

Definition letters : list N := bytes_of "ABCDEFGHIJKLMNOPQRSTUVWXYZabcdefghijklmnopqrstuvwxyz0123456789".
Definition StdAlphabet : list N := letters ++ bytes_of "+/".
Definition URLAlphabet : list N := letters ++ bytes_of "-_".

(** the character of a 6-bit digit *)
Definition digit64 (alphabet : list N) (d : N) : N := nth (N.to_nat d) alphabet 0.

(** The 6-bit digits of the input, three bytes at a time; the last group may
    have one or two bytes. *)
Fixpoint sextets (bs : list N) : list N :=
  match bs with
  | a :: b :: c :: l =>
    let v := (a * 256 + b) * 256 + c in
    v / 262144 :: (v / 4096) mod 64 :: (v / 64) mod 64 :: v mod 64 :: sextets l
  | [a; b] => let v := (a * 256 + b) * 256 in [v / 262144; (v / 4096) mod 64; (v / 64) mod 64]
  | [a] => let v := a * 65536 in [v / 262144; (v / 4096) mod 64]
  | [] => []
  end.

(** [enc.EncodeToString] of an encoding without padding *)
Definition EncodeToString_raw (alphabet : list N) (bs : list N) : string :=
  string_of (digit64 alphabet <$> sextets bs).

(** [base64.StdEncoding], padded with '=' *)
Definition EncodeToString_std (bs : list N) : list N :=
  (digit64 StdAlphabet <$> sextets bs) ++
  match (length bs mod 3)%nat with 1%nat => [61; 61] | 2%nat => [61] | _ => [] end.

(** Decoding of an unpadded text, for the round trip. *)
Fixpoint index_of (alphabet : list N) (c : N) : N :=
  match alphabet with
  | a :: l => if a =? c then 0 else 1 + index_of l c
  | [] => 0
  end.
Fixpoint bytes_of_sextets (ds : list N) : list N :=
  match ds with
  | d1 :: d2 :: d3 :: d4 :: l =>
    let v := ((d1 * 64 + d2) * 64 + d3) * 64 + d4 in
    v / 65536 :: (v / 256) mod 256 :: v mod 256 :: bytes_of_sextets l
  | [d1; d2; d3] => let v := ((d1 * 64 + d2) * 64 + d3) * 64 in [v / 65536; (v / 256) mod 256]
  | [d1; d2] => [(d1 * 64 + d2) / 16]
  | _ => []
  end.
Definition DecodeString_raw (alphabet : list N) (s : string) : list N :=
  bytes_of_sextets (index_of alphabet <$> bytes_of s).

(** * encoding/hex *)

Definition hex_digit (d : N) : N := if d <? 10 then 48 + d else 87 + d.
Definition hex_encode (bs : list N) : string :=
  string_of (bs ≫= fun b => [hex_digit (b / 16); hex_digit (b mod 16)]).

(** * encoding/pem *)

(** Lines of 64 characters, each ended by a newline; [n] is fuel. *)
Fixpoint break_lines (n : nat) (l : list N) : list N :=
  match n, l with
  | S n', _ :: _ => take 64 l ++ [10] ++ break_lines n' (drop 64 l)
  | _, _ => []
  end.

(** [pem.EncodeToMemory] of a block without headers *)
Definition pem_EncodeToMemory (type : string) (bytes : list N) : string :=
  let b64 := EncodeToString_std bytes in
  "-----BEGIN " +:+ type +:+ "-----" +:+ string_of [10]
  +:+ string_of (break_lines (length b64) b64)
  +:+ "-----END " +:+ type +:+ "-----" +:+ string_of [10].

(** * SHA-2 *)

Record sha2 := {
  word_bits : N;
  round_constants : list N;
  initial_hash : list N;
  Sigma0 : N * N * N;          (* right rotations *)
  Sigma1 : N * N * N;
  sigma0 : N * N * N;          (* two rotations and a shift *)
  sigma1 : N * N * N
}.

Section sha2.
Context (P : sha2).

Definition wrap (x : N) : N := x mod 2 ^ word_bits P.
Definition rotr (n x : N) : N :=
  N.lor (N.shiftr x n) (wrap (N.shiftl x (word_bits P - n))).
Definition big_sigma (r : N * N * N) (x : N) : N :=
  let '(a, b, c) := r in N.lxor (rotr a x) (N.lxor (rotr b x) (rotr c x)).
Definition small_sigma (r : N * N * N) (x : N) : N :=
  let '(a, b, c) := r in N.lxor (rotr a x) (N.lxor (rotr b x) (N.shiftr x c)).
Definition complement (x : N) : N := 2 ^ word_bits P - 1 - x.

(** The message schedule, latest word first. *)
Fixpoint schedule (n : nat) (ws : list N) : list N :=
  match n with
  | O => ws
  | S n' =>
    let w := wrap (small_sigma (sigma1 P) (nth 1 ws 0) + nth 6 ws 0
                   + small_sigma (sigma0 P) (nth 14 ws 0) + nth 15 ws 0) in
    schedule n' (w :: ws)
  end.

Inductive hash_state := HS (a b c d e f g h : N).

Definition sha_round (s : hash_state) (kw : N * N) : hash_state :=
  let '(HS a b c d e f g h) := s in
  let ch := N.lxor (N.land e f) (N.land (complement e) g) in
  let maj := N.lxor (N.land a b) (N.lxor (N.land a c) (N.land b c)) in
  let t1 := h + big_sigma (Sigma1 P) e + ch + kw.1 + kw.2 in
  let t2 := big_sigma (Sigma0 P) a + maj in
  HS (wrap (t1 + t2)) a b c (wrap (d + t1)) e f g.

(** Big-endian bytes of a word, [n] of them. *)
Fixpoint be_encode (n : nat) (x : N) : list N :=
  match n with O => [] | S n' => be_encode n' (x / 256) ++ [x mod 256] end.

Definition word_bytes : nat := N.to_nat (word_bits P / 8).
Definition block_bytes : nat := (16 * word_bytes)%nat.

Fixpoint words (n : nat) (bs : list N) : list N :=
  match n with O => [] | S n' => be_decode (take word_bytes bs) :: words n' (drop word_bytes bs) end.

Definition compress (s : hash_state) (block : list N) : hash_state :=
  let ks := round_constants P in
  let ws := reverse (schedule (length ks - 16) (reverse (words 16 block))) in
  let '(HS a b c d e f g h) := s in
  let '(HS a' b' c' d' e' f' g' h') := foldl sha_round s (zip ks ws) in
  HS (wrap (a + a')) (wrap (b + b')) (wrap (c + c')) (wrap (d + d'))
     (wrap (e + e')) (wrap (f + f')) (wrap (g + g')) (wrap (h + h')).

(** Append 0x80, zeros and the bit length, to a multiple of the block size. *)
Definition sha_pad (msg : list N) : list N :=
  let len_bytes := (2 * word_bytes)%nat in
  let used := (length msg + 1 + len_bytes)%nat in
  let zeros := ((block_bytes - used mod block_bytes) mod block_bytes)%nat in
  msg ++ [128] ++ replicate zeros 0 ++ be_encode len_bytes (8 * N.of_nat (length msg)).

Fixpoint absorb (n : nat) (s : hash_state) (bs : list N) : hash_state :=
  match n with
  | O => s
  | S n' => absorb n' (compress s (take block_bytes bs)) (drop block_bytes bs)
  end.

Definition initial_state : hash_state :=
  let h i := nth i (initial_hash P) 0 in
  HS (h 0%nat) (h 1%nat) (h 2%nat) (h 3%nat) (h 4%nat) (h 5%nat) (h 6%nat) (h 7%nat).

Definition state_bytes (s : hash_state) : list N :=
  let '(HS a b c d e f g h) := s in [a; b; c; d; e; f; g; h] ≫= be_encode word_bytes.

Definition sha_Sum (msg : list N) : list N :=
  let padded := sha_pad msg in
  state_bytes (absorb (length padded / block_bytes)%nat initial_state padded).

(** * HMAC and PBKDF2 *)

Definition hmac (key msg : list N) : list N :=
  let k0 := if decide (block_bytes < length key)%nat then sha_Sum key else key in
  let k := k0 ++ replicate (block_bytes - length k0) 0 in
  sha_Sum ((N.lxor 92 <$> k) ++ sha_Sum ((N.lxor 54 <$> k) ++ msg)).

Definition xor_bytes (a b : list N) : list N := zip_with N.lxor a b.

(** Block [i] of the derived key: [U1 xor ... xor Uc]. *)
Definition pbkdf2_block (password salt : list N) (iter : N) (i : N) : list N :=
  let u1 := hmac password (salt ++ be_encode 4 i) in
  (N.iter (iter - 1) (fun '(u, t) => let u' := hmac password u in (u', xor_bytes t u')) (u1, u1)).2.

(** [pbkdf2.Key(h, password, salt, iter, keyLength)]; its only error outside
    FIPS-only mode is a key length of 0. *)
Definition pbkdf2_Key (password salt : list N) (iter : N) (keyLength : nat) : outcome (list N) :=
  match keyLength with
  | O => Err (ErrNew "pbkdf2: keyLength must be larger than 0")
  | _ =>
    let hLen := (8 * word_bytes)%nat in
    let blocks := ((keyLength + hLen - 1) / hLen)%nat in
    Ok (take keyLength (seq 1 blocks ≫= fun i => pbkdf2_block password salt iter (N.of_nat i)))
  end.
End sha2.

(** The constants, as FIPS 180-4 defines them: the first bits of the fractional
    parts of the cube roots and square roots of the first primes. *)
Definition is_prime (n : N) : bool :=
  (2 <=? n) && forallb (fun d => negb (n mod N.of_nat d =? 0)) (seq 2 (N.to_nat n - 2)).
Definition first_primes (n : nat) : list N :=
  take n (filter (fun p => is_prime p = true) (N.of_nat <$> seq 2 408)).

(** The integer cube root of [x], found bit by bit below [2 ^ n]. *)
Fixpoint cbrt_below (n : nat) (x root : N) : N :=
  match n with
  | O => root
  | S n' =>
    let r := root + 2 ^ N.of_nat n' in
    cbrt_below n' x (if r * r * r <=? x then r else root)
  end.

(** [w] bits of the fractional part of the root of a prime (below 2 ^ 9). *)
Definition cbrt_fraction (w p : N) : N := cbrt_below (N.to_nat w + 4) (p * 2 ^ (3 * w)) 0 mod 2 ^ w.
Definition sqrt_fraction (w p : N) : N := N.sqrt (p * 2 ^ (2 * w)) mod 2 ^ w.

Definition round_constants_32 : list N := Eval vm_compute in cbrt_fraction 32 <$> first_primes 64.
Definition round_constants_64 : list N := Eval vm_compute in cbrt_fraction 64 <$> first_primes 80.
Definition initial_hash_32 : list N := Eval vm_compute in sqrt_fraction 32 <$> first_primes 8.
Definition initial_hash_64 : list N := Eval vm_compute in sqrt_fraction 64 <$> first_primes 8.

Definition SHA256 : sha2 := {|
  word_bits := 32;
  round_constants := round_constants_32;
  initial_hash := initial_hash_32;
  Sigma0 := (2, 13, 22); Sigma1 := (6, 11, 25);
  sigma0 := (7, 18, 3); sigma1 := (17, 19, 10)
|}.

Definition SHA512 : sha2 := {|
  word_bits := 64;
  round_constants := round_constants_64;
  initial_hash := initial_hash_64;
  Sigma0 := (28, 34, 39); Sigma1 := (14, 18, 41);
  sigma0 := (1, 8, 7); sigma1 := (19, 61, 6)
|}.

(** * crypto/rsa and crypto/x509 *)

(** Key generation consumes entropy and may fail; a key has a PKCS#1 DER
    encoding. *)
Class RSA : Type := {
  PrivateKey : Type;
  GenerateKey : N -> M entropy PrivateKey;
  MarshalPKCS1PrivateKey : PrivateKey -> list N;
  GenerateKey_no_panic : forall bits, no_panic (GenerateKey bits)
}.

(** * Lemmas: entropy *)

Lemma ReadFull_ok n tape : (n <= length tape)%nat -> ReadFull n tape = (Ok (take n tape), drop n tape).
Proof. intros. unfold ReadFull. by rewrite decide_True. Qed.

Lemma ReadFull_Ok_inv n tape bs tape' :
  ReadFull n tape = (Ok bs, tape') -> tape = bs ++ tape' /\ length bs = n.
Proof.
  unfold ReadFull. case_decide; intros; simplify_eq. split; [by rewrite take_drop|].
  rewrite length_take. lia.
Qed.

Lemma ReadFull_no_panic n : no_panic (ReadFull n).
Proof. intros w p. unfold ReadFull. by case_decide. Qed.

Lemma rand_Int_loop_no_panic n k mask max : no_panic (rand_Int_loop n k mask max).
Proof.
  induction n as [|n IH]; intros w p; simpl; [done|].
  pose proof (ReadFull_no_panic k w p) as H.
  destruct (ReadFull k w) as [[bs|e|q] w']; simpl in *; [|done|by intros [= ->]].
  case_match; [done|apply IH].
Qed.

Lemma rand_Int_no_panic max : no_panic (rand_Int max).
Proof. intros w p. unfold rand_Int. case_match; [done|]. apply rand_Int_loop_no_panic. Qed.
#[export] Hint Resolve ReadFull_no_panic rand_Int_no_panic : go.

Lemma rand_Int_loop_bound n k mask max w x w' :
  rand_Int_loop n k mask max w = (Ok x, w') -> x < max.
Proof.
  revert w. induction n as [|n IH]; intros w; simpl; [done|].
  destruct (ReadFull k w) as [[bs|e|q] w1]; [|done..].
  destruct (N.ltb_spec (be_decode (mask_first mask bs)) max); [|apply IH].
  intros [= <- <-]. done.
Qed.

(** * Lemmas: base64 *)

Lemma list_ind3 {A} (P : list A -> Prop) :
  P [] -> (forall a, P [a]) -> (forall a b, P [a; b]) ->
  (forall a b c l, P l -> P (a :: b :: c :: l)) -> forall l, P l.
Proof. intros H0 H1 H2 H3. fix IH 1. intros [|a [|b [|c l]]]; [done..|]. apply H3, IH. Qed.

Abbreviation bytes_ok := (Forall (fun b => b < 256)).

Lemma sextets_bound bs : bytes_ok bs -> Forall (fun d => d < 64) (sextets bs).
Proof.
  induction bs as [|a|a b|a b c l IH] using list_ind3; rewrite ?Forall_cons;
    cbn [sextets]; intros; destruct_and?; repeat constructor; try div_lia.
  by apply IH.
Qed.

Lemma sextets_length bs :
  length (sextets bs) = ((4 * length bs + 2) / 3)%nat.
Proof.
  induction bs as [|a|a b|a b c l IH] using list_ind3; cbn [sextets length]; [done..|].
  rewrite IH. replace (4 * S (S (S (length l))) + 2)%nat with (4 * 3 + (4 * length l + 2))%nat by lia.
  rewrite Nat.div_add_l; lia.
Qed.

Lemma bytes_of_sextets_sextets bs : bytes_ok bs -> bytes_of_sextets (sextets bs) = bs.
Proof.
  induction bs as [|a|a b|a b c l IH] using list_ind3; rewrite ?Forall_cons;
    cbn [sextets bytes_of_sextets]; intros; destruct_and?; [done|..].
  - f_equal. div_lia.
  - f_equal; [div_lia|]. f_equal. div_lia.
  - f_equal; [div_lia|]. f_equal; [div_lia|]. f_equal; [div_lia|]. by apply IH.
Qed.

Lemma index_of_nth l i :
  NoDup l -> (i < length l)%nat -> index_of l (nth i l 0) = N.of_nat i.
Proof.
  intros Hnd. revert i. induction Hnd as [|a l Ha Hnd IH]; intros i Hi; simpl in *; [lia|].
  destruct i as [|i]; simpl; [by rewrite N.eqb_refl|].
  destruct (N.eqb_spec a (nth i l 0)) as [->|].
  - destruct Ha. apply list_elem_of_lookup. exists i.
    by destruct (nth_lookup_or_length l i 0); [|lia].
  - rewrite IH by lia. lia.
Qed.

(** An alphabet: 64 distinct bytes. *)
Definition alphabet_ok (a : list N) : Prop := NoDup a /\ length a = 64%nat /\ bytes_ok a.

Lemma URLAlphabet_ok : alphabet_ok URLAlphabet.
Proof.
  split; [|split; [done|apply (bytes_of_bound "ABCDEFGHIJKLMNOPQRSTUVWXYZabcdefghijklmnopqrstuvwxyz0123456789-_")]].
  apply (bool_decide_unpack _). by vm_compute.
Qed.

Lemma digit64_elem a d : alphabet_ok a -> d < 64 -> digit64 a d ∈ a.
Proof.
  intros (_ & Hl & _) Hd. unfold digit64. apply list_elem_of_In, nth_In. lia.
Qed.

Lemma EncodeToString_raw_chars a bs :
  alphabet_ok a -> bytes_ok bs -> Forall (.∈ a) (bytes_of (EncodeToString_raw a bs)).
Proof.
  intros Ha Hbs. unfold EncodeToString_raw.
  assert (Forall (.∈ a) (digit64 a <$> sextets bs)) as H.
  { apply Forall_fmap. eapply Forall_impl; [by apply sextets_bound|].
    intros d Hd. by apply digit64_elem. }
  rewrite bytes_of_string_of; [done|]. eapply Forall_impl; [exact H|].
  intros x Hx. destruct Ha as (_ & _ & Hb). rewrite Forall_forall in Hb. by apply Hb.
Qed.

Lemma EncodeToString_raw_length a bs :
  String.length (EncodeToString_raw a bs) = ((4 * length bs + 2) / 3)%nat.
Proof. unfold EncodeToString_raw. by rewrite length_string_of, length_fmap, sextets_length. Qed.

Lemma Decode_Encode_raw a bs :
  alphabet_ok a -> bytes_ok bs -> DecodeString_raw a (EncodeToString_raw a bs) = bs.
Proof.
  intros Ha Hbs. unfold DecodeString_raw, EncodeToString_raw.
  assert (Forall (fun d => d < 64) (sextets bs)) as Hd by by apply sextets_bound.
  rewrite bytes_of_string_of.
  - rewrite <- list_fmap_compose. rewrite (Forall_fmap_ext_1 _ id).
    { rewrite list_fmap_id. by apply bytes_of_sextets_sextets. }
    eapply Forall_impl; [exact Hd|]. intros d Hlt. unfold compose, digit64. cbv beta in Hlt.
    destruct Ha as (Hnd & Hl & _). rewrite index_of_nth by (done || lia). simpl. lia.
  - apply Forall_fmap. eapply Forall_impl; [exact Hd|]. intros d Hlt.
    destruct (Ha) as (_ & _ & Hb). rewrite Forall_forall in Hb. apply Hb. by apply digit64_elem.
Qed.

(** * Lemmas: hashes *)

Lemma be_encode_length n x : length (be_encode n x) = n.
Proof. revert x. induction n as [|n IH]; intros x; simpl; [done|]. rewrite length_app, IH. simpl. lia. Qed.

Lemma be_encode_bytes n x : bytes_ok (be_encode n x).
Proof.
  revert x. induction n as [|n IH]; intros x; simpl; [constructor|].
  apply Forall_app. split; [done|]. constructor; [|constructor]. div_lia.
Qed.

Section sha2_lemmas.
Context (P : sha2).

Lemma sha_Sum_length msg : length (sha_Sum P msg) = (8 * word_bytes P)%nat.
Proof.
  unfold sha_Sum, state_bytes. destruct (absorb _ _ _ _).
  rewrite !bind_cons, !length_app, !be_encode_length. simpl. lia.
Qed.

Lemma sha_Sum_bytes msg : bytes_ok (sha_Sum P msg).
Proof.
  unfold sha_Sum, state_bytes. destruct (absorb _ _ _ _).
  rewrite !bind_cons. repeat (apply Forall_app; split; [apply be_encode_bytes|]). constructor.
Qed.

Lemma hmac_length key msg : length (hmac P key msg) = (8 * word_bytes P)%nat.
Proof. apply sha_Sum_length. Qed.

(** A block of the derived key has the length of a hash, and consists of
    bytes. *)
Lemma pbkdf2_block_ok password salt iter i :
  length (pbkdf2_block P password salt iter i) = (8 * word_bytes P)%nat
  /\ bytes_ok (pbkdf2_block P password salt iter i).
Proof.
  unfold pbkdf2_block.
  set (Inv := fun ut : list N * list N =>
    length ut.2 = (8 * word_bytes P)%nat /\ bytes_ok ut.2).
  match goal with |- context [N.iter ?k ?f ?x] =>
    assert (Inv (N.iter k f x)) as H; [|exact H] end.
  apply N.iter_invariant.
  - intros [u t] [Hl Hb]. unfold Inv, xor_bytes in *. simpl in *. split.
    + rewrite length_zip_with, hmac_length. lia.
    + pose proof (sha_Sum_bytes) as Hh.
      rewrite Forall_lookup. intros j y Hj. apply lookup_zip_with_Some in Hj as (a & b & -> & Ha & Hb').
      apply (Forall_lookup_1 _ _ _ _ Hb) in Ha.
      apply (Forall_lookup_1 _ _ _ _ (sha_Sum_bytes _)) in Hb'.
      apply (N.log2_lt_cancel _ 256). eapply N.le_lt_trans; [apply N.log2_lxor|].
      change (N.log2 256) with 8. apply N.max_lub_lt.
      * destruct (decide (a = 0)) as [->|]; [done|]. apply N.log2_lt_pow2; [lia|done].
      * destruct (decide (b = 0)) as [->|]; [done|]. apply N.log2_lt_pow2; [lia|done].
  - split; [apply hmac_length|apply sha_Sum_bytes].
Qed.
End sha2_lemmas.

(** One full block: what the operator asks for. *)
Lemma pbkdf2_Key_64 password salt iter :
  exists key, pbkdf2_Key SHA512 password salt iter 64 = Ok key
    /\ length key = 64%nat /\ bytes_ok key.
Proof.
  exists (pbkdf2_block SHA512 password salt iter 1).
  destruct (pbkdf2_block_ok SHA512 password salt iter 1) as [Hl Hb].
  split; [|done]. unfold pbkdf2_Key.
  change (((64 + 8 * word_bytes SHA512 - 1) / (8 * word_bytes SHA512))%nat) with 1%nat.
  change (8 * word_bytes SHA512)%nat with 64%nat in Hl.
  cbn [seq]. rewrite bind_cons. change (N.of_nat 1) with 1.
  assert (forall (k : list N) (f : nat -> list N), length k = 64%nat ->
    Ok (take 64 (k ++ ([] ≫= f))) = Ok k) as Htake.
  { intros k f Hk. simpl. by rewrite app_nil_r, take_ge by lia. }
  by apply Htake.
Qed.

(** Test vectors. *)
Example SHA256_abc : hex_encode (sha_Sum SHA256 (bytes_of "abc"))
  = "ba7816bf8f01cfea414140de5dae2223b00361a396177a9cb410ff61f20015ad".
Proof. by vm_compute. Qed.

Example SHA512_abc : take 8 (sha_Sum SHA512 (bytes_of "abc")) = [221; 175; 53; 161; 147; 97; 122; 186].
Proof. by vm_compute. Qed.

Example pbkdf2_password_salt :
  (key ← pbkdf2_Key SHA512 (bytes_of "password") (bytes_of "salt") 1 64; mret (take 8 key))
  = Ok [134; 127; 112; 207; 26; 222; 2; 207].
Proof. by vm_compute. Qed.

(** Derived keys are reasoned about through [pbkdf2_Key_64]; evaluating one takes
    hundreds of thousands of hashes. *)
#[global] Opaque pbkdf2_Key.
