(* ===== verification/ApiTypes.v ===== *)
(** The API objects the operator reads and writes.

    The custom resources are those of [api/v1alpha1].  Of the Kubernetes types
    ([corev1], [appsv1], [networkingv1], [metav1]) a record has the fields the
    operator reads or sets; the remaining fields of an object, which it carries
    along without looking at them, are one [opaque] field (a finite map from a
    field path to its text), so that "left alone" can be stated.

    A Go map field that the code compares with [nil] is an [option] of a map; a
    [*T] is an [option T]; a slice is a list (the code never tells a nil slice
    from an empty one); an [int32] is a [Z]. *)

From S2P Require Import Prelude.

(** Fields that are only carried along. *)
Abbreviation opaque := (gmap string string) (only parsing).

(** A possibly nil [map[string]string] and its content. *)
Abbreviation gomap V := (option (gmap string V)) (only parsing).
Definition content {V} (m : gomap V) : gmap string V := default ∅ m.

(** * metav1 *)

Record OwnerReference := mkOwnerReference {
  or_Kind : string;
  or_Name : string;
  or_UID : string;
  or_Controller : bool
}.

Record ObjectMeta := mkObjectMeta {
  om_Name : string;
  om_Namespace : string;
  om_UID : string;
  om_Labels : gomap string;
  om_Annotations : gomap string;
  om_OwnerReferences : list OwnerReference;
  om_rest : opaque
}.

(** [metav1.ObjectMeta{Name: name, Namespace: ns}] *)
Definition newMeta (name ns : string) : ObjectMeta :=
  mkObjectMeta name ns "" None None [] ∅.

Record NamespacedName := mkNamespacedName { nn_Namespace : string; nn_Name : string }.

(** * api/v1alpha1: AutheliaOAuthClient *)

Record AutheliaReference := mkAutheliaReference {
  ref_Name : string;
  ref_Namespace : string
}.

Record AutheliaOAuthClientSpec := mkAutheliaOAuthClientSpec {
  AutheliaRef : AutheliaReference;
  ClientID : string;
  ClientName : string;
  Public : bool;
  AuthorizationPolicy : string;
  ConsentMode : string;
  ClaimsPolicy : string;
  Lifespan : string;
  RedirectURIs : list string;
  Scopes : list string;
  GrantTypes : list string;
  ResponseTypes : list string;
  TokenEndpointAuthMethod : string;
  UserinfoSignedResponseAlg : string
}.

Record AutheliaOAuthClientStatus := mkAutheliaOAuthClientStatus {
  oc_Conditions : list opaque;
  SecretName : string
}.

Record AutheliaOAuthClient := mkAutheliaOAuthClient {
  oc_meta : ObjectMeta;
  oc_Spec : AutheliaOAuthClientSpec;
  oc_Status : AutheliaOAuthClientStatus
}.

(** [spec.ClientID = id] *)
Definition set_ClientID (id : string) (s : AutheliaOAuthClientSpec) : AutheliaOAuthClientSpec :=
  mkAutheliaOAuthClientSpec (AutheliaRef s) id (ClientName s) (Public s)
    (AuthorizationPolicy s) (ConsentMode s) (ClaimsPolicy s) (Lifespan s) (RedirectURIs s)
    (Scopes s) (GrantTypes s) (ResponseTypes s) (TokenEndpointAuthMethod s)
    (UserinfoSignedResponseAlg s).

(** * api/v1alpha1: Authelia *)

Record SecretKeyRef := mkSecretKeyRef { skr_Name : string; skr_Key : string }.

Record AutheliaSecret := mkAutheliaSecret {
  as_Name : string;
  as_Secret : option SecretKeyRef
}.

(** [runtime.RawExtension]: the bytes of a JSON value; nil bytes are [""]. *)
Record RawExtension := mkRawExtension { Raw : string }.

Record AutheliaSettings := mkAutheliaSettings {
  AdditionalConfig : option RawExtension;
  FileUsersSecret : option SecretKeyRef;
  Secrets : list AutheliaSecret
}.

(** [corev1.ResourceRequirements]; quantities by their text. *)
Record ResourceRequirements := mkResourceRequirements {
  Requests : gomap string;
  Limits : gomap string;
  rr_rest : opaque
}.

(** [corev1.PersistentVolumeClaimSpec], copied as a whole. *)
Abbreviation PersistentVolumeClaimSpec := opaque (only parsing).

Record AutheliaDeploymentSpec := mkAutheliaDeploymentSpec {
  Replicas : option Z;
  Image : string;
  ImagePullPolicy : string;
  Resources : ResourceRequirements;
  ExistingSecret : string;
  VolumeClaimTemplate : option PersistentVolumeClaimSpec
}.

Record AutheliaSpec := mkAutheliaSpec {
  Hostname : string;
  au_Deployment : AutheliaDeploymentSpec;
  Settings : AutheliaSettings
}.

Record AutheliaStatus := mkAutheliaStatus {
  au_Conditions : list opaque;
  st_ReadyReplicas : Z;
  OIDCClients : list string;
  AccessControlRules : list string
}.

Record Authelia := mkAuthelia {
  au_meta : ObjectMeta;
  au_Spec : AutheliaSpec;
  au_Status : AutheliaStatus
}.

Definition au_Name (a : Authelia) : string := om_Name (au_meta a).
Definition au_Namespace (a : Authelia) : string := om_Namespace (au_meta a).

(** * networkingv1 *)

Record Ingress := mkIngress {
  ing_meta : ObjectMeta;
  ing_rule_hosts : list string;          (* spec.rules[].host *)
  ing_tls_hosts : list (list string);    (* spec.tls[].hosts *)
  ing_rest : opaque
}.

Definition ing_annotations (i : Ingress) : gmap string string :=
  content (om_Annotations (ing_meta i)).

(** * corev1 *)

Record Secret := mkSecret {
  sec_meta : ObjectMeta;
  sec_Type : string;
  sec_Data : gomap string;               (* []byte values as byte strings *)
  sec_rest : opaque
}.

Definition SecretTypeOpaque : string := "Opaque".

Record ConfigMap := mkConfigMap {
  cm_meta : ObjectMeta;
  cm_Data : gomap string;
  cm_rest : opaque
}.

Record ServicePort := mkServicePort {
  sp_Name : string;
  sp_Protocol : string;
  sp_Port : Z;
  sp_TargetPort : string                 (* intstr.FromString *)
}.

Record ServiceSpec := mkServiceSpec {
  svc_Type : string;
  svc_Selector : gomap string;
  svc_Ports : list ServicePort;
  svc_rest : opaque                      (* clusterIP, sessionAffinity, ... *)
}.

Record Service := mkService {
  svc_meta : ObjectMeta;
  svc_Spec : ServiceSpec;
  svc_status : opaque
}.

Record PersistentVolumeClaim := mkPersistentVolumeClaim {
  pvc_meta : ObjectMeta;
  pvc_Spec : PersistentVolumeClaimSpec;
  pvc_rest : opaque
}.

Record SecretKeySelector := mkSecretKeySelector { sel_Name : string; sel_Key : string }.

Record EnvVar := mkEnvVar {
  env_Name : string;
  env_Value : string;
  env_ValueFrom : option SecretKeySelector   (* valueFrom.secretKeyRef *)
}.

Record VolumeMount := mkVolumeMount {
  vm_Name : string;
  vm_MountPath : string;
  vm_SubPath : string;
  vm_ReadOnly : bool
}.

(** [corev1.VolumeSource]: the members the operator uses. *)
Inductive VolumeSource :=
  | VSSecret (secretName : string)
  | VSConfigMap (name : string)
  | VSEmptyDir
  | VSPersistentVolumeClaim (claimName : string).

Record Volume := mkVolume { vol_Name : string; vol_Source : VolumeSource }.

(** [corev1.Probe] with an HTTPGet action *)
Record Probe := mkProbe {
  pr_Path : string;
  pr_Port : string;
  pr_Scheme : string;
  InitialDelaySeconds : Z;
  PeriodSeconds : Z;
  TimeoutSeconds : Z;
  SuccessThreshold : Z;
  FailureThreshold : Z
}.

Record ContainerPort := mkContainerPort {
  cp_Name : string;
  cp_ContainerPort : Z;
  cp_Protocol : string
}.

Record Container := mkContainer {
  c_Name : string;
  c_Image : string;
  c_ImagePullPolicy : string;
  c_Command : list string;
  c_Args : list string;
  c_Env : list EnvVar;
  c_Resources : ResourceRequirements;
  c_Ports : list ContainerPort;
  c_StartupProbe : option Probe;
  c_LivenessProbe : option Probe;
  c_ReadinessProbe : option Probe;
  c_VolumeMounts : list VolumeMount
}.

Record PodSpec := mkPodSpec {
  EnableServiceLinks : option bool;
  Containers : list Container;
  Volumes : list Volume
}.

Record PodTemplateSpec := mkPodTemplateSpec {
  pt_Labels : gomap string;
  pt_Annotations : gomap string;
  pt_Spec : PodSpec
}.

(** * appsv1 *)

Record DeploymentSpec := mkDeploymentSpec {
  ds_Replicas : option Z;
  RevisionHistoryLimit : option Z;
  Selector : gmap string string;         (* matchLabels *)
  Template : PodTemplateSpec;
  ds_rest : opaque                       (* strategy, ... *)
}.

Record Deployment := mkDeployment {
  dep_meta : ObjectMeta;
  dep_Spec : DeploymentSpec;
  dep_ReadyReplicas : Z;                 (* status.readyReplicas *)
  dep_rest : opaque
}.

(** * Decidable equality *)

Ltac dec_eq := solve_decision.

#[export] Instance OwnerReference_eq : EqDecision OwnerReference. Proof. dec_eq. Defined.
#[export] Instance ObjectMeta_eq : EqDecision ObjectMeta. Proof. dec_eq. Defined.
#[export] Instance NamespacedName_eq : EqDecision NamespacedName. Proof. dec_eq. Defined.
#[export] Instance AutheliaReference_eq : EqDecision AutheliaReference. Proof. dec_eq. Defined.
#[export] Instance OAuthClientSpec_eq : EqDecision AutheliaOAuthClientSpec. Proof. dec_eq. Defined.
#[export] Instance OAuthClientStatus_eq : EqDecision AutheliaOAuthClientStatus. Proof. dec_eq. Defined.
#[export] Instance OAuthClient_eq : EqDecision AutheliaOAuthClient. Proof. dec_eq. Defined.
#[export] Instance SecretKeyRef_eq : EqDecision SecretKeyRef. Proof. dec_eq. Defined.
#[export] Instance AutheliaSecret_eq : EqDecision AutheliaSecret. Proof. dec_eq. Defined.
#[export] Instance RawExtension_eq : EqDecision RawExtension. Proof. dec_eq. Defined.
#[export] Instance AutheliaSettings_eq : EqDecision AutheliaSettings. Proof. dec_eq. Defined.
#[export] Instance ResourceRequirements_eq : EqDecision ResourceRequirements. Proof. dec_eq. Defined.
#[export] Instance AutheliaDeploymentSpec_eq : EqDecision AutheliaDeploymentSpec. Proof. dec_eq. Defined.
#[export] Instance AutheliaSpec_eq : EqDecision AutheliaSpec. Proof. dec_eq. Defined.
#[export] Instance AutheliaStatus_eq : EqDecision AutheliaStatus. Proof. dec_eq. Defined.
#[export] Instance Authelia_eq : EqDecision Authelia. Proof. dec_eq. Defined.
#[export] Instance Ingress_eq : EqDecision Ingress. Proof. dec_eq. Defined.
#[export] Instance Secret_eq : EqDecision Secret. Proof. dec_eq. Defined.
#[export] Instance ConfigMap_eq : EqDecision ConfigMap. Proof. dec_eq. Defined.
#[export] Instance ServicePort_eq : EqDecision ServicePort. Proof. dec_eq. Defined.
#[export] Instance ServiceSpec_eq : EqDecision ServiceSpec. Proof. dec_eq. Defined.
#[export] Instance Service_eq : EqDecision Service. Proof. dec_eq. Defined.
#[export] Instance PVC_eq : EqDecision PersistentVolumeClaim. Proof. dec_eq. Defined.
#[export] Instance SecretKeySelector_eq : EqDecision SecretKeySelector. Proof. dec_eq. Defined.
#[export] Instance EnvVar_eq : EqDecision EnvVar. Proof. dec_eq. Defined.
#[export] Instance VolumeMount_eq : EqDecision VolumeMount. Proof. dec_eq. Defined.
#[export] Instance VolumeSource_eq : EqDecision VolumeSource. Proof. dec_eq. Defined.
#[export] Instance Volume_eq : EqDecision Volume. Proof. dec_eq. Defined.
#[export] Instance Probe_eq : EqDecision Probe. Proof. dec_eq. Defined.
#[export] Instance ContainerPort_eq : EqDecision ContainerPort. Proof. dec_eq. Defined.
#[export] Instance Container_eq : EqDecision Container. Proof. dec_eq. Defined.
#[export] Instance PodSpec_eq : EqDecision PodSpec. Proof. dec_eq. Defined.
#[export] Instance PodTemplateSpec_eq : EqDecision PodTemplateSpec. Proof. dec_eq. Defined.
#[export] Instance DeploymentSpec_eq : EqDecision DeploymentSpec. Proof. dec_eq. Defined.
#[export] Instance au_Deploymenteq : EqDecision Deployment. Proof. dec_eq. Defined.

#[export] Instance NamespacedName_countable : Countable NamespacedName.
Proof.
  refine (inj_countable' (fun n => (nn_Namespace n, nn_Name n))
                         (fun p => mkNamespacedName p.1 p.2) _).
  by intros [].
Defined.
