(* ===== verification/Secrets.v ===== *)
(** [internal/controller/secrets.go]: names and content of the core Secret, the
    generators of random values, and the digest of an OIDC client secret. *)

From stdpp Require Import pretty.
From S2P Require Import Prelude GoStrings GoCrypto ApiTypes.

(** Keys of the core secret. *)
Definition keySessionEncryption : string := "SESSION_ENCRYPTION_KEY".
Definition keyStorageEncryption : string := "STORAGE_ENCRYPTION_KEY".
Definition keyOIDCHMACSecret : string := "OIDC_HMAC_SECRET".
Definition keyOIDCPrivateKey : string := "OIDC_PRIVATE_KEY".

Definition alphanumeric : string :=
  "ABCDEFGHIJKLMNOPQRSTUVWXYZabcdefghijklmnopqrstuvwxyz0123456789".

Definition pbkdf2Iterations : N := 310000.

(** The alphabet of [crypt64]: standard base64 with '+' replaced by '.', without
    padding. *)
Definition crypt64 : list N :=
  bytes_of "ABCDEFGHIJKLMNOPQRSTUVWXYZabcdefghijklmnopqrstuvwxyz0123456789./".

(** [fmt.Sprintf("$pbkdf2-sha512$%d$%s$%s", pbkdf2Iterations, salt, key)] *)
Definition digest_string (salt key : list N) : string :=
  "$pbkdf2-sha512$" +:+ pretty pbkdf2Iterations +:+ "$"
  +:+ EncodeToString_raw crypt64 salt +:+ "$" +:+ EncodeToString_raw crypt64 key.

Definition hashClientSecret (secret : string) : M entropy string :=
  salt ← ReadFull 16;
  match pbkdf2_Key SHA512 (bytes_of secret) salt pbkdf2Iterations 64 with
  | Ok key => mret (digest_string salt key)
  | Err e => throw (ErrWrap "deriving pbkdf2 key: " e)
  | Panic p => lift (Panic p)
  end.

Definition coreSecretName (a : Authelia) : string :=
  if decide (ExistingSecret (au_Deployment (au_Spec a)) <> "")
  then ExistingSecret (au_Deployment (au_Spec a))
  else au_Name a +:+ "-secrets".

(** One character per index drawn from [rand.Int]. *)
Fixpoint alphanumeric_loop (max : N) (n : nat) : M entropy (list N) :=
  match n with
  | O => mret []
  | S n' =>
    idx ← rand_Int max;
    rest ← alphanumeric_loop max n';
    mret (nth (N.to_nat idx) (bytes_of alphanumeric) 0%N :: rest)
  end.

Definition generateAlphanumeric (n : nat) : M entropy string :=
  buf ← alphanumeric_loop (N.of_nat (String.length alphanumeric)) n;
  mret (string_of buf).

Section generators.
Context `{RSA}.

Definition generateRSAPrivateKeyPEM : M entropy string :=
  try (GenerateKey 4096) (fun r =>
    match r with
    | inr err => throw (ErrWrap "generating RSA key: " err)
    | inl key => mret (pem_EncodeToMemory "RSA PRIVATE KEY" (MarshalPKCS1PrivateKey key))
    end).

(** The loop over the alphanumeric keys; [len(data[key]) > 0] skips a key. *)
Fixpoint fill_alphanumeric (keys : list string) (data : gmap string string) :
    M entropy (gmap string string) :=
  match keys with
  | [] => mret data
  | key :: keys' =>
    if decide (default "" (data !! key) <> "") then fill_alphanumeric keys' data
    else v ← generateAlphanumeric 64; fill_alphanumeric keys' (<[key := v]> data)
  end.

Definition generatedCoreSecretData (data : gomap string) : M entropy (gmap string string) :=
  data ← fill_alphanumeric [keySessionEncryption; keyStorageEncryption; keyOIDCHMACSecret]
                           (content data);
  if decide (default "" (data !! keyOIDCPrivateKey) = "")
  then pemBytes ← generateRSAPrivateKeyPEM; mret (<[keyOIDCPrivateKey := pemBytes]> data)
  else mret data.
End generators.

(** * Specification vocabulary *)

(** A key with a non-empty value. *)
Definition has_value (data : gmap string string) (k : string) : Prop :=
  default "" (data !! k) <> "".
#[export] Instance has_value_dec data k : Decision (has_value data k).
Proof. unfold has_value. apply _. Defined.

Definition alphanumeric_keys : list string :=
  [keySessionEncryption; keyStorageEncryption; keyOIDCHMACSecret].
Definition core_keys : list string := alphanumeric_keys ++ [keyOIDCPrivateKey].

(** The index a random byte stands for: its low six bits, if below 62. *)
Definition accepts (b : N) : Prop := (N.land b 63 < 62)%N.
#[export] Instance accepts_dec b : Decision (accepts b).
Proof. unfold accepts. apply _. Defined.

(** The character a random byte is mapped to. *)
Definition char_of (b : N) : N := nth (N.to_nat (N.land b 63)) (bytes_of alphanumeric) 0%N.

(** The 256 values of a byte. *)
Definition all_bytes : list N := N.of_nat <$> seq 0 256.

(** An alphanumeric value of 64 characters. *)
Definition good_alphanumeric (s : string) : Prop :=
  String.length s = 64 /\ Forall (.∈ bytes_of alphanumeric) (bytes_of s).

(** [digest_string] read back: the fields between the dollar signs, decoded. *)
Fixpoint split_dollar (l : list N) : list (list N) :=
  match l with
  | [] => [[]]
  | c :: l' => if (c =? 36)%N then [] :: split_dollar l'
               else match split_dollar l' with f :: fs => (c :: f) :: fs | [] => [[c]] end
  end.
Definition parse_digest (s : string) : option (list N * list N) :=
  match split_dollar (bytes_of s) with
  | [_; _; _; salt; key] =>
    Some (DecodeString_raw crypt64 (string_of salt), DecodeString_raw crypt64 (string_of key))
  | _ => None
  end.

(** [digest] is the PBKDF2 digest of [secret] under some 16-byte salt: what
    Authelia checks when the client presents its secret. *)
Definition digest_of (secret digest : string) : Prop :=
  exists salt key, length salt = 16 /\ bytes_ok salt /\
    pbkdf2_Key SHA512 (bytes_of secret) salt pbkdf2Iterations 64 = Ok key /\
    digest = digest_string salt key.

(** * Random alphanumeric values *)

Fixpoint next_accepted (tape : entropy) : outcome N * entropy :=
  match tape with
  | [] => (Err ErrEntropy, [])
  | b :: t => if decide (accepts b) then (Ok (N.land b 63), t) else next_accepted t
  end.

Lemma rand_Int_62 tape : rand_Int 62 tape = next_accepted tape.
Proof.
  change (rand_Int 62 tape) with (rand_Int_loop (S (length tape)) 1 63 62 tape).
  induction tape as [|b t IH]; [done|].
  change (rand_Int_loop (S (length (b :: t))) 1 63 62 (b :: t)) with
    (if (N.land b 63 <? 62)%N then (Ok (N.land b 63), t)
     else rand_Int_loop (S (length t)) 1 63 62 t).
  simpl next_accepted. unfold accepts.
  destruct (N.ltb_spec (N.land b 63) 62); case_decide; [done|lia|lia|apply IH].
Qed.

Lemma alphanumeric_loop_ok n tape :
  n <= length (filter accepts tape) ->
  exists rest, alphanumeric_loop 62 n tape = (Ok (char_of <$> take n (filter accepts tape)), rest)
    /\ rest `suffix_of` tape.
Proof.
  revert tape. induction n as [|n IH]; intros tape Hn.
  { exists tape. done. }
  simpl alphanumeric_loop. unfold mbind, M_bind. rewrite rand_Int_62.
  induction tape as [|b t IHt]; [simpl in Hn; lia|].
  rewrite filter_cons in Hn |- *. simpl next_accepted.
  case_decide as Hb.
  - simpl in Hn. destruct (IH t ltac:(lia)) as (rest & -> & Hr).
    exists rest. split; [done|]. by apply suffix_cons_r.
  - destruct (IHt Hn) as (rest & -> & Hr). exists rest. split; [done|]. by apply suffix_cons_r.
Qed.

Lemma alphanumeric_loop_err n tape :
  length (filter accepts tape) < n -> (alphanumeric_loop 62 n tape).1 = Err ErrEntropy.
Proof.
  revert tape. induction n as [|n IH]; intros tape Hn; [lia|].
  simpl alphanumeric_loop. unfold mbind, M_bind. rewrite rand_Int_62.
  induction tape as [|b t IHt]; [done|].
  rewrite filter_cons in Hn. simpl next_accepted. case_decide as Hb; [|by apply IHt].
  simpl in Hn. specialize (IH t ltac:(lia)).
  by destruct (alphanumeric_loop 62 n t) as [[?|?|?] ?]; simplify_eq/=.
Qed.

Lemma alphanumeric_ok : alphabet_ok crypt64 /\ bytes_ok (bytes_of alphanumeric).
Proof.
  split; [split; [|split; [done|apply bytes_of_bound]]|apply bytes_of_bound].
  apply (bool_decide_unpack _). by vm_compute.
Qed.

Lemma char_of_elem b : accepts b -> char_of b ∈ bytes_of alphanumeric.
Proof.
  intros Hb. unfold char_of. apply list_elem_of_In, nth_In.
  unfold accepts in Hb. change (length (bytes_of alphanumeric)) with 62. lia.
Qed.

Lemma generateAlphanumeric_ok n tape s rest :
  generateAlphanumeric n tape = (Ok s, rest) ->
  s = string_of (char_of <$> take n (filter accepts tape)) /\ rest `suffix_of` tape
  /\ n <= length (filter accepts tape).
Proof.
  unfold generateAlphanumeric. change (N.of_nat (String.length alphanumeric)) with 62%N.
  intros H. inv_bind H.
  destruct (decide (n <= length (filter accepts tape))) as [Hn|Hn].
  - destruct (alphanumeric_loop_ok n tape Hn) as (r & Hl & Hr).
    rewrite Hl in Hm. simplify_eq. unfold mret, M_ret in Hk. by simplify_eq.
  - pose proof (alphanumeric_loop_err n tape ltac:(lia)) as He. by rewrite Hm in He.
Qed.

Lemma generateAlphanumeric_no_panic n : no_panic (generateAlphanumeric n).
Proof.
  unfold generateAlphanumeric. apply no_panic_bind; [|intros; apply no_panic_ret].
  generalize (N.of_nat (String.length alphanumeric)). intros max.
  induction n as [|n IH]; simpl; auto with go.
Qed.

Lemma good_alphanumeric_take n tape :
  n <= length (filter accepts tape) -> n = 64 ->
  good_alphanumeric (string_of (char_of <$> take n (filter accepts tape))).
Proof.
  intros Hn ->. split.
  - rewrite length_string_of, length_fmap, length_take. lia.
  - assert (Forall (.∈ bytes_of alphanumeric) (char_of <$> take 64 (filter accepts tape))) as H.
    { apply Forall_fmap, Forall_take, Forall_forall. intros b [Hb _]%list_elem_of_filter.
      by apply char_of_elem. }
    rewrite bytes_of_string_of; [done|]. eapply Forall_impl; [exact H|].
    intros c Hc. destruct alphanumeric_ok as [_ Hb]. rewrite Forall_forall in Hb. by apply Hb.
Qed.

(** C35: the value of [generateAlphanumeric n] is a function of the accepted bytes
    of the tape, and the only failure is running out of them. *)
Theorem generateAlphanumeric_spec n tape :
  (generateAlphanumeric n tape).1 =
    if decide (n <= length (filter accepts tape))
    then Ok (string_of (char_of <$> take n (filter accepts tape)))
    else Err ErrEntropy.
Proof.
  destruct (generateAlphanumeric n tape) as [[s|e|p] rest] eqn:E; simpl.
  - apply generateAlphanumeric_ok in E as (-> & _ & Hn). by rewrite decide_True.
  - unfold generateAlphanumeric in E. change (N.of_nat (String.length alphanumeric)) with 62%N in E.
    unfold mbind, M_bind in E. case_decide as Hn.
    + destruct (alphanumeric_loop_ok n tape Hn) as (r & Hl & _). by rewrite Hl in E.
    + pose proof (alphanumeric_loop_err n tape ltac:(lia)) as He.
      destruct (alphanumeric_loop 62 n tape) as [[?|?|?] ?]; by simplify_eq/=.
  - pose proof (generateAlphanumeric_no_panic n tape p) as Hp. by rewrite E in Hp.
Qed.

(** * Uniformity *)

(** All byte tapes of a length. *)
Fixpoint tapes (L : nat) : list entropy :=
  match L with
  | O => [[]]
  | S L' => b ← all_bytes; cons b <$> tapes L'
  end.

(** How many tapes of length [L] make [generateAlphanumeric n] return [s]. *)
Definition outcomes (n L : nat) (s : string) : nat :=
  length (filter (fun t => (generateAlphanumeric n t).1 = Ok s) (tapes L)).

(** The tapes whose accepted bytes begin with the characters [l]. *)
Definition begins (l : list N) (t : entropy) : Prop := l `prefix_of` (char_of <$> filter accepts t).
#[local] Instance begins_dec l t : Decision (begins l t).
Proof. unfold begins. apply _. Defined.

Lemma generateAlphanumeric_begins s t :
  (generateAlphanumeric (String.length s) t).1 = Ok s <-> begins (bytes_of s) t.
Proof.
  rewrite generateAlphanumeric_spec, <- length_bytes_of. unfold begins. case_decide as Hn.
  - rewrite fmap_take.
    assert (Forall (fun c => c < 256)%N (char_of <$> filter accepts t)) as Hb.
    { apply Forall_fmap, Forall_forall. intros b [Hb _]%list_elem_of_filter.
      destruct alphanumeric_ok as [_ Hok]. rewrite Forall_forall in Hok. by apply Hok, char_of_elem. }
    split.
    + intros [= E%(f_equal bytes_of)]. rewrite bytes_of_string_of in E by by apply Forall_take.
      rewrite <- E at 1. exists (drop (length (bytes_of s)) (char_of <$> filter accepts t)). by rewrite take_drop.
    + intros [l ->]. by rewrite take_app_length, string_of_bytes_of.
  - split; [done|]. intros Hp%prefix_length. by rewrite length_fmap in Hp.
Qed.

Lemma outcomes_begins s L :
  outcomes (String.length s) L s = length (filter (begins (bytes_of s)) (tapes L)).
Proof. unfold outcomes. f_equal. apply list_filter_iff. intros t. apply generateAlphanumeric_begins. Qed.

(** The first byte of a tape: rejected, the first character, or another one. *)
Lemma begins_cons c l b t :
  begins (c :: l) (b :: t) <->
    if decide (accepts b) then char_of b = c /\ begins l t else begins (c :: l) t.
Proof.
  unfold begins. rewrite filter_cons. case_decide; [|done]. simpl. split.
  - intros Hp. split; [symmetry; by eapply prefix_cons_inv_1|by eapply prefix_cons_inv_2].
  - intros [-> Hp]. by apply prefix_cons.
Qed.

Lemma length_filter_fmap {A B} (f : A -> B) (P : B -> Prop) (Q : A -> Prop) `{!forall x, Decision (P x), !forall x, Decision (Q x)} l :
  (forall x, P (f x) <-> Q x) -> length (filter P (f <$> l)) = length (filter Q l).
Proof.
  intros E. induction l as [|x l IH]; [done|]. rewrite fmap_cons, !filter_cons.
  destruct (decide (P (f x))), (decide (Q x)); try (by (exfalso; apply E in p || apply E in q)); simpl; naive_solver.
Qed.

(** One more byte on the tapes. *)
Lemma count_cons c l bs T :
  length (filter (begins (c :: l)) (b ← bs; cons b <$> T)) =
    length (filter (fun b => ~ accepts b) bs) * length (filter (begins (c :: l)) T) +
    length (filter (fun b => char_of b = c) (filter accepts bs)) * length (filter (begins l) T).
Proof.
  induction bs as [|b bs IH]; [done|].
  rewrite bind_cons, filter_app, length_app, IH, !filter_cons.
  destruct (decide (accepts b)) as [Hb|Hb].
  - rewrite (decide_False (P := ~ accepts b)) by tauto. rewrite filter_cons. case_decide as Hc; simpl.
    + rewrite (length_filter_fmap _ _ (begins l)); [lia|].
      intros t. rewrite begins_cons, decide_True by done. tauto.
    + rewrite (length_filter_fmap _ _ (fun _ => False)).
      * assert (filter (fun _ => False) T = []) as -> by (apply elem_of_nil_inv; by intros t [? _]%list_elem_of_filter).
        simpl. lia.
      * intros t. rewrite begins_cons, decide_True by done. tauto.
  - rewrite decide_True by done. simpl.
    rewrite (length_filter_fmap _ _ (begins (c :: l))); [lia|].
    intros t. by rewrite begins_cons, decide_False.
Qed.

(** Of the 256 bytes 8 are rejected, and 4 stand for each character. *)
Lemma bytes_per_char c :
  c ∈ bytes_of alphanumeric -> length (filter (fun b => char_of b = c) (filter accepts all_bytes)) = 4.
Proof.
  assert (Forall (fun c => length (filter (fun b => char_of b = c) (filter accepts all_bytes)) = 4)
            (bytes_of alphanumeric)) as H.
  { apply (bool_decide_unpack _). by vm_compute. }
  rewrite Forall_forall in H. apply H.
Qed.
Lemma bytes_rejected : length (filter (fun b => ~ accepts b) all_bytes) = 8.
Proof. by vm_compute. Qed.

Lemma tapes_nonempty L : 0 < length (tapes L).
Proof.
  induction L as [|L IH]; [simpl; lia|].
  change (tapes (S L)) with ((cons 0%N <$> tapes L) ++ (b ← tail all_bytes; cons b <$> tapes L)).
  rewrite length_app, length_fmap. lia.
Qed.

Lemma filter_begins_nil (T : list entropy) : filter (begins []) T = T.
Proof. induction T as [|t T IH]; [done|]. rewrite filter_cons, IH. by rewrite decide_True by apply prefix_nil. Qed.

Lemma count_uniform L l l' :
  length l = length l' -> Forall (.∈ bytes_of alphanumeric) l -> Forall (.∈ bytes_of alphanumeric) l' ->
  length (filter (begins l) (tapes L)) = length (filter (begins l') (tapes L)) /\
  (length l <= L -> 0 < length (filter (begins l) (tapes L))).
Proof.
  revert l l'. induction L as [|L IH]; intros [|c l] [|c' l'] Hl H H'; try done.
  1, 3: split; [done|intros _]; rewrite filter_begins_nil; apply tapes_nonempty.
  - split; [done|simpl; lia].
  - inversion H as [|? ? Hc Hr]; inversion H' as [|? ? Hc' Hr']; subst.
    cbn [tapes]. rewrite !count_cons, bytes_rejected, !bytes_per_char by done.
    destruct (IH (c :: l) (c' :: l') Hl H H') as [-> _]. injection Hl as Hl.
    destruct (IH l l' Hl Hr Hr') as [E Hpos]. rewrite E in *. split; [done|]. simpl. lia.
Qed.

(** C36: the generator is uniform.  Among all byte tapes of a given length, equally
    many make [generateAlphanumeric n] return any one string of [n] characters of
    the alphabet as any other, and when the tape has at least [n] bytes every such
    string does occur.  So from uniform bytes no value is more likely than
    another. *)
Theorem generateAlphanumeric_unbiased n L s s' :
  String.length s = n -> String.length s' = n ->
  Forall (.∈ bytes_of alphanumeric) (bytes_of s) -> Forall (.∈ bytes_of alphanumeric) (bytes_of s') ->
  outcomes n L s = outcomes n L s' /\ (n <= L -> 0 < outcomes n L s).
Proof.
  intros <- Hl Hs Hs'. rewrite <- Hl at 2. rewrite !outcomes_begins, <- length_bytes_of.
  apply count_uniform; [by rewrite !length_bytes_of|done|done].
Qed.

(** * The core secret *)

Section core_secret.
Context `{RSA}.

(** What filling does: values stay, every listed key ends with a value, a value
    that was missing is a fresh alphanumeric one, other keys are untouched. *)
Lemma fill_alphanumeric_ok keys data tape d' rest :
  fill_alphanumeric keys data tape = (Ok d', rest) ->
  (forall k, has_value data k \/ k ∉ keys -> d' !! k = data !! k) /\
  (forall k, k ∈ keys -> has_value d' k) /\
  (forall k, k ∈ keys -> ~ has_value data k -> exists s, d' !! k = Some s /\ good_alphanumeric s).
Proof.
  revert data tape. induction keys as [|key keys IH]; intros data tape Hf; simpl in Hf.
  { unfold mret, M_ret in Hf. simplify_eq. split; [done|]. split; intros k []%elem_of_nil. }
  case_decide as Hkey.
  - destruct (IH _ _ Hf) as (Hkeep & Hall & Hnew). split; [|split].
    + intros k [Hk|Hk]; apply Hkeep; [by left|right; list_mem].
    + intros k [->|Hk]%elem_of_cons; [|by apply Hall].
      unfold has_value. by rewrite Hkeep by by left.
    + intros k [->|Hk]%elem_of_cons Hn; [done|by apply Hnew].
  - inv_bind Hf. apply generateAlphanumeric_ok in Hm as (-> & _ & Hn).
    pose proof (good_alphanumeric_take 64 tape Hn eq_refl) as Hgood.
    set (v := string_of _) in *. destruct (IH _ _ Hk) as (Hkeep & Hall & Hnew).
    assert (has_value (<[key := v]> data) key) as Hv.
    { unfold has_value. rewrite lookup_insert_eq. simpl. intros Hv. rewrite Hv in Hgood.
      by destruct Hgood. }
    assert (forall k, k <> key -> has_value (<[key := v]> data) k <-> has_value data k) as Hne.
    { intros k Hne. unfold has_value. by rewrite lookup_insert_ne. }
    split; [|split].
    + intros k Hk'. assert (k <> key) as Hkk by (intros ->; destruct Hk' as [?|Hk']; [done|list_mem]).
      rewrite Hkeep; [by rewrite lookup_insert_ne|]. rewrite Hne by done. list_mem.
    + intros k [->|Hk']%elem_of_cons; [|by apply Hall].
      unfold has_value. by rewrite Hkeep by by left.
    + intros k Hk' Hn'. destruct (decide (k = key)) as [->|Hkk].
      * exists v. split; [|done]. rewrite Hkeep by by left. apply lookup_insert_eq.
      * apply Hnew; [list_mem|]. by rewrite Hne.
Qed.

(** Nothing to fill: no entropy is used. *)
Lemma fill_alphanumeric_id keys data tape :
  (forall k, k ∈ keys -> has_value data k) ->
  fill_alphanumeric keys data tape = (Ok data, tape).
Proof.
  induction keys as [|key keys IH]; intros Hall; [done|]. simpl.
  rewrite decide_True by (apply Hall; list_mem). apply IH. intros k Hk. apply Hall. list_mem.
Qed.

Lemma fill_alphanumeric_no_panic keys data : no_panic (fill_alphanumeric keys data).
Proof.
  revert data. induction keys as [|key keys IH]; intros data; simpl; [apply no_panic_ret|].
  case_decide; [apply IH|]. apply no_panic_bind; [apply generateAlphanumeric_no_panic|done].
Qed.

Lemma generateRSAPrivateKeyPEM_ok tape s rest :
  generateRSAPrivateKeyPEM tape = (Ok s, rest) ->
  exists key, GenerateKey 4096 tape = (Ok key, rest) /\
    s = pem_EncodeToMemory "RSA PRIVATE KEY" (MarshalPKCS1PrivateKey key).
Proof.
  unfold generateRSAPrivateKeyPEM. intros Hg.
  apply try_Ok in Hg as [(key & w & Hg & Hk)|(e & w & Hg & Hk)]; [|done].
  unfold mret, M_ret in Hk. simplify_eq. eauto.
Qed.

Lemma pem_nonempty type bytes : pem_EncodeToMemory type bytes <> "".
Proof. done. Qed.

(** The four facts about a successful run, from which the properties follow. *)
Lemma generatedCoreSecretData_ok data tape d' rest :
  generatedCoreSecretData data tape = (Ok d', rest) ->
  (forall k, has_value (content data) k \/ k ∉ core_keys -> d' !! k = content data !! k) /\
  (forall k, k ∈ core_keys -> has_value d' k) /\
  (forall k, k ∈ alphanumeric_keys -> ~ has_value (content data) k ->
    exists s, d' !! k = Some s /\ good_alphanumeric s) /\
  (~ has_value (content data) keyOIDCPrivateKey ->
    exists key t, GenerateKey 4096 t = (Ok key, rest) /\
      d' !! keyOIDCPrivateKey
      = Some (pem_EncodeToMemory "RSA PRIVATE KEY" (MarshalPKCS1PrivateKey key))).
Proof.
  unfold generatedCoreSecretData. intros Hg. inv_bind Hg.
  apply fill_alphanumeric_ok in Hm as (Hkeep & Hall & Hnew).
  fold alphanumeric_keys in *.
  assert (keyOIDCPrivateKey ∉ alphanumeric_keys) as Hpk
    by (apply (bool_decide_unpack _); by vm_compute).
  assert (has_value a keyOIDCPrivateKey <-> has_value (content data) keyOIDCPrivateKey) as Hpv.
  { unfold has_value. by rewrite Hkeep by by right. }
  case_decide as Hp.
  - inv_bind Hk. apply generateRSAPrivateKeyPEM_ok in Hm as (key & Hgen & ->).
    unfold mret, M_ret in Hk0. simplify_eq.
    assert (~ has_value (content data) keyOIDCPrivateKey) as Hno.
    { rewrite <- Hpv. unfold has_value. tauto. }
    split; [|split; [|split]].
    + intros k Hk. assert (k <> keyOIDCPrivateKey).
      { intros ->. destruct Hk as [Hk|Hk]; [done|]. apply Hk.
        apply elem_of_app. right. by apply list_elem_of_singleton. }
      rewrite lookup_insert_ne by done. apply Hkeep. destruct Hk as [Hk|Hk]; [by left|right].
      intros Hin. apply Hk. apply elem_of_app. by left.
    + intros k [Hk|Hk]%elem_of_app.
      * unfold has_value. rewrite lookup_insert_ne by list_mem. by apply Hall.
      * apply list_elem_of_singleton in Hk as ->. unfold has_value.
        rewrite lookup_insert_eq. simpl. apply pem_nonempty.
    + intros k Hk Hn. rewrite lookup_insert_ne by list_mem. by apply Hnew.
    + intros _. exists key, w. split; [done|]. by rewrite lookup_insert_eq.
  - unfold mret, M_ret in Hk. simplify_eq.
    assert (has_value d' keyOIDCPrivateKey) as Hp' by done.
    split; [|split; [|split]].
    + intros k Hk. apply Hkeep. destruct Hk as [Hk|Hk]; [by left|right].
      intros Hin. apply Hk. apply elem_of_app. by left.
    + intros k [Hk|Hk]%elem_of_app; [by apply Hall|].
      by apply list_elem_of_singleton in Hk as ->.
    + done.
    + intros Hn. by rewrite <- Hpv in Hn.
Qed.

Lemma generatedCoreSecretData_no_panic data : no_panic (generatedCoreSecretData data).
Proof.
  unfold generatedCoreSecretData. apply no_panic_bind; [apply fill_alphanumeric_no_panic|].
  intros d. case_decide; [|apply no_panic_ret].
  apply no_panic_bind; [|intros; apply no_panic_ret].
  apply no_panic_try; [apply GenerateKey_no_panic|]. intros [?|?]; [apply no_panic_ret|apply no_panic_throw].
Qed.

Lemma generatedCoreSecretData_id data tape :
  (forall k, k ∈ core_keys -> has_value data k) ->
  generatedCoreSecretData (Some data) tape = (Ok data, tape).
Proof.
  intros Hall. unfold generatedCoreSecretData, mbind, M_bind. cbn [content default].
  rewrite fill_alphanumeric_id by (intros k Hk; apply Hall, elem_of_app; by left).
  rewrite decide_False; [done|]. apply Hall, elem_of_app. right. by apply list_elem_of_singleton.
Qed.
End core_secret.

(** * Properties *)

(** a successful run never changes a value that was there: keys with a
    non-empty value and keys that are not core keys are the same afterwards. *)
Theorem core_secret_never_rotated `{RSA} data tape d' rest k :
  generatedCoreSecretData data tape = (Ok d', rest) ->
  has_value (content data) k \/ k ∉ core_keys ->
  d' !! k = content data !! k.
Proof. intros Hg. by apply (generatedCoreSecretData_ok _ _ _ _ Hg). Qed.

(** C33: after a successful run every core key has a value; the alphanumeric keys
    that were missing got 64 characters of the alphabet, a missing private key a
    PEM block of a freshly generated 4096-bit key. *)
Theorem core_secret_complete `{RSA} data tape d' rest :
  generatedCoreSecretData data tape = (Ok d', rest) ->
  (forall k, k ∈ core_keys -> has_value d' k) /\
  (forall k, k ∈ alphanumeric_keys -> ~ has_value (content data) k ->
    exists s, d' !! k = Some s /\ good_alphanumeric s) /\
  (~ has_value (content data) keyOIDCPrivateKey ->
    exists key t, GenerateKey 4096 t = (Ok key, rest) /\
      d' !! keyOIDCPrivateKey
      = Some (pem_EncodeToMemory "RSA PRIVATE KEY" (MarshalPKCS1PrivateKey key))).
Proof. intros Hg. by destruct (generatedCoreSecretData_ok _ _ _ _ Hg) as (_ & ? & ? & ?). Qed.

(** running again on the result changes nothing and draws no entropy. *)
Theorem core_secret_idempotent `{RSA} data tape d' rest tape' :
  generatedCoreSecretData data tape = (Ok d', rest) ->
  generatedCoreSecretData (Some d') tape' = (Ok d', tape').
Proof.
  intros Hg. apply generatedCoreSecretData_id. by apply (generatedCoreSecretData_ok _ _ _ _ Hg).
Qed.

(** * The digest of a client secret *)

Lemma split_dollar_field l rest :
  Forall (fun c => c <> 36%N) l -> split_dollar (l ++ 36%N :: rest) = l :: split_dollar rest.
Proof.
  induction 1 as [|c l Hc _ IH]; [done|]. simpl. rewrite IH.
  by destruct (N.eqb_spec c 36).
Qed.
Lemma split_dollar_last l : Forall (fun c => c <> 36%N) l -> split_dollar l = [l].
Proof.
  induction 1 as [|c l Hc _ IH]; [done|]. simpl. rewrite IH. by destruct (N.eqb_spec c 36).
Qed.

Lemma crypt64_no_dollar bs :
  bytes_ok bs -> Forall (fun c => c <> 36%N) (bytes_of (EncodeToString_raw crypt64 bs)).
Proof.
  intros Hb. eapply Forall_impl; [apply EncodeToString_raw_chars; [apply alphanumeric_ok|done]|].
  intros c Hc ->. revert Hc. apply (bool_decide_unpack _). by vm_compute.
Qed.

(** Reading a digest back gives the salt and the key it was made from. *)
Lemma parse_digest_string salt key :
  bytes_ok salt -> bytes_ok key -> parse_digest (digest_string salt key) = Some (salt, key).
Proof.
  intros Hs Hk. unfold parse_digest.
  assert (pretty pbkdf2Iterations = "310000") as Hp by by vm_compute.
  assert (bytes_of (digest_string salt key)
    = [] ++ 36%N :: bytes_of "pbkdf2-sha512" ++ 36%N :: bytes_of "310000"
      ++ 36%N :: bytes_of (EncodeToString_raw crypt64 salt)
      ++ 36%N :: bytes_of (EncodeToString_raw crypt64 key)) as ->.
  { unfold digest_string. by rewrite Hp, !bytes_of_app. }
  rewrite !split_dollar_field; try (apply (bool_decide_unpack _); by vm_compute);
    try by apply crypt64_no_dollar.
  rewrite split_dollar_last by by apply crypt64_no_dollar.
  rewrite !string_of_bytes_of, !Decode_Encode_raw; (done || apply alphanumeric_ok).
Qed.

(** The salt is the next 16 bytes of entropy. *)
Lemma hashClientSecret_enough secret tape :
  bytes_ok tape -> 16 <= length tape ->
  exists d, hashClientSecret secret tape = (Ok d, drop 16 tape) /\ digest_of secret d.
Proof.
  intros Hb Hl. unfold hashClientSecret, mbind, M_bind. rewrite ReadFull_ok by done.
  destruct (pbkdf2_Key_64 (bytes_of secret) (take 16 tape) pbkdf2Iterations)
    as (key & Hk & _). rewrite Hk.
  exists (digest_string (take 16 tape) key). split; [done|].
  exists (take 16 tape), key. split; [rewrite length_take; lia|].
  split; [by apply Forall_take|]. split; [exact Hk|reflexivity].
Qed.

Lemma hashClientSecret_short secret tape :
  length tape < 16 -> hashClientSecret secret tape = (Err ErrEntropy, []).
Proof.
  intros Hl. unfold hashClientSecret, mbind, M_bind, ReadFull. by rewrite decide_False by lia.
Qed.

Lemma hashClientSecret_no_panic secret : no_panic (hashClientSecret secret).
Proof.
  unfold hashClientSecret. apply no_panic_bind; [apply ReadFull_no_panic|]. intros salt.
  destruct (pbkdf2_Key_64 (bytes_of secret) salt pbkdf2Iterations) as (key & -> & _).
  apply no_panic_ret.
Qed.

Lemma hashClientSecret_Ok_inv secret tape d rest :
  bytes_ok tape -> hashClientSecret secret tape = (Ok d, rest) ->
  digest_of secret d /\ rest = drop 16 tape.
Proof.
  intros Hb Hh. destruct (decide (16 <= length tape)) as [Hl|Hl].
  - destruct (hashClientSecret_enough secret tape Hb Hl) as (d' & Hd & Ho).
    rewrite Hd in Hh. by simplify_eq.
  - by rewrite hashClientSecret_short in Hh by lia.
Qed.

Lemma digest_nonempty secret d : digest_of secret d -> d <> "".
Proof. by intros (salt & key & _ & _ & _ & ->). Qed.

(** C34: [hashClientSecret] succeeds exactly when 16 bytes of entropy are left;
    what it returns lets a verifier read back a 16-byte salt and the 64-byte key
    that PBKDF2-SHA512 with 310000 iterations derives from the secret and that
    salt (so the digest matches the secret). *)
Theorem hashClientSecret_spec secret tape :
  bytes_ok tape ->
  match hashClientSecret secret tape with
  | (Ok d, rest) =>
    exists salt key, tape = salt ++ rest /\ length salt = 16 /\
      parse_digest d = Some (salt, key) /\ length key = 64 /\
      pbkdf2_Key SHA512 (bytes_of secret) salt 310000 64 = Ok key
  | (Err e, _) => e = ErrEntropy /\ length tape < 16
  | (Panic _, _) => False
  end.
Proof.
  intros Hb. destruct (decide (16 <= length tape)) as [Hl|Hl].
  - unfold hashClientSecret, mbind, M_bind. rewrite ReadFull_ok by done.
    destruct (pbkdf2_Key_64 (bytes_of secret) (take 16 tape) pbkdf2Iterations)
      as (key & Hk & Hlen & Hkb). rewrite Hk. unfold mret, M_ret.
    exists (take 16 tape), key. split; [by rewrite take_drop|].
    split; [rewrite length_take; lia|].
    split; [apply parse_digest_string; [by apply Forall_take|exact Hkb]|].
    split; [exact Hlen|exact Hk].
  - rewrite hashClientSecret_short by lia. split; [done|lia].
Qed.
