(* ===== verification/Resources.v ===== *)
(** [internal/controller/resources.go]: the desired ConfigMap, Service,
    PersistentVolumeClaim and Deployment of an Authelia, and the names and paths
    that tie them together. *)

From S2P Require Import Prelude GoStrings ApiTypes Secrets.

Definition configMapName (a : Authelia) : string := au_Name a +:+ "-config".
Definition dataPVCName (a : Authelia) : string := au_Name a +:+ "-data".

Definition fileBackendMountPath : string := "/authelia/file-backend".
Definition secretsMountBase : string := "/authelia/secrets".

Definition fileUsersPath (ref : SecretKeyRef) : string :=
  fileBackendMountPath +:+ "/" +:+ skr_Key ref.

Definition isFileSecret (envName : string) : bool := HasSuffix envName "_FILE".

(** [(r >= 'a' && r <= 'z') || (r >= '0' && r <= '9')] *)
Definition is_name_rune (r : N) : bool := is_lower r || is_digit r.
Definition dash : N := 45.
Definition name_rune (r : N) : N := if is_name_rune r then r else dash.

Definition secretVolumeName (envName : string) : string :=
  let b := name_rune <$> runes (bytes_of (ToLower envName)) in
  let name := Trim (string_of (encode_runes b)) "-" in
  if decide (63 < String.length name) then Trim (str_take 63 name) "-" else name.

Definition secretMountPath (envName : string) : string :=
  secretsMountBase +:+ "/" +:+ secretVolumeName envName.

Definition labelsFor (a : Authelia) : gmap string string :=
  {[ "app.kubernetes.io/name" := "authelia";
     "app.kubernetes.io/instance" := au_Name a;
     "app.kubernetes.io/managed-by" := "heliop" ]}.

Definition selectorFor (a : Authelia) : gmap string string :=
  {[ "app.kubernetes.io/name" := "authelia";
     "app.kubernetes.io/instance" := au_Name a ]}.

Definition defaultResources : ResourceRequirements :=
  mkResourceRequirements
    (Some {[ "cpu" := "10m"; "memory" := "50Mi" ]})
    (Some {[ "memory" := "200Mi" ]}) ∅.

(** [metav1.ObjectMeta{Name: ..., Namespace: a.Namespace, Labels: labelsFor(a)}] *)
Definition metaFor (a : Authelia) (name : string) : ObjectMeta :=
  mkObjectMeta name (au_Namespace a) "" (Some (labelsFor a)) None [] ∅.

(** [*a.Spec.Deployment.VolumeClaimTemplate]; the caller checked it is not nil. *)
Definition buildDataPVC (a : Authelia) (template : PersistentVolumeClaimSpec) : PersistentVolumeClaim :=
  mkPersistentVolumeClaim (metaFor a (dataPVCName a)) template ∅.

Definition buildConfigMap (a : Authelia) (renderedConfig : string) : ConfigMap :=
  mkConfigMap (metaFor a (configMapName a))
    (Some {[ "configuration.yaml" := renderedConfig ]}) ∅.

Definition buildService (a : Authelia) : Service :=
  mkService (metaFor a (au_Name a))
    (mkServiceSpec "ClusterIP" (Some (selectorFor a))
       [mkServicePort "http" "TCP" 80 "http"] ∅) ∅.

(** The environment of the Authelia container. *)
Definition coreEnv : list EnvVar :=
  [mkEnvVar "AUTHELIA_SERVER_DISABLE_HEALTHCHECK" "true" None;
   mkEnvVar "AUTHELIA_SESSION_SECRET_FILE" "/secrets/SESSION_ENCRYPTION_KEY" None;
   mkEnvVar "AUTHELIA_STORAGE_ENCRYPTION_KEY_FILE" "/secrets/STORAGE_ENCRYPTION_KEY" None].
Definition oidcEnv : list EnvVar :=
  [mkEnvVar "AUTHELIA_IDENTITY_PROVIDERS_OIDC_HMAC_SECRET_FILE" "/secrets/OIDC_HMAC_SECRET" None;
   mkEnvVar "AUTHELIA_IDENTITY_PROVIDERS_OIDC_ISSUER_PRIVATE_KEY_FILE" "/secrets/OIDC_PRIVATE_KEY" None].

(** What one entry of [settings.Secrets] appends to the environment. *)
Definition secretEnv (s : AutheliaSecret) : list EnvVar :=
  match as_Secret s with
  | None => []
  | Some ref =>
    if isFileSecret (as_Name s)
    then [mkEnvVar (as_Name s) (secretMountPath (as_Name s) +:+ "/" +:+ skr_Key ref) None]
    else [mkEnvVar (as_Name s) "" (Some (mkSecretKeySelector (skr_Name ref) (skr_Key ref)))]
  end.

Definition autheliaFileEnv (settings : AutheliaSettings) (oidcEnabled : bool) : list EnvVar :=
  let env := coreEnv in
  let env := if oidcEnabled then env ++ oidcEnv else env in
  env ++ (Secrets settings ≫= secretEnv).

(** The probes of the container. *)
Definition probe (initialDelay period : Z) : Probe :=
  mkProbe "/api/health" "http" "HTTP" initialDelay period 5 1 5.
Definition startupProbe : Probe :=
  let p := probe 10 5 in
  mkProbe (pr_Path p) (pr_Port p) (pr_Scheme p) (InitialDelaySeconds p) (PeriodSeconds p)
    (TimeoutSeconds p) (SuccessThreshold p) 6.

(** What one entry of [settings.Secrets] appends to the volumes and mounts. *)
Definition secretVolume (s : AutheliaSecret) : list (Volume * VolumeMount) :=
  match as_Secret s with
  | Some ref =>
    if isFileSecret (as_Name s) then
      let name := secretVolumeName (as_Name s) in
      [(mkVolume name (VSSecret (skr_Name ref)),
        mkVolumeMount name (secretMountPath (as_Name s)) "" true)]
    else []
  | None => []
  end.

Definition fileBackendVolume (settings : AutheliaSettings) : list (Volume * VolumeMount) :=
  match FileUsersSecret settings with
  | Some ref => [(mkVolume "file-backend" (VSSecret (skr_Name ref)),
                  mkVolumeMount "file-backend" fileBackendMountPath "" true)]
  | None => []
  end.

Definition dataVolume (a : Authelia) : VolumeSource :=
  match VolumeClaimTemplate (au_Deployment (au_Spec a)) with
  | Some _ => VSPersistentVolumeClaim (dataPVCName a)
  | None => VSEmptyDir
  end.

Definition podVolumes (a : Authelia) : list Volume :=
  [mkVolume "authelia-secret" (VSSecret (coreSecretName a));
   mkVolume "config" (VSConfigMap (configMapName a));
   mkVolume "data" (dataVolume a)]
  ++ (fileBackendVolume (Settings (au_Spec a))).*1
  ++ (Secrets (Settings (au_Spec a)) ≫= secretVolume).*1.

Definition mainMounts (a : Authelia) : list VolumeMount :=
  [mkVolumeMount "config" "/configuration.yaml" "configuration.yaml" true;
   mkVolumeMount "authelia-secret" "/secrets" "" true;
   mkVolumeMount "data" "/data" "" false]
  ++ (fileBackendVolume (Settings (au_Spec a))).*2
  ++ (Secrets (Settings (au_Spec a)) ≫= secretVolume).*2.

Definition checksumAnnotation : string := "heliop.snosr.se/config-checksum".

Definition mainContainer (a : Authelia) (oidcEnabled : bool) : Container :=
  let d := au_Deployment (au_Spec a) in
  let image := if decide (Image d = "") then "ghcr.io/authelia/authelia:4" else Image d in
  let pullPolicy := if decide (ImagePullPolicy d = "") then "IfNotPresent" else ImagePullPolicy d in
  let resources := match Requests (Resources d), Limits (Resources d) with
                   | None, None => defaultResources
                   | _, _ => Resources d
                   end in
  mkContainer "authelia" image pullPolicy ["authelia"] ["--config=/configuration.yaml"]
    (autheliaFileEnv (Settings (au_Spec a)) oidcEnabled) resources
    [mkContainerPort "http" 9091 "TCP"]
    (Some startupProbe) (Some (probe 0 30)) (Some (probe 0 5)) (mainMounts a).

Definition buildDeployment (a : Authelia) (oidcEnabled : bool) (configChecksum : string) : Deployment :=
  let replicas := default 2%Z (Replicas (au_Deployment (au_Spec a))) in
  mkDeployment (metaFor a (au_Name a))
    (mkDeploymentSpec (Some replicas) (Some 1%Z) (selectorFor a)
       (mkPodTemplateSpec (Some (selectorFor a)) (Some {[ checksumAnnotation := configChecksum ]})
          (mkPodSpec (Some false) [mainContainer a oidcEnabled] (podVolumes a))) ∅)
    0 ∅.

(** * Specification vocabulary *)

(** A DNS-1123 label, what Kubernetes requires of a volume name: at most 63
    lower-case letters, digits and dashes, with a letter or digit at both ends. *)
Definition dns_label (s : string) : Prop :=
  let bs := bytes_of s in
  length bs <= 63 /\ Forall (fun c => is_name_rune c = true \/ c = dash) bs /\
  (exists c, head bs = Some c /\ is_name_rune c = true) /\
  (exists c, last bs = Some c /\ is_name_rune c = true).

(** The shape of Authelia's own variable names: upper-case letters, digits and
    underscores, not starting with an underscore, at most 63 characters. *)
Definition canonical_env (s : string) : Prop :=
  let bs := bytes_of s in
  length bs <= 63 /\
  Forall (fun c => is_upper c || is_digit c || (c =? 95)%N = true) bs /\
  head bs <> Some 95%N.

(** The entries of [settings.Secrets] that are mounted as files. *)
Definition file_secret (s : AutheliaSecret) : Prop :=
  is_Some (as_Secret s) /\ isFileSecret (as_Name s) = true.

(** * Volume names *)

Section volume_names.
Local Open Scope N_scope.

Lemma name_rune_ok r : is_name_rune (name_rune r) = true \/ name_rune r = dash.
Proof. unfold name_rune. destruct (is_name_rune r) eqn:E; auto. Qed.

Lemma is_name_rune_bound r : is_name_rune r = true -> r < 128.
Proof.
  unfold is_name_rune, is_lower, is_digit, in_range.
  rewrite orb_true_iff, !andb_true_iff, !N.leb_le. lia.
Qed.

Lemma name_rune_bound r : name_rune r < 128.
Proof.
  destruct (name_rune_ok r) as [H|H]; [by apply is_name_rune_bound|rewrite H; done].
Qed.

(** The characters before trimming. *)
Definition mapped (envName : string) : list N :=
  (name_rune ∘ unicode_ToLower) <$> runes (bytes_of envName).

Lemma bytes_of_Trim l :
  Forall (fun c => c < 128) l -> bytes_of (Trim (string_of l) "-") = trim dash l.
Proof.
  intros Hl. unfold Trim. change (N_of_ascii "-") with dash.
  assert (Forall (fun c => c < 256) l) as Hl' by (eapply Forall_impl; [done|]; simpl; intros; lia).
  rewrite (bytes_of_string_of l) by done.
  apply bytes_of_string_of, Forall_forall. intros c Hc%trim_sublist.
  rewrite Forall_forall in Hl'. by apply Hl'.
Qed.

Lemma mapped_bound e : Forall (fun c => c < 128) (mapped e).
Proof. apply Forall_fmap, Forall_true. intros. apply name_rune_bound. Qed.

Lemma trim_bound l : Forall (fun c => c < 128) l -> Forall (fun c => c < 128) (trim dash l).
Proof.
  rewrite !Forall_forall. intros H c Hc. by apply H, (trim_sublist dash).
Qed.

(** The bytes of a volume name. *)
Lemma secretVolumeName_bytes e :
  bytes_of (secretVolumeName e) =
    let name := trim dash (mapped e) in
    if decide (63 < length name)%nat then trim dash (take 63 name) else name.
Proof.
  unfold secretVolumeName. rewrite runes_ToLower, <- list_fmap_compose. fold (mapped e).
  rewrite encode_runes_ascii by apply mapped_bound.
  set (name := Trim (string_of (mapped e)) "-").
  assert (bytes_of name = trim dash (mapped e)) as Hn by apply bytes_of_Trim, mapped_bound.
  cbv zeta. rewrite <- Hn, length_bytes_of. case_decide; [|done].
  rewrite <- (string_of_bytes_of (str_take 63 name)), bytes_of_str_take, Hn.
  apply bytes_of_Trim, Forall_take, trim_bound, mapped_bound.
Qed.

Lemma trim_label l :
  Forall (fun c => is_name_rune c = true \/ c = dash) l -> trim dash l <> [] ->
  Forall (fun c => is_name_rune c = true \/ c = dash) (trim dash l) /\
  (exists c, head (trim dash l) = Some c /\ is_name_rune c = true) /\
  (exists c, last (trim dash l) = Some c /\ is_name_rune c = true).
Proof.
  intros Hl Hne.
  assert (Forall (fun c => is_name_rune c = true \/ c = dash) (trim dash l)) as Ht.
  { rewrite Forall_forall in Hl |- *. intros c Hc%trim_sublist. by apply Hl. }
  split; [done|]. pose proof (trim_head dash l) as Hh. pose proof (trim_last dash l) as Hla.
  rewrite Forall_forall in Ht. split.
  - destruct (trim dash l) as [|c t]; [done|]. exists c. split; [done|].
    destruct (Ht c) as [?|E]; [left|done|]. by rewrite E in Hh.
  - destruct (last (trim dash l)) as [c|] eqn:E; [|by apply last_None in E].
    exists c. split; [done|]. apply last_Some_elem_of in E.
    destruct (Ht c E) as [?|E']; [done|]. by rewrite E' in Hla.
Qed.

Lemma trim_take_nonempty n l : trim dash l <> [] -> trim dash (take (S n) (trim dash l)) <> [].
Proof.
  intros Hne. pose proof (trim_head dash l) as Hh.
  destruct (trim dash l) as [|c t]; [done|]. simpl take.
  apply (elem_of_ne_nil c), elem_of_trim; [left|]. intros ->. by destruct Hh.
Qed.

Lemma mapped_label e : Forall (fun c => is_name_rune c = true \/ c = dash) (mapped e).
Proof. apply Forall_fmap, Forall_true. intros. apply name_rune_ok. Qed.

Lemma secretVolumeName_label e :
  trim dash (mapped e) <> [] -> dns_label (secretVolumeName e).
Proof.
  intros Hne. unfold dns_label. rewrite secretVolumeName_bytes. cbv zeta.
  pose proof (trim_label _ (mapped_label e) Hne) as H. case_decide as Hlen.
  - assert (Forall (fun c => is_name_rune c = true \/ c = dash) (take 63 (trim dash (mapped e)))) as Ht
      by by apply Forall_take, H.
    split; [|by apply trim_label; [exact Ht|apply (trim_take_nonempty 62)]].
    etrans; [apply trim_length|]. rewrite length_take. lia.
  - split; [lia|exact H].
Qed.

Lemma HasSuffix_app s suffix : HasSuffix s suffix = true -> exists p, s = p +:+ suffix.
Proof.
  unfold HasSuffix. intros [_ H%String.eqb_eq]%andb_true_iff.
  exists (str_take (String.length s - String.length suffix) s).
  rewrite <- H at 2. by rewrite str_take_drop.
Qed.

Lemma file_env_mapped_e e : isFileSecret e = true -> 101 ∈ mapped e.
Proof.
  intros (p & ->)%HasSuffix_app. unfold mapped. apply list_elem_of_fmap.
  exists 69. split; [done|]. apply elem_of_runes_ascii; [done|].
  rewrite bytes_of_app. apply elem_of_app. right. apply (bool_decide_unpack _). by vm_compute.
Qed.
End volume_names.

(** C30: the volume of every [_FILE] variable, whatever its name, is named by a
    valid DNS-1123 label. *)
Theorem file_volume_name_valid envName :
  isFileSecret envName = true -> dns_label (secretVolumeName envName).
Proof.
  intros He. apply secretVolumeName_label.
  apply (elem_of_ne_nil 101%N), elem_of_trim; [by apply file_env_mapped_e|done].
Qed.

(** * Distinct volumes *)

#[export] Instance file_secret_dec s : Decision (file_secret s).
Proof. unfold file_secret. apply _. Defined.

Definition canonical_char (c : N) : Prop := is_upper c || is_digit c || (c =? 95)%N = true.
Definition volume_char (c : N) : N := name_rune (unicode_ToLower c).

Lemma canonical_char_spec c :
  canonical_char c -> (65 <= c <= 90 \/ 48 <= c <= 57 \/ c = 95)%N.
Proof.
  unfold canonical_char, is_upper, is_digit, in_range.
  rewrite !orb_true_iff, !andb_true_iff, !N.leb_le, N.eqb_eq. lia.
Qed.

Lemma volume_char_spec c :
  canonical_char c ->
  volume_char c = if (c <=? 57)%N then c else if (c <=? 90)%N then (c + 32)%N else dash.
Proof.
  intros Hc%canonical_char_spec.
  assert (c ∈ N.of_nat <$> (seq 48 10 ++ seq 65 26 ++ [95])) as Hin.
  { apply list_elem_of_fmap. exists (N.to_nat c). split; [lia|].
    rewrite !elem_of_app, !elem_of_seq, list_elem_of_singleton. lia. }
  assert (Forall (fun c => volume_char c =
    if (c <=? 57)%N then c else if (c <=? 90)%N then (c + 32)%N else dash)
    (N.of_nat <$> (seq 48 10 ++ seq 65 26 ++ [95]))) as H by (apply (bool_decide_unpack _); by vm_compute).
  rewrite Forall_forall in H. by apply H.
Qed.

Lemma volume_char_inj c d :
  canonical_char c -> canonical_char d -> volume_char c = volume_char d -> c = d.
Proof.
  intros Hc Hd. rewrite !volume_char_spec by done.
  apply canonical_char_spec in Hc, Hd. unfold dash.
  destruct (N.leb_spec c 57), (N.leb_spec d 57), (N.leb_spec c 90), (N.leb_spec d 90); lia.
Qed.

Lemma fmap_inj_on {A B} (P : A -> Prop) (f : A -> B) l1 l2 :
  (forall x y, P x -> P y -> f x = f y -> x = y) ->
  Forall P l1 -> Forall P l2 -> f <$> l1 = f <$> l2 -> l1 = l2.
Proof.
  intros Hf H1. revert l2. induction H1 as [|x l1 Hx _ IH]; intros l2 H2 E.
  - symmetry in E. by apply fmap_nil_inv in E.
  - destruct H2 as [|y l2 Hy H2]; simplify_eq/=. f_equal; [by apply Hf|by apply IH].
Qed.

(** A name of canonical characters is mapped character by character; a [_FILE]
    name that does not start with an underscore is not trimmed. *)
Lemma canonical_mapped e :
  Forall canonical_char (bytes_of e) -> mapped e = volume_char <$> bytes_of e.
Proof.
  intros Hc. unfold mapped. rewrite runes_ascii; [done|].
  eapply Forall_impl; [exact Hc|]. intros c H%canonical_char_spec. lia.
Qed.

Lemma canonical_trimmed e :
  Forall canonical_char (bytes_of e) -> head (bytes_of e) <> Some 95%N -> isFileSecret e = true ->
  trim dash (mapped e) = volume_char <$> bytes_of e.
Proof.
  intros Hc Hh Hf. rewrite canonical_mapped by done. apply trim_id.
  - destruct (bytes_of e) as [|c l]; [done|]. simpl. intros [= E].
    inversion Hc as [|? ? Hc1 _]; subst.
    apply Hh. simpl. f_equal. apply volume_char_inj; [done|done|]. by rewrite E.
  - apply HasSuffix_app in Hf as (p & ->). rewrite bytes_of_app, fmap_app, last_app. by destruct (volume_char <$> bytes_of p).
Qed.

Lemma canonical_volume_bytes e :
  canonical_env e -> isFileSecret e = true ->
  bytes_of (secretVolumeName e) = volume_char <$> bytes_of e.
Proof.
  intros (Hl & Hc & Hh) Hf. rewrite secretVolumeName_bytes, canonical_trimmed by done.
  cbv zeta. rewrite decide_False; [done|]. rewrite length_fmap. lia.
Qed.

Lemma secretVolumeName_inj e1 e2 :
  canonical_env e1 -> isFileSecret e1 = true -> canonical_env e2 -> isFileSecret e2 = true ->
  secretVolumeName e1 = secretVolumeName e2 -> e1 = e2.
Proof.
  intros H1 F1 H2 F2 E. apply (f_equal bytes_of) in E.
  rewrite !canonical_volume_bytes in E by done. apply bytes_of_inj.
  eapply (fmap_inj_on canonical_char); [apply volume_char_inj|apply H1|apply H2|done].
Qed.

(** The names the operator uses itself. *)
Definition reserved_volumes : list string := ["authelia-secret"; "config"; "data"; "file-backend"].

Lemma canonical_volume_not_reserved e :
  canonical_env e -> isFileSecret e = true -> secretVolumeName e ∉ reserved_volumes.
Proof.
  intros He Hf Hin.
  assert (bytes_of "-file" `suffix_of` bytes_of (secretVolumeName e)) as Hs.
  { rewrite canonical_volume_bytes by done. apply HasSuffix_app in Hf as (p & ->).
    rewrite bytes_of_app, fmap_app. by eexists. }
  revert Hs. assert (Forall (fun r => ~ bytes_of "-file" `suffix_of` bytes_of r) reserved_volumes) as H
    by (apply (bool_decide_unpack _); by vm_compute).
  rewrite Forall_forall in H. by apply H.
Qed.

Lemma file_pairs {B} (g : Volume * VolumeMount -> B) (h : string -> B) secrets :
  (forall s p, p ∈ secretVolume s -> g p = h (as_Name s)) ->
  g <$> (secrets ≫= secretVolume) = (h ∘ as_Name) <$> filter file_secret secrets.
Proof.
  intros Hg. induction secrets as [|s secrets IH]; [done|].
  rewrite bind_cons, fmap_app, IH, filter_cons. specialize (Hg s). unfold secretVolume in *.
  destruct (as_Secret s) as [ref|] eqn:Es.
  - destruct (isFileSecret (as_Name s)) eqn:Ef.
    + rewrite decide_True; [|split; [by rewrite Es|done]]. simpl. f_equal. apply Hg. left.
    + rewrite decide_False; [done|]. intros [_ ?]. congruence.
  - rewrite decide_False; [done|]. intros [[ref H] _]. congruence.
Qed.

Lemma secretVolume_inv s p :
  p ∈ secretVolume s -> exists ref, as_Secret s = Some ref /\ isFileSecret (as_Name s) = true /\
    p = (mkVolume (secretVolumeName (as_Name s)) (VSSecret (skr_Name ref)),
         mkVolumeMount (secretVolumeName (as_Name s)) (secretMountPath (as_Name s)) "" true).
Proof.
  unfold secretVolume. destruct (as_Secret s) as [ref|]; [|by intros ?%elem_of_nil].
  destruct (isFileSecret (as_Name s)); [|by intros ?%elem_of_nil].
  intros ->%list_elem_of_singleton. by exists ref.
Qed.

Lemma file_volumes secrets :
  vol_Name <$> (secrets ≫= secretVolume).*1 = (secretVolumeName ∘ as_Name) <$> filter file_secret secrets.
Proof.
  rewrite <- list_fmap_compose. apply file_pairs. by intros s p (ref & _ & _ & ->)%secretVolume_inv.
Qed.

(** A mount with the volume it mounts, in the order of the mounts. *)
Definition podPairs (a : Authelia) : list (Volume * VolumeMount) :=
  [(mkVolume "config" (VSConfigMap (configMapName a)),
    mkVolumeMount "config" "/configuration.yaml" "configuration.yaml" true);
   (mkVolume "authelia-secret" (VSSecret (coreSecretName a)),
    mkVolumeMount "authelia-secret" "/secrets" "" true);
   (mkVolume "data" (dataVolume a), mkVolumeMount "data" "/data" "" false)]
  ++ fileBackendVolume (Settings (au_Spec a)) ++ (Secrets (Settings (au_Spec a)) ≫= secretVolume).

Lemma mainMounts_pairs a : mainMounts a = (podPairs a).*2.
Proof. unfold podPairs. by rewrite !fmap_app. Qed.

Lemma podVolumes_pairs a : podVolumes a ≡ₚ (podPairs a).*1.
Proof. unfold podPairs, podVolumes. rewrite !fmap_app. simpl. constructor. Qed.

Lemma podPairs_names a p : p ∈ podPairs a -> vol_Name p.1 = vm_Name p.2.
Proof.
  unfold podPairs, fileBackendVolume. rewrite !elem_of_app, list_elem_of_bind.
  intros [H|[H|(s & H & _)]].
  - rewrite !elem_of_cons in H. by destruct H as [->|[->|[->|?%elem_of_nil]]].
  - destruct (FileUsersSecret _); [|by apply elem_of_nil in H].
    by apply list_elem_of_singleton in H as ->.
  - by apply secretVolume_inv in H as (ref & _ & _ & ->).
Qed.

(** The conditions on a resource under which volume names cannot clash: the
    variables given as files are distinct and have names of Authelia's shape. *)
Definition names_ok (a : Authelia) : Prop :=
  let files := as_Name <$> filter file_secret (Secrets (Settings (au_Spec a))) in
  NoDup files /\ Forall canonical_env files.

Lemma reserved_names a :
  vol_Name <$> (podPairs a).*1
  = ["config"; "authelia-secret"; "data"]
    ++ (if FileUsersSecret (Settings (au_Spec a)) is Some _ then ["file-backend"] else [])
    ++ (secretVolumeName <$> (as_Name <$> filter file_secret (Secrets (Settings (au_Spec a))))).
Proof.
  unfold podPairs, fileBackendVolume. rewrite !fmap_app, file_volumes, list_fmap_compose.
  by destruct (FileUsersSecret _).
Qed.

Lemma NoDup_fmap_on {A B} (P : A -> Prop) (f : A -> B) l :
  (forall x y, P x -> P y -> f x = f y -> x = y) -> Forall P l -> NoDup l -> NoDup (f <$> l).
Proof.
  intros Hf HP Hl. revert HP. induction Hl as [|x l Hx Hl IH]; intros HP; [constructor|].
  inversion HP as [|? ? Hp HP']; subst. simpl. constructor; [|by apply IH].
  intros (y & E & Hy)%list_elem_of_fmap. rewrite Forall_forall in HP'.
  assert (x = y) as -> by (apply Hf; auto). done.
Qed.

Lemma pair_volumes_distinct a : names_ok a -> NoDup (vol_Name <$> (podPairs a).*1).
Proof.
  intros [Hnd Hc]. rewrite reserved_names, app_assoc.
  set (files := as_Name <$> filter file_secret _) in *.
  assert (Forall (fun e => canonical_env e /\ isFileSecret e = true) files) as Hf.
  { apply Forall_and. split; [done|]. apply Forall_fmap, Forall_forall.
    by intros s [[_ ?] _]%list_elem_of_filter. }
  apply NoDup_app. split; [|split].
  - destruct (FileUsersSecret _); apply (bool_decide_unpack _); by vm_compute.
  - intros n Hn (e & -> & He)%list_elem_of_fmap. rewrite Forall_forall in Hf.
    destruct (Hf e He) as [H1 H2]. apply (canonical_volume_not_reserved e H1 H2).
    revert Hn. unfold reserved_volumes. destruct (FileUsersSecret _); simpl; intros Hn; list_mem.
  - eapply NoDup_fmap_on; [|exact Hf|done]. intros x y [] []. by apply secretVolumeName_inj.
Qed.

(** C29: no two volumes of the pod have the same name, when the file variables
    have distinct names of Authelia's shape: the API server rejects a pod with
    two volumes of one name. *)
Theorem pod_volumes_distinct a oidc sum :
  names_ok a ->
  NoDup (vol_Name <$> Volumes (pt_Spec (Template (dep_Spec (buildDeployment a oidc sum))))).
Proof.
  intros H. change (Volumes _) with (podVolumes a). rewrite podVolumes_pairs. by apply pair_volumes_distinct.
Qed.

(** * Files of the pod

    What a container reads at a path: a mount makes the keys of its volume's
    source appear below the mount path, or, with a sub-path, one key appear at
    the mount path itself. *)
Definition mount_file (m : VolumeMount) (path key : string) : Prop :=
  if decide (vm_SubPath m = "") then path = vm_MountPath m +:+ "/" +:+ key
  else path = vm_MountPath m /\ key = vm_SubPath m.

(** [path] shows key [key] of [src] in the container [c] of the pod [p]. *)
Definition serves (p : PodSpec) (c : Container) (path : string) (src : VolumeSource) (key : string) : Prop :=
  exists m v, m ∈ c_VolumeMounts c /\ v ∈ Volumes p /\ vol_Name v = vm_Name m /\
    mount_file m path key /\ vol_Source v = src.

(** The file at [path] is unambiguous: one source, one key. *)
Definition serves_only (p : PodSpec) (c : Container) (path : string) (src : VolumeSource) (key : string) : Prop :=
  forall src' key', serves p c path src' key' <-> src' = src /\ key' = key.

Definition the_pod (d : Deployment) : PodSpec := pt_Spec (Template (dep_Spec d)).

Lemma NoDup_fmap_eq {A B} (f : A -> B) l x y :
  NoDup (f <$> l) -> x ∈ l -> y ∈ l -> f x = f y -> x = y.
Proof.
  induction l as [|z l IH]; simpl; [intros _ ?%elem_of_nil; done|].
  rewrite NoDup_cons, !elem_of_cons, list_elem_of_fmap.
  intros [Hz Hl] [->|Hx] [->|Hy] E; [done| | |by apply IH].
  - destruct Hz. by exists y.
  - destruct Hz. by exists x.
Qed.

(** With distinct volume names a path is served by the pairs that mount it. *)
Lemma serves_pairs a oidc sum path src key :
  names_ok a ->
  serves (the_pod (buildDeployment a oidc sum)) (mainContainer a oidc) path src key <->
  exists p, p ∈ podPairs a /\ mount_file p.2 path key /\ vol_Source p.1 = src.
Proof.
  intros Hok. split.
  - intros (m & v & Hm & Hv & E & Hf & Hs). change (m ∈ mainMounts a) in Hm.
    change (v ∈ podVolumes a) in Hv. rewrite mainMounts_pairs in Hm. rewrite podVolumes_pairs in Hv.
    apply list_elem_of_fmap in Hm as (p & -> & Hp), Hv as (q & -> & Hq).
    rewrite <- (podPairs_names a p Hp) in E.
    pose proof (pair_volumes_distinct a Hok) as Hnd. rewrite <- list_fmap_compose in Hnd.
    rewrite (NoDup_fmap_eq _ _ _ _ Hnd Hq Hp E) in *. by exists p.
  - intros (p & Hp & Hf & Hs). exists p.2, p.1. split_and!; [..|done|done].
    + change (p.2 ∈ mainMounts a). rewrite mainMounts_pairs. by apply list_elem_of_fmap_2.
    + change (p.1 ∈ podVolumes a). rewrite podVolumes_pairs. by apply list_elem_of_fmap_2.
    + exact (podPairs_names a p Hp).
Qed.

Definition slash : N := 47.

Lemma split_at_slash (l1 l2 k1 k2 : list N) :
  slash ∉ l1 -> slash ∉ l2 -> l1 ++ slash :: k1 = l2 ++ slash :: k2 -> l1 = l2 /\ k1 = k2.
Proof.
  revert l2. induction l1 as [|c l1 IH]; intros [|d l2] H1 H2 E; simplify_eq/=; [done|..].
  - destruct H2. by left.
  - destruct H1. by left.
  - rewrite not_elem_of_cons in H1, H2. destruct H1, H2. by destruct (IH l2) as [-> ->].
Qed.

Lemma volume_no_slash e : isFileSecret e = true -> slash ∉ bytes_of (secretVolumeName e).
Proof.
  intros He Hin. apply file_env_mapped_e in He.
  destruct (secretVolumeName_label e) as (_ & Hl & _).
  { apply (elem_of_ne_nil 101%N), elem_of_trim; [done|]. done. }
  rewrite Forall_forall in Hl. destruct (Hl slash Hin) as [H|H]; vm_compute in H; discriminate H.
Qed.

Lemma secret_path_inj e1 e2 k1 k2 :
  isFileSecret e1 = true -> isFileSecret e2 = true ->
  secretMountPath e1 +:+ "/" +:+ k1 = secretMountPath e2 +:+ "/" +:+ k2 ->
  secretVolumeName e1 = secretVolumeName e2 /\ k1 = k2.
Proof.
  intros H1%volume_no_slash H2%volume_no_slash. unfold secretMountPath.
  rewrite !str_app_assoc. intros E%str_app_inj_l%str_app_inj_l%(f_equal bytes_of).
  rewrite !bytes_of_app in E. change (bytes_of "/") with [slash] in E.
  apply split_at_slash in E as [?%bytes_of_inj ?%bytes_of_inj]; done.
Qed.

(** Two different constants at the head of two paths: their first characters
    are compared, the rest is not evaluated. *)
Ltac path_clash :=
  match goal with H : @eq string _ _ |- _ =>
    apply (f_equal (str_take 12)) in H; lazy in H; discriminate H end.

(** The pairs whose files a path can name, by the first letters of the path. *)
Lemma pair_cases a p path key :
  p ∈ podPairs a -> mount_file p.2 path key ->
  (path = "/configuration.yaml" /\ key = "configuration.yaml" /\
   vol_Source p.1 = VSConfigMap (configMapName a)) \/
  (path = "/secrets" +:+ "/" +:+ key /\ vol_Source p.1 = VSSecret (coreSecretName a)) \/
  (path = "/data" +:+ "/" +:+ key /\ vol_Source p.1 = dataVolume a) \/
  (exists ref, FileUsersSecret (Settings (au_Spec a)) = Some ref /\
    path = fileBackendMountPath +:+ "/" +:+ key /\ vol_Source p.1 = VSSecret (skr_Name ref)) \/
  (exists s ref, s ∈ Secrets (Settings (au_Spec a)) /\ as_Secret s = Some ref /\
    isFileSecret (as_Name s) = true /\ path = secretMountPath (as_Name s) +:+ "/" +:+ key /\
    vol_Source p.1 = VSSecret (skr_Name ref)).
Proof.
  unfold podPairs, fileBackendVolume. rewrite !elem_of_app, list_elem_of_bind.
  intros [H|[H|(s & H & Hs)]] Hf.
  - rewrite !elem_of_cons in H. destruct H as [->|[->|[->|?%elem_of_nil]]]; [| | |done]; simpl in *.
    + destruct Hf as [-> ->]. by left.
    + right; left. done.
    + right; right; left. done.
  - right; right; right; left. destruct (FileUsersSecret _) as [ref|]; [|by apply elem_of_nil in H].
    apply list_elem_of_singleton in H as ->. by exists ref.
  - do 4 right. apply secretVolume_inv in H as (ref & E & Hfile & ->). by exists s, ref.
Qed.

(** A pair that shows [key] at [path], when every pair that shows anything
    there agrees on source and key, makes the path unambiguous. *)
Lemma serves_only_intro a oidc sum path src key :
  names_ok a ->
  (exists p, p ∈ podPairs a /\ mount_file p.2 path key /\ vol_Source p.1 = src) ->
  (forall p key', p ∈ podPairs a -> mount_file p.2 path key' ->
    vol_Source p.1 = src /\ key' = key) ->
  serves_only (the_pod (buildDeployment a oidc sum)) (mainContainer a oidc) path src key.
Proof.
  intros Hok Hex Huniq src' key'. rewrite serves_pairs by done. split.
  - intros (p & Hp & Hf & <-). by apply Huniq.
  - by intros [-> ->].
Qed.

Lemma secret_path_base e k :
  secretMountPath e +:+ "/" +:+ k = "/authelia/secrets/" +:+ (secretVolumeName e +:+ "/" +:+ k).
Proof. unfold secretMountPath. by rewrite !str_app_assoc. Qed.

Lemma core_file_served a oidc sum key :
  names_ok a ->
  serves_only (the_pod (buildDeployment a oidc sum)) (mainContainer a oidc)
    ("/secrets/" +:+ key) (VSSecret (coreSecretName a)) key.
Proof.
  intros Hok. apply serves_only_intro; [done|..].
  - eexists (_, _). split; [unfold podPairs; right; left|]. by split.
  - intros p key' Hp Hf. destruct (pair_cases a p _ _ Hp Hf)
      as [(E & _)|[(E & ->)|[(E & _)|[(? & _ & E & _)|(s & ? & _ & _ & _ & E & _)]]]].
    + path_clash.
    + split; [done|]. symmetry. by apply (str_app_inj_l "/secrets/").
    + path_clash.
    + path_clash.
    + rewrite secret_path_base in E. path_clash.
Qed.

Lemma config_served a oidc sum :
  names_ok a ->
  serves_only (the_pod (buildDeployment a oidc sum)) (mainContainer a oidc)
    "/configuration.yaml" (VSConfigMap (configMapName a)) "configuration.yaml".
Proof.
  intros Hok. apply serves_only_intro; [done|..].
  - eexists (_, _). split; [left|]. by split.
  - intros p key' Hp Hf. destruct (pair_cases a p _ _ Hp Hf)
      as [(_ & -> & ->)|[(E & _)|[(E & _)|[(? & _ & E & _)|(s & ? & _ & _ & _ & E & _)]]]];
      [done|path_clash..|]. rewrite secret_path_base in E. path_clash.
Qed.

Lemma users_file_served a oidc sum ref :
  names_ok a -> FileUsersSecret (Settings (au_Spec a)) = Some ref ->
  serves_only (the_pod (buildDeployment a oidc sum)) (mainContainer a oidc)
    (fileUsersPath ref) (VSSecret (skr_Name ref)) (skr_Key ref).
Proof.
  intros Hok Href. apply serves_only_intro; [done|..].
  - eexists (_, _). unfold podPairs. rewrite elem_of_app. split; [right|].
    + unfold fileBackendVolume. rewrite Href. by left.
    + by split.
  - intros p key' Hp Hf. destruct (pair_cases a p _ _ Hp Hf)
      as [(E & _)|[(E & _)|[(E & _)|[(ref' & Hr & E & ->)|(s & ? & _ & _ & _ & E & _)]]]].
    + path_clash.
    + path_clash.
    + path_clash.
    + rewrite Href in Hr. simplify_eq. split; [done|]. symmetry.
      by apply (str_app_inj_l (fileBackendMountPath +:+ "/")).
    + rewrite secret_path_base in E. path_clash.
Qed.

(** The names of the [_FILE] variables pick the entry out. *)
Lemma file_secret_unique a s s' :
  names_ok a -> s ∈ Secrets (Settings (au_Spec a)) -> s' ∈ Secrets (Settings (au_Spec a)) ->
  file_secret s -> file_secret s' ->
  secretVolumeName (as_Name s) = secretVolumeName (as_Name s') -> s = s'.
Proof.
  intros [Hnd Hc] Hs Hs' Hf Hf' E.
  apply (NoDup_fmap_eq as_Name (filter file_secret (Secrets (Settings (au_Spec a)))) s s'); [done|..].
  1,2: by apply list_elem_of_filter.
  rewrite Forall_forall in Hc. destruct Hf as [Hr Hfile], Hf' as [Hr' Hfile'].
  apply secretVolumeName_inj; [|done| |done|done].
  all: apply Hc, list_elem_of_fmap_2, list_elem_of_filter; done.
Qed.

Lemma secret_file_served a oidc sum s ref :
  names_ok a -> s ∈ Secrets (Settings (au_Spec a)) -> as_Secret s = Some ref ->
  isFileSecret (as_Name s) = true ->
  serves_only (the_pod (buildDeployment a oidc sum)) (mainContainer a oidc)
    (secretMountPath (as_Name s) +:+ "/" +:+ skr_Key ref) (VSSecret (skr_Name ref)) (skr_Key ref).
Proof.
  intros Hok Hs Href Hfile. apply serves_only_intro; [done|..].
  - eexists (_, _). unfold podPairs. rewrite !elem_of_app, list_elem_of_bind. split.
    + right; right. exists s. split; [|done]. unfold secretVolume. rewrite Href, Hfile. by left.
    + by split.
  - intros p key' Hp Hf. destruct (pair_cases a p _ _ Hp Hf)
      as [(E & _)|[(E & _)|[(E & _)|[(ref' & Hr & E & _)|(s' & ref' & Hs' & Hr & Hf' & E & ->)]]]].
    1-4: rewrite secret_path_base in E; path_clash.
    apply secret_path_inj in E as [E <-]; [|done|done].
    assert (s = s') as <- by (apply (file_secret_unique a); try done; split; by rewrite ?Href, ?Hr).
    rewrite Href in Hr. by simplify_eq.
Qed.

(** The file behind the value of an environment variable. *)
Definition env_file (a : Authelia) (oidc : bool) (sum : string) (e : EnvVar)
    (src : VolumeSource) (key : string) : Prop :=
  e ∈ c_Env (mainContainer a oidc) /\ env_ValueFrom e = None /\
  serves_only (the_pod (buildDeployment a oidc sum)) (mainContainer a oidc) (env_Value e) src key.

(** What enabling OIDC adds. *)
Definition oidc_part (oidc : bool) : list EnvVar := if oidc then oidcEnv else [].

(** The file variables of the operator, with the key of the core Secret that each
    is for. *)
Definition core_variables (oidc : bool) : list (string * string) :=
  [("AUTHELIA_SESSION_SECRET_FILE", keySessionEncryption);
   ("AUTHELIA_STORAGE_ENCRYPTION_KEY_FILE", keyStorageEncryption)]
  ++ if oidc then [("AUTHELIA_IDENTITY_PROVIDERS_OIDC_HMAC_SECRET_FILE", keyOIDCHMACSecret);
                   ("AUTHELIA_IDENTITY_PROVIDERS_OIDC_ISSUER_PRIVATE_KEY_FILE", keyOIDCPrivateKey)]
     else [].

Lemma core_variable_set oidc var key :
  (var, key) ∈ core_variables oidc ->
  mkEnvVar var ("/secrets/" +:+ key) None ∈ coreEnv ++ oidc_part oidc.
Proof.
  assert (Forall (fun p => mkEnvVar p.1 ("/secrets/" +:+ p.2) None ∈ coreEnv ++ oidc_part oidc)
            (core_variables oidc)) as H by (destruct oidc; apply (bool_decide_unpack _); by vm_compute).
  rewrite Forall_forall in H. apply (H (var, key)).
Qed.

Lemma core_variable_value oidc var key e :
  (var, key) ∈ core_variables oidc -> e ∈ coreEnv ++ oidc_part oidc -> env_Name e = var ->
  e = mkEnvVar var ("/secrets/" +:+ key) None.
Proof.
  assert (Forall (fun p => Forall (fun e => env_Name e = p.1 -> e = mkEnvVar p.1 ("/secrets/" +:+ p.2) None)
            (coreEnv ++ oidc_part oidc)) (core_variables oidc)) as H
    by (destruct oidc; apply (bool_decide_unpack _); by vm_compute).
  rewrite Forall_forall in H. intros Hv. specialize (H (var, key) Hv). rewrite Forall_forall in H. apply H.
Qed.

Lemma core_variable_only oidc (e : EnvVar) :
  e ∈ coreEnv ++ oidc_part oidc -> isFileSecret (env_Name e) = true ->
  exists key, (env_Name e, key) ∈ core_variables oidc.
Proof.
  intros He Hf.
  assert (Forall (fun e => isFileSecret (env_Name e) = true -> env_Name e ∈ (core_variables oidc).*1)
            (coreEnv ++ oidc_part oidc)) as Hin by (destruct oidc; apply (bool_decide_unpack _); by vm_compute).
  rewrite Forall_forall in Hin. specialize (Hin e He Hf).
  apply list_elem_of_fmap in Hin as ([var key] & -> & Hin). by exists key.
Qed.

(** C28: when the user's [_FILE] variables are distinct and have names of Authelia's
    shape, the paths the operator itself configures lead to the right files.
    The configuration argument shows the [configuration.yaml] of the Authelia's
    ConfigMap, which holds the rendered configuration; the session secret, the
    storage encryption key and, with OIDC, the HMAC secret and the issuer's
    private key are each read from the core Secret's key of that purpose
    (unless [settings.secrets] sets the same variable once more), and the operator
    sets no other file variable; and the path written for the users
    database shows the referenced Secret key. *)
Theorem operator_files_served a oidc sum rendered :
  names_ok a ->
  let pod := the_pod (buildDeployment a oidc sum) in
  let c := mainContainer a oidc in
  (c_Args c = ["--config=" +:+ "/configuration.yaml"] /\
   serves_only pod c "/configuration.yaml" (VSConfigMap (om_Name (cm_meta (buildConfigMap a rendered))))
     "configuration.yaml" /\
   content (cm_Data (buildConfigMap a rendered)) !! "configuration.yaml" = Some rendered) /\
  (forall var key, (var, key) ∈ core_variables oidc ->
     (exists e, env_Name e = var /\ env_file a oidc sum e (VSSecret (coreSecretName a)) key) /\
     forall e, e ∈ c_Env c -> env_Name e = var ->
       env_file a oidc sum e (VSSecret (coreSecretName a)) key \/
       exists s, s ∈ Secrets (Settings (au_Spec a)) /\ as_Name s = var) /\
  (forall e, e ∈ c_Env c -> isFileSecret (env_Name e) = true ->
     (exists key, (env_Name e, key) ∈ core_variables oidc) \/
     exists s, s ∈ Secrets (Settings (au_Spec a)) /\ as_Name s = env_Name e) /\
  (forall ref, FileUsersSecret (Settings (au_Spec a)) = Some ref ->
     serves_only pod c (fileUsersPath ref) (VSSecret (skr_Name ref)) (skr_Key ref)).
Proof.
  intros Hok pod c.
  assert (c_Env c = (coreEnv ++ oidc_part oidc) ++ (Secrets (Settings (au_Spec a)) ≫= secretEnv)) as Henv
    by (unfold c; simpl; unfold autheliaFileEnv; by destruct oidc).
  assert (forall e, e ∈ c_Env c -> e ∈ coreEnv ++ oidc_part oidc \/
            exists s, s ∈ Secrets (Settings (au_Spec a)) /\ as_Name s = env_Name e) as Henv_cases.
  { intros e. rewrite Henv, elem_of_app, list_elem_of_bind. intros [He|(s & He & Hs)]; [by left|right].
    exists s. split; [done|]. unfold secretEnv in He. destruct (as_Secret s); [|by apply elem_of_nil in He].
    destruct (isFileSecret (as_Name s)); by apply list_elem_of_singleton in He as ->. }
  split_and!; [done|by apply config_served|done|..].
  - intros var key Hin.
    assert (env_file a oidc sum (mkEnvVar var ("/secrets/" +:+ key) None) (VSSecret (coreSecretName a)) key) as Hfile.
    { split_and!; [|done|by apply core_file_served]. fold c. rewrite Henv, elem_of_app. left. by apply core_variable_set. }
    split; [eexists; split; [|exact Hfile]; done|]. intros e He Hn. apply Henv_cases in He as [He|(s & Hs & Ename)].
    + left. by rewrite (core_variable_value oidc var key e Hin He Hn).
    + right. exists s. split; [done|]. congruence.
  - intros e [He|(s & Hs & Ename)]%Henv_cases Hf; [left; by apply core_variable_only|right; by exists s].
  - intros ref. by apply users_file_served.
Qed.

(** C27: the contract of [settings.secrets], when the [_FILE] variables in it are
    distinct and have names of Authelia's shape.  Every entry with a Secret
    reference reaches the container as a variable of that name: a [_FILE]
    variable holds a path that shows the referenced key of the referenced Secret
    and nothing else; any other variable takes its value from that key. *)
Theorem settings_secret_wired a oidc sum s ref :
  names_ok a -> s ∈ Secrets (Settings (au_Spec a)) -> as_Secret s = Some ref ->
  if isFileSecret (as_Name s) then
    exists e, env_Name e = as_Name s /\ env_file a oidc sum e (VSSecret (skr_Name ref)) (skr_Key ref)
  else
    mkEnvVar (as_Name s) "" (Some (mkSecretKeySelector (skr_Name ref) (skr_Key ref)))
      ∈ c_Env (mainContainer a oidc).
Proof.
  intros Hok Hs Href.
  assert (forall e, e ∈ secretEnv s -> e ∈ c_Env (mainContainer a oidc)) as Henv.
  { intros e He. simpl. unfold autheliaFileEnv. rewrite elem_of_app, list_elem_of_bind. eauto. }
  unfold secretEnv in Henv. rewrite Href in Henv. destruct (isFileSecret (as_Name s)) eqn:Hfile.
  - eexists. split; [|split; [apply Henv; by left|split; [done|]]]; [done|].
    by apply secret_file_served.
  - apply Henv. by left.
Qed.

(** the environment is, in order, the fixed core variables, the OIDC key
    material when and only when OIDC is enabled, and one variable per entry of
    [settings.secrets] that has a reference; so the OIDC variables of the
    operator appear exactly when the configuration has clients. *)
Theorem env_names a oidc :
  env_Name <$> c_Env (mainContainer a oidc)
  = ["AUTHELIA_SERVER_DISABLE_HEALTHCHECK"; "AUTHELIA_SESSION_SECRET_FILE";
     "AUTHELIA_STORAGE_ENCRYPTION_KEY_FILE"]
    ++ (if oidc then ["AUTHELIA_IDENTITY_PROVIDERS_OIDC_HMAC_SECRET_FILE";
                      "AUTHELIA_IDENTITY_PROVIDERS_OIDC_ISSUER_PRIVATE_KEY_FILE"] else [])
    ++ (as_Name <$> filter (fun s => is_Some (as_Secret s)) (Secrets (Settings (au_Spec a)))).
Proof.
  simpl. unfold autheliaFileEnv. rewrite fmap_app.
  assert (env_Name <$> (Secrets (Settings (au_Spec a)) ≫= secretEnv)
    = as_Name <$> filter (fun s => is_Some (as_Secret s)) (Secrets (Settings (au_Spec a)))) as ->.
  { induction (Secrets _) as [|s l IH]; [done|].
    rewrite bind_cons, fmap_app, IH, filter_cons. unfold secretEnv.
    destruct (as_Secret s) as [ref|] eqn:E; [|done]. simpl. by destruct (isFileSecret _). }
  by destruct oidc.
Qed.

Definition ports (c : Container) : list string := cp_Name <$> c_Ports c.

(** C31: the built objects fit together: the Deployment's selector is matched by
    its own pods' labels (the API server requires it) and is the Service's
    selector, the Service's target port and the probes' port are a named port of
    the container, every mount has a volume, the data volume is the claim the
    operator creates when there is a template (and an empty directory when there
    is none), and both objects live in the Authelia's namespace under its name. *)
Theorem workload_consistent a oidc sum :
  let d := buildDeployment a oidc sum in
  let svc := buildService a in
  content (pt_Labels (Template (dep_Spec d))) = Selector (dep_Spec d) /\
  svc_Selector (svc_Spec svc) = Some (Selector (dep_Spec d)) /\
  Selector (dep_Spec d) ⊆ content (om_Labels (dep_meta d)) /\
  (om_Name (dep_meta d), om_Namespace (dep_meta d)) = (au_Name a, au_Namespace a) /\
  (om_Name (svc_meta svc), om_Namespace (svc_meta svc)) = (au_Name a, au_Namespace a) /\
  Forall (fun c =>
    Forall (fun p => sp_TargetPort p ∈ ports c) (svc_Ports (svc_Spec svc)) /\
    Forall (fun p => exists pr, p = Some pr /\ pr_Port pr ∈ ports c)
      [c_StartupProbe c; c_LivenessProbe c; c_ReadinessProbe c] /\
    Forall (fun m => vm_Name m ∈ vol_Name <$> Volumes (the_pod d)) (c_VolumeMounts c))
    (Containers (the_pod d)) /\
  mkVolume "data" (match VolumeClaimTemplate (au_Deployment (au_Spec a)) with
                   | Some t => VSPersistentVolumeClaim (om_Name (pvc_meta (buildDataPVC a t)))
                   | None => VSEmptyDir
                   end) ∈ Volumes (the_pod d).
Proof.
  intros d svc. split_and!; [done|done| |done|done| |].
  - apply map_subseteq_spec. intros k v. simpl. unfold selectorFor, labelsFor.
    rewrite lookup_insert_Some, lookup_singleton_Some. intros [[<- <-]|[Hne [<- <-]]].
    + by rewrite lookup_insert_eq.
    + rewrite lookup_insert_ne by done. by rewrite lookup_insert_eq.
  - apply Forall_singleton. split_and!.
    + apply Forall_singleton. by left.
    + repeat constructor; eexists; (split; [reflexivity|by left]).
    + apply Forall_forall. intros m Hm. change (m ∈ mainMounts a) in Hm.
      change (Volumes (the_pod d)) with (podVolumes a).
      rewrite mainMounts_pairs in Hm. apply list_elem_of_fmap in Hm as (p & -> & Hp).
      rewrite podVolumes_pairs, <- (podPairs_names a p Hp). by do 2 apply list_elem_of_fmap_2.
  - change (Volumes (the_pod d)) with (podVolumes a). unfold podVolumes, dataVolume.
    right; right; left.
Qed.

(** The Deployment depends on the name and the specification of the Authelia. *)
Lemma buildDeployment_spec a1 a2 oidc sum :
  au_Name a2 = au_Name a1 -> au_Spec a2 = au_Spec a1 ->
  dep_Spec (buildDeployment a2 oidc sum) = dep_Spec (buildDeployment a1 oidc sum).
Proof.
  intros Hn Hs. unfold buildDeployment, selectorFor, podVolumes, mainContainer, mainMounts, dataVolume,
    coreSecretName, configMapName, dataPVCName. simpl. by rewrite Hn, Hs.
Qed.

(** * Concrete resources *)

(** An Authelia with a users database and secrets of both kinds. *)
Definition sample_settings (secrets : list AutheliaSecret) : AutheliaSettings :=
  mkAutheliaSettings None (Some (mkSecretKeyRef "users" "users_database.yml")) secrets.
Definition sample (settings : AutheliaSettings) : Authelia :=
  mkAuthelia (newMeta "auth" "sso")
    (mkAutheliaSpec "auth.example.com"
       (mkAutheliaDeploymentSpec None "" "" (mkResourceRequirements None None ∅) "" None) settings)
    (mkAutheliaStatus [] 0 [] []).
Definition sample_secrets : list AutheliaSecret :=
  [mkAutheliaSecret "AUTHELIA_STORAGE_POSTGRES_PASSWORD_FILE" (Some (mkSecretKeyRef "db" "password"));
   mkAutheliaSecret "TZ" (Some (mkSecretKeyRef "misc" "timezone"))].

Lemma sample_names_ok : names_ok (sample (sample_settings sample_secrets)).
Proof.
  split; [apply (bool_decide_unpack _); by vm_compute|].
  repeat constructor; try (apply (bool_decide_unpack _); by vm_compute); done.
Qed.

Lemma file_volume_name_valid_witness : dns_label (secretVolumeName "AUTHELIA_SESSION_REDIS_PASSWORD_FILE").
Proof. apply file_volume_name_valid. by vm_compute. Defined.

Lemma pod_volumes_distinct_witness :
  NoDup (vol_Name <$> Volumes (the_pod
    (buildDeployment (sample (sample_settings sample_secrets)) true "0123"))).
Proof. exact (pod_volumes_distinct _ true "0123" sample_names_ok). Defined.

Lemma operator_files_served_witness :
  exists e, env_Name e = "AUTHELIA_IDENTITY_PROVIDERS_OIDC_ISSUER_PRIVATE_KEY_FILE" /\
    env_file (sample (sample_settings sample_secrets)) true "0123" e (VSSecret "auth-secrets") "OIDC_PRIVATE_KEY".
Proof.
  destruct (operator_files_served _ true "0123" "server: {}" sample_names_ok) as (_ & H & _).
  apply (H _ "OIDC_PRIVATE_KEY"). do 3 right. left.
Defined.

Lemma settings_secret_wired_witness :
  exists e, env_Name e = "AUTHELIA_STORAGE_POSTGRES_PASSWORD_FILE" /\
    env_file (sample (sample_settings sample_secrets)) false "0123" e (VSSecret "db") "password".
Proof.
  pose proof (settings_secret_wired _ false "0123"
    (mkAutheliaSecret "AUTHELIA_STORAGE_POSTGRES_PASSWORD_FILE" (Some (mkSecretKeyRef "db" "password")))
    (mkSecretKeyRef "db" "password") sample_names_ok (list_elem_of_here _ _) eq_refl) as H.
  exact H.
Defined.

(** * Clashes *)











