(* ===== verification/Render.v ===== *)
(** [internal/controller/render.go]: the Authelia configuration, from the
    user's [additionalConfig], the OIDC clients, the generated access rules and
    the host name.

    The Go code updates one tree of maps in place; [childMap] returns a
    reference to a map inside its parent, and later assignments to the child are
    assignments to the parent's entry.  Here [childMap] returns the parent it
    leaves and the child, and [write_back] stores a changed child in its parent;
    the tree comes from [json.Unmarshal], so no map is shared.  The YAML
    encoder ([sigs.k8s.io/yaml]) is a parameter. *)

From S2P Require Import Prelude GoStrings GoSort GoJson GoCrypto ApiTypes Resources.

(** [yaml.Marshal] of a configuration tree (nil for a nil map). *)
Class Yaml := yaml_Marshal : gomap any -> string + go_error.

Definition configChecksum (rendered : string) : string :=
  hex_encode (sha_Sum SHA256 (bytes_of rendered)).

Record oidcClient := mkOidcClient {
  spec : AutheliaOAuthClientSpec;
  secretDigest : string
}.

Definition toIfaceSlice (l : list string) : list any := VStr <$> l.

(** [if v != "" { m[key] = v }] and [if len(v) > 0 { m[key] = toIfaceSlice(v) }] *)
Definition put_string (key v : string) (m : gmap string any) : gmap string any :=
  if decide (v = "") then m else <[key := VStr v]> m.
Definition put_slice (key : string) (v : list string) (m : gmap string any) : gmap string any :=
  if decide (v = []) then m else <[key := VArr (toIfaceSlice v)]> m.

Definition clientToMap (c : oidcClient) : gmap string any :=
  let s := spec c in
  let m := {[ "client_id" := VStr (ClientID s) ]} in
  let m := put_string "client_name" (ClientName s) m in
  let m := if Public s then <["public" := VBool true]> m
           else <["client_secret" := VStr (secretDigest c)]> m in
  let m := put_string "authorization_policy" (AuthorizationPolicy s) m in
  let m := put_string "consent_mode" (ConsentMode s) m in
  let m := put_string "claims_policy" (ClaimsPolicy s) m in
  let m := put_string "lifespan" (Lifespan s) m in
  let m := put_slice "redirect_uris" (RedirectURIs s) m in
  let m := put_slice "scopes" (Scopes s) m in
  let m := put_slice "grant_types" (GrantTypes s) m in
  let m := put_slice "response_types" (ResponseTypes s) m in
  let m := put_string "token_endpoint_auth_method" (TokenEndpointAuthMethod s) m in
  put_string "userinfo_signed_response_alg" (UserinfoSignedResponseAlg s) m.

(** * The configuration tree *)

(** [parent[key] = v]; a nil map panics. *)
Definition assign (parent : gomap any) (key : string) (v : any) : outcome (gomap any) :=
  match parent with
  | Some p => Ok (Some (<[key := v]> p))
  | None => Panic NilMapWrite
  end.

(** The parent it leaves and the child. Reading a nil map finds nothing. *)
Definition childMap (parent : gomap any) (key : string) : outcome (gomap any * gmap string any) :=
  match content parent !! key with
  | Some (VObj existing) => Ok (parent, existing)
  | _ => parent' ← assign parent key (VObj ∅); Ok (parent', ∅)
  end.

(** What the parent holds at [key] once the child there has become [child]. *)
Definition write_back (parent : gomap any) (key : string) (child : gmap string any) : gomap any :=
  <[key := VObj child]> <$> parent.

Definition applyFileBackend (root : gomap any) (settings : AutheliaSettings) : outcome (gomap any) :=
  match FileUsersSecret settings with
  | None => Ok root
  | Some ref =>
    '(root, backend) ← childMap root "authentication_backend";
    '(backend', file) ← childMap (Some backend) "file";
    let file := <["path" := VStr (fileUsersPath ref)]> file in
    Ok (write_back root "authentication_backend" (content (write_back backend' "file" file)))
  end.

Definition parentDomain (hostname : string) : string :=
  match IndexByte hostname "." with
  | Some i => if decide (i < String.length hostname - 1) then str_drop (i + 1) hostname else hostname
  | None => hostname
  end.

Definition defaultCookies (hostname : string) : any :=
  VArr [VObj {[ "domain" := VStr (parentDomain hostname);
                "authelia_url" := VStr ("https://" +:+ hostname) ]}].

Definition applySession (root : gomap any) (hostname : string) : outcome (gomap any) :=
  if decide (hostname = "") then Ok root else
  '(root, session) ← childMap root "session";
  match session !! "cookies" with
  | Some _ => Ok root
  | None => Ok (write_back root "session" (<["cookies" := defaultCookies hostname]> session))
  end.

(** [if len(ingressRules) > 0 { ... }] *)
Definition applyIngressRules (root : gomap any) (ingressRules : list (gmap string any)) :
    outcome (gomap any) :=
  if decide (ingressRules = []) then Ok root else
  '(root, ac) ← childMap root "access_control";
  let existing := default [] (as_slice (ac !! "rules")) in
  let rules := (VObj <$> ingressRules) ++ existing in
  Ok (write_back root "access_control" (<["rules" := VArr rules]> ac)).

Section rendering.
Context `{UnstableSort}.

Definition client_less (x y : oidcClient) : bool := str_lt (ClientID (spec x)) (ClientID (spec y)).

(** [if len(clients) > 0 { ... }] *)
Definition applyClients (root : gomap any) (clients : list oidcClient) : outcome (gomap any) :=
  if decide (clients = []) then Ok root else
  let sorted := sort_Slice client_less clients in
  let clientMaps := (VObj ∘ clientToMap) <$> sorted in
  '(root, idp) ← childMap root "identity_providers";
  '(idp', oidc) ← childMap (Some idp) "oidc";
  let oidc := <["clients" := VArr clientMaps]> oidc in
  Ok (write_back root "identity_providers" (content (write_back idp' "oidc" oidc))).

Definition parseAdditionalConfig (settings : AutheliaSettings) : outcome (gomap any) :=
  match AdditionalConfig settings with
  | Some raw =>
    if decide (Raw raw = "") then Ok (Some ∅) else
    match Unmarshal (Raw raw) with
    | Ok root => Ok root
    | Err err => Err (ErrWrap "parsing additionalConfig: " err)
    | Panic p => Panic p
    end
  | None => Ok (Some ∅)
  end.

Definition renderRoot (settings : AutheliaSettings) (clients : list oidcClient)
    (ingressRules : list (gmap string any)) (hostname : string) : outcome (gomap any) :=
  root ← parseAdditionalConfig settings;
  root ← applyFileBackend root settings;
  root ← applySession root hostname;
  root ← applyIngressRules root ingressRules;
  applyClients root clients.

Definition renderConfig `{Yaml} (settings : AutheliaSettings) (clients : list oidcClient)
    (ingressRules : list (gmap string any)) (hostname : string) : outcome string :=
  root ← renderRoot settings clients ingressRules hostname;
  match yaml_Marshal root with
  | inl out => Ok out
  | inr err => Err (ErrWrap "marshalling config: " err)
  end.
End rendering.

(** * Specification: paths in a configuration tree *)

(** The map at [key], empty when there is none. *)
Definition submap (m : gmap string any) (key : string) : gmap string any :=
  default ∅ (as_map (m !! key)).

Fixpoint get_path (m : gmap string any) (p : list string) : option any :=
  match p with
  | [] => None
  | [k] => m !! k
  | k :: p' => get_path (submap m k) p'
  end.

Fixpoint set_path (m : gmap string any) (p : list string) (v : any) : gmap string any :=
  match p with
  | [] => m
  | [k] => <[k := v]> m
  | k :: p' => <[k := VObj (set_path (submap m k) p' v)]> m
  end.

(** Neither path leads to the other. *)
Definition apart (p q : list string) : Prop := ~ p `prefix_of` q /\ ~ q `prefix_of` p.

Lemma submap_insert_eq m k c : submap (<[k := VObj c]> m) k = c.
Proof. unfold submap. by rewrite lookup_insert_eq. Qed.
Lemma submap_insert_ne m k k' v : k <> k' -> submap (<[k := v]> m) k' = submap m k'.
Proof. intros. unfold submap. by rewrite lookup_insert_ne. Qed.

Lemma get_path_cons m k k' p : get_path m (k :: k' :: p) = get_path (submap m k) (k' :: p).
Proof. done. Qed.
Lemma set_path_cons m k k' p v :
  set_path m (k :: k' :: p) v = <[k := VObj (set_path (submap m k) (k' :: p) v)]> m.
Proof. done. Qed.

Lemma get_set_same m p v : p <> [] -> get_path (set_path m p v) p = Some v.
Proof.
  revert m. induction p as [|k [|k' p] IH]; intros m Hp; [done|by simpl; rewrite lookup_insert_eq|].
  by rewrite set_path_cons, get_path_cons, submap_insert_eq, IH.
Qed.

Lemma apart_cons k p q : apart (k :: p) (k :: q) -> apart p q.
Proof. intros [H1 H2]. split; intros ?; [destruct H1|destruct H2]; by apply prefix_cons. Qed.

(** Setting one path leaves every path apart from it. *)
Lemma get_set_apart m p q v : apart p q -> get_path (set_path m p v) q = get_path m q.
Proof.
  revert m q. induction p as [|k p IH]; intros m q Hpq; [destruct Hpq as [[] _]; apply prefix_nil|].
  destruct q as [|k1 q]; [destruct Hpq as [_ []]; apply prefix_nil|].
  destruct (decide (k = k1)) as [<-|Hne].
  - apply apart_cons in Hpq. destruct p as [|k' p]; [destruct Hpq as [[] _]; apply prefix_nil|].
    destruct q as [|q1 q]; [destruct Hpq as [_ []]; apply prefix_nil|].
    by rewrite set_path_cons, !get_path_cons, submap_insert_eq, IH.
  - assert (forall m v, get_path (<[k := v]> m) (k1 :: q) = get_path m (k1 :: q)) as Hget.
    { intros m' v'. destruct q as [|q1 q]; simpl; [by rewrite lookup_insert_ne|].
      by rewrite submap_insert_ne. }
    destruct p as [|k' p]; [apply Hget|rewrite set_path_cons; apply Hget].
Qed.

(** * Specification of the configuration *)

Definition path_users : list string := ["authentication_backend"; "file"; "path"].
Definition path_cookies : list string := ["session"; "cookies"].
Definition path_rules : list string := ["access_control"; "rules"].
Definition path_clients : list string := ["identity_providers"; "oidc"; "clients"].

(** The four updates of a configuration [m], as writes at a path. *)
Definition with_users (settings : AutheliaSettings) (m : gmap string any) : gmap string any :=
  if FileUsersSecret settings is Some ref then set_path m path_users (VStr (fileUsersPath ref)) else m.
Definition with_cookies (hostname : string) (m : gmap string any) : gmap string any :=
  if decide (hostname <> "" /\ get_path m path_cookies = None)
  then set_path m path_cookies (defaultCookies hostname) else m.
Definition user_rules (m : gmap string any) : list any :=
  default [] (as_slice (get_path m path_rules)).
Definition with_rules (rules : list (gmap string any)) (m : gmap string any) : gmap string any :=
  if decide (rules = []) then m
  else set_path m path_rules (VArr ((VObj <$> rules) ++ user_rules m)).
Definition with_clients `{UnstableSort} (clients : list oidcClient) (m : gmap string any) : gmap string any :=
  if decide (clients = []) then m
  else set_path m path_clients (VArr ((VObj ∘ clientToMap) <$> sort_Slice client_less clients)).

Definition configuration `{UnstableSort} (settings : AutheliaSettings) (clients : list oidcClient)
    (rules : list (gmap string any)) (hostname : string) (base : gmap string any) : gmap string any :=
  with_clients clients (with_rules rules (with_cookies hostname (with_users settings base))).

(** Something has to be written to the configuration. *)
Definition writes (settings : AutheliaSettings) (clients : list oidcClient)
    (rules : list (gmap string any)) (hostname : string) : Prop :=
  is_Some (FileUsersSecret settings) \/ hostname <> "" \/ rules <> [] \/ clients <> [].

#[export] Instance writes_dec settings clients rules hostname :
  Decision (writes settings clients rules hostname).
Proof. unfold writes. apply _. Defined.

(** * The in-place updates are the writes at paths *)

Lemma childMap_Some p key :
  exists p', childMap (Some p) key = Ok (Some p', submap p key) /\
    (forall c, <[key := VObj c]> p' = <[key := VObj c]> p) /\
    (submap p key <> ∅ -> p' = p).
Proof.
  unfold childMap, submap. simpl.
  destruct (p !! key) as [[]|]; simpl; eexists; (split; [reflexivity|]); split; intros; try done;
    by rewrite insert_insert_eq.
Qed.

Lemma childMap_nil key : childMap None key = Panic NilMapWrite.
Proof. unfold childMap. simpl. by rewrite lookup_empty. Qed.

Ltac child key :=
  match goal with |- context [childMap (Some ?p) key] =>
    let q := fresh "p" in let E := fresh "E" in let Hq := fresh "Hq" in let Hs := fresh "Hs" in
    destruct (childMap_Some p key) as (q & E & Hq & Hs); rewrite E; cbn [mbind outcome_bind] end.

Lemma applyFileBackend_Some m settings :
  applyFileBackend (Some m) settings = Ok (Some (with_users settings m)).
Proof.
  unfold applyFileBackend, with_users. destruct (FileUsersSecret settings) as [ref|]; [|done].
  child "authentication_backend". child "file". simpl. by rewrite Hq0, Hq.
Qed.

Lemma applySession_Some m hostname :
  applySession (Some m) hostname = Ok (Some (with_cookies hostname m)).
Proof.
  unfold applySession, with_cookies. case_decide as Hh; [by rewrite decide_False by tauto|].
  child "session". change (get_path m path_cookies) with (submap m "session" !! "cookies").
  destruct (submap m "session" !! "cookies") eqn:Ec.
  - rewrite decide_False by (intros [_ ?]; done). rewrite Hs; [done|]. intros E0. by rewrite E0 in Ec.
  - rewrite decide_True by done. simpl. by rewrite Hq.
Qed.

Lemma applyIngressRules_Some m rules :
  applyIngressRules (Some m) rules = Ok (Some (with_rules rules m)).
Proof.
  unfold applyIngressRules, with_rules. case_decide; [done|].
  child "access_control". simpl. by rewrite Hq.
Qed.

Section refinement.
Context `{UnstableSort}.

Lemma applyClients_Some m clients :
  applyClients (Some m) clients = Ok (Some (with_clients clients m)).
Proof.
  unfold applyClients, with_clients. case_decide; [done|].
  child "identity_providers". child "oidc". simpl. by rewrite Hq0, Hq.
Qed.

(** A nil tree panics at the first write. *)
Lemma apply_nil settings clients rules hostname :
  (root ← applyFileBackend None settings;
   root ← applySession root hostname;
   root ← applyIngressRules root rules;
   applyClients root clients)
  = if decide (writes settings clients rules hostname) then Panic NilMapWrite else Ok None.
Proof.
  assert (forall key, childMap None key = Panic NilMapWrite) as Hnil by apply childMap_nil.
  unfold applyFileBackend, applySession, applyIngressRules, applyClients.
  destruct (decide (writes _ _ _ _)) as [Hw|Hw]; unfold writes in Hw.
  - destruct (FileUsersSecret settings) eqn:EF; [by rewrite Hnil|]. cbn [mbind outcome_bind].
    destruct (decide (hostname = "")); cbn [mbind outcome_bind]; [|by rewrite Hnil].
    destruct (decide (rules = [])); cbn [mbind outcome_bind]; [|by rewrite Hnil].
    destruct (decide (clients = [])); cbn [mbind outcome_bind]; [|by rewrite Hnil].
    exfalso. destruct Hw as [[? ?]|[?|[?|?]]]; congruence.
  - destruct (FileUsersSecret settings) eqn:EF; [destruct Hw; left; eauto|]. cbn [mbind outcome_bind].
    repeat (rewrite decide_True by (apply dec_stable; tauto); cbn [mbind outcome_bind]).
    done.
Qed.

(** The tree, in every case: the literal [null] empties it, so the first of the
    operator's writes, if there is one, is a write to a nil map. *)
Lemma renderRoot_refines settings clients rules hostname :
  renderRoot settings clients rules hostname =
  match parseAdditionalConfig settings with
  | Ok (Some base) => Ok (Some (configuration settings clients rules hostname base))
  | Ok None => if decide (writes settings clients rules hostname) then Panic NilMapWrite else Ok None
  | Err e => Err e
  | Panic p => Panic p
  end.
Proof.
  unfold renderRoot. destruct (parseAdditionalConfig settings) as [[base|]|e|p]; simpl; try done.
  - rewrite applyFileBackend_Some. simpl. rewrite applySession_Some. simpl.
    rewrite applyIngressRules_Some. apply applyClients_Some.
  - apply apply_nil.
Qed.

Lemma renderRoot_Some settings clients rules hostname base :
  parseAdditionalConfig settings = Ok (Some base) ->
  renderRoot settings clients rules hostname
  = Ok (Some (configuration settings clients rules hostname base)).
Proof. intros E. by rewrite renderRoot_refines, E. Qed.
End refinement.

(** What [renderConfig] does with a finished tree. *)
Definition encode `{Yaml} (root : gomap any) : outcome string :=
  match yaml_Marshal root with
  | inl out => Ok out
  | inr err => Err (ErrWrap "marshalling config: " err)
  end.

Lemma parseAdditionalConfig_no_panic settings p : parseAdditionalConfig settings <> Panic p.
Proof.
  unfold parseAdditionalConfig. destruct (AdditionalConfig settings) as [raw|]; [|done].
  case_decide; [done|]. pose proof (Unmarshal_no_panic (Raw raw) p).
  destruct (Unmarshal (Raw raw)); congruence.
Qed.

Lemma renderConfig_eq `{UnstableSort} `{Yaml} settings clients rules hostname :
  renderConfig settings clients rules hostname =
  match parseAdditionalConfig settings with
  | Ok (Some base) => encode (Some (configuration settings clients rules hostname base))
  | Ok None => if decide (writes settings clients rules hostname) then Panic NilMapWrite
               else encode None
  | Err e => Err e
  | Panic p => Panic p
  end.
Proof.
  unfold renderConfig. rewrite renderRoot_refines.
  destruct (parseAdditionalConfig settings) as [[base|]|e|p]; try done.
  by case_decide.
Qed.

(** C6: the rendered configuration is the YAML of the specified tree, in every
    case.  Text that is not a JSON object is reported and nothing is encoded; an
    object (or no text at all, an empty object) becomes the user's tree with the
    operator's four writes; and only the JSON literal [null] can make rendering
    panic, exactly when one of the writes is due. *)
Theorem renderConfig_refines `{UnstableSort} `{Yaml} settings clients rules hostname :
  (forall p, parseAdditionalConfig settings <> Panic p) /\
  renderConfig settings clients rules hostname =
  match parseAdditionalConfig settings with
  | Ok (Some base) => encode (Some (configuration settings clients rules hostname base))
  | Ok None => if decide (writes settings clients rules hostname) then Panic NilMapWrite
               else encode None
  | Err e => Err e
  | Panic p => Panic p
  end.
Proof.
  split; [apply parseAdditionalConfig_no_panic|apply renderConfig_eq].
Qed.

(** * What the configuration holds *)

(** The paths the operator writes for these inputs. *)
Definition operator_paths (settings : AutheliaSettings) (clients : list oidcClient)
    (rules : list (gmap string any)) (hostname : string) : list (list string) :=
  (if FileUsersSecret settings is Some _ then [path_users] else [])
  ++ (if decide (hostname = "") then [] else [path_cookies])
  ++ (if decide (rules = []) then [] else [path_rules])
  ++ (if decide (clients = []) then [] else [path_clients]).

Lemma apart_heads k1 p k2 q : k1 <> k2 -> apart (k1 :: p) (k2 :: q).
Proof. intros H. split; by intros [? [=]]. Qed.

Ltac paths_apart := intros; apply apart_heads; discriminate.

(** Each step is a write at its path, or nothing. *)
Lemma with_users_get settings m p :
  (is_Some (FileUsersSecret settings) -> apart path_users p) ->
  get_path (with_users settings m) p = get_path m p.
Proof.
  intros H. unfold with_users. destruct (FileUsersSecret settings); [|done].
  by apply get_set_apart, H.
Qed.
Lemma with_cookies_get hostname m p :
  (hostname <> "" -> apart path_cookies p) -> get_path (with_cookies hostname m) p = get_path m p.
Proof.
  intros H. unfold with_cookies. case_decide; [|done]. apply get_set_apart, H. tauto.
Qed.
Lemma with_rules_get rules m p :
  (rules <> [] -> apart path_rules p) -> get_path (with_rules rules m) p = get_path m p.
Proof.
  intros H. unfold with_rules. case_decide; [done|]. by apply get_set_apart, H.
Qed.
Lemma with_clients_get `{UnstableSort} clients m p :
  (clients <> [] -> apart path_clients p) -> get_path (with_clients clients m) p = get_path m p.
Proof.
  intros H'. unfold with_clients. case_decide; [done|]. by apply get_set_apart, H'.
Qed.

Section contents.
Context `{UnstableSort}.
Context (settings : AutheliaSettings) (clients : list oidcClient).
Context (rules : list (gmap string any)) (hostname : string) (base : gmap string any).
Hypothesis parsed : parseAdditionalConfig settings = Ok (Some base).

(** C18: the operator only writes where it says.  Rendering succeeds, and every
    setting of the user's configuration that is neither above nor below one of
    the operator's own paths for these inputs has, in the result, the value
    the user gave it (and is absent when the user gave none). *)
Theorem user_settings_kept :
  exists out, renderRoot settings clients rules hostname = Ok (Some out) /\
    forall p, Forall (fun q => apart q p) (operator_paths settings clients rules hostname) ->
      get_path out p = get_path base p.
Proof.
  eexists. split; [by apply renderRoot_Some|]. intros p. unfold operator_paths.
  rewrite !Forall_app. intros (Hu & Hc & Hr & Hcl). unfold configuration.
  rewrite with_clients_get, with_rules_get, with_cookies_get, with_users_get; [done|..].
  - intros [ref E]. rewrite E in Hu. by inversion Hu.
  - intros. rewrite decide_False in Hc by done. by inversion Hc.
  - intros. rewrite decide_False in Hr by done. by inversion Hr.
  - intros. rewrite decide_False in Hcl by done. by inversion Hcl.
Qed.

(** C17: generated access rules come before the user's own, in the order they
    are given, and no user rule is dropped or reordered (Authelia applies the
    first rule that matches); a [rules] entry that is not a list is replaced;
    without generated rules the entry is the user's. *)
Theorem ingress_rules_first :
  exists out, renderRoot settings clients rules hostname = Ok (Some out) /\
    get_path out path_rules
    = if decide (rules = []) then get_path base path_rules
      else Some (VArr ((VObj <$> rules) ++ user_rules base)).
Proof.
  eexists. split; [by apply renderRoot_Some|]. unfold configuration.
  rewrite with_clients_get by paths_apart.
  assert (get_path (with_cookies hostname (with_users settings base)) path_rules
          = get_path base path_rules) as E.
  { rewrite with_cookies_get, with_users_get by paths_apart. done. }
  unfold with_rules, user_rules. rewrite E. case_decide; [done|by rewrite get_set_same].
Qed.

(** C19: the session cookies are the user's whenever the user configured any
    (even to [null]); otherwise they are the single default cookie of a
    non-empty host name. *)
Theorem cookies_kept :
  exists out, renderRoot settings clients rules hostname = Ok (Some out) /\
    get_path out path_cookies
    = match get_path base path_cookies with
      | Some v => Some v
      | None => if decide (hostname = "") then None else Some (defaultCookies hostname)
      end.
Proof.
  eexists. split; [by apply renderRoot_Some|]. unfold configuration.
  rewrite with_clients_get, with_rules_get by paths_apart.
  unfold with_cookies. rewrite with_users_get by paths_apart.
  destruct (get_path base path_cookies) eqn:E.
  - rewrite decide_False by (by intros [_ ?]).
    rewrite with_users_get by paths_apart. done.
  - destruct (decide (hostname = "")) as [Hh|Hh].
    + rewrite decide_False by tauto.
      by rewrite with_users_get by paths_apart.
    + rewrite decide_True by done. by apply get_set_same.
Qed.

(** the users database and the OIDC clients are the operator's: with a users
    Secret the file backend reads the mounted file, whatever the user wrote
    there; with clients the OIDC client list is exactly the given clients,
    ordered by client ID, replacing any list of the user's. *)
Theorem operator_settings_forced :
  exists out, renderRoot settings clients rules hostname = Ok (Some out) /\
    (forall ref, FileUsersSecret settings = Some ref ->
       get_path out path_users = Some (VStr (fileUsersPath ref))) /\
    (clients <> [] -> exists sorted, sorted ≡ₚ clients /\
       StronglySorted (not_after client_less) sorted /\
       get_path out path_clients = Some (VArr ((VObj ∘ clientToMap) <$> sorted))).
Proof.
  eexists. split; [by apply renderRoot_Some|]. unfold configuration. split.
  - intros ref E.
    rewrite with_clients_get, with_rules_get, with_cookies_get by paths_apart.
    unfold with_users. rewrite E. by apply get_set_same.
  - intros Hne. exists (sort_Slice client_less clients). split; [apply sort_Slice_perm|]. split.
    + apply sort_Slice_sorted, on_key_strict, _.
    + unfold with_clients. rewrite decide_False by done. by apply get_set_same.
Qed.
End contents.

Lemma renderConfig_perm (s1 s2 : UnstableSort) `{Yaml} settings clients1 clients2 rules hostname :
  NoDup (ClientID ∘ spec <$> clients1) -> clients1 ≡ₚ clients2 ->
  renderConfig (H:=s1) settings clients1 rules hostname
  = renderConfig (H:=s2) settings clients2 rules hostname.
Proof.
  intros Hnd Hp. rewrite !renderConfig_eq.
  assert (clients1 = [] <-> clients2 = []) as Hnil.
  { split; intros ->; [by apply Permutation_nil_l in Hp|by apply Permutation_nil_r in Hp]. }
  assert (@sort_Slice s1 _ client_less clients1 = @sort_Slice s2 _ client_less clients2) as Es.
  { apply (sort_Slice_perm_eq client_less); [done|]. by apply (trichotomous_on_key (ClientID ∘ spec)). }
  destruct (parseAdditionalConfig settings) as [[base|]|e|p]; try done.
  - do 2 f_equal. unfold configuration, with_clients. rewrite Es.
    destruct (decide (clients1 = [])), (decide (clients2 = [])); tauto.
  - unfold writes. destruct (decide (_ \/ _)), (decide (_ \/ _)); tauto.
Qed.

(** C20: the order in which the clients are listed does not matter when their IDs
    are distinct: any two listings, sorted by any two implementations of the
    unstable [sort.Slice], are rendered to the same text. *)
Theorem render_order_independent (s1 s2 : UnstableSort) `{Yaml} settings clients1 clients2 rules hostname :
  NoDup (ClientID ∘ spec <$> clients1) -> clients1 ≡ₚ clients2 ->
  renderConfig (H:=s1) settings clients1 rules hostname
  = renderConfig (H:=s2) settings clients2 rules hostname.
Proof. apply renderConfig_perm. Qed.

(** * Clients *)

(** Reading a rendered client back. *)
Definition get_string (m : gmap string any) (key : string) : string :=
  default "" (as_string (m !! key)).
Definition get_strings (m : gmap string any) (key : string) : list string :=
  default [] (as_slice (m !! key)) ≫= fun v => if v is VStr s then [s] else [].
Definition get_bool (m : gmap string any) (key : string) : bool :=
  if m !! key is Some (VBool b) then b else false.

Definition mapToClient (m : gmap string any) : oidcClient :=
  mkOidcClient
    (mkAutheliaOAuthClientSpec (mkAutheliaReference "" "")
       (get_string m "client_id") (get_string m "client_name") (get_bool m "public")
       (get_string m "authorization_policy") (get_string m "consent_mode")
       (get_string m "claims_policy") (get_string m "lifespan") (get_strings m "redirect_uris")
       (get_strings m "scopes") (get_strings m "grant_types") (get_strings m "response_types")
       (get_string m "token_endpoint_auth_method") (get_string m "userinfo_signed_response_alg"))
    (get_string m "client_secret").

(** What Authelia is told of a client: everything but the reference to the
    Authelia, and the digest of a confidential client only. *)
Definition published (c : oidcClient) : oidcClient :=
  let s := spec c in
  mkOidcClient
    (mkAutheliaOAuthClientSpec (mkAutheliaReference "" "") (ClientID s) (ClientName s) (Public s)
       (AuthorizationPolicy s) (ConsentMode s) (ClaimsPolicy s) (Lifespan s) (RedirectURIs s)
       (Scopes s) (GrantTypes s) (ResponseTypes s) (TokenEndpointAuthMethod s)
       (UserinfoSignedResponseAlg s))
    (if Public s then "" else secretDigest c).

Lemma put_string_eq key v m : m !! key = None -> get_string (put_string key v m) key = v.
Proof.
  intros Hm. unfold put_string, get_string. case_decide as E; [by rewrite Hm, E|].
  by rewrite lookup_insert_eq.
Qed.
Lemma get_strings_toIface l : toIfaceSlice l ≫= (fun v => if v is VStr s then [s] else []) = l.
Proof. induction l as [|s l IH]; [done|]. unfold toIfaceSlice in *. by rewrite fmap_cons, bind_cons, IH. Qed.
Lemma put_slice_eq key v m : m !! key = None -> get_strings (put_slice key v m) key = v.
Proof.
  intros Hm. unfold put_slice, get_strings. case_decide as E; [by rewrite Hm, E|].
  rewrite lookup_insert_eq. apply get_strings_toIface.
Qed.
Lemma put_string_ne key k v m : key <> k -> put_string key v m !! k = m !! k.
Proof. intros. unfold put_string. case_decide; [done|]. by rewrite lookup_insert_ne. Qed.
Lemma put_slice_ne key k v m : key <> k -> put_slice key v m !! k = m !! k.
Proof. intros. unfold put_slice. case_decide; [done|]. by rewrite lookup_insert_ne. Qed.

Lemma any_insert_ne key k (v : any) (m : gmap string any) : key <> k -> <[key := v]> m !! k = m !! k.
Proof. apply lookup_insert_ne. Qed.
Lemma any_singleton_ne key k (v : any) : key <> k -> ({[key := v]} : gmap string any) !! k = None.
Proof. apply lookup_singleton_ne. Qed.

Create Rewrite HintDb client.
#[export] Hint Rewrite put_string_ne put_slice_ne any_insert_ne any_singleton_ne
  using discriminate : client.

Lemma get_string_ne key k v m : key <> k -> get_string (put_string key v m) k = get_string m k.
Proof. intros. unfold get_string. by rewrite put_string_ne. Qed.
Lemma get_string_slice key k v m : key <> k -> get_string (put_slice key v m) k = get_string m k.
Proof. intros. unfold get_string. by rewrite put_slice_ne. Qed.
Lemma get_string_insert key k v m : key <> k -> get_string (<[key := v]> m) k = get_string m k.
Proof. intros. unfold get_string. by rewrite lookup_insert_ne. Qed.
Lemma get_strings_ne key k v m : key <> k -> get_strings (put_string key v m) k = get_strings m k.
Proof. intros. unfold get_strings. by rewrite put_string_ne. Qed.
Lemma get_strings_slice key k v m : key <> k -> get_strings (put_slice key v m) k = get_strings m k.
Proof. intros. unfold get_strings. by rewrite put_slice_ne. Qed.
#[export] Hint Rewrite get_string_ne get_string_slice get_string_insert get_strings_ne
  get_strings_slice using discriminate : client.

(** Reads one field of [clientToMap]: skip the other keys, then read the key. *)
Ltac client_field :=
  autorewrite with client;
  first [ reflexivity
        | apply put_string_eq; autorewrite with client; reflexivity
        | apply put_slice_eq; autorewrite with client; reflexivity
        | rewrite lookup_insert_eq; reflexivity
        | unfold get_string; rewrite ?lookup_insert_eq, ?lookup_singleton_eq;
          autorewrite with client; rewrite ?lookup_insert_eq, ?lookup_singleton_eq; reflexivity ].

(** C21: a rendered client can be read back: every setting of the client reaches
    the configuration under its own key, empty settings and nothing else are
    left out, a confidential client carries its digest, and the digest of a
    public client is not in the map at all. *)
Theorem clientToMap_roundtrip c :
  mapToClient (clientToMap c) = published c /\
  clientToMap c !! "client_secret" = (if Public (spec c) then None else Some (VStr (secretDigest c))) /\
  clientToMap c !! "public" = (if Public (spec c) then Some (VBool true) else None).
Proof.
  split; [|split].
  - unfold mapToClient, published, get_bool, clientToMap. cbv zeta.
    destruct (Public (spec c)); (f_equal; [f_equal|]); client_field.
  - unfold clientToMap. cbv zeta. destruct (Public (spec c)); client_field.
  - unfold clientToMap. cbv zeta. destruct (Public (spec c)); client_field.
Qed.

(** * Host names and checksums *)

Lemma IndexByte_app_not_elem l c r :
  Forall (fun b => b <> c) (String.list_ascii_of_string l) ->
  IndexByte (l +:+ String c r) c = Some (String.length l).
Proof.
  str_induction l as [|b l IH].
  - intros _. by rewrite Ascii.eqb_refl.
  - intros H. inversion H as [|? ? Hb Hl]; subst. simpl.
    apply Ascii.eqb_neq in Hb. by rewrite Hb, IH.
Qed.

Lemma IndexByte_Some s c i :
  IndexByte s c = Some i ->
  exists l r, s = l +:+ String c r /\ String.length l = i /\
    Forall (fun b => b <> c) (String.list_ascii_of_string l).
Proof.
  revert i. induction s as [|b s IH]; intros i; simpl; [done|].
  destruct (Ascii.eqb b c) eqn:E.
  - intros [= <-]. apply Ascii.eqb_eq in E as ->. exists "", s. split; [done|]. split; [done|constructor].
  - destruct (IndexByte s c) as [j|]; [|done]. intros [= <-].
    destruct (IH j eq_refl) as (l & r & -> & <- & Hl). apply Ascii.eqb_neq in E.
    exists (String b l), r. split; [done|]. split; [done|]. by constructor.
Qed.

(** A host name without dots. *)
Definition is_label (s : string) : Prop :=
  Forall (fun b => b <> "."%char) (String.list_ascii_of_string s).

(** the cookie domain is the host name without its first label, provided
    something follows that label's dot; a host name without a dot, or with its
    only dot at the end, is its own cookie domain. *)
Theorem parentDomain_spec hostname :
  (forall label rest, is_label label -> rest <> "" -> hostname = label +:+ "." +:+ rest ->
     parentDomain hostname = rest) /\
  ((forall label rest, is_label label -> hostname = label +:+ "." +:+ rest -> rest = "") ->
     parentDomain hostname = hostname).
Proof.
  unfold parentDomain. split.
  - intros label rest Hl Hr ->. change ("." +:+ rest) with (String "." rest).
    rewrite IndexByte_app_not_elem by done.
    assert (String.length (label +:+ String "." rest) = String.length label + S (String.length rest)) as E
      by apply str_app_length.
    rewrite decide_True.
    + rewrite Nat.add_comm. change (String "." rest) with ("." +:+ rest).
      replace (1 + String.length label) with (String.length (label +:+ ".")) by (rewrite str_app_length; simpl; lia).
      rewrite <- str_app_assoc. apply str_drop_app.
    + rewrite E. destruct rest; [done|]. simpl. lia.
  - intros Hno. destruct (IndexByte hostname ".") as [i|] eqn:E; [|done].
    apply IndexByte_Some in E as (l & r & -> & <- & Hl).
    rewrite (Hno l r Hl eq_refl), str_app_length, decide_False; [done|]. simpl. lia.
Qed.

Definition is_hex_lower (c : N) : bool := is_digit c || in_range 97 102 c.

Lemma hex_digit_inj d1 d2 : (d1 < 16 -> d2 < 16 -> hex_digit d1 = hex_digit d2 -> d1 = d2)%N.
Proof.
  intros H1 H2. unfold hex_digit. destruct (N.ltb_spec d1 10), (N.ltb_spec d2 10); lia.
Qed.

Lemma hex_digit_ok d : (d < 16)%N -> is_hex_lower (hex_digit d) = true /\ (hex_digit d < 256)%N.
Proof.
  intros Hd. unfold is_hex_lower, is_digit, in_range, hex_digit.
  rewrite orb_true_iff, !andb_true_iff, !N.leb_le. destruct (N.ltb_spec d 10); lia.
Qed.

Lemma nibbles b : (b < 256 -> b / 16 < 16 /\ b mod 16 < 16 /\ b = 16 * (b / 16) + b mod 16)%N.
Proof. intros. div_lia. Qed.

Lemma bytes_of_hex bs :
  bytes_ok bs -> bytes_of (hex_encode bs) = bs ≫= fun b => [hex_digit (b / 16); hex_digit (b mod 16)].
Proof.
  intros Hbs. apply bytes_of_string_of.
  induction Hbs as [|b bs Hb _ IH]; [constructor|]. rewrite bind_cons. apply nibbles in Hb as (H1 & H2 & _).
  apply hex_digit_ok in H1, H2. simpl. constructor; [apply H1|]. constructor; [apply H2|done].
Qed.

Lemma hex_encode_inj bs1 bs2 : bytes_ok bs1 -> bytes_ok bs2 -> hex_encode bs1 = hex_encode bs2 -> bs1 = bs2.
Proof.
  intros H1 H2 E%(f_equal bytes_of). rewrite !bytes_of_hex in E by done. revert bs2 H2 E.
  induction H1 as [|b bs1 Hb _ IH]; intros bs2 [|b2 bs2' Hb2 H2] E; try done.
  rewrite !bind_cons in E. injection E as E1 E2 E. f_equal; [|by apply IH].
  apply nibbles in Hb as (? & ? & ->), Hb2 as (? & ? & ->).
  apply hex_digit_inj in E1, E2; [|done..]. by rewrite E1, E2.
Qed.

(** the checksum is 64 lower-case hexadecimal digits, and two configurations
    have the same checksum only when their SHA-256 digests are equal: the
    encoding adds no collision. *)
Theorem configChecksum_spec rendered1 rendered2 :
  String.length (configChecksum rendered1) = 64 /\
  Forall (fun c => is_hex_lower c = true) (bytes_of (configChecksum rendered1)) /\
  (configChecksum rendered1 = configChecksum rendered2 <->
   sha_Sum SHA256 (bytes_of rendered1) = sha_Sum SHA256 (bytes_of rendered2)).
Proof.
  unfold configChecksum.
  pose proof (sha_Sum_bytes SHA256 (bytes_of rendered1)) as H1.
  pose proof (sha_Sum_length SHA256 (bytes_of rendered1)) as Hlen.
  set (d := sha_Sum SHA256 (bytes_of rendered1)) in *. clearbody d. split_and!.
  - rewrite <- length_bytes_of, bytes_of_hex by done.
    assert (forall l : list N, length (l ≫= fun b => [hex_digit (b / 16); hex_digit (b mod 16)])%N = 2 * length l)
      as -> by (induction l as [|x l IH]; [done|rewrite bind_cons; simpl; lia]).
    rewrite Hlen. reflexivity.
  - rewrite bytes_of_hex by done. clear Hlen.
    induction H1 as [|b bs Hb _ IH]; [constructor|]. rewrite bind_cons. apply nibbles in Hb as (Hh & Hl & _).
    apply hex_digit_ok in Hh, Hl. simpl. constructor; [apply Hh|]. constructor; [apply Hl|done].
  - split; [|by intros ->]. by apply hex_encode_inj, sha_Sum_bytes.
Qed.

(** * Concrete configurations *)

Definition sample_config : string :=
  "{'session':{'name':'s'},'access_control':{'default_policy':'deny','rules':[{'domain':'x','policy':'bypass'}]}}".

(** Go strings below are written with single quotes for double quotes. *)
Definition dquote (s : string) : string :=
  string_of ((fun c => if (c =? 39)%N then 34%N else c) <$> bytes_of s).

Definition config_settings (config : string) : AutheliaSettings :=
  mkAutheliaSettings (Some (mkRawExtension (dquote config)))
    (Some (mkSecretKeyRef "users" "users_database.yml")) [].

Definition sample_client (id name : string) (public : bool) : oidcClient :=
  mkOidcClient
    (mkAutheliaOAuthClientSpec (mkAutheliaReference "auth" "") id name public "two_factor" "" "" ""
       ["https://app.example.com/cb"] ["openid"] [] [] "" "")
    "$pbkdf2-sha512$x".

Definition sample_rule : gmap string any :=
  {[ "policy" := VStr "one_factor"; "domain" := VArr [VStr "app.example.com"] ]}.

(** The parsed [sample_config]. *)
Definition sample_base : gmap string any :=
  match parseAdditionalConfig (config_settings sample_config) with
  | Ok (Some base) => base
  | _ => ∅
  end.
Lemma sample_parsed : parseAdditionalConfig (config_settings sample_config) = Ok (Some sample_base).
Proof. vm_cast_no_check (eq_refl (Ok (Some sample_base))). Qed.

Section witnesses.
#[local] Instance insertion_sort_used : UnstableSort := insertion_sort.

Lemma user_settings_kept_witness :
  exists out, renderRoot (config_settings sample_config) [sample_client "app" "" false]
                [sample_rule] "auth.example.com" = Ok (Some out) /\
    get_path out ["access_control"; "default_policy"] = Some (VStr "deny").
Proof.
  destruct (user_settings_kept (config_settings sample_config) [sample_client "app" "" false]
    [sample_rule] "auth.example.com" sample_base sample_parsed) as (out & E & H).
  exists out. split; [exact E|]. rewrite H; [by vm_compute|].
  repeat constructor; try (intros []; discriminate); intros [x [=]].
Defined.

Lemma ingress_rules_first_witness :
  exists out, renderRoot (config_settings sample_config) [] [sample_rule] "" = Ok (Some out) /\
    length (user_rules out) = 2.
Proof.
  destruct (ingress_rules_first (config_settings sample_config) [] [sample_rule] "" sample_base
    sample_parsed) as (out & E & H).
  exists out. split; [exact E|]. unfold user_rules. rewrite H. by vm_compute.
Defined.

Lemma cookies_kept_witness :
  exists out, renderRoot (config_settings sample_config) [] [] "auth.example.com" = Ok (Some out) /\
    get_path out path_cookies = Some (defaultCookies "auth.example.com").
Proof.
  destruct (cookies_kept (config_settings sample_config) [] [] "auth.example.com" sample_base
    sample_parsed) as (out & E & H).
  exists out. split; [exact E|]. rewrite H. by vm_compute.
Defined.

Lemma operator_settings_forced_witness :
  exists out, renderRoot (config_settings sample_config)
                [sample_client "b" "" true; sample_client "a" "" true] [] "" = Ok (Some out) /\
    get_path out path_users = Some (VStr "/authelia/file-backend/users_database.yml").
Proof.
  destruct (operator_settings_forced (config_settings sample_config)
    [sample_client "b" "" true; sample_client "a" "" true] [] "" sample_base sample_parsed)
    as (out & E & H & _).
  exists out. split; [exact E|]. by rewrite (H _ eq_refl).
Defined.

Lemma render_order_independent_witness :
  let yaml : Yaml := fun _ => inl "..." in
  renderConfig (H:=insertion_sort) (config_settings sample_config)
    [sample_client "b" "" true; sample_client "a" "" true] [] ""
  = renderConfig (H:=insertion_sort) (config_settings sample_config)
      [sample_client "a" "" true; sample_client "b" "" true] [] "".
Proof.
  intros yaml. apply render_order_independent; [|constructor].
  apply (bool_decide_unpack _). by vm_compute.
Defined.

(** The names of the rendered OIDC clients. *)
Definition rendered_names (o : outcome (gomap any)) : list string :=
  match o with
  | Ok (Some m) => default [] (as_slice (get_path m path_clients))
                     ≫= fun v => if v is VObj c then [get_string c "client_name"] else []
  | _ => []
  end.

(** C37: the order of the listing does matter when two clients share an ID, with
    the insertion sort that [sort.Slice] runs on short slices: the output is
    not deterministic regardless of the list order. *)
Theorem duplicate_ids_order_dependent :
  exists clients1 clients2, clients1 ≡ₚ clients2 /\
    renderRoot (config_settings "{}") clients1 [] "" <> renderRoot (config_settings "{}") clients2 [] "".
Proof.
  exists [sample_client "app" "one" true; sample_client "app" "two" true],
    [sample_client "app" "two" true; sample_client "app" "one" true].
  split; [constructor|]. intros E%(f_equal rendered_names). vm_compute in E. discriminate E.
Qed.
End witnesses.
