(* ===== verification/Ingress.v ===== *)
(** [internal/controller/ingress.go]: the Authelia access rules declared by the
    annotations of an Ingress, and their order.

    Go iterates over a map in an unspecified order that may differ from one
    loop to the next; [MapRange] is such an order, and the theorems hold for
    every one. *)

From S2P Require Import Prelude GoStrings GoSort GoJson ApiTypes Render.

(** The order in which a [range] loop visits a map. *)
Class MapRange : Type := {
  map_range : forall {V}, gmap string V -> list (string * V);
  map_range_perm : forall {V} (m : gmap string V), map_range m ≡ₚ map_to_list m
}.

Definition ruleAnnotation : string := "heliop/rule".

Definition validPolicies : gmap string bool :=
  {[ "bypass" := true; "one_factor" := true; "two_factor" := true; "deny" := true ]}.

Record accessRule := mkAccessRule {
  ar_resourceLen : nat;
  ar_wildcard : bool;
  ar_key : string;
  ar_rule : gmap string any
}.

Definition isRuleAnnotation (key : string) : bool :=
  String.eqb key ruleAnnotation || HasPrefix key (ruleAnnotation +:+ "-").

(** [add] of [ingressDomains]: [seen] and [domains] after one host. *)
Definition add_host (st : gset string * list string) (h : string) : gset string * list string :=
  let '(seen, domains) := st in
  if decide (h <> "" /\ h ∉ seen) then ({[h]} ∪ seen, domains ++ [h]) else st.

Definition ingressDomains (ing : Ingress) : list string :=
  let st := foldl add_host (∅, []) (ing_rule_hosts ing) in
  let st := foldl (foldl add_host) st (ing_tls_hosts ing) in
  sort_Strings st.2.

(** The [[]any] case of [resourceLen]: [max] after one resource. *)
Definition longer (max : nat) (r : any) : nat :=
  match r with
  | VStr s => if decide (max < String.length s) then String.length s else max
  | _ => max
  end.

Definition resourceLen (rule : gmap string any) : nat :=
  match rule !! "resources" with
  | Some (VArr v) => foldl longer 0 v
  | Some (VStr v) => String.length v
  | _ => 0
  end.

Definition rule_less (a b : accessRule) : bool :=
  if decide (ar_resourceLen a <> ar_resourceLen b)
  then bool_decide (ar_resourceLen b < ar_resourceLen a)
  else if decide (ar_wildcard a <> ar_wildcard b) then negb (ar_wildcard a)
  else str_lt (ar_key a) (ar_key b).

Definition sortAccessRules (rules : list accessRule) : list accessRule :=
  SliceStable rule_less rules.

Section rules.
Context `{MapRange}.

Definition hasRuleAnnotations (ing : Ingress) : bool :=
  existsb isRuleAnnotation (map_range (ing_annotations ing)).*1.

(** [ing.Annotations[k]] *)
Definition annotation (ing : Ingress) (k : string) : string :=
  default "" (ing_annotations ing !! k).

(** One round of the loop over the annotation keys: the rule appended, if the
    round does not [continue]. *)
Definition annotation_rule (ing : Ingress) (domains : list string) (k : string) :
    outcome (option accessRule) :=
  match Unmarshal (annotation ing k) with
  | Err _ => Ok None
  | Panic p => Panic p
  | Ok m =>
    let policy := default "" (as_string (content m !! "policy")) in
    if default false (validPolicies !! policy) then
      m ← assign m "domain" (VArr (toIfaceSlice domains));
      let wildcard := existsb (fun d => HasPrefix d "*") domains in
      Ok (Some (mkAccessRule (resourceLen (content m)) wildcard
        (default "" (head domains) +:+ "/" +:+ om_Namespace (ing_meta ing) +:+ "/"
         +:+ om_Name (ing_meta ing) +:+ "/" +:+ k)
        (content m)))
    else Ok None
  end.

Fixpoint annotation_rules (ing : Ingress) (domains keys : list string) : outcome (list accessRule) :=
  match keys with
  | [] => Ok []
  | k :: keys' =>
    r ← annotation_rule ing domains k;
    rules ← annotation_rules ing domains keys';
    Ok (option_list r ++ rules)
  end.

Definition ingressAccessRules (ing : Ingress) : outcome (list accessRule) :=
  let domains := ingressDomains ing in
  if decide (domains = []) then Ok [] else
  let keys := filter (fun k => isRuleAnnotation k = true) (map_range (ing_annotations ing)).*1 in
  annotation_rules ing domains (sort_Strings keys).
End rules.

(** * Hosts *)

Definition ingress_host (ing : Ingress) (h : string) : Prop :=
  h <> "" /\ (h ∈ ing_rule_hosts ing \/ exists hosts, hosts ∈ ing_tls_hosts ing /\ h ∈ hosts).

(** [seen] is the set of the collected domains, which are distinct and come
    from [hs]. *)
Definition hosts_inv (hs : list string) (st : gset string * list string) : Prop :=
  NoDup st.2 /\ (forall h, h ∈ st.1 <-> h ∈ st.2) /\ (forall h, h ∈ st.2 <-> h <> "" /\ h ∈ hs).

Lemma add_host_inv hs st h : hosts_inv hs st -> hosts_inv (hs ++ [h]) (add_host st h).
Proof.
  destruct st as [seen domains]. intros (Hnd & Hseen & Hin). unfold add_host, hosts_inv in *. simpl in *.
  case_decide as Hh; simpl; (split; [|split]).
  - apply NoDup_app. split; [done|]. split; [|apply NoDup_singleton].
    intros h' Hd ->%list_elem_of_singleton. apply Hseen in Hd. tauto.
  - intros h'. rewrite elem_of_union, elem_of_app, elem_of_singleton, list_elem_of_singleton, Hseen. tauto.
  - intros h'. rewrite !elem_of_app, !list_elem_of_singleton, Hin. split; [|tauto].
    intros [[? ?]| ->]; tauto.
  - done.
  - done.
  - intros h'. rewrite elem_of_app, list_elem_of_singleton, Hin. split; [tauto|].
    intros [Hne [Hi| ->]]; [tauto|]. split; [done|].
    assert (h ∈ seen) as Hs by (apply dec_stable; tauto). apply Hseen, Hin in Hs. tauto.
Qed.

Lemma add_hosts_inv hs hs' st : hosts_inv hs st -> hosts_inv (hs ++ hs') (foldl add_host st hs').
Proof.
  revert hs st. induction hs' as [|h hs' IH]; intros hs st Hst; simpl; [by rewrite app_nil_r|].
  rewrite (app_assoc hs [h] hs' : hs ++ h :: hs' = (hs ++ [h]) ++ hs'). by apply IH, add_host_inv.
Qed.

Lemma add_tls_inv hs tls st :
  hosts_inv hs st -> hosts_inv (hs ++ concat tls) (foldl (foldl add_host) st tls).
Proof.
  revert hs st. induction tls as [|t tls IH]; intros hs st Hst; simpl; [by rewrite app_nil_r|].
  rewrite app_assoc. by apply IH, add_hosts_inv.
Qed.

Lemma elem_of_concat {A} (x : A) ls : x ∈ concat ls <-> exists l, l ∈ ls /\ x ∈ l.
Proof.
  induction ls as [|l ls IH]; simpl.
  - setoid_rewrite elem_of_nil. naive_solver.
  - rewrite elem_of_app, IH. setoid_rewrite elem_of_cons. naive_solver.
Qed.

Lemma ingressDomains_inv ing :
  NoDup (ingressDomains ing) /\ forall h, h ∈ ingressDomains ing <-> ingress_host ing h.
Proof.
  assert (hosts_inv [] (∅, [])) as H0.
  { split; [constructor|]. split; intros h; set_solver. }
  apply (add_hosts_inv _ (ing_rule_hosts ing)), (add_tls_inv _ (ing_tls_hosts ing)) in H0.
  unfold ingressDomains. destruct H0 as (Hnd & _ & Hin). split; [by rewrite sort_Strings_perm|].
  intros h. rewrite elem_of_sort_Strings, Hin.
  unfold ingress_host. by rewrite app_nil_l, elem_of_app, elem_of_concat.
Qed.

(** the domains of an Ingress are exactly its non-empty hosts, of the rules
    and of the TLS entries, each once, in byte-wise order. *)
Theorem ingressDomains_spec ing :
  NoDup (ingressDomains ing) /\ StronglySorted String.le (ingressDomains ing) /\
  forall h, h ∈ ingressDomains ing <-> ingress_host ing h.
Proof.
  split; [apply ingressDomains_inv|]. split; [apply sort_Strings_sorted|apply ingressDomains_inv].
Qed.

(** * Rules *)

(** The rule that the annotation [k] of an Ingress with these domains declares:
    its JSON object with the domain replaced. *)
Definition declares (ing : Ingress) (domains : list string) (k : string) (r : accessRule) : Prop :=
  exists v m policy,
    ing_annotations ing !! k = Some v /\ Unmarshal v = Ok (Some m) /\
    m !! "policy" = Some (VStr policy) /\ policy ∈ ["bypass"; "one_factor"; "two_factor"; "deny"] /\
    ar_rule r = <["domain" := VArr (VStr <$> domains)]> m /\
    ar_resourceLen r = resourceLen m /\
    (ar_wildcard r = true <-> exists d, d ∈ domains /\ HasPrefix d "*" = true) /\
    ar_key r = default "" (head domains) +:+ "/" +:+ om_Namespace (ing_meta ing) +:+ "/"
               +:+ om_Name (ing_meta ing) +:+ "/" +:+ k.

Lemma validPolicies_spec policy :
  default false (validPolicies !! policy) = true <->
  policy ∈ ["bypass"; "one_factor"; "two_factor"; "deny"].
Proof.
  unfold validPolicies. rewrite !elem_of_cons, elem_of_nil.
  repeat match goal with |- context [<[?k := _]> _ !! policy] =>
    destruct (decide (policy = k)) as [->|?];
      [rewrite lookup_insert_eq; simpl; tauto|rewrite lookup_insert_ne by done] end.
  destruct (decide (policy = "deny")) as [->|?].
  - rewrite lookup_singleton_eq. simpl. tauto.
  - rewrite lookup_singleton_ne by done. simpl. intuition congruence.
Qed.

Lemma resourceLen_domain m v : resourceLen (<["domain" := v]> m) = resourceLen m.
Proof. unfold resourceLen. by rewrite lookup_insert_ne. Qed.

Lemma existsb_elem {A} (f : A -> bool) l : existsb f l = true <-> exists x, x ∈ l /\ f x = true.
Proof. rewrite existsb_exists. by setoid_rewrite <- list_elem_of_In. Qed.

Lemma as_string_Some (o : option any) s : default "" (as_string o) = s -> s <> "" -> o = Some (VStr s).
Proof. by destruct o as [[]|]; simpl; intros; subst. Qed.

Lemma declares_unique ing domains k r r' :
  declares ing domains k r -> declares ing domains k r' -> r = r'.
Proof.
  intros (v & m & p & Hv & Hu & _ & _ & Hr & Hl & Hw & Hk) (v' & m' & p' & Hv' & Hu' & _ & _ & Hr' & Hl' & Hw' & Hk').
  rewrite Hv in Hv'. simplify_eq. rewrite Hu in Hu'. simplify_eq.
  destruct r as [rl w key rule], r' as [rl' w' key' rule']; simpl in *; subst. f_equal.
  apply eq_bool_prop_intro. by rewrite !Is_true_true, Hw, Hw'.
Qed.

Section rule_lemmas.
Context `{MapRange}.

(** A round of the loop never panics, and appends the declared rule. *)
Lemma annotation_rule_spec ing domains k :
  is_Some (ing_annotations ing !! k) ->
  exists r, annotation_rule ing domains k = Ok r /\
    forall r', r = Some r' <-> declares ing domains k r'.
Proof.
  intros [v Hv]. unfold annotation_rule, annotation. rewrite Hv. simpl.
  destruct (Unmarshal v) as [m|e|p] eqn:Eu; [|eexists; split; [done|]|].
  2:{ split; [done|]. intros (v' & m & policy & Hv' & Hu & _). congruence. }
  2:{ exfalso. revert Eu. apply Unmarshal_no_panic. }
  destruct (default false (validPolicies !! default "" (as_string (content m !! "policy")))) eqn:Ep.
  - apply validPolicies_spec in Ep.
    assert (content m !! "policy" = Some (VStr (default "" (as_string (content m !! "policy"))))) as Hp.
    { apply as_string_Some; [done|]. intros E. rewrite E, !elem_of_cons, elem_of_nil in Ep.
      intuition discriminate. }
    destruct m as [m|]; [|by simpl in Hp; rewrite lookup_empty in Hp]. simpl in *.
    eexists. split; [done|]. intros r'. rewrite resourceLen_domain. split.
    + intros [= <-]. exists v, m, (default "" (as_string (m !! "policy"))).
      split_and!; try done. apply existsb_elem.
    + intros (v' & m' & policy & Hv' & Hu & Hpol & _ & Hr & Hl & Hw & Hk).
      rewrite Hv in Hv'. simplify_eq. rewrite Eu in Hu. simplify_eq.
      destruct r' as [rl w key rule]; simpl in *; subst. do 2 f_equal.
      apply eq_bool_prop_intro. by rewrite !Is_true_true, Hw, existsb_elem.
  - eexists. split; [done|]. split; [done|].
    intros (v' & m' & policy & Hv' & Hu & Hpol & Hval & _).
    rewrite Hv in Hv'. simplify_eq. rewrite Eu in Hu. simplify_eq. simpl in Ep.
    rewrite Hpol in Ep. simpl in Ep. apply validPolicies_spec in Hval. congruence.
Qed.

(** The keys of a loop that declare a rule, in order, with their rules. *)
Lemma annotation_rules_spec ing domains keys :
  Forall (fun k => is_Some (ing_annotations ing !! k)) keys ->
  exists ks rules, annotation_rules ing domains keys = Ok rules /\
    Forall2 (declares ing domains) ks rules /\ ks `sublist_of` keys /\
    forall k, k ∈ ks <-> k ∈ keys /\ exists r, declares ing domains k r.
Proof.
  induction 1 as [|k keys Hk _ (ks & rules & IHr & IHd & IHs & IHk)]; simpl.
  { exists [], []. split_and!; [done|constructor|constructor|]. setoid_rewrite elem_of_nil. naive_solver. }
  destruct (annotation_rule_spec ing domains k Hk) as ([r|] & -> & Hr); simpl; rewrite IHr; simpl.
  - exists (k :: ks), (r :: rules).
    assert (declares ing domains k r) by by apply Hr.
    split_and!; [done|by constructor|by constructor|].
    intros k'. rewrite !elem_of_cons, IHk. naive_solver.
  - exists ks, rules. split_and!; [done|done|by constructor|].
    intros k'. rewrite elem_of_cons, IHk. split; [tauto|].
    intros [[->|?] [r' Hr']]; [by apply Hr in Hr'|eauto].
Qed.

Lemma map_range_keys {V} (m : gmap string V) k : k ∈ (map_range m).*1 <-> is_Some (m !! k).
Proof.
  rewrite map_range_perm, list_elem_of_fmap. split.
  - intros ([k' v] & -> & Hm%elem_of_map_to_list). by exists v.
  - intros [v Hv]. exists (k, v). split; [done|]. by apply elem_of_map_to_list.
Qed.

Lemma map_range_NoDup {V} (m : gmap string V) : NoDup (map_range m).*1.
Proof. rewrite map_range_perm. apply NoDup_fst_map_to_list. Qed.

(** The rules of an Ingress, with the annotation keys that declare them. *)
Lemma ingressAccessRules_keys ing :
  exists ks rules, ingressAccessRules ing = Ok rules /\
    Forall2 (declares ing (ingressDomains ing)) ks rules /\
    NoDup ks /\ StronglySorted String.le ks /\
    forall k, k ∈ ks <-> isRuleAnnotation k = true /\ ingressDomains ing <> [] /\
                        exists r, declares ing (ingressDomains ing) k r.
Proof.
  unfold ingressAccessRules. case_decide as Hd.
  { exists [], []. split_and!; [done|constructor..|]. intros k. rewrite elem_of_nil. tauto. }
  set (keys := filter _ _).
  assert (forall k, k ∈ sort_Strings keys <-> isRuleAnnotation k = true /\ is_Some (ing_annotations ing !! k)) as Hkeys.
  { intros k. unfold keys. by rewrite elem_of_sort_Strings, list_elem_of_filter, map_range_keys. }
  destruct (annotation_rules_spec ing (ingressDomains ing) (sort_Strings keys)) as (ks & rules & E & Hf & Hs & Hk).
  { apply Forall_forall. intros k Hk%Hkeys. apply Hk. }
  exists ks, rules. split_and!; [done|done|..].
  - eapply sublist_NoDup; [|exact Hs]. rewrite sort_Strings_perm. apply NoDup_filter, map_range_NoDup.
  - eapply StronglySorted_sublist; [exact Hs|apply sort_Strings_sorted].
  - intros k. rewrite Hk, Hkeys. split; [tauto|]. intros (? & _ & r & Hr).
    split; [|by exists r]. split; [done|]. destruct Hr as (v & _ & _ & Hv & _). by exists v.
Qed.
End rule_lemmas.

(** The rules of an Ingress, which are always returned. *)
Definition rules_of `{MapRange} (ing : Ingress) : list accessRule :=
  match ingressAccessRules ing with Ok rules => rules | _ => [] end.

Lemma ingressAccessRules_Ok `{MapRange} ing : ingressAccessRules ing = Ok (rules_of ing).
Proof. unfold rules_of. by destruct (ingressAccessRules_keys ing) as (ks & rules & -> & _). Qed.

Lemma elem_of_rules_of `{MapRange} ing r :
  r ∈ rules_of ing <-> exists k, isRuleAnnotation k = true /\ ingressDomains ing <> [] /\
                                 declares ing (ingressDomains ing) k r.
Proof.
  destruct (ingressAccessRules_keys ing) as (ks & rules & E & Hf & _ & _ & Hk).
  unfold rules_of. rewrite E. split.
  - intros [i Hi]%list_elem_of_lookup. destruct (Forall2_lookup_r _ _ _ _ _ Hf Hi) as (k & Hki & Hd).
    apply list_elem_of_lookup_2, Hk in Hki. exists k. tauto.
  - intros (k & Hr & Hne & Hd). assert (k ∈ ks) as Hin by (apply Hk; eauto).
    apply list_elem_of_lookup in Hin as [i Hi].
    destruct (Forall2_lookup_l _ _ _ _ _ Hf Hi) as (r' & Hr' & Hd').
    apply list_elem_of_lookup_2 in Hr'. by rewrite (declares_unique _ _ _ _ _ Hd Hd').
Qed.

(** C23: an Ingress declares exactly its valid rules.  The call never panics.
    With no host there is no rule; otherwise the rules are those of the
    annotations that are rule annotations, parse as a JSON object and name a
    valid policy, one for each, in the order of the annotation keys; every rule
    is the annotation's object with its domain replaced by the hosts
    of the Ingress. *)
Theorem ingressAccessRules_spec `{MapRange} ing :
  exists rules, ingressAccessRules ing = Ok rules /\
    (forall r, r ∈ rules <-> exists k, isRuleAnnotation k = true /\ ingressDomains ing <> [] /\
                                       declares ing (ingressDomains ing) k r) /\
    exists ks, NoDup ks /\ StronglySorted String.le ks /\
      Forall2 (declares ing (ingressDomains ing)) ks rules.
Proof.
  exists (rules_of ing). split; [apply ingressAccessRules_Ok|]. split; [apply elem_of_rules_of|].
  destruct (ingressAccessRules_keys ing) as (ks & rules & E & Hf & Hnd & Hs & _).
  exists ks. unfold rules_of. by rewrite E.
Qed.

(** C22: an annotation cannot reach beyond its Ingress.  Whatever JSON an
    annotation holds, the domain of a generated rule is the list of hosts of the
    Ingress that carries it, none of them foreign; every other member is the
    annotation's, and the policy is one Authelia knows. *)
Theorem rule_confined `{MapRange} ing r :
  r ∈ rules_of ing ->
  exists domains policy,
    ar_rule r !! "domain" = Some (VArr (VStr <$> domains)) /\
    domains <> [] /\ Forall (ingress_host ing) domains /\
    ar_rule r !! "policy" = Some (VStr policy) /\
    policy ∈ ["bypass"; "one_factor"; "two_factor"; "deny"] /\
    exists k v m, ing_annotations ing !! k = Some v /\ isRuleAnnotation k = true /\
      Unmarshal v = Ok (Some m) /\ forall key, key <> "domain" -> ar_rule r !! key = m !! key.
Proof.
  intros (k & Hk & Hne & v & m & policy & Hv & Hu & Hp & Hpol & Hr & _)%elem_of_rules_of.
  exists (ingressDomains ing), policy. rewrite Hr.
  split; [by rewrite lookup_insert_eq|]. split; [done|]. split.
  { apply Forall_forall. intros h Hh. by apply ingressDomains_inv. }
  split; [by rewrite lookup_insert_ne|]. split; [done|]. exists k, v, m.
  split_and!; [done..|]. intros key Hkey. by rewrite lookup_insert_ne.
Qed.

Lemma no_annotations_no_rules `{MapRange} ing : hasRuleAnnotations ing = false -> rules_of ing = [].
Proof.
  intros Hh. destruct (rules_of ing) as [|r rules] eqn:E; [done|].
  assert (r ∈ rules_of ing) as (k & Hk & _ & v & m & p & Hv & _)%elem_of_rules_of by (rewrite E; left).
  assert (hasRuleAnnotations ing = true); [|congruence].
  apply existsb_elem. exists k. split; [|done]. apply map_range_keys. by exists v.
Qed.

(** * Specificity *)

(** The resource patterns of a rule: one string, or the strings of a list. *)
Definition patterns (rule : gmap string any) : list string :=
  match rule !! "resources" with
  | Some (VArr v) => v ≫= fun r => if r is VStr s then [s] else []
  | Some (VStr s) => [s]
  | _ => []
  end.

Lemma foldl_longer v n :
  let l := v ≫= fun r => if r is VStr s then [s] else [] in
  n <= foldl longer n v /\ Forall (fun s => String.length s <= foldl longer n v) l /\
  (foldl longer n v = n \/ exists s, s ∈ l /\ foldl longer n v = String.length s).
Proof.
  revert n. induction v as [|r v IH]; intros n; [split_and!; [done|constructor|by left]|].
  cbv zeta. rewrite bind_cons. cbn [foldl].
  destruct (IH (longer n r)) as (H1 & H2 & H3).
  assert (n <= longer n r /\
          match r with VStr s => String.length s <= longer n r | _ => True end /\
          (longer n r = n \/ match r with VStr s => longer n r = String.length s | _ => False end)) as (L1 & L2 & L3).
  { destruct r; simpl; try (split_and!; auto; done). case_decide; lia. }
  split; [lia|]. split.
  - apply Forall_app. split; [|done]. destruct r; try constructor; [lia|constructor].
  - destruct H3 as [E|(s & Hs & E)]; [|right; exists s; split; [by apply elem_of_app; right|done]].
    rewrite E. destruct L3 as [->|L3]; [by left|]. destruct r; try done. right. exists s.
    split; [apply elem_of_app; left; by left|done].
Qed.

(** the length of a rule is the length of its longest resource pattern, and
    zero when it has none; it never changes with the domain. *)
Theorem resourceLen_spec rule :
  Forall (fun s => String.length s <= resourceLen rule) (patterns rule) /\
  (resourceLen rule = 0 \/ exists s, s ∈ patterns rule /\ resourceLen rule = String.length s).
Proof.
  unfold resourceLen, patterns. destruct (rule !! "resources") as [[]|];
    try (split; [constructor|by left]).
  - split; [by repeat constructor|]. right. exists s. split; [by left|done].
  - destruct (foldl_longer l 0) as (_ & ? & ?). done.
Qed.

(** [a] has to stand before [b]: its longest pattern is longer; or as long, with
    exact hosts against a wildcard; or else its key is smaller. *)
Definition more_specific (a b : accessRule) : Prop :=
  ar_resourceLen b < ar_resourceLen a \/
  ar_resourceLen a = ar_resourceLen b /\
    (ar_wildcard a = false /\ ar_wildcard b = true \/
     ar_wildcard a = ar_wildcard b /\ str_lt (ar_key a) (ar_key b) = true).

Lemma rule_less_spec a b : rule_less a b = true <-> more_specific a b.
Proof.
  unfold rule_less, more_specific. case_decide as Hl.
  { rewrite bool_decide_eq_true. split; [by left|]. intros [?|[? _]]; [done|lia]. }
  case_decide as Hw.
  - rewrite negb_true_iff. split.
    + intros Ha. right. split; [lia|]. left. split; [done|].
      by destruct (ar_wildcard a), (ar_wildcard b).
    + intros [?|[_ [[? _]|[? _]]]]; [lia|done|by destruct Hw].
  - split.
    + intros Hk. right. split; [lia|]. right. split; [|done].
      destruct (ar_wildcard a), (ar_wildcard b); done.
    + intros [?|[_ [[Ha Hb]|[_ ?]]]]; [lia| |done]. by rewrite Ha, Hb in Hw.
Qed.

#[export] Instance rule_less_strict : StrictWeakOrder rule_less.
Proof.
  split.
  - intros x. apply not_true_iff_false. rewrite rule_less_spec.
    intros [?|[_ [[? ?]|[_ Hk]]]]; [lia|congruence|]. by rewrite less_irrefl in Hk.
  - intros x y z. rewrite !rule_less_spec. unfold more_specific.
    intros [H1|[H1 K1]] [H2|[H2 K2]]; [left; lia..|]. right. split; [lia|].
    destruct K1 as [[? ?]|[? K1]], K2 as [[? ?]|[? K2]]; [left; split; congruence..|].
    right. split; [congruence|]. by eapply less_trans.
  - intros x y z. rewrite !rule_less_spec. unfold more_specific. intros [H|[H K]].
    { destruct (decide (ar_resourceLen y < ar_resourceLen x)); [by left; left|right; left; lia]. }
    destruct (decide (ar_resourceLen x = ar_resourceLen y)) as [E|E];
      [|destruct (decide (ar_resourceLen y < ar_resourceLen x)); [by left; left|right; left; lia]].
    destruct K as [[Kx Kz]|[Kw K]].
    + destruct (ar_wildcard y) eqn:Ey.
      * left. right. split; [done|]. by left.
      * right. right. split; [lia|]. by left.
    + destruct (ar_wildcard x) eqn:Ex, (ar_wildcard y) eqn:Ey.
      * destruct (less_cotrans _ (ar_key y) _ K); [left|right]; right; (split; [lia|]); right; split; congruence.
      * right. right. split; [lia|]. left. by rewrite <- Kw.
      * left. right. split; [done|]. by left.
      * destruct (less_cotrans _ (ar_key y) _ K); [left|right]; right; (split; [lia|]); right; split; congruence.
Qed.

(** the sort puts the more specific rule first and is stable: the result is a
    permutation of the rules, no rule stands before one that has to stand before it, and
    rules that are not told apart keep their order. *)
Theorem sortAccessRules_spec rules :
  sortAccessRules rules ≡ₚ rules /\
  StronglySorted (fun a b => ~ more_specific b a) (sortAccessRules rules) /\
  forall z, filter (tied rule_less z) (sortAccessRules rules) = filter (tied rule_less z) rules.
Proof.
  unfold sortAccessRules. split; [apply SliceStable_perm|]. split.
  - eapply StronglySorted_impl; [|apply SliceStable_sorted, _].
    intros a b. unfold not_after. rewrite <- not_true_iff_false, rule_less_spec. done.
  - intros z. apply SliceStable_stable, _.
Qed.

(** * Independence of the listing *)

(** Kubernetes names: no slash in an object's name, its namespace or a host. *)
Definition no_slash (s : string) : Prop := ("/"%char) ∉ String.list_ascii_of_string s.
Definition dns_names (ing : Ingress) : Prop :=
  no_slash (om_Namespace (ing_meta ing)) /\ no_slash (om_Name (ing_meta ing)) /\
  forall h, ingress_host ing h -> no_slash h.

Lemma slash_split s t u v :
  no_slash s -> no_slash t -> s +:+ "/" +:+ u = t +:+ "/" +:+ v -> s = t /\ u = v.
Proof.
  unfold no_slash. revert t. str_induction s as [|c s IH]; intros [|d t] Hs Ht E;
    change (("/" +:+ u)%string) with (String "/" u) in *; change (("/" +:+ v)%string) with (String "/" v) in *;
    simpl in *; autorewrite with str in *; simplify_eq; [done|set_solver|set_solver|].
  destruct (IH t) as [-> ->]; [set_solver|set_solver|done|done].
Qed.

(** The position of an Ingress in the cluster. *)
Definition ing_id (ing : Ingress) : string * string :=
  (om_Namespace (ing_meta ing), om_Name (ing_meta ing)).

Section listing.
Context `{MapRange}.

Lemma head_domain_ok ing : dns_names ing -> no_slash (default "" (head (ingressDomains ing))).
Proof.
  intros (_ & _ & Hh). destruct (ingressDomains ing) as [|d l] eqn:E; simpl; [by intros ?%elem_of_nil|].
  apply Hh, ingressDomains_inv. rewrite E. by left.
Qed.

Lemma ar_key_inj ing ing' k k' r r' :
  dns_names ing -> dns_names ing' ->
  declares ing (ingressDomains ing) k r -> declares ing' (ingressDomains ing') k' r' ->
  ar_key r = ar_key r' -> ing_id ing = ing_id ing' /\ k = k'.
Proof.
  intros H1 H2 (v & m & p & _ & _ & _ & _ & _ & _ & _ & ->) (v' & m' & p' & _ & _ & _ & _ & _ & _ & _ & ->) E.
  apply slash_split in E as [_ E]; [|by apply head_domain_ok..]. unfold ing_id.
  destruct H1 as (? & ? & _), H2 as (? & ? & _).
  apply slash_split in E as [-> E]; [|done..]. by apply slash_split in E as [-> ->].
Qed.

Lemma rules_of_keys ing : dns_names ing -> NoDup (ar_key <$> rules_of ing).
Proof.
  intros Hing. destruct (ingressAccessRules_keys ing) as (ks & rules & E & Hf & Hnd & _).
  unfold rules_of. rewrite E. apply NoDup_alt. intros i j key Hi Hj.
  rewrite list_lookup_fmap in Hi, Hj.
  destruct (rules !! i) as [ri|] eqn:Ei, (rules !! j) as [rj|] eqn:Ej; simplify_eq/=.
  destruct (Forall2_lookup_r _ _ _ _ _ Hf Ei) as (ki & Hki & Hdi).
  destruct (Forall2_lookup_r _ _ _ _ _ Hf Ej) as (kj & Hkj & Hdj).
  destruct (ar_key_inj ing ing ki kj ri rj) as [_ ->]; try done.
  by eapply NoDup_lookup.
Qed.

Lemma all_rules_keys ings :
  NoDup (ing_id <$> ings) -> Forall dns_names ings -> NoDup (ar_key <$> (ings ≫= rules_of)).
Proof.
  induction ings as [|ing ings IH]; [constructor|].
  rewrite bind_cons, fmap_app, fmap_cons, NoDup_cons. intros [Hni Hnd] Hok.
  inversion Hok as [|? ? Hing Hings]; subst. apply NoDup_app. split; [by apply rules_of_keys|].
  split; [|by apply IH]. intros key (r & -> & Hr)%list_elem_of_fmap (r' & Hk & Hr')%list_elem_of_fmap.
  apply list_elem_of_bind in Hr' as (ing' & Hr' & Hin). rewrite elem_of_rules_of in Hr, Hr'.
  destruct Hr as (k & _ & _ & Hd), Hr' as (k' & _ & _ & Hd'). rewrite Forall_forall in Hings.
  destruct (ar_key_inj ing ing' k k' r r') as [E _]; auto.
  apply Hni. rewrite E. by apply list_elem_of_fmap_2.
Qed.

Lemma key_decides x y :
  str_lt (ar_key x) (ar_key y) = true -> more_specific x y \/ more_specific y x.
Proof.
  intros Hk. unfold more_specific.
  destruct (Nat.lt_trichotomy (ar_resourceLen x) (ar_resourceLen y)) as [?|[?|?]]; [tauto| |tauto].
  destruct (ar_wildcard x), (ar_wildcard y); [left; right; tauto|right; right; auto|left; right; auto|left; right; tauto].
Qed.

Lemma rules_trichotomous rules :
  NoDup (ar_key <$> rules) -> trichotomous_on rule_less rules.
Proof.
  intros Hnd x y Hx Hy Hxy Hyx. rewrite <- not_true_iff_false, rule_less_spec in Hxy, Hyx.
  apply (trichotomous_on_key ar_key rules Hnd x y Hx Hy);
    apply not_true_iff_false; intros Hk%key_decides; tauto.
Qed.
End listing.

Lemma ingressAccessRules_range (r1 r2 : MapRange) ing :
  @ingressAccessRules r1 ing = @ingressAccessRules r2 ing.
Proof.
  unfold ingressAccessRules. case_decide; [done|]. f_equal. apply sort_Strings_proper.
  by rewrite !map_range_perm.
Qed.

Lemma rules_of_range (r1 r2 : MapRange) ing : @rules_of r1 ing = @rules_of r2 ing.
Proof. unfold rules_of. by rewrite (ingressAccessRules_range r1 r2). Qed.

(** The sorted rules of a set of Ingresses depend neither on the order of their
    listing nor on the iteration order of the annotation maps. *)
Lemma sorted_rules_independent (r1 r2 : MapRange) ings1 ings2 :
  NoDup (ing_id <$> ings1) -> Forall dns_names ings1 -> ings1 ≡ₚ ings2 ->
  sortAccessRules (ings1 ≫= @rules_of r1) = sortAccessRules (ings2 ≫= @rules_of r2).
Proof.
  intros Hnd Hok Hp. apply SliceStable_perm_eq; [apply _| |by apply rules_trichotomous, all_rules_keys].
  rewrite <- Hp. clear. induction ings1 as [|ing ings IH]; [done|].
  by rewrite !bind_cons, IH, (rules_of_range r1 r2).
Qed.

(** * A concrete Ingress *)

(** The iteration order of stdpp's maps. *)
Definition list_range : MapRange := {|
  map_range := fun V m => map_to_list m;
  map_range_perm := fun V m => reflexivity (map_to_list m)
|}.

Definition sample_ingress (annotations : gmap string string) : Ingress :=
  mkIngress (mkObjectMeta "web" "apps" "" None (Some annotations) [] ∅)
    ["app.example.com"] [["www.example.com"; "app.example.com"]] ∅.

Definition sample_annotations : gmap string string :=
  {[ "heliop/rule-0" := dquote "{'policy':'bypass','domain':'evil.example.com','resources':['^/public']}";
     "heliop/rule-1" := dquote "{'policy':'allow'}";
     "heliop/rules" := dquote "{'policy':'bypass'}" ]}.

Section witnesses.
#[local] Instance list_range_used : MapRange := list_range.

Lemma rule_confined_witness :
  exists r, r ∈ rules_of (sample_ingress sample_annotations) /\
    exists domains, ar_rule r !! "domain" = Some (VArr (VStr <$> domains)) /\
      Forall (ingress_host (sample_ingress sample_annotations)) domains.
Proof.
  assert (exists r, head (rules_of (sample_ingress sample_annotations)) = Some r) as [r Hr]
    by (vm_compute; eauto).
  assert (r ∈ rules_of (sample_ingress sample_annotations)) as Hin by by apply head_Some_elem_of.
  exists r. split; [exact Hin|].
  destruct (rule_confined (sample_ingress sample_annotations) r Hin)
    as (domains & policy & Hd & _ & Hh & _).
  exists domains. split; [exact Hd|exact Hh].
Defined.
End witnesses.
