(* ===== verification/Cluster.v ===== *)
(** The API server and the controller-runtime client, as the operator relies on
    them.

    Both are outside this repository: [Api] is the interface, its laws
    ([ApiLaws]) are the documented behaviour, and [Owners] is
    [controllerutil.SetControllerReference] in the same way.  [Memory], at the
    end, is an in-memory API server that satisfies all the laws.

    The laws allow for failures: every request may be refused, and a write
    that reports an error may still have been performed. *)

From S2P Require Import Prelude GoCrypto ApiTypes.

(** * Kinds *)

Inductive kind :=
  | KAuthelia | KOAuthClient | KIngress
  | KSecret | KConfigMap | KService | KPersistentVolumeClaim | KDeployment.

#[export] Instance kind_eq_dec : EqDecision kind.
Proof. solve_decision. Defined.

Definition KObj (k : kind) : Type :=
  match k with
  | KAuthelia => Authelia | KOAuthClient => AutheliaOAuthClient | KIngress => Ingress
  | KSecret => Secret | KConfigMap => ConfigMap | KService => Service
  | KPersistentVolumeClaim => PersistentVolumeClaim | KDeployment => Deployment
  end.

#[export] Instance KObj_eq_dec k : EqDecision (KObj k).
Proof. destruct k; simpl; apply _. Defined.

(** [client.Object]: an object of some kind, told apart by type assertions. *)
Inductive client_Object := AnObject (k : kind) (o : KObj k).

Definition KMeta (k : kind) : KObj k -> ObjectMeta :=
  match k with
  | KAuthelia => au_meta | KOAuthClient => oc_meta | KIngress => ing_meta
  | KSecret => sec_meta | KConfigMap => cm_meta | KService => svc_meta
  | KPersistentVolumeClaim => pvc_meta | KDeployment => dep_meta
  end.

Definition meta_key (m : ObjectMeta) : NamespacedName := mkNamespacedName (om_Namespace m) (om_Name m).
Definition key_of (k : kind) (o : KObj k) : NamespacedName := meta_key (KMeta k o).

(** * What the server keeps of a request

    The server fills in fields the client leaves to it (UID, defaults, status),
    stores empty maps as nil maps, and respells quantities.  [kept] is the part
    of an object of a managed kind that it stores as sent. *)

Definition kept_map {V} (m : gomap V) : gomap V := Some (content m).

Definition kept_meta (m : ObjectMeta) : ObjectMeta :=
  mkObjectMeta (om_Name m) (om_Namespace m) "" (kept_map (om_Labels m))
    (kept_map (om_Annotations m)) (om_OwnerReferences m) ∅.

Definition kept_container (c : Container) : Container :=
  mkContainer (c_Name c) (c_Image c) (c_ImagePullPolicy c) (c_Command c) (c_Args c) (c_Env c)
    (mkResourceRequirements None None ∅) (c_Ports c) (c_StartupProbe c) (c_LivenessProbe c)
    (c_ReadinessProbe c) (c_VolumeMounts c).

Definition kept_template (t : PodTemplateSpec) : PodTemplateSpec :=
  mkPodTemplateSpec (kept_map (pt_Labels t)) (kept_map (pt_Annotations t))
    (mkPodSpec (EnableServiceLinks (pt_Spec t)) (kept_container <$> Containers (pt_Spec t))
       (Volumes (pt_Spec t))).

Definition kept (k : kind) : KObj k -> KObj k :=
  match k with
  | KSecret => fun s =>
      mkSecret (kept_meta (sec_meta s)) (sec_Type s) (kept_map (sec_Data s)) ∅
  | KConfigMap => fun c => mkConfigMap (kept_meta (cm_meta c)) (kept_map (cm_Data c)) ∅
  | KService => fun s =>
      mkService (kept_meta (svc_meta s))
        (mkServiceSpec (svc_Type (svc_Spec s)) (kept_map (svc_Selector (svc_Spec s)))
           (svc_Ports (svc_Spec s)) ∅) ∅
  | KPersistentVolumeClaim => fun p => mkPersistentVolumeClaim (kept_meta (pvc_meta p)) ∅ ∅
  | KDeployment => fun d =>
      mkDeployment (kept_meta (dep_meta d))
        (mkDeploymentSpec (ds_Replicas (dep_Spec d)) (RevisionHistoryLimit (dep_Spec d))
           (Selector (dep_Spec d)) (kept_template (Template (dep_Spec d))) ∅) 0 ∅
  | KAuthelia => fun a => mkAuthelia (kept_meta (au_meta a)) (au_Spec a) (au_Status a)
  | KOAuthClient => fun c => mkAutheliaOAuthClient (kept_meta (oc_meta c)) (oc_Spec c) (oc_Status c)
  | KIngress => fun i => mkIngress (kept_meta (ing_meta i)) (ing_rule_hosts i) (ing_tls_hosts i) ∅
  end.

(** [o0] with the status of [o]: what an update of the status changes. *)
Definition with_status (k : kind) : KObj k -> KObj k -> KObj k :=
  match k with
  | KAuthelia => fun a0 a => mkAuthelia (au_meta a0) (au_Spec a0) (au_Status a)
  | KOAuthClient => fun c0 c => mkAutheliaOAuthClient (oc_meta c0) (oc_Spec c0) (oc_Status c)
  | _ => fun o0 _ => o0
  end.

(** The kinds the operator creates. *)
Definition managed (k : kind) : bool :=
  match k with
  | KAuthelia | KOAuthClient | KIngress => false
  | _ => true
  end.

(** * The client *)

Class Api := {
  cluster : Type;
  objects : forall k, cluster -> gmap NamespacedName (KObj k);
  Get : forall k, NamespacedName -> M cluster (KObj k);
  ListAll : forall k, M cluster (list (KObj k));
  Create : forall k, KObj k -> M cluster (KObj k);
  Update : forall k, KObj k -> M cluster (KObj k);
  StatusUpdate : forall k, KObj k -> M cluster (KObj k);
  DeepEqual : forall k, KObj k -> KObj k -> bool;
  CreateOrUpdate : forall k, KObj k -> (KObj k -> M entropy (KObj k)) -> M (cluster * entropy) (KObj k)
}.

Definition find `{Api} (k : kind) (c : cluster) (key : NamespacedName) : option (KObj k) :=
  objects k c !! key.

(** The store after [o] was stored, and nothing else. *)
Definition stored `{Api} (k : kind) (o : KObj k) (c c' : cluster) : Prop :=
  objects k c' = <[key_of k o := o]> (objects k c) /\
  forall k', k' <> k -> objects k' c' = objects k' c.

(** Two clusters with the same objects. *)
Definition same_objects `{Api} (c c' : cluster) : Prop := forall k, objects k c' = objects k c.

(** [sent] was written: the server keeps what it was sent under the same name. *)
Definition wrote `{Api} (k : kind) (sent o : KObj k) (c c' : cluster) : Prop :=
  kept k o = kept k sent /\ key_of k o = key_of k sent /\ stored k o c c'.

(** The status of [o] was written to the stored object: [o'] is stored now. *)
Definition status_written `{Api} (k : kind) (o o' : KObj k) (c c' : cluster) : Prop :=
  exists o0, find k c (key_of k o) = Some o0 /\ wrote k (with_status k o0 o) o' c c' /\
    om_UID (KMeta k o') = om_UID (KMeta k o0).

(** Running a computation on one half of the operator's world. *)
Definition on_cluster `{Api} {A} (m : M cluster A) : M (cluster * entropy) A := fun w =>
  let '(r, c) := m w.1 in (r, (c, w.2)).
Definition on_entropy `{Api} {A} (m : M entropy A) : M (cluster * entropy) A := fun w =>
  let '(r, t) := m w.2 in (r, (w.1, t)).

Class ApiLaws `{Api} : Prop := {
  (** Objects are stored under their own name. *)
  objects_key k c key o : find k c key = Some o -> key_of k o = key;
  (** Reads change nothing and return what is stored; only an absent object is
      reported as not found. *)
  Get_spec k key c :
    exists r, Get k key c = (r, c) /\
      match r with
      | Ok o => find k c key = Some o
      | Err e => IsNotFound e = true -> find k c key = None
      | Panic _ => False
      end;
  List_spec k c :
    exists r, ListAll k c = (r, c) /\
      match r with
      | Ok l => l ≡ₚ (map_to_list (objects k c)).*2
      | Err e => True
      | Panic _ => False
      end;
  (** A write that succeeds was performed; one that fails may have been. *)
  Create_spec k o c :
    managed k = true ->
    exists r c', Create k o c = (r, c') /\
      match r with
      | Ok o' => find k c (key_of k o) = None /\ wrote k o o' c c'
      | Err _ => same_objects c c' \/
                 find k c (key_of k o) = None /\ exists o', wrote k o o' c c'
      | Panic _ => False
      end;
  Update_spec k o c :
    managed k = true ->
    exists r c', Update k o c = (r, c') /\
      match r with
      | Ok o' => is_Some (find k c (key_of k o)) /\ wrote k o o' c c'
      | Err _ => same_objects c c' \/
                 is_Some (find k c (key_of k o)) /\ exists o', wrote k o o' c c'
      | Panic _ => False
      end;
  (** Updating the status leaves the rest as it is stored. *)
  StatusUpdate_spec k o c :
    exists r c', StatusUpdate k o c = (r, c') /\
      match r with
      | Ok o' => status_written k o o' c c'
      | Err _ => same_objects c c' \/ exists o', status_written k o o' c c'
      | Panic _ => False
      end;
  (** [equality.Semantic.DeepEqual] *)
  DeepEqual_refl k o : DeepEqual k o o = true;
  DeepEqual_kept k o o' : DeepEqual k o o' = true -> kept k o = kept k o';
  (** [controllerutil.CreateOrUpdate]: fetch the object; if it does not exist,
      run [f] on the given one and create it; otherwise run [f] on what was
      fetched and, if that changed it, update it. *)
  CreateOrUpdate_spec k obj (f : KObj k -> M entropy (KObj k)) w :
    (forall o t o' t', f o t = (Ok o', t') -> key_of k o' = key_of k o) ->
    CreateOrUpdate k obj f w =
    try (on_cluster (Get k (key_of k obj))) (fun r =>
      match r with
      | inr err => if IsNotFound err
                   then o' ← on_entropy (f obj); on_cluster (Create k o')
                   else throw err
      | inl o => o' ← on_entropy (f o);
                 if DeepEqual k o o' then mret o' else on_cluster (Update k o')
      end) w
}.

(** * What the requests do *)

Section requests.
Context `{ApiLaws}.

(** The object a mutation starts from: the stored one, or the given one. *)
Definition base_of (k : kind) (obj : KObj k) (c : cluster) (base : KObj k) : Prop :=
  find k c (key_of k obj) = Some base \/ find k c (key_of k obj) = None /\ base = obj.

(** [obj] was mutated by [f] to something the server now stores as [st]. *)
Definition mutated (k : kind) (obj : KObj k) (f : KObj k -> M entropy (KObj k))
    (w : cluster * entropy) (st : KObj k) (w' : cluster * entropy) : Prop :=
  exists base o, base_of k obj w.1 base /\ f base w.2 = (Ok o, w'.2) /\
    kept k st = kept k o /\ key_of k st = key_of k obj /\ stored k st w.1 w'.1.

Definition keeps_key (k : kind) (f : KObj k -> M entropy (KObj k)) : Prop :=
  forall o t o' t', f o t = (Ok o', t') -> key_of k o' = key_of k o.

Lemma stored_lookup k o c c' : stored k o c c' -> find k c' (key_of k o) = Some o.
Proof. unfold find. intros [-> _]. apply lookup_insert_eq. Qed.

Lemma stored_ne k o c c' k' key :
  stored k o c c' -> k' <> k \/ key <> key_of k o -> find k' c' key = find k' c key.
Proof.
  unfold find. intros [E Hne] Hk. destruct (decide (k' = k)) as [->|Hk']; [|by rewrite Hne].
  rewrite E, lookup_insert_ne; [done|]. destruct Hk; congruence.
Qed.

Lemma stored_same k o c : find k c (key_of k o) = Some o -> stored k o c c.
Proof. unfold find. intros E. split; [by rewrite insert_id|done]. Qed.

Lemma same_objects_refl c : same_objects c c.
Proof. by intros k. Qed.

Lemma CreateOrUpdate_cases k obj f c t :
  managed k = true -> keeps_key k f -> (forall o, no_panic (f o)) ->
  match CreateOrUpdate k obj f (c, t) with
  | (Ok ret, w') => exists st, mutated k obj f (c, t) st w' /\ kept k ret = kept k st
  | (Err e, w') => same_objects c w'.1 \/ exists st, mutated k obj f (c, t) st w'
  | (Panic _, _) => False
  end.
Proof.
  intros Hk Hf Hp. rewrite CreateOrUpdate_spec by done. unfold try, on_cluster, on_entropy. simpl.
  destruct (Get_spec k (key_of k obj) c) as (r & -> & Hr). destruct r as [base|e|p]; simpl; [..|done].
  - unfold mbind, M_bind. simpl. pose proof (Hp base t) as Hpt. pose proof (Hf base t) as Hkt.
    destruct (f base t) as [[o|e|p] t'] eqn:Ef; simpl.
    + destruct (DeepEqual k base o) eqn:Ed; simpl.
      * exists base. apply DeepEqual_kept in Ed. split; [|done].
        exists base, o. split_and!; [by left|done|done|by eapply objects_key|].
        apply stored_same. simpl. by rewrite (objects_key k c (key_of k obj) base).
      * destruct (Update_spec k o c Hk) as (r & c' & -> & Hw). specialize (Hkt o t' eq_refl).
        assert (key_of k o = key_of k obj) as Hko by (rewrite Hkt; by eapply objects_key).
        destruct r as [o'|e|p]; simpl; [|destruct Hw as [Hw|Hw]; [by left|right]|done].
        -- destruct Hw as (_ & Hke & Hkey & Hst). exists o'. split; [|done].
           exists base, o. split_and!; [by left|done|done|congruence|done].
        -- destruct Hw as (_ & o' & Hke & Hkey & Hst). exists o', base, o.
           split_and!; [by left|done|done|congruence|done].
    + left. apply same_objects_refl.
    + by apply (Hpt p).
  - destruct (IsNotFound e) eqn:En; [|left; apply same_objects_refl].
    specialize (Hr eq_refl). unfold mbind, M_bind. simpl.
    pose proof (Hp obj t) as Hpt. pose proof (Hf obj t) as Hkt.
    destruct (f obj t) as [[o|e'|p] t'] eqn:Ef; simpl.
    + destruct (Create_spec k o c Hk) as (r & c' & -> & Hw). specialize (Hkt o t' eq_refl).
      destruct r as [o'|e'|p]; simpl; [|destruct Hw as [Hw|Hw]; [by left|right]|done].
      * destruct Hw as (_ & Hke & Hkey & Hst). exists o'. split; [|done].
        exists obj, o. split_and!; [by right|done|done|congruence|done].
      * destruct Hw as (_ & o' & Hke & Hkey & Hst). exists o', obj, o.
        split_and!; [by right|done|done|congruence|done].
    + left. apply same_objects_refl.
    + by apply (Hpt p).
Qed.

(** At most the object [key] of kind [k] differs. *)
Definition touches (k : kind) (key : NamespacedName) (c c' : cluster) : Prop :=
  forall k' key', k' <> k \/ key' <> key -> find k' c' key' = find k' c key'.

Lemma same_objects_touches k key c c' : same_objects c c' -> touches k key c c'.
Proof. intros E k' key' _. unfold find. by rewrite E. Qed.

Lemma mutated_touches k obj f w st w' :
  mutated k obj f w st w' -> touches k (key_of k obj) w.1 w'.1 /\ find k w'.1 (key_of k obj) = Some st.
Proof.
  intros (base & o & _ & _ & _ & Hkey & Hst). split.
  - intros k' key' Hne. eapply stored_ne; [exact Hst|]. by rewrite Hkey.
  - rewrite <- Hkey. by apply stored_lookup in Hst.
Qed.

(** The same, split into what holds whatever happens and what success adds. *)
Lemma CreateOrUpdate_step k obj f c t :
  managed k = true -> keeps_key k f -> (forall o, no_panic (f o)) ->
  let '(r, w') := CreateOrUpdate k obj f (c, t) in
  (forall p, r <> Panic p) /\ touches k (key_of k obj) c w'.1 /\
  (same_objects c w'.1 \/ exists st, mutated k obj f (c, t) st w') /\
  (forall ret, r = Ok ret -> exists st, mutated k obj f (c, t) st w').
Proof.
  intros Hk Hf Hp. pose proof (CreateOrUpdate_cases k obj f c t Hk Hf Hp) as Hc.
  destruct (CreateOrUpdate k obj f (c, t)) as [[ret|e|p] w']; [| |done].
  - destruct Hc as (st & Hst & _). pose proof (mutated_touches _ _ _ _ _ _ Hst) as [Ht _].
    split_and!; [done|exact Ht|eauto|eauto].
  - split_and!; [done| |done|done]. destruct Hc as [Hc|[st Hst]]; [by apply same_objects_touches|].
    by apply mutated_touches in Hst as [Ht _].
Qed.

(** When the mutation changes nothing on the stored object, nothing is sent. *)
Lemma CreateOrUpdate_id k obj f c t base r w' :
  keeps_key k f -> find k c (key_of k obj) = Some base -> f base t = (Ok base, t) ->
  CreateOrUpdate k obj f (c, t) = (r, w') ->
  w' = (c, t) /\ (r = Ok base \/ exists e, r = Err e /\ IsNotFound e = false).
Proof.
  intros Hk Hb Hf. rewrite CreateOrUpdate_spec by done. unfold try, on_cluster, on_entropy. simpl.
  destruct (Get_spec k (key_of k obj) c) as (r' & -> & Hr). destruct r' as [o|e|p]; simpl; [..|done].
  - assert (o = base) as -> by congruence. unfold mbind, M_bind. simpl. rewrite Hf, DeepEqual_refl. simpl.
    intros [= <- <-]. eauto.
  - destruct (IsNotFound e) eqn:En; [rewrite Hr in Hb by done; done|].
    intros [= <- <-]. eauto.
Qed.
End requests.

(** * Owner references *)

Class Owners := {
  (** the kind and metadata of the owner, the metadata of the controlled object *)
  SetControllerReference : string -> ObjectMeta -> ObjectMeta -> ObjectMeta + go_error
}.

Definition owned_by (owner_kind : string) (owner m : ObjectMeta) : Prop :=
  exists ref, ref ∈ om_OwnerReferences m /\ or_Controller ref = true /\
    or_Kind ref = owner_kind /\ or_Name ref = om_Name owner /\ or_UID ref = om_UID owner.

Class OwnersLaws `{Owners} : Prop := {
  SetControllerReference_ok k owner m m' :
    SetControllerReference k owner m = inl m' ->
    (exists refs, m' = mkObjectMeta (om_Name m) (om_Namespace m) (om_UID m) (om_Labels m)
                         (om_Annotations m) refs (om_rest m)) /\
    owned_by k owner m' /\
    SetControllerReference k owner m' = inl m';
  (** It depends on the names, the namespaces and the references only. *)
  SetControllerReference_refs k owner m1 m2 :
    om_Name m1 = om_Name m2 -> om_Namespace m1 = om_Namespace m2 ->
    om_OwnerReferences m1 = om_OwnerReferences m2 ->
    match SetControllerReference k owner m1, SetControllerReference k owner m2 with
    | inl m1', inl m2' => om_OwnerReferences m1' = om_OwnerReferences m2'
    | inr e1, inr e2 => e1 = e2
    | _, _ => False
    end;
  (** Of the owner only its name, namespace and UID matter. *)
  SetControllerReference_owner k owner1 owner2 m :
    om_Name owner1 = om_Name owner2 -> om_Namespace owner1 = om_Namespace owner2 ->
    om_UID owner1 = om_UID owner2 ->
    SetControllerReference k owner1 m = SetControllerReference k owner2 m
}.

(** [controllerutil.SetControllerReference(owner, obj, scheme)] as a step of a
    mutation. *)
Definition control `{Owners} (k : string) (owner m : ObjectMeta) : outcome ObjectMeta :=
  match SetControllerReference k owner m with
  | inl m' => Ok m'
  | inr err => Err err
  end.

(** A Secret to be created, with its name only; and with other metadata. *)
Definition newSecret (name ns : string) : Secret := mkSecret (newMeta name ns) "" None ∅.

Definition set_sec_meta (m : ObjectMeta) (s : Secret) : Secret :=
  mkSecret m (sec_Type s) (sec_Data s) (sec_rest s).

(** What a mutation that ends in [control] leaves: the metadata, now controlled. *)
Lemma control_Ok `{OwnersLaws} k owner m m' :
  control k owner m = Ok m' ->
  meta_key m' = meta_key m /\ om_Labels m' = om_Labels m /\ owned_by k owner m' /\
  SetControllerReference k owner m = inl m'.
Proof.
  unfold control. destruct (SetControllerReference k owner m) as [m1|] eqn:E; [|done].
  intros [= <-]. pose proof E as ((refs & ->) & Hown & _)%SetControllerReference_ok. done.
Qed.

Lemma control_no_panic `{Owners} {W} k owner m : no_panic (W:=W) (lift (control k owner m)).
Proof. intros w p. unfold lift, control. by destruct (SetControllerReference _ _ _). Qed.
#[export] Hint Resolve control_no_panic : go.

(** Once controlled, metadata stays as it is, on every object that has the same
    name and references. *)
Lemma control_stable `{OwnersLaws} k owner owner' m0 m m1 :
  SetControllerReference k owner m0 = inl m ->
  om_Name owner' = om_Name owner -> om_Namespace owner' = om_Namespace owner ->
  om_UID owner' = om_UID owner ->
  om_Name m1 = om_Name m -> om_Namespace m1 = om_Namespace m ->
  om_OwnerReferences m1 = om_OwnerReferences m ->
  control k owner' m1 = Ok m1.
Proof.
  intros (_ & _ & Hm)%SetControllerReference_ok Hn Hns Hu Hn1 Hns1 Hr1. unfold control.
  rewrite (SetControllerReference_owner k owner' owner m1) by done.
  pose proof (SetControllerReference_refs k owner m1 m Hn1 Hns1 Hr1) as Hr. rewrite Hm in Hr.
  destruct (SetControllerReference k owner m1) as [m1'|] eqn:E; [|done].
  apply SetControllerReference_ok in E as ((refs & ->) & _). simpl in Hr. rewrite Hr, <- Hr1.
  by destruct m1.
Qed.

Lemma same_find `{Api} c c' k key : same_objects c c' -> find k c' key = find k c key.
Proof. unfold find. by intros ->. Qed.

(** * Reconcilers *)

(** [ctrl.Result]; durations in nanoseconds. *)
Record Result := mkResult { RequeueAfter : Z }.
Definition Second : Z := 1000000000.

(** * An in-memory API server *)

Module Memory.

Definition store : Type := forall k, gmap NamespacedName (KObj k).

(** Entries under a foreign name are not objects. *)
Definition objects_of (k : kind) (c : store) : gmap NamespacedName (KObj k) :=
  filter (fun p => key_of k p.2 = p.1) (c k).

Definition put (k : kind) (o : KObj k) (c : store) : store := fun k' =>
  match kind_eq_dec k k' with
  | left e => eq_rect k (fun k => gmap NamespacedName (KObj k)) (<[key_of k o := o]> (c k)) k' e
  | right _ => c k'
  end.

Definition empty : store := fun k => ∅.

Definition get (k : kind) (key : NamespacedName) : M store (KObj k) := fun c =>
  (match objects_of k c !! key with Some o => Ok o | None => Err (ErrApi NotFound) end, c).
Definition create (k : kind) (o : KObj k) : M store (KObj k) := fun c =>
  match objects_of k c !! key_of k o with
  | None => (Ok o, put k o c)
  | Some _ => (Err (ErrApi AlreadyExists), c)
  end.
Definition update (k : kind) (o : KObj k) : M store (KObj k) := fun c =>
  match objects_of k c !! key_of k o with
  | None => (Err (ErrApi NotFound), c)
  | Some _ => (Ok o, put k o c)
  end.
Definition status_update (k : kind) (o : KObj k) : M store (KObj k) := fun c =>
  match objects_of k c !! key_of k o with
  | None => (Err (ErrApi NotFound), c)
  | Some o0 => (Ok (with_status k o0 o), put k (with_status k o0 o) c)
  end.

#[export] Instance api : Api := {|
  cluster := store;
  objects := objects_of;
  Get := get;
  ListAll := fun k c => (Ok (map_to_list (objects_of k c)).*2, c);
  Create := create;
  Update := update;
  StatusUpdate := status_update;
  DeepEqual := fun k o o' => bool_decide (o = o');
  CreateOrUpdate := fun k obj f w =>
    match get k (key_of k obj) w.1 with
    | (Ok o, c) =>
      match f o w.2 with
      | (Ok o', t) => if decide (o = o') then (Ok o', (c, t))
                      else let '(r, c') := update k o' c in (r, (c', t))
      | (Err e, t) => (Err e, (c, t))
      | (Panic p, t) => (Panic p, (c, t))
      end
    | (Err _, c) =>
      match f obj w.2 with
      | (Ok o', t) => let '(r, c') := create k o' c in (r, (c', t))
      | (Err e, t) => (Err e, (c, t))
      | (Panic p, t) => (Panic p, (c, t))
      end
    | (Panic p, c) => (Panic p, (c, w.2))
    end
|}.

Lemma objects_put k o c : objects_of k (put k o c) = <[key_of k o := o]> (objects_of k c).
Proof.
  unfold objects_of. rewrite <- map_filter_insert_True by done. f_equal.
  unfold put. destruct k; reflexivity.
Qed.

Lemma objects_put_ne k o c k' : k' <> k -> objects_of k' (put k o c) = objects_of k' c.
Proof. intros Hne. unfold objects_of, put. by destruct (kind_eq_dec k k'). Qed.

Lemma stored_put k o c : stored k o c (put k o c).
Proof. split; [apply objects_put|apply objects_put_ne]. Qed.

Lemma with_status_key k o0 o : key_of k (with_status k o0 o) = key_of k o0.
Proof. by destruct k. Qed.

#[export] Instance api_laws : ApiLaws.
Proof.
  split; unfold status_written, find; simpl.
  - intros k c key o. unfold objects_of. rewrite map_lookup_filter_Some. by intros [_ ?].
  - intros k key c. unfold get. eexists. split; [done|].
    by destruct (objects_of k c !! key).
  - intros k c. eexists. split; [reflexivity|]. simpl. reflexivity.
  - intros k o c _. unfold create. destruct (objects_of k c !! key_of k o) eqn:E.
    + eexists _, _. split; [done|]. left. by intros k'.
    + eexists _, _. split; [done|]. split; [done|]. split; [done|]. split; [done|]. apply stored_put.
  - intros k o c _. unfold update. destruct (objects_of k c !! key_of k o) eqn:E.
    + eexists _, _. split; [done|]. split; [done|]. split; [done|]. split; [done|]. apply stored_put.
    + eexists _, _. split; [done|]. left. by intros k'.
  - intros k o c. unfold status_update. destruct (objects_of k c !! key_of k o) as [o0|] eqn:E.
    + eexists _, _. split; [done|]. exists o0. split; [reflexivity|]. split; [|by destruct k].
      split; [done|]. split; [done|]. apply stored_put.
    + eexists _, _. split; [done|]. left. by intros k'.
  - intros k o. by apply bool_decide_eq_true.
  - by intros k o o' ->%bool_decide_eq_true.
  - intros k obj f [c t] _. unfold try, on_cluster, on_entropy, get, mbind, M_bind, mret, M_ret. simpl.
    destruct (objects_of k c !! key_of k obj) as [o|]; simpl.
    + destruct (f o t) as [[o'|e|p] t']; simpl; [|done..].
      case_decide as E; case_bool_decide; done.
    + destruct (f obj t) as [[o'|e|p] t']; done.
Qed.

(** [SetControllerReference]: refused across namespaces and when another
    controller is set; the operator's reference is added once. *)
Definition same_owner (k : string) (owner : ObjectMeta) (ref : OwnerReference) : bool :=
  bool_decide (or_Kind ref = k /\ or_Name ref = om_Name owner /\ or_UID ref = om_UID owner).

Definition owner_refs (k : string) (owner : ObjectMeta) (refs : list OwnerReference) : list OwnerReference :=
  filter (fun ref => same_owner k owner ref = false) refs
  ++ [mkOwnerReference k (om_Name owner) (om_UID owner) true].

#[export] Instance owners : Owners := {|
  SetControllerReference := fun k owner m =>
    if decide (om_Namespace owner <> om_Namespace m) then inr (ErrNew "cross-namespace owner")
    else if existsb (fun ref => or_Controller ref && negb (same_owner k owner ref)) (om_OwnerReferences m)
    then inr (ErrNew "already owned by another controller")
    else inl (mkObjectMeta (om_Name m) (om_Namespace m) (om_UID m) (om_Labels m) (om_Annotations m)
                (owner_refs k owner (om_OwnerReferences m)) (om_rest m))
|}.

Lemma owner_refs_idemp k owner refs : owner_refs k owner (owner_refs k owner refs) = owner_refs k owner refs.
Proof.
  unfold owner_refs. f_equal. rewrite filter_app, list_filter_filter.
  assert (filter (fun ref => same_owner k owner ref = false) [mkOwnerReference k (om_Name owner) (om_UID owner) true] = [])
    as ->.
  { rewrite filter_cons_False; [done|]. unfold same_owner. by rewrite bool_decide_eq_true_2. }
  rewrite app_nil_r. apply list_filter_iff. tauto.
Qed.

#[export] Instance owners_laws : OwnersLaws.
Proof.
  split; simpl.
  - intros k owner m m'. case_decide as Hns; [done|]. destruct (existsb _ _) eqn:Ex; [done|].
    intros [= <-]. split; [by eexists|]. split.
    + exists (mkOwnerReference k (om_Name owner) (om_UID owner) true). simpl.
      split_and!; try reflexivity. unfold owner_refs. apply elem_of_app. right.
      by apply list_elem_of_singleton.
    + simpl. rewrite decide_False by tauto. rewrite owner_refs_idemp.
      assert (existsb (fun ref => or_Controller ref && negb (same_owner k owner ref))
                (owner_refs k owner (om_OwnerReferences m)) = false) as ->; [|done].
      apply not_true_iff_false. rewrite <- not_true_iff_false, !existsb_exists in *.
      intros (ref & Hin & Hc). apply Ex. exists ref. split; [|done].
      apply list_elem_of_In, elem_of_app in Hin as [Hin|Hin].
      * apply list_elem_of_filter in Hin as [_ Hin]. by apply list_elem_of_In.
      * apply list_elem_of_singleton in Hin as ->. unfold same_owner in Hc.
        by rewrite bool_decide_eq_true_2 in Hc.
  - intros k owner m1 m2 _ -> ->. case_decide; [reflexivity|]. destruct (existsb _ _); reflexivity.
  - intros k [] [] m. simpl. by intros -> -> ->.
Qed.
End Memory.
