(* ===== verification/OAuthClientController.v ===== *)
(** [internal/controller/autheliaoauthclient_controller.go]: the Secret of an
    AutheliaOAuthClient. *)

From S2P Require Import Prelude GoCrypto ApiTypes Secrets Cluster.

Definition generateSecret : M entropy string :=
  buf ← ReadFull 48;
  mret (EncodeToString_raw URLAlphabet buf).

(** [clientID] and [secretName] of [Reconcile]. *)
Definition effectiveClientID (c : AutheliaOAuthClient) : string :=
  if decide (ClientID (oc_Spec c) = "") then om_Name (oc_meta c) else ClientID (oc_Spec c).
Definition oauthSecretName (c : AutheliaOAuthClient) : string :=
  om_Name (oc_meta c) +:+ "-oauth-secret".

(** [len(m[key]) == 0] *)
Definition empty_at (m : gmap string string) (key : string) : bool :=
  bool_decide (default "" (m !! key) = "").

(** [secret] with these labels and data, of type Opaque. *)
Definition set_secret (secret : Secret) (labels data : gmap string string) : Secret :=
  let m := sec_meta secret in
  mkSecret (mkObjectMeta (om_Name m) (om_Namespace m) (om_UID m) (Some labels) (om_Annotations m)
              (om_OwnerReferences m) (om_rest m))
    SecretTypeOpaque (Some data) (sec_rest secret).

Definition set_SecretName (name : string) (c : AutheliaOAuthClient) : AutheliaOAuthClient :=
  mkAutheliaOAuthClient (oc_meta c) (oc_Spec c)
    (mkAutheliaOAuthClientStatus (oc_Conditions (oc_Status c)) name).

(** The data of the Secret after the credentials of a confidential client have
    been completed. *)
Definition completeCredentials (data : gmap string string) : M entropy (gmap string string) :=
  data ← (if empty_at data "client_secret"
          then generated ← generateSecret; mret (<["client_secret" := generated]> data)
          else mret data);
  if empty_at data "client_secret_digest"
  then digest ← hashClientSecret (default "" (data !! "client_secret"));
       mret (<["client_secret_digest" := digest]> data)
  else mret data.

Section controller.
Context `{Api, Owners}.

(** The closure given to [CreateOrUpdate]. *)
Definition mutateClientSecret (oauthClient : AutheliaOAuthClient) (secret : Secret) : M entropy Secret :=
  let labels := <["app.kubernetes.io/managed-by" := "heliop"]> (content (om_Labels (sec_meta secret))) in
  let data := <["client_id" := effectiveClientID oauthClient]> (content (sec_Data secret)) in
  data ← (if Public (oc_Spec oauthClient)
          then mret (delete "client_secret_digest" (delete "client_secret" data))
          else completeCredentials data);
  let secret := set_secret secret labels data in
  m ← lift (control "AutheliaOAuthClient" (oc_meta oauthClient) (sec_meta secret));
  mret (set_sec_meta m secret).

Definition Reconcile (req : NamespacedName) : M (cluster * entropy) Result :=
  try (on_cluster (Get KOAuthClient req)) (fun r =>
    match r with
    | inr err => if IsNotFound err then mret (mkResult 0) else throw err
    | inl oauthClient =>
      let secretName := oauthSecretName oauthClient in
      let secret := newSecret secretName (om_Namespace (oc_meta oauthClient)) in
      _ ← CreateOrUpdate KSecret secret (mutateClientSecret oauthClient);
      if decide (SecretName (oc_Status oauthClient) <> secretName) then
        _ ← on_cluster (StatusUpdate KOAuthClient (set_SecretName secretName oauthClient));
        mret (mkResult 0)
      else mret (mkResult 0)
    end).
End controller.

(** * Specification *)

(** A generated client secret: 64 characters of the URL alphabet. *)
Definition good_secret (s : string) : Prop :=
  String.length s = 64 /\ Forall (.∈ URLAlphabet) (bytes_of s).

(** The data the Secret of client [c] gets, from what it had. *)
Definition client_data (c : AutheliaOAuthClient) (old new : gmap string string) : Prop :=
  new !! "client_id" = Some (effectiveClientID c) /\
  (forall k, k ∉ ["client_id"; "client_secret"; "client_secret_digest"] -> new !! k = old !! k) /\
  if Public (oc_Spec c) then new !! "client_secret" = None /\ new !! "client_secret_digest" = None
  else exists secret digest,
    new !! "client_secret" = Some secret /\ new !! "client_secret_digest" = Some digest /\
    (if decide (has_value old "client_secret") then old !! "client_secret" = Some secret
     else good_secret secret) /\
    (if decide (has_value old "client_secret_digest") then old !! "client_secret_digest" = Some digest
     else digest_of secret digest).

(** * Generation *)

Lemma generateSecret_Ok_inv tape s rest :
  bytes_ok tape -> generateSecret tape = (Ok s, rest) ->
  exists buf, tape = buf ++ rest /\ length buf = 48 /\ good_secret s /\
    DecodeString_raw URLAlphabet s = buf.
Proof.
  intros Hb E. unfold generateSecret in E. inv_bind E.
  apply ReadFull_Ok_inv in Hm as [-> Hl]. unfold mret, M_ret in Hk. injection Hk as <- <-.
  apply Forall_app in Hb as [Hb _]. exists a. split_and!; [done|done| |].
  - split; [by rewrite EncodeToString_raw_length, Hl|].
    apply EncodeToString_raw_chars; [apply URLAlphabet_ok|done].
  - apply Decode_Encode_raw; [apply URLAlphabet_ok|done].
Qed.

Lemma generateSecret_Err_inv tape e rest :
  generateSecret tape = (Err e, rest) -> e = ErrEntropy /\ length tape < 48.
Proof.
  unfold generateSecret, mbind, M_bind, ReadFull. case_decide; [done|].
  intros [= <- _]. split; [done|lia].
Qed.

Lemma generateSecret_ok tape s rest :
  bytes_ok tape -> generateSecret tape = (Ok s, rest) -> good_secret s /\ bytes_ok rest.
Proof.
  intros Hb E. pose proof (generateSecret_Ok_inv _ _ _ Hb E) as (buf & -> & _ & Hs & _). split; [done|]. by apply Forall_app in Hb as [_ ?].
Qed.

Lemma generateSecret_no_panic : no_panic generateSecret.
Proof. unfold generateSecret. apply no_panic_bind; auto with go. Qed.
(** a generated client secret is the encoding of 48 bytes of entropy, from
    which they can be recovered: no entropy is lost, and the secret is 64
    characters that need no escaping in a URL.  With fewer bytes left an error
    is returned. *)
Theorem generateSecret_spec tape :
  bytes_ok tape ->
  match generateSecret tape with
  | (Ok s, rest) => exists buf, tape = buf ++ rest /\ length buf = 48 /\ good_secret s /\
                      DecodeString_raw URLAlphabet s = buf
  | (Err e, _) => e = ErrEntropy /\ length tape < 48
  | (Panic _, _) => False
  end.
Proof.
  intros Hb. pose proof (generateSecret_no_panic tape) as Hp.
  destruct (generateSecret tape) as [[s|e|p] rest] eqn:E.
  - by apply generateSecret_Ok_inv.
  - by eapply generateSecret_Err_inv.
  - by apply (Hp p).
Qed.
#[export] Hint Resolve generateSecret_no_panic hashClientSecret_no_panic : go.

Lemma empty_at_spec m key : empty_at m key = negb (bool_decide (has_value m key)).
Proof.
  unfold empty_at, has_value. destruct (decide (default "" (m !! key) = "")) as [E|E].
  - rewrite bool_decide_eq_true_2, bool_decide_eq_false_2; tauto.
  - rewrite bool_decide_eq_false_2, bool_decide_eq_true_2; tauto.
Qed.

Lemma has_value_lookup m key : has_value m key -> m !! key = Some (default "" (m !! key)).
Proof. unfold has_value. by destruct (m !! key). Qed.

Lemma good_secret_nonempty s : good_secret s -> s <> "".
Proof. intros [H _] ->. done. Qed.

(** The first half: the client secret. *)
Lemma complete_secret data tape d1 rest :
  bytes_ok tape ->
  (if empty_at data "client_secret"
   then generated ← generateSecret; mret (<["client_secret" := generated]> data)
   else mret data : M entropy _) tape = (Ok d1, rest) ->
  bytes_ok rest /\ exists secret, d1 = <["client_secret" := secret]> data /\ secret <> "" /\
    if decide (has_value data "client_secret") then data !! "client_secret" = Some secret
    else good_secret secret.
Proof.
  intros Hb. rewrite empty_at_spec. case_decide as Hv.
  - rewrite bool_decide_eq_true_2 by done. simpl. unfold mret, M_ret. intros [= <- <-].
    split; [done|]. exists (default "" (data !! "client_secret")).
    apply has_value_lookup in Hv as Hl. by rewrite insert_id.
  - rewrite bool_decide_eq_false_2 by done. simpl. intros E. inv_bind E.
    apply generateSecret_ok in Hm as [Hg Hr]; [|done]. unfold mret, M_ret in Hk. simplify_eq.
    split; [done|]. exists a. split; [done|]. split; [by apply good_secret_nonempty|done].
Qed.

Lemma completeCredentials_ok data tape d rest :
  bytes_ok tape -> completeCredentials data tape = (Ok d, rest) ->
  exists secret digest,
    d = <["client_secret_digest" := digest]> (<["client_secret" := secret]> data) /\
    secret <> "" /\ digest <> "" /\
    (if decide (has_value data "client_secret") then data !! "client_secret" = Some secret
     else good_secret secret) /\
    (if decide (has_value data "client_secret_digest") then data !! "client_secret_digest" = Some digest
     else digest_of secret digest).
Proof.
  intros Hb E. unfold completeCredentials in E. inv_bind E.
  apply complete_secret in Hm as (Hr & secret & -> & Hne & Hs); [|done].
  rewrite empty_at_spec in Hk. exists secret.
  assert (has_value (<["client_secret" := secret]> data) "client_secret_digest"
          <-> has_value data "client_secret_digest") as Hd.
  { unfold has_value. by rewrite lookup_insert_ne. }
  destruct (decide (has_value data "client_secret_digest")) as [Hv|Hv].
  - rewrite bool_decide_eq_true_2 in Hk by by apply Hd. simpl in Hk. unfold mret, M_ret in Hk. simplify_eq.
    apply has_value_lookup in Hv as Hl. exists (default "" (data !! "client_secret_digest")).
    split_and!; [|exact Hne|exact Hv|exact Hs|exact Hl]. symmetry. apply insert_id. by rewrite lookup_insert_ne.
  - rewrite bool_decide_eq_false_2 in Hk by by rewrite Hd. simpl in Hk. rewrite lookup_insert_eq in Hk.
    simpl in Hk. inv_bind Hk. apply hashClientSecret_Ok_inv in Hm as [Hdig _]; [|done].
    unfold mret, M_ret in Hk0. simplify_eq. exists a.
    split_and!; [done|done|by eapply digest_nonempty|done|done].
Qed.

Lemma completeCredentials_no_panic data : no_panic (completeCredentials data).
Proof.
  unfold completeCredentials. apply no_panic_bind.
  - destruct (empty_at data "client_secret"); auto with go.
  - intros d. destruct (empty_at d "client_secret_digest"); auto with go.
Qed.

(** A Secret that has a digest but no client secret. *)
Lemma completeCredentials_stale data tape s rest :
  ~ has_value data "client_secret" -> has_value data "client_secret_digest" ->
  generateSecret tape = (Ok s, rest) ->
  completeCredentials data tape = (Ok (<["client_secret" := s]> data), rest).
Proof.
  intros H1 H2 E. unfold completeCredentials.
  rewrite empty_at_spec, bool_decide_eq_false_2 by done. cbv [mbind M_bind mret M_ret]. simpl. rewrite E.
  rewrite empty_at_spec, bool_decide_eq_true_2; [done|].
  unfold has_value in *. by rewrite lookup_insert_ne.
Qed.

Lemma generateSecret_enough tape :
  48 <= length tape -> generateSecret tape = (Ok (EncodeToString_raw URLAlphabet (take 48 tape)), drop 48 tape).
Proof. intros. unfold generateSecret. cbv [mbind M_bind]. by rewrite ReadFull_ok. Qed.

(** C38: the digest is not renewed with the secret.  When the Secret has lost its
    client secret but not the digest (a user deletes the one key to rotate it),
    a new secret is generated and the old digest is kept: two runs that draw
    different bytes store different secrets with one and the same digest, so the
    digest the portal is configured with is not that of the application's
    secret. *)
Theorem digest_goes_stale data digest tape1 tape2 :
  ~ has_value data "client_secret" ->
  data !! "client_secret_digest" = Some digest -> digest <> "" ->
  bytes_ok tape1 -> bytes_ok tape2 -> 48 <= length tape1 -> 48 <= length tape2 ->
  take 48 tape1 <> take 48 tape2 ->
  exists d1 d2 rest1 rest2 s1 s2,
    completeCredentials data tape1 = (Ok d1, rest1) /\ completeCredentials data tape2 = (Ok d2, rest2) /\
    d1 !! "client_secret" = Some s1 /\ d2 !! "client_secret" = Some s2 /\ s1 <> s2 /\
    d1 !! "client_secret_digest" = Some digest /\ d2 !! "client_secret_digest" = Some digest.
Proof.
  intros Hs Hd Hne Hb1 Hb2 Hl1 Hl2 Hdiff.
  assert (has_value data "client_secret_digest") as Hv by (unfold has_value; by rewrite Hd).
  repeat eexists; [by apply completeCredentials_stale, generateSecret_enough..|by rewrite lookup_insert_eq|
    by rewrite lookup_insert_eq| |by rewrite lookup_insert_ne|by rewrite lookup_insert_ne].
  intros E%(f_equal (DecodeString_raw URLAlphabet)).
  rewrite !Decode_Encode_raw in E by (apply URLAlphabet_ok || by apply Forall_take). done.
Qed.

(** With both values present nothing is drawn and nothing changes. *)
Lemma completeCredentials_id data tape :
  has_value data "client_secret" -> has_value data "client_secret_digest" ->
  completeCredentials data tape = (Ok data, tape).
Proof.
  intros H1 H2. unfold completeCredentials.
  assert (empty_at data "client_secret" = false) as -> by by rewrite empty_at_spec, bool_decide_eq_true_2.
  cbv [mbind M_bind mret M_ret].
  assert (empty_at data "client_secret_digest" = false) as -> by by rewrite empty_at_spec, bool_decide_eq_true_2.
  done.
Qed.

Section client_secret.
Context {API : Api} {APIL : ApiLaws} {OWN : Owners} {OWNL : OwnersLaws}.

Lemma mutate_keeps_key c : keeps_key KSecret (mutateClientSecret c).
Proof.
  intros s t s' t' E. unfold mutateClientSecret in E. inv_bind E. inv_bind Hk.
  unfold lift in Hm0. destruct (control _ _ _) as [m| |] eqn:Ec; simplify_eq. unfold control in Ec.
  destruct (SetControllerReference _ _ _) as [m'|] eqn:Es; simplify_eq.
  apply SetControllerReference_ok in Es as ((refs & ->) & _).
  unfold mret, M_ret in Hk0. by simplify_eq.
Qed.

Lemma mutate_no_panic c s : no_panic (mutateClientSecret c s).
Proof.
  unfold mutateClientSecret. apply no_panic_bind.
  - destruct (Public (oc_Spec c)); [apply no_panic_ret|apply completeCredentials_no_panic].
  - intros data. apply no_panic_bind; [|intros; apply no_panic_ret].
    intros t p. unfold lift, control. by destruct (SetControllerReference _ _ _).
Qed.

(** What the closure makes of a Secret. *)
Definition client_secret (c : AutheliaOAuthClient) (old new : Secret) : Prop :=
  sec_Type new = SecretTypeOpaque /\
  content (om_Labels (sec_meta new))
    = <["app.kubernetes.io/managed-by" := "heliop"]> (content (om_Labels (sec_meta old))) /\
  owned_by "AutheliaOAuthClient" (oc_meta c) (sec_meta new) /\
  client_data c (content (sec_Data old)) (content (sec_Data new)).

Lemma public_data c old :
  Public (oc_Spec c) = true ->
  client_data c old (delete "client_secret_digest" (delete "client_secret"
                       (<["client_id" := effectiveClientID c]> old))).
Proof.
  intros Hp. unfold client_data. rewrite Hp. split_and!.
  - by rewrite 2!lookup_delete_ne, lookup_insert_eq.
  - intros k Hk. rewrite !not_elem_of_cons in Hk. destruct Hk as (H1 & H2 & H3 & _).
    by rewrite !lookup_delete_ne, lookup_insert_ne.
  - by rewrite lookup_delete_ne, lookup_delete_eq.
  - by rewrite lookup_delete_eq.
Qed.

Lemma confidential_data c old tape d rest :
  bytes_ok tape -> Public (oc_Spec c) = false ->
  completeCredentials (<["client_id" := effectiveClientID c]> old) tape = (Ok d, rest) ->
  client_data c old d.
Proof.
  intros Hb Hp E. apply completeCredentials_ok in E as (secret & digest & -> & Hs & Hd & Hsv & Hdv); [|done].
  assert (forall k, k <> "client_id" -> (<["client_id" := effectiveClientID c]> old) !! k = old !! k) as Hold
    by (intros; by rewrite lookup_insert_ne).
  assert (forall k, k <> "client_id" ->
    (has_value (<["client_id" := effectiveClientID c]> old) k <-> has_value old k)) as Hval
    by (intros; unfold has_value; by rewrite Hold).
  unfold client_data. rewrite Hp. split_and!.
  - by rewrite 2!lookup_insert_ne, lookup_insert_eq.
  - intros k Hk. rewrite !not_elem_of_cons in Hk. destruct Hk as (H1 & H2 & H3 & _).
    by rewrite !lookup_insert_ne.
  - exists secret, digest. rewrite !Hold in Hsv, Hdv by done.
    split_and!; [by rewrite lookup_insert_ne, lookup_insert_eq|by rewrite lookup_insert_eq|..].
    + destruct (decide (has_value old "client_secret")), (decide (has_value (<[_ := _]> old) "client_secret"));
        rewrite Hval in *; tauto || done.
    + destruct (decide (has_value old "client_secret_digest")),
        (decide (has_value (<[_ := _]> old) "client_secret_digest")); rewrite Hval in *; tauto || done.
Qed.

Lemma mutate_ok c old tape new rest :
  bytes_ok tape -> mutateClientSecret c old tape = (Ok new, rest) -> client_secret c old new.
Proof.
  intros Hb E. unfold mutateClientSecret in E. inv_bind E. inv_bind Hk.
  unfold lift in Hm0. destruct (control _ _ _) as [m| |] eqn:Ec; simplify_eq. unfold control in Ec.
  destruct (SetControllerReference _ _ _) as [m'|] eqn:Es; simplify_eq.
  apply SetControllerReference_ok in Es as ((refs & ->) & Hown & _).
  unfold mret, M_ret in Hk0. simplify_eq. unfold client_secret. simpl.
  split_and!; [done|done|exact Hown|]. destruct (Public (oc_Spec c)) eqn:Hp.
  - unfold mret, M_ret in Hm. simplify_eq. by apply public_data.
  - by eapply confidential_data.
Qed.

Definition secretKey (c : AutheliaOAuthClient) : NamespacedName :=
  mkNamespacedName (om_Namespace (oc_meta c)) (oauthSecretName c).
Definition freshSecret (c : AutheliaOAuthClient) : Secret :=
  newSecret (oauthSecretName c) (om_Namespace (oc_meta c)).

(** The two writes of a reconcile of client [oc]: its Secret and its status. *)
Definition secret_step (oc : AutheliaOAuthClient) (w : cluster * entropy) (st : Secret)
    (w' : cluster * entropy) : Prop :=
  mutated KSecret (freshSecret oc) (mutateClientSecret oc) w st w'.
Definition status_step (oc : AutheliaOAuthClient) (oc' : AutheliaOAuthClient) (c c' : cluster) : Prop :=
  status_written KOAuthClient (set_SecretName (oauthSecretName oc) oc) oc' c c'.

(** What a reconcile can do: nothing when the client cannot be read; otherwise
    the write of the Secret, if it is reached, then that of the status. *)
Definition reconcile_effect (req : NamespacedName) (c : cluster) (t : entropy)
    (r : outcome Result) (c' : cluster) (t' : entropy) : Prop :=
  (c' = c /\ t' = t /\
   (r = Ok (mkResult 0) /\ find KOAuthClient c req = None \/ exists e, r = Err e)) \/
  exists oc, find KOAuthClient c req = Some oc /\
    ((same_objects c c' /\ exists e, r = Err e) \/
     exists st c1, secret_step oc (c, t) st (c1, t') /\
       ((same_objects c1 c' /\ exists e, r = Err e) \/
        (exists oc', status_step oc oc' c1 c' /\ (r = Ok (mkResult 0) \/ exists e, r = Err e)) \/
        (c' = c1 /\ r = Ok (mkResult 0) /\ SecretName (oc_Status oc) = oauthSecretName oc))).

Lemma Reconcile_effect req c t :
  let '(r, (c', t')) := Reconcile req (c, t) in reconcile_effect req c t r c' t'.
Proof.
  unfold Reconcile, try, on_cluster at 1. simpl.
  destruct (Get_spec KOAuthClient req c) as (r & -> & Hr). destruct r as [oc|e|p]; simpl; [| |done].
  2: { destruct (IsNotFound e); unfold mret, M_ret, throw; left; eauto 8. }
  pose proof (CreateOrUpdate_cases KSecret (freshSecret oc) (mutateClientSecret oc) c t eq_refl
    (mutate_keeps_key oc) (mutate_no_panic oc)) as Hc.
  unfold mbind at 1, M_bind at 1. fold (freshSecret oc).
  destruct (CreateOrUpdate _ _ _ _) as [[ret|e|p] [c1 t1]]; simpl in Hc; [| |done].
  - destruct Hc as (st & Hst & _). case_decide as Hs.
    + unfold mbind, M_bind, on_cluster. simpl.
      destruct (StatusUpdate_spec KOAuthClient (set_SecretName (oauthSecretName oc) oc) c1)
        as (r & c2 & -> & Hw). destruct r as [oc'|e|p]; simpl; [| |done].
      * right. exists oc. split; [done|]. right. exists st, c1. split; [done|]. right. left. eauto.
      * right. exists oc. split; [done|]. right. exists st, c1. split; [done|].
        destruct Hw as [Hw|[oc' Hw]]; [left; eauto|right; left; eauto 6].
    + unfold mret, M_ret. right. exists oc. split; [done|]. right. exists st, c1. split; [done|].
      right. right. split; [done|]. split; [done|exact Hs].
  - right. exists oc. split; [done|]. destruct Hc as [Hc|[st Hst]]; [left; eauto|].
    right. exists st, c1. split; [done|]. left. split; [apply same_objects_refl|eauto].
Qed.

Lemma client_secret_kept oc old s1 s2 :
  kept KSecret s2 = kept KSecret s1 -> client_secret oc old s1 -> client_secret oc old s2.
Proof.
  destruct s1 as [[] ? ? ?], s2 as [[] ? ? ?]. simpl. unfold kept_meta, kept_map. simpl.
  intros E. injection E as _ _ El _ Er Et Ed. unfold client_secret, owned_by. simpl.
  by rewrite El, Er, Et, Ed.
Qed.

(** The Secret a client already has, or an empty one. *)
Definition old_secret (oc : AutheliaOAuthClient) (c : cluster) : Secret :=
  default (freshSecret oc) (find KSecret c (secretKey oc)).

Lemma old_secret_base oc c base :
  base_of KSecret (freshSecret oc) c base -> old_secret oc c = base.
Proof. intros [E|[E ->]]; apply (f_equal (default (freshSecret oc))) in E; exact E. Qed.

Lemma secret_step_ok oc c t st c1 t1 :
  bytes_ok t -> secret_step oc (c, t) st (c1, t1) ->
  find KSecret c1 (secretKey oc) = Some st /\ client_secret oc (old_secret oc c) st /\
  (forall k key, k <> KSecret \/ key <> secretKey oc -> find k c1 key = find k c key).
Proof.
  intros Hb (base & o & Hbase & Hf & Hkept & Hkey & Hst). simpl in *.
  change (key_of KSecret (freshSecret oc)) with (secretKey oc) in *.
  split; [rewrite <- Hkey; by apply stored_lookup in Hst|]. split.
  - eapply client_secret_kept; [exact Hkept|]. apply mutate_ok in Hf; [|done].
    by rewrite (old_secret_base _ _ _ Hbase).
  - intros k key Hne. eapply stored_ne; [exact Hst|]. by rewrite Hkey.
Qed.

Lemma secret_step_client oc c t st c1 t1 :
  secret_step oc (c, t) st (c1, t1) ->
  forall key, find KOAuthClient c1 key = find KOAuthClient c key.
Proof. intros (base & o & _ & _ & _ & _ & Hst) key. eapply stored_ne; [exact Hst|by left]. Qed.

Lemma status_step_ok oc oc' c c' req :
  find KOAuthClient c req = Some oc -> status_step oc oc' c c' ->
  find KOAuthClient c' req = Some oc' /\ oc_Spec oc' = oc_Spec oc /\
  om_UID (oc_meta oc') = om_UID (oc_meta oc) /\ key_of KOAuthClient oc' = key_of KOAuthClient oc /\
  SecretName (oc_Status oc') = oauthSecretName oc /\
  (forall k key, k <> KOAuthClient \/ key <> req -> find k c' key = find k c key).
Proof.
  intros Hoc (o0 & E0 & (Hkept & Hkey & Hst) & Huid).
  pose proof (objects_key KOAuthClient c req oc Hoc) as Hreq.
  change (key_of KOAuthClient (set_SecretName _ oc)) with (key_of KOAuthClient oc) in E0.
  rewrite Hreq in E0. pose proof (eq_trans (eq_sym E0) Hoc) as Heq.
  injection Heq as ->.
  change (key_of KOAuthClient oc' = key_of KOAuthClient oc) in Hkey.
  assert (find KOAuthClient c' req = Some oc') as Ho.
  { rewrite <- Hreq. rewrite <- Hkey. by apply stored_lookup in Hst. }
  pose proof (f_equal oc_Spec Hkept) as Hsp. pose proof (f_equal oc_Status Hkept) as Hss. simpl in Hsp, Hss.
  split_and!; [done|done|done|done|by rewrite Hss|]. intros k key Hne. eapply stored_ne; [exact Hst|].
  by rewrite Hkey, Hreq.
Qed.

(** What a successful reconcile of an existing client leaves. *)
Lemma Reconcile_client_inv req c t res c' t' oc :
  bytes_ok t -> Reconcile req (c, t) = (Ok res, (c', t')) -> find KOAuthClient c req = Some oc ->
  exists st oc',
    find KSecret c' (secretKey oc) = Some st /\ client_secret oc (old_secret oc c) st /\
    find KOAuthClient c' req = Some oc' /\ oc_Spec oc' = oc_Spec oc /\
    key_of KOAuthClient oc' = key_of KOAuthClient oc /\
    SecretName (oc_Status oc') = oauthSecretName oc.
Proof.
  intros Hb E Hoc. pose proof (Reconcile_effect req c t) as Hr. rewrite E in Hr.
  destruct Hr as [(-> & -> & [[_ Hn]|[e [=]]])|(oc0 & Hoc0 & Hr)]; [congruence|].
  assert (oc0 = oc) as -> by congruence.
  destruct Hr as [[_ [e [=]]]|(st & c1 & Hst & Hr)].
  pose proof (secret_step_client _ _ _ _ _ _ Hst) as Hc1.
  apply secret_step_ok in Hst as (Hst & Hcs & Hne); [|done].
  destruct Hr as [[_ [e [=]]]|[(oc' & Hs & _)|(-> & _ & Hs)]].
  - apply (status_step_ok _ _ _ _ req) in Hs as (Ho & Hsp & _ & Hk & Hn & Hf); [|by rewrite Hc1].
    exists st, oc'. split_and!; try done. rewrite Hf; [done|by left].
  - exists st, oc. by rewrite Hc1.
Qed.

(** C9: a successful reconcile of a client leaves its Secret in order.  When the
    client does not exist nothing happens.  Otherwise the Secret
    ["<name>-oauth-secret"] of its namespace exists, of type Opaque, controlled
    by the client, labelled, with the client ID; for a confidential client
    with a secret and a digest, each the one it had or else a fresh one (the
    digest being a PBKDF2 digest of the secret), for a public client with
    neither; keys of others are untouched; and the client's status names
    the Secret. *)
Theorem Reconcile_client_ok req c t res c' t' :
  bytes_ok t -> Reconcile req (c, t) = (Ok res, (c', t')) ->
  res = mkResult 0 /\
  match find KOAuthClient c req with
  | None => c' = c /\ t' = t
  | Some oc =>
    exists st oc',
      find KSecret c' (secretKey oc) = Some st /\ client_secret oc (old_secret oc c) st /\
      find KOAuthClient c' req = Some oc' /\ oc_Spec oc' = oc_Spec oc /\
      SecretName (oc_Status oc') = oauthSecretName oc
  end.
Proof.
  intros Hb E. pose proof (Reconcile_effect req c t) as Hr. rewrite E in Hr.
  assert (res = mkResult 0) as ->.
  { destruct Hr as [(_ & _ & [[[= ->] _]|[e [=]]])|(oc & _ & [[_ [e [=]]]|(st & c1 & _ & Hr)])]; [done|].
    by destruct Hr as [[_ [e [=]]]|[(oc' & _ & [[= ->]|[e [=]]])|(_ & [= ->] & _)]]. }
  split; [done|]. destruct (find KOAuthClient c req) as [oc|] eqn:Hoc.
  - destruct (Reconcile_client_inv req c t _ c' t' oc Hb E Hoc) as (st & oc' & ? & ? & ? & ? & _ & ?).
    by exists st, oc'.
  - by destruct Hr as [(-> & -> & _)|(oc & Ho & _)]; [|congruence].
Qed.

(** The last step, on the cluster the write of the Secret left. *)
Lemma last_step req c1 c' :
  same_objects c1 c' \/ (exists oc oc', find KOAuthClient c1 req = Some oc /\ status_step oc oc' c1 c') ->
  (forall k key, k <> KOAuthClient \/ key <> req -> find k c' key = find k c1 key) /\
  (forall oc, find KOAuthClient c1 req = Some oc ->
     exists oc', find KOAuthClient c' req = Some oc' /\ oc_Spec oc' = oc_Spec oc).
Proof.
  intros [Hs|(oc & oc' & Hoc & Hs)].
  - split; intros; rewrite (same_find _ _ _ _ Hs); eauto.
  - apply (status_step_ok _ _ _ _ req) in Hs as (Ho & Hsp & _ & _ & _ & Hf); [|done].
    split; [done|]. intros oc1 Hoc1. exists oc'. split; [done|]. congruence.
Qed.

(** A reconcile, as an optional write of the Secret and an optional last step. *)
Lemma Reconcile_two_steps req c t :
  let '(r, (c', t')) := Reconcile req (c, t) in
  (forall p, r <> Panic p) /\
  exists c1,
    (same_objects c c1 \/ exists oc st, find KOAuthClient c req = Some oc /\ secret_step oc (c, t) st (c1, t')) /\
    (same_objects c1 c' \/ exists oc oc', find KOAuthClient c1 req = Some oc /\ status_step oc oc' c1 c').
Proof.
  pose proof (Reconcile_effect req c t) as Hr. destruct (Reconcile req (c, t)) as [r [c' t']].
  destruct Hr as [(-> & -> & Hr)|(oc & Hoc & Hr)].
  { split; [intros p; destruct Hr as [[-> _]|[e ->]]; done|]. exists c. split; left; apply same_objects_refl. }
  destruct Hr as [[Hs [e ->]]|(st & c1 & Hst & Hr)].
  { split; [done|]. exists c'. split; [by left|left; apply same_objects_refl]. }
  pose proof (secret_step_client _ _ _ _ _ _ Hst req) as Hc1. split.
  - intros p. destruct Hr as [[_ [e ->]]|[(? & _ & [->|[e ->]])|(_ & -> & _)]]; done.
  - exists c1. split; [right; eauto|].
    destruct Hr as [[Hs _]|[(oc' & Hs & _)|(-> & _)]]; [by left| |left; apply same_objects_refl].
    right. exists oc, oc'. by rewrite Hc1.
Qed.

Lemma Reconcile_client_frame req c t r c' t' :
  bytes_ok t -> Reconcile req (c, t) = (r, (c', t')) ->
  (forall k key,
     (forall oc, find KOAuthClient c req = Some oc -> k <> KSecret \/ key <> secretKey oc) ->
     k <> KOAuthClient \/ key <> req -> find k c' key = find k c key) /\
  forall oc, find KOAuthClient c req = Some oc ->
    exists oc', find KOAuthClient c' req = Some oc' /\ oc_Spec oc' = oc_Spec oc.
Proof.
  intros Hb E. pose proof (Reconcile_two_steps req c t) as Hr. rewrite E in Hr.
  destruct Hr as (_ & c1 & Hfirst & Hlast). apply last_step in Hlast as [H1 H2].
  destruct Hfirst as [Hs|(oc & st & Hoc & Hst)].
  - split; [intros; rewrite H1 by done; by apply same_find|].
    intros oc Hoc. apply H2. by rewrite (same_find _ _ _ _ Hs).
  - pose proof (secret_step_client _ _ _ _ _ _ Hst req) as Hc1.
    apply secret_step_ok in Hst as (_ & _ & Hne); [|done]. split.
    + intros k key Hk Hreq. rewrite H1, Hne; auto.
    + intros oc1 Hoc1. apply H2. by rewrite Hc1.
Qed.

Lemma Reconcile_client_keeps req c t r c' t' oc s k :
  bytes_ok t -> Reconcile req (c, t) = (r, (c', t')) ->
  find KOAuthClient c req = Some oc -> find KSecret c (secretKey oc) = Some s ->
  Public (oc_Spec oc) = false -> k ∈ ["client_secret"; "client_secret_digest"] ->
  has_value (content (sec_Data s)) k ->
  exists s', find KSecret c' (secretKey oc) = Some s' /\ content (sec_Data s') !! k = content (sec_Data s) !! k.
Proof.
  intros Hb E Hoc Hs Hp Hk Hv. pose proof (Reconcile_two_steps req c t) as Hr. rewrite E in Hr.
  destruct Hr as (_ & c1 & Hfirst & Hlast). apply last_step in Hlast as [H1 _].
  rewrite H1 by (by left). destruct Hfirst as [Hsame|(oc1 & st & Hoc1 & Hst)].
  { exists s. by rewrite (same_find _ _ _ _ Hsame). }
  assert (oc1 = oc) as -> by congruence.
  apply secret_step_ok in Hst as (Hst & Hcs & _); [|done]. exists st. split; [done|].
  destruct Hcs as (_ & _ & _ & _ & _ & Hd). rewrite Hp in Hd.
  destruct Hd as (secret & digest & Hsec & Hdig & Hs2 & Hd2).
  assert (old_secret oc c = s) as Hold by (apply old_secret_base; by left). rewrite Hold in *.
  rewrite !elem_of_cons, elem_of_nil in Hk. destruct Hk as [->|[->|[]]].
  - rewrite decide_True in Hs2 by done. congruence.
  - rewrite decide_True in Hd2 by done. congruence.
Qed.

(** C10: a reconcile of a client is safe whatever happens, failures and partial
    failures included.  It never panics; it touches nothing but the client's
    own Secret and the client's status; and it never rotates the credentials of a
    confidential client: a value that its Secret already has for the client secret or its digest is
    still there afterwards. *)
Theorem Reconcile_client_safe req c t :
  bytes_ok t ->
  let '(r, (c', t')) := Reconcile req (c, t) in
  (forall p, r <> Panic p) /\
  (forall k key,
     (forall oc, find KOAuthClient c req = Some oc -> k <> KSecret \/ key <> secretKey oc) ->
     k <> KOAuthClient \/ key <> req -> find k c' key = find k c key) /\
  forall oc, find KOAuthClient c req = Some oc ->
    (exists oc', find KOAuthClient c' req = Some oc' /\ oc_Spec oc' = oc_Spec oc) /\
    forall s k, find KSecret c (secretKey oc) = Some s -> Public (oc_Spec oc) = false ->
      k ∈ ["client_secret"; "client_secret_digest"] -> has_value (content (sec_Data s)) k ->
      exists s', find KSecret c' (secretKey oc) = Some s' /\
        content (sec_Data s') !! k = content (sec_Data s) !! k.
Proof.
  intros Hb. pose proof (Reconcile_two_steps req c t) as Hr.
  destruct (Reconcile req (c, t)) as [r [c' t']] eqn:E. destruct Hr as [Hp _].
  destruct (Reconcile_client_frame req c t r c' t' Hb E) as [Hf Hspec].
  split; [exact Hp|]. split; [exact Hf|]. intros oc Hoc. split; [by apply Hspec|].
  intros s k. by eapply Reconcile_client_keeps.
Qed.

Lemma kept_map_id (m : gomap string) k v : content m !! k = Some v -> m = Some (content m).
Proof. destruct m; [done|]. simpl. by rewrite lookup_empty. Qed.

Lemma insert_content (m : gomap string) k v : content m !! k = Some v -> Some (<[k := v]> (content m)) = m.
Proof. intros E. rewrite insert_id by done. symmetry. by eapply kept_map_id. Qed.

(** A confidential client ends with a secret and a digest that are not empty. *)
Lemma client_data_complete c old d :
  Public (oc_Spec c) = false -> client_data c old d ->
  has_value d "client_secret" /\ has_value d "client_secret_digest".
Proof.
  intros Hp (_ & _ & Hd). rewrite Hp in Hd. destruct Hd as (secret & digest & H1 & H2 & Hs & Hdg).
  unfold has_value. rewrite H1, H2. simpl. split.
  - destruct (decide (has_value old "client_secret")) as [Hv|]; [|by apply good_secret_nonempty].
    unfold has_value in Hv. by rewrite Hs in Hv.
  - destruct (decide (has_value old "client_secret_digest")) as [Hv|]; [|by eapply digest_nonempty].
    unfold has_value in Hv. by rewrite Hdg in Hv.
Qed.

(** The data a mutation produced is complete: completing it again changes nothing. *)
Lemma data_stable c old d tape :
  client_data c old d ->
  (if Public (oc_Spec c)
   then mret (delete "client_secret_digest" (delete "client_secret" (<["client_id" := effectiveClientID c]> d)))
   else completeCredentials (<["client_id" := effectiveClientID c]> d) : M entropy _) tape = (Ok d, tape).
Proof.
  intros Hc. pose proof Hc as (Hid & _ & Hd). rewrite insert_id by done.
  destruct (Public (oc_Spec c)) eqn:Hp.
  - destruct Hd as [H1 H2]. unfold mret, M_ret. by rewrite !delete_id by (rewrite ?lookup_delete_ne; done).
  - apply completeCredentials_id; by apply (client_data_complete _ _ _ Hp) in Hc as [? ?].
Qed.

(** Mutating what the server stored after a mutation changes nothing. *)
Lemma mutate_stable oc oc' base t o t1 st t2 :
  bytes_ok t -> mutateClientSecret oc base t = (Ok o, t1) ->
  kept KSecret st = kept KSecret o ->
  oc_Spec oc' = oc_Spec oc -> om_Name (oc_meta oc') = om_Name (oc_meta oc) ->
  om_Namespace (oc_meta oc') = om_Namespace (oc_meta oc) -> om_UID (oc_meta oc') = om_UID (oc_meta oc) ->
  mutateClientSecret oc' st t2 = (Ok st, t2).
Proof.
  intros Hb Hf Hk Hsp Hn Hns Hu.
  assert (effectiveClientID oc' = effectiveClientID oc) as Hid by (unfold effectiveClientID; by rewrite Hsp, Hn).
  assert (exists m0, SetControllerReference "AutheliaOAuthClient" (oc_meta oc) m0 = inl (sec_meta o)) as [m0 Hscr].
  { unfold mutateClientSecret in Hf. inv_bind Hf. inv_bind Hk0. unfold lift, control in Hm0.
    destruct (SetControllerReference _ _ _) as [m'|] eqn:Es; [|done].
    unfold mret, M_ret in *. simplify_eq. simpl. eauto. }
  pose proof (mutate_ok _ _ _ _ _ Hb Hf) as Hcs.
  pose proof (client_secret_kept _ _ _ _ Hk Hcs) as (Htype & Hlab & _ & Hdata).
  unfold mutateClientSecret. rewrite Hsp, Hid.
  pose proof (data_stable oc _ (content (sec_Data st)) t2 Hdata) as Hds.
  unfold mbind at 1, M_bind at 1. rewrite Hds. unfold mbind, M_bind, lift.
  assert (set_secret st (<["app.kubernetes.io/managed-by" := "heliop"]> (content (om_Labels (sec_meta st))))
            (content (sec_Data st)) = st) as ->.
  { assert (content (om_Labels (sec_meta st)) !! "app.kubernetes.io/managed-by" = Some "heliop") as Hl
      by by rewrite Hlab, lookup_insert_eq.
    destruct Hdata as [Hd _]. unfold set_secret. rewrite insert_content by done.
    rewrite <- (kept_map_id _ _ _ Hd), <- Htype. by destruct st as [[] ? ? ?]. }
  destruct st as [[] ? ? ?], o as [[] ? ? ?]. simpl in Hk. injection Hk as -> -> _ _ -> _ _.
  simpl in *. erewrite control_stable; [|exact Hscr|done..]. done.
Qed.

(** C11: reconciling a client is idempotent.  Once a reconcile has succeeded, a
    second one of the same client on the state it reached changes nothing and
    draws no entropy, whatever entropy it is given: the secrets are stable. *)
Theorem Reconcile_client_idempotent req c t res c' t' t2 :
  bytes_ok t -> Reconcile req (c, t) = (Ok res, (c', t')) ->
  exists r, Reconcile req (c', t2) = (r, (c', t2)) /\ (r = Ok (mkResult 0) \/ exists e, r = Err e).
Proof.
  intros Hb E. pose proof (Reconcile_effect req c t) as Hr. rewrite E in Hr.
  unfold Reconcile, try, on_cluster at 1. simpl.
  destruct (Get_spec KOAuthClient req c') as (r2 & -> & Hr2). destruct r2 as [oc'|e|p]; simpl; [| |done].
  2: { destruct (IsNotFound e); unfold mret, M_ret, throw; eauto. }
  destruct Hr as [(-> & -> & [[_ Ho]|[e [=]]])|(oc & Hoc & Hr)]; [congruence|].
  destruct Hr as [[_ [e [=]]]|(st & c1 & Hst & Hr)].
  pose proof (secret_step_client _ _ _ _ _ _ Hst) as Hc1.
  pose proof (secret_step_ok _ _ _ _ _ _ Hb Hst) as (Hfst & _ & _).
  assert (find KSecret c' (secretKey oc) = Some st /\ oc_Spec oc' = oc_Spec oc /\
          key_of KOAuthClient oc' = key_of KOAuthClient oc /\ om_UID (oc_meta oc') = om_UID (oc_meta oc) /\
          SecretName (oc_Status oc') = oauthSecretName oc) as (Hf & Hsp & Hkey & Hu & Hs).
  { destruct Hr as [[_ [e [=]]]|[(oc2 & Hs & _)|(-> & _ & Hs)]].
    - apply (status_step_ok _ _ _ _ req) in Hs as (Ho & ? & ? & ? & ? & Hne); [|by rewrite Hc1].
      assert (oc2 = oc') as -> by congruence. rewrite Hne; [done|by left].
    - rewrite Hc1 in Hr2. assert (oc' = oc) as -> by congruence. done. }
  destruct Hst as (base & o & _ & Hmut & Hkept & _). simpl in Hmut.
  injection Hkey as Hns Hn.
  pose proof (mutate_stable oc oc' base t o t' st t2 Hb Hmut Hkept Hsp Hn Hns Hu) as Hstable.
  assert (secretKey oc' = secretKey oc) as Hkey by (unfold secretKey, oauthSecretName; by rewrite Hn, Hns).
  unfold mbind at 1, M_bind at 1. fold (freshSecret oc').
  destruct (CreateOrUpdate KSecret (freshSecret oc') (mutateClientSecret oc') (c', t2)) as [r w] eqn:Ec.
  apply (CreateOrUpdate_id KSecret _ _ _ _ st) in Ec as [-> Hr3]; [|apply mutate_keeps_key| |done].
  - destruct Hr3 as [->|(e & -> & _)]; [|eauto]. rewrite decide_False; [unfold mret, M_ret; eauto|].
    unfold oauthSecretName in *. rewrite Hn. tauto.
  - change (key_of KSecret (freshSecret oc')) with (secretKey oc'). by rewrite Hkey.
Qed.
End client_secret.

(** * A concrete run *)

#[local] Existing Instances Memory.api Memory.api_laws Memory.owners Memory.owners_laws.

Definition demo_client : AutheliaOAuthClient :=
  mkAutheliaOAuthClient (mkObjectMeta "argocd" "sso" "uid-1" None None [] ∅)
    (mkAutheliaOAuthClientSpec (mkAutheliaReference "auth" "") "" "Argo CD" true "one_factor" "" "" ""
       ["https://argocd.example.com/auth/callback"] [] [] [] "" "")
    (mkAutheliaOAuthClientStatus [] "").
Definition demo_req : NamespacedName := mkNamespacedName "sso" "argocd".
Definition demo_store : cluster := Memory.put KOAuthClient demo_client Memory.empty.

Lemma generateSecret_spec_witness :
  exists buf, length buf = 48 /\ replicate 48 7%N = buf ++ [].
Proof.
  assert (bytes_ok (replicate 48 7%N)) as Hb by (apply Forall_replicate; reflexivity).
  pose proof (generateSecret_spec (replicate 48 7%N) Hb) as Hg.
  destruct (generateSecret (replicate 48 7%N)) as [[s|e|p] rest] eqn:E; vm_compute in E; [|discriminate E..].
  injection E as <- <-. destruct Hg as (buf & Ht & Hl & _). exists buf. split; [exact Hl|exact Ht].
Defined.

Lemma demo_run : (Reconcile demo_req (demo_store, [] : entropy)).1 = Ok (mkResult 0).
Proof. by vm_compute. Qed.

Lemma demo_found : find KOAuthClient demo_store demo_req = Some demo_client.
Proof. by vm_compute. Qed.

Lemma Reconcile_client_ok_witness :
  exists c' st, (Reconcile demo_req (demo_store, [] : entropy)).2.1 = c' /\
    find KSecret c' (secretKey demo_client) = Some st /\ sec_Type st = "Opaque".
Proof.
  pose proof demo_run as Hrun. destruct (Reconcile demo_req (demo_store, [] : entropy)) as [r [c' t']] eqn:E.
  simpl in Hrun. subst r.
  destruct (Reconcile_client_ok demo_req demo_store [] _ c' t' (List.Forall_nil _) E) as [_ H].
  rewrite demo_found in H. destruct H as (st & oc' & Hst & (Ht & _) & _). exists c', st.
  split; [reflexivity|]. split; [exact Hst|exact Ht].
Defined.

Lemma Reconcile_client_idempotent_witness :
  exists c', (Reconcile demo_req (demo_store, [] : entropy)).2.1 = c' /\
    (Reconcile demo_req (c', [1%N])).2 = (c', [1%N]).
Proof.
  pose proof demo_run as Hrun. destruct (Reconcile demo_req (demo_store, [] : entropy)) as [r [c' t']] eqn:E.
  simpl in Hrun. subst r.
  destruct (Reconcile_client_idempotent demo_req demo_store [] _ c' t' [1%N] (List.Forall_nil _) E) as (r & H & _).
  exists c'. split; [reflexivity|]. rewrite H. reflexivity.
Defined.

Lemma Reconcile_client_safe_witness :
  find KAuthelia (Reconcile demo_req (demo_store, [] : entropy)).2.1 demo_req = None.
Proof.
  pose proof (Reconcile_client_safe demo_req demo_store [] (List.Forall_nil _)) as H.
  destruct (Reconcile demo_req (demo_store, [] : entropy)) as [r [c' t']]. destruct H as (_ & H & _).
  simpl. rewrite (H KAuthelia demo_req); [by vm_compute|left; discriminate|left; discriminate].
Defined.

(** A Secret of which the user deleted the client secret. *)
Lemma digest_goes_stale_witness :
  exists d1 d2 s1 s2,
    d1 !! "client_secret" = Some s1 /\ d2 !! "client_secret" = Some s2 /\ s1 <> s2 /\
    (d1 : gmap string string) !! "client_secret_digest" = (d2 : gmap string string) !! "client_secret_digest".
Proof.
  destruct (digest_goes_stale {[ "client_secret_digest" := "$pbkdf2" ]} "$pbkdf2"
    (replicate 48 1%N) (replicate 48 2%N)) as (d1 & d2 & _ & _ & s1 & s2 & _ & _ & H1 & H2 & Hne & E1 & E2).
  - intros H. apply H. by vm_compute.
  - by vm_compute.
  - discriminate.
  - by apply Forall_replicate.
  - by apply Forall_replicate.
  - by vm_compute.
  - by vm_compute.
  - discriminate.
  - exists d1, d2, s1, s2. split; [exact H1|]. split; [exact H2|]. split; [exact Hne|]. exact (eq_trans E1 (eq_sym E2)).
Defined.
