(* ===== verification/AutheliaController.v ===== *)
(** [internal/controller/authelia_controller.go]: the objects of an Authelia. *)

From S2P Require Import Prelude GoStrings GoSort GoJson GoCrypto ApiTypes Secrets Resources Render Ingress Cluster.

(** * Clients *)

Definition clientTargets (c : AutheliaOAuthClient) (a : Authelia) : bool :=
  if decide (ref_Name (AutheliaRef (oc_Spec c)) <> au_Name a) then false
  else
    let ns := ref_Namespace (AutheliaRef (oc_Spec c)) in
    let ns := if decide (ns = "") then om_Namespace (oc_meta c) else ns in
    bool_decide (ns = au_Namespace a).

(** The Secret that holds the digest of a client. *)
Definition digestSecret (c : AutheliaOAuthClient) : NamespacedName :=
  let name := SecretName (oc_Status c) in
  let name := if decide (name = "") then om_Name (oc_meta c) +:+ "-oauth-secret" else name in
  mkNamespacedName (om_Namespace (oc_meta c)) name.

(** [spec := c.Spec; spec.ClientID = clientID] *)
Definition clientSpec (c : AutheliaOAuthClient) : AutheliaOAuthClientSpec :=
  let clientID := ClientID (oc_Spec c) in
  let clientID := if decide (clientID = "") then om_Name (oc_meta c) else clientID in
  set_ClientID clientID (oc_Spec c).

Section controller.
Context `{Api, Owners, RSA, UnstableSort, MapRange, Yaml}.

Definition clientSecretDigest (c : AutheliaOAuthClient) : M cluster string :=
  try (Get KSecret (digestSecret c)) (fun r =>
    match r with
    | inl secret => mret (default "" (content (sec_Data secret) !! "client_secret_digest"))
    | inr err => if IsNotFound err then mret "" else throw err
    end).

(** The loop of [collectClients]: the clients and the number of missing ones. *)
Fixpoint collect_loop (a : Authelia) (items : list AutheliaOAuthClient) :
    M cluster (list oidcClient * nat) :=
  match items with
  | [] => mret ([], 0)
  | c :: items' =>
    if negb (clientTargets c a) then collect_loop a items'
    else if Public (oc_Spec c) then
      '(clients, missing) ← collect_loop a items';
      mret (mkOidcClient (clientSpec c) "" :: clients, missing)
    else
      digest ← clientSecretDigest c;
      if decide (digest = "") then
        '(clients, missing) ← collect_loop a items';
        mret (clients, S missing)
      else
        '(clients, missing) ← collect_loop a items';
        mret (mkOidcClient (clientSpec c) digest :: clients, missing)
  end.

Definition collectClients (a : Authelia) : M cluster (list oidcClient * nat) :=
  items ← ListAll KOAuthClient;
  collect_loop a items.

(** * Ingress rules *)

(** [for i := range list.Items { rules = append(rules, ingressAccessRules(...)...) }] *)
Fixpoint all_rules (items : list Ingress) : outcome (list accessRule) :=
  match items with
  | [] => Ok []
  | ing :: items' =>
    rules ← ingressAccessRules ing;
    rest ← all_rules items';
    Ok (rules ++ rest)
  end.

(** [for _, d := range v { domains = append(domains, d.(string)) }] *)
Fixpoint assert_strings (v : list any) : outcome (list string) :=
  match v with
  | [] => Ok []
  | VStr d :: v' => rest ← assert_strings v'; Ok (d :: rest)
  | _ :: _ => Panic TypeAssertion
  end.

(** [ar.rule["domain"].([]any)] of every rule *)
Fixpoint rule_domains (rules : list accessRule) : outcome (list string) :=
  match rules with
  | [] => Ok []
  | ar :: rules' =>
    match ar_rule ar !! "domain" with
    | Some (VArr v) => ds ← assert_strings v; rest ← rule_domains rules'; Ok (ds ++ rest)
    | _ => Panic TypeAssertion
    end
  end.

Definition collectIngressRules : M cluster (list (gmap string any) * list string) :=
  items ← ListAll KIngress;
  rules ← lift (all_rules items);
  let rules := sortAccessRules rules in
  domains ← lift (rule_domains rules);
  mret (ar_rule <$> rules, domains).

(** * The managed objects *)

Definition set_Labels (l : gomap string) (m : ObjectMeta) : ObjectMeta :=
  mkObjectMeta (om_Name m) (om_Namespace m) (om_UID m) l (om_Annotations m)
    (om_OwnerReferences m) (om_rest m).

Definition kind_of_owner : string := "Authelia".

Definition mutateCoreSecret (a : Authelia) (secret : Secret) : M entropy Secret :=
  let labels := match om_Labels (sec_meta secret) with None => Some (labelsFor a) | l => l end in
  data ← generatedCoreSecretData (sec_Data secret);
  m ← lift (control kind_of_owner (au_meta a) (set_Labels labels (sec_meta secret)));
  mret (mkSecret m SecretTypeOpaque (Some data) (sec_rest secret)).

Definition reconcileCoreSecret (a : Authelia) : M (cluster * entropy) unit :=
  if decide (ExistingSecret (au_Deployment (au_Spec a)) <> "") then mret tt else
  let secret := newSecret (coreSecretName a) (au_Namespace a) in
  _ ← CreateOrUpdate KSecret secret (mutateCoreSecret a);
  mret tt.

Definition reconcileDataPVC (a : Authelia) : M (cluster * entropy) unit :=
  match VolumeClaimTemplate (au_Deployment (au_Spec a)) with
  | None => mret tt
  | Some template =>
    try (on_cluster (Get KPersistentVolumeClaim (mkNamespacedName (au_Namespace a) (dataPVCName a)))) (fun r =>
      match r with
      | inl _ => mret tt
      | inr err =>
        if IsNotFound err
        then _ ← on_cluster (Create KPersistentVolumeClaim (buildDataPVC a template)); mret tt
        else throw err
      end)
  end.

Definition mutateConfigMap (a : Authelia) (desired cm : ConfigMap) : M entropy ConfigMap :=
  m ← lift (control kind_of_owner (au_meta a) (set_Labels (om_Labels (cm_meta desired)) (cm_meta cm)));
  mret (mkConfigMap m (cm_Data desired) (cm_rest cm)).

Definition reconcileConfigMap (a : Authelia) (rendered : string) : M (cluster * entropy) unit :=
  let desired := buildConfigMap a rendered in
  let cm := mkConfigMap (newMeta (om_Name (cm_meta desired)) (om_Namespace (cm_meta desired))) None ∅ in
  _ ← CreateOrUpdate KConfigMap cm (mutateConfigMap a desired);
  mret tt.

Definition mutateService (a : Authelia) (desired svc : Service) : M entropy Service :=
  let spec := mkServiceSpec (svc_Type (svc_Spec desired)) (svc_Selector (svc_Spec desired))
                (svc_Ports (svc_Spec desired)) (svc_rest (svc_Spec svc)) in
  m ← lift (control kind_of_owner (au_meta a) (set_Labels (om_Labels (svc_meta desired)) (svc_meta svc)));
  mret (mkService m spec (svc_status svc)).

Definition reconcileService (a : Authelia) : M (cluster * entropy) unit :=
  let desired := buildService a in
  let svc := mkService (newMeta (om_Name (svc_meta desired)) (om_Namespace (svc_meta desired)))
               (mkServiceSpec "" None [] ∅) ∅ in
  _ ← CreateOrUpdate KService svc (mutateService a desired);
  mret tt.

Definition mutateDeployment (a : Authelia) (desired dep : Deployment) : M entropy Deployment :=
  m ← lift (control kind_of_owner (au_meta a) (set_Labels (om_Labels (dep_meta desired)) (dep_meta dep)));
  mret (mkDeployment m (dep_Spec desired) (dep_ReadyReplicas dep) (dep_rest dep)).

Definition emptyDeploymentSpec : DeploymentSpec :=
  mkDeploymentSpec None None ∅ (mkPodTemplateSpec None None (mkPodSpec None [] [])) ∅.

Definition reconcileDeployment (a : Authelia) (oidcEnabled : bool) (checksum : string) :
    M (cluster * entropy) Z :=
  let desired := buildDeployment a oidcEnabled checksum in
  let dep := mkDeployment (newMeta (om_Name (dep_meta desired)) (om_Namespace (dep_meta desired)))
               emptyDeploymentSpec 0 ∅ in
  dep ← CreateOrUpdate KDeployment dep (mutateDeployment a desired);
  mret (dep_ReadyReplicas dep).

(** The Authelia with the status [updateStatus] sends. *)
Definition set_status (a : Authelia) (ready : Z) (clientIDs ruleDomains : list string) : Authelia :=
  mkAuthelia (au_meta a) (au_Spec a)
    (mkAutheliaStatus (au_Conditions (au_Status a)) ready clientIDs ruleDomains).

Definition updateStatus (a : Authelia) (ready : Z) (clientIDs ruleDomains : list string) :
    M (cluster * entropy) unit :=
  _ ← on_cluster (StatusUpdate KAuthelia (set_status a ready clientIDs ruleDomains));
  mret tt.

(** * Reconcile *)

(** The part of [Reconcile] after rendering. *)
Definition applyConfig (a : Authelia) (clients : list oidcClient) (missing : nat)
    (ruleDomains : list string) (renderedConfig : string) : M (cluster * entropy) Result :=
  _ ← reconcileCoreSecret a;
  _ ← reconcileConfigMap a renderedConfig;
  _ ← reconcileService a;
  _ ← reconcileDataPVC a;
  readyReplicas ← reconcileDeployment a (negb (bool_decide (clients = []))) (configChecksum renderedConfig);
  let clientIDs := sort_Strings ((fun c => ClientID (spec c)) <$> clients) in
  _ ← updateStatus a readyReplicas clientIDs ruleDomains;
  mret (mkResult (if decide (0 < missing) then 10 * Second else 0)).

Definition Reconcile (req : NamespacedName) : M (cluster * entropy) Result :=
  try (on_cluster (Get KAuthelia req)) (fun r =>
    match r with
    | inr err => if IsNotFound err then mret (mkResult 0) else throw err
    | inl a =>
      '(clients, missing) ← on_cluster (collectClients a);
      '(ingressRules, ruleDomains) ← on_cluster collectIngressRules;
      renderedConfig ← lift (renderConfig (Settings (au_Spec a)) clients ingressRules (Hostname (au_Spec a)));
      applyConfig a clients missing ruleDomains renderedConfig
    end).

(** * Event routing *)

Definition mapIngressToAuthelia (obj : client_Object) : M cluster (list NamespacedName) :=
  match obj with
  | AnObject KIngress ing =>
    if negb (hasRuleAnnotations ing) then mret [] else
    try (ListAll KAuthelia) (fun r =>
      match r with
      | inr _ => mret []
      | inl items => mret ((fun a => mkNamespacedName (au_Namespace a) (au_Name a)) <$> items)
      end)
  | _ => mret []
  end.

Definition mapClientToAuthelia (obj : client_Object) : list NamespacedName :=
  match obj with
  | AnObject KOAuthClient c =>
    let ns := ref_Namespace (AutheliaRef (oc_Spec c)) in
    let ns := if decide (ns = "") then om_Namespace (oc_meta c) else ns in
    if decide (ref_Name (AutheliaRef (oc_Spec c)) = "") then []
    else [mkNamespacedName ns (ref_Name (AutheliaRef (oc_Spec c)))]
  | _ => []
  end.
End controller.

(** * Specification of the reads *)

Section reads.
Context {API : Api} {APIL : ApiLaws} {RANGE : MapRange}.

(** All objects of a kind. *)
Definition all_objects (k : kind) (c : cluster) : list (KObj k) := (map_to_list (objects k c)).*2.

(** The digest stored for a client, empty when there is none yet. *)
Definition digest_in (c : cluster) (oc : AutheliaOAuthClient) : string :=
  match find KSecret c (digestSecret oc) with
  | Some s => default "" (content (sec_Data s) !! "client_secret_digest")
  | None => ""
  end.

(** The client as it is rendered, unless it still waits for its digest. *)
Definition ready_client (c : cluster) (oc : AutheliaOAuthClient) : option oidcClient :=
  if Public (oc_Spec oc) then Some (mkOidcClient (clientSpec oc) "")
  else if decide (digest_in c oc = "") then None
  else Some (mkOidcClient (clientSpec oc) (digest_in c oc)).

Definition targeting (a : Authelia) (items : list AutheliaOAuthClient) : list AutheliaOAuthClient :=
  filter (fun oc => clientTargets oc a = true) items.

Definition pending (c : cluster) (items : list AutheliaOAuthClient) : list AutheliaOAuthClient :=
  filter (fun oc => ~ is_Some (ready_client c oc)) items.

(** A computation that only reads: it leaves the state, never panics, and
    returns an error or a value that satisfies [P]. *)
Definition reads {A} (m : M cluster A) (c : cluster) (P : A -> Prop) : Prop :=
  exists r, m c = (r, c) /\ match r with Ok a => P a | Err _ => True | Panic _ => False end.

Lemma reads_ret {A} (a : A) c (P : A -> Prop) : P a -> reads (mret a) c P.
Proof. intros. by exists (Ok a). Qed.

Lemma reads_bind {A B} (m : M cluster A) (f : A -> M cluster B) c P Q :
  reads m c P -> (forall a, P a -> reads (f a) c Q) -> reads (m ≫= f) c Q.
Proof.
  intros (r & E & Hr) Hf. unfold reads, mbind, M_bind. rewrite E. destruct r as [a|e|p]; [by apply Hf| |done].
  by exists (Err e).
Qed.

Lemma reads_impl {A} (m : M cluster A) c (P Q : A -> Prop) :
  reads m c P -> (forall a, P a -> Q a) -> reads m c Q.
Proof. intros (r & E & Hr) HPQ. exists r. split; [done|]. destruct r; auto. Qed.

Lemma reads_lift {A} (o : outcome A) a c : o = Ok a -> reads (lift o) c (fun x => x = a).
Proof. intros ->. by exists (Ok a). Qed.

Lemma reads_list k c : reads (ListAll k) c (fun l => l ≡ₚ all_objects k c).
Proof. destruct (List_spec k c) as (r & E & Hr). exists r. split; [done|]. by destruct r. Qed.

Lemma reads_digest oc c : reads (clientSecretDigest oc) c (fun d => d = digest_in c oc).
Proof.
  unfold reads, clientSecretDigest, try, digest_in.
  destruct (Get_spec KSecret (digestSecret oc) c) as (r & -> & Hr). destruct r as [s|e|p]; [| |done].
  - rewrite Hr. by eexists.
  - destruct (IsNotFound e); [rewrite Hr by done|]; by eexists.
Qed.

(** What the loop returns: the ready clients among the targeting ones, in the
    order of the listing, and the number of the others. *)
Definition collected (c : cluster) (a : Authelia) (items : list AutheliaOAuthClient)
    (p : list oidcClient * nat) : Prop :=
  p.1 = omap (ready_client c) (targeting a items) /\ p.2 = length (pending c (targeting a items)).

Lemma collect_loop_reads a items c : reads (collect_loop a items) c (collected c a items).
Proof.
  induction items as [|oc items IH]; [by apply reads_ret|]. cbn [collect_loop]. unfold collected, targeting.
  destruct (clientTargets oc a) eqn:Et; simpl.
  2: { by rewrite filter_cons_False by congruence. }
  rewrite filter_cons_True by done. cbn [omap list_omap]. unfold pending.
  destruct (Public (oc_Spec oc)) eqn:Ep.
  - assert (ready_client c oc = Some (mkOidcClient (clientSpec oc) "")) as Hc by by unfold ready_client; rewrite Ep.
    eapply reads_bind; [exact IH|]. intros [clients missing] [E1 E2]. apply reads_ret. simpl in *.
    rewrite Hc, filter_cons_False by eauto. by rewrite E1, E2.
  - eapply reads_bind; [apply reads_digest|]. intros d ->. case_decide as Hd.
    + assert (ready_client c oc = None) as Hc by by unfold ready_client; rewrite Ep, decide_True.
      eapply reads_bind; [exact IH|]. intros [clients missing] [E1 E2]. apply reads_ret. simpl in *.
      rewrite Hc, filter_cons_True by (rewrite Hc; by intros []). by rewrite E1, E2.
    + assert (ready_client c oc = Some (mkOidcClient (clientSpec oc) (digest_in c oc))) as Hc
        by by unfold ready_client; rewrite Ep, decide_False.
      eapply reads_bind; [exact IH|]. intros [clients missing] [E1 E2]. apply reads_ret. simpl in *.
      rewrite Hc, filter_cons_False by eauto. by rewrite E1, E2.
Qed.

(** The whole function, in the order of the listing. *)
Lemma collectClients_reads a c :
  reads (collectClients a) c (fun '(clients, missing) =>
    exists items, items ≡ₚ all_objects KOAuthClient c /\
      clients = omap (ready_client c) (targeting a items) /\
      missing = length (pending c (targeting a items))).
Proof.
  eapply reads_bind; [apply (reads_list KOAuthClient)|]. intros items Hitems.
  destruct (collect_loop_reads a items c) as (r & E & Hr). exists r. split; [exact E|].
  destruct r as [[clients missing]|e|p]; [|done..]. destruct Hr as [E1 E2]. by exists items.
Qed.

Lemma ready_or_pending c l : length (omap (ready_client c) l) + length (pending c l) = length l.
Proof.
  induction l as [|oc l IH]; [done|]. cbn [omap list_omap]. unfold pending in *.
  destruct (ready_client c oc) eqn:E.
  - rewrite filter_cons_False by (rewrite E; eauto). simpl. lia.
  - rewrite filter_cons_True by (rewrite E; by intros []). simpl. lia.
Qed.

(** C25: the clients of an Authelia.  Collecting only reads and never panics.
    What it returns are, in some order, the clients of the cluster that target
    this Authelia and are ready: every public one, without a digest, and every
    confidential one whose Secret holds a digest, with that digest; and the
    number it returns counts all the others that target it. *)
Theorem collectClients_spec a c :
  reads (collectClients a) c (fun '(clients, missing) =>
    clients ≡ₚ omap (ready_client c) (targeting a (all_objects KOAuthClient c)) /\
    length clients + missing = length (targeting a (all_objects KOAuthClient c))).
Proof.
  eapply reads_impl; [apply collectClients_reads|].
  intros [clients missing] (items & Hitems & -> & ->). unfold targeting.
  split; [by rewrite Hitems|]. rewrite ready_or_pending. by rewrite Hitems.
Qed.

(** * The generated rules *)

Lemma all_rules_eq items : all_rules items = Ok (items ≫= rules_of).
Proof.
  induction items as [|ing items IH]; [done|]. cbn [all_rules].
  by rewrite ingressAccessRules_Ok, IH, bind_cons.
Qed.

(** The hosts of a generated rule. *)
Definition hosts_of (r : accessRule) : list string :=
  default [] (as_slice (ar_rule r !! "domain")) ≫= fun v => if v is VStr s then [s] else [].

Lemma assert_strings_toIface ds : assert_strings (VStr <$> ds) = Ok ds.
Proof. induction ds as [|d ds IH]; [done|]. rewrite fmap_cons. cbn [assert_strings]. by rewrite IH. Qed.

Lemma rule_domains_ok rules :
  Forall (fun r => exists ds, ar_rule r !! "domain" = Some (VArr (VStr <$> ds))) rules ->
  rule_domains rules = Ok (rules ≫= hosts_of).
Proof.
  induction 1 as [|r rules (ds & E) _ IH]; [done|]. cbn [rule_domains].
  rewrite E, assert_strings_toIface, IH, bind_cons.
  assert (hosts_of r = ds) as ->; [|done].
  unfold hosts_of. rewrite E. apply get_strings_toIface.
Qed.

Lemma sorted_rules_domains items :
  rule_domains (sortAccessRules (items ≫= rules_of)) = Ok (sortAccessRules (items ≫= rules_of) ≫= hosts_of).
Proof.
  apply rule_domains_ok, Forall_forall. intros r Hr. unfold sortAccessRules in Hr.
  rewrite SliceStable_perm in Hr. apply list_elem_of_bind in Hr as (ing & Hr & _).
  apply elem_of_rules_of in Hr as (k & _ & _ & v & m & p & _ & _ & _ & _ & -> & _).
  exists (ingressDomains ing). by rewrite lookup_insert_eq.
Qed.

(** Kubernetes names everywhere. *)
Definition dns_cluster (c : cluster) : Prop := Forall dns_names (all_objects KIngress c).

(** The sorted rules of a cluster. *)
Definition cluster_rules (c : cluster) : list accessRule :=
  sortAccessRules (all_objects KIngress c ≫= rules_of).

Lemma snd_fst_fmap {A B C} (f : A -> C) (g : B -> C) (l : list (A * B)) :
  (forall p, p ∈ l -> g p.2 = f p.1) -> g <$> l.*2 = f <$> l.*1.
Proof.
  induction l as [|p l IH]; intros Hl; [done|]. rewrite !fmap_cons, IH by (intros; apply Hl; by right).
  f_equal. apply Hl. by left.
Qed.

Lemma all_objects_ids c : NoDup (ing_id <$> all_objects KIngress c).
Proof.
  set (f := fun key => (nn_Namespace key, nn_Name key)).
  assert (ing_id <$> all_objects KIngress c = f <$> (map_to_list (objects KIngress c)).*1) as ->.
  { apply snd_fst_fmap. intros [key ing] Hi%elem_of_map_to_list.
    by pose proof (objects_key KIngress c key ing Hi) as <-. }
  apply NoDup_fmap_2; [|apply NoDup_fst_map_to_list].
  intros [] []. unfold f. simpl. congruence.
Qed.

(** Without a condition on names the order of the listing may matter. *)
Lemma collectIngressRules_reads c :
  reads collectIngressRules c (fun '(rules, domains) =>
    exists items, items ≡ₚ all_objects KIngress c /\
      rules = ar_rule <$> sortAccessRules (items ≫= rules_of) /\
      domains = sortAccessRules (items ≫= rules_of) ≫= hosts_of).
Proof.
  eapply reads_bind; [apply (reads_list KIngress)|]. intros items Hitems.
  eapply reads_bind; [apply (reads_lift _ _ _ (all_rules_eq items))|]. intros ? ->.
  eapply reads_bind; [apply (reads_lift _ _ _ (sorted_rules_domains items))|]. intros ? ->.
  apply reads_ret. by exists items.
Qed.

(** C24: the generated rules are a function of the cluster.  Collecting only
    reads and never panics (the type assertions on the rules hold); with
    Kubernetes names, whatever the order in which the API server lists the
    Ingresses and whatever the iteration order of their annotations, the
    rules are those of all Ingresses in the one order of the sort, and the
    domains reported are the hosts of these rules in that order. *)
Theorem collectIngressRules_spec c :
  dns_cluster c ->
  reads collectIngressRules c (fun '(rules, domains) =>
    rules = ar_rule <$> cluster_rules c /\ domains = cluster_rules c ≫= hosts_of).
Proof.
  intros Hdns. eapply reads_impl; [apply collectIngressRules_reads|].
  intros [rules domains] (items & Hitems & -> & ->).
  assert (sortAccessRules (items ≫= rules_of) = cluster_rules c) as ->; [|done].
  symmetry. by apply sorted_rules_independent; [apply all_objects_ids|exact Hdns|].
Qed.
End reads.

(** * The writes *)

(** What a step put in place stays in place through steps that touch other kinds. *)
Ltac through :=
  repeat match goal with H : touches _ _ _ _ |- context [find _ _ _] => rewrite H by (left; discriminate) end.

Section writes.
Context {API : Api} {APIL : ApiLaws} {OWN : Owners} {OWNL : OwnersLaws} {KEYS : RSA}.

Definition objectKey (a : Authelia) (name : string) : NamespacedName :=
  mkNamespacedName (au_Namespace a) name.

(** The labels of the Authelia, and the Authelia as controller. *)
Definition managed_meta (a : Authelia) (m : ObjectMeta) : Prop :=
  content (om_Labels m) = labelsFor a /\ owned_by kind_of_owner (au_meta a) m.

Lemma managed_meta_kept a m1 m2 : kept_meta m2 = kept_meta m1 -> managed_meta a m1 -> managed_meta a m2.
Proof.
  intros E. pose proof (f_equal om_Labels E) as El. pose proof (f_equal om_OwnerReferences E) as Er.
  simpl in El, Er. injection El as El. unfold managed_meta, owned_by. by rewrite El, Er.
Qed.

(** A pure mutation: new metadata by [control], the rest by [build]. *)
Definition pure_mutation (k : kind) (a : Authelia) (l : gomap string) (build : ObjectMeta -> KObj k -> KObj k)
    (f : KObj k -> M entropy (KObj k)) : Prop :=
  (forall m o, KMeta k (build m o) = m) /\
  forall o t, f o t = (match control kind_of_owner (au_meta a) (set_Labels l (KMeta k o)) with
                       | Ok m => Ok (build m o) | Err e => Err e | Panic p => Panic p end, t).

Lemma pure_mutation_ok k a l build f o t o' t' :
  pure_mutation k a l build f -> f o t = (Ok o', t') ->
  key_of k o' = key_of k o /\ om_Labels (KMeta k o') = l /\
  owned_by kind_of_owner (au_meta a) (KMeta k o') /\ exists m, o' = build m o.
Proof.
  intros [Hb Hf] E. rewrite Hf in E. destruct (control _ _ _) as [m|e|p] eqn:Ec; simplify_eq.
  apply control_Ok in Ec as (Hk & Hl & Hown & _). unfold key_of. rewrite Hb. split_and!; eauto.
Qed.

Lemma pure_mutation_keeps_key k a l build f : pure_mutation k a l build f -> keeps_key k f.
Proof. intros Hf o t o' t' E. by apply (pure_mutation_ok _ _ _ _ _ _ _ _ _ Hf) in E as (-> & _). Qed.

Lemma pure_mutation_no_panic k a l build f o : pure_mutation k a l build f -> no_panic (f o).
Proof.
  intros [_ Hf] t p. rewrite Hf. pose proof (control_no_panic (W:=entropy) kind_of_owner (au_meta a) (set_Labels l (KMeta k o)) t p) as H.
  unfold lift in H. simpl in H. destruct (control _ _ _); simpl; congruence.
Qed.

(** The object a pure mutation leaves on the server. *)
Lemma pure_mutation_step k a l build f obj c t :
  managed k = true -> pure_mutation k a l build f ->
  let '(r, w') := CreateOrUpdate k obj f (c, t) in
  (forall p, r <> Panic p) /\ touches k (key_of k obj) c w'.1 /\
  (forall ret, r = Ok ret -> exists st m o, find k w'.1 (key_of k obj) = Some st /\
     kept k st = kept k (build m o) /\ om_Labels m = l /\ owned_by kind_of_owner (au_meta a) m).
Proof.
  intros Hk Hf. pose proof (CreateOrUpdate_step k obj f c t Hk (pure_mutation_keeps_key _ _ _ _ _ Hf)
    (fun o => pure_mutation_no_panic _ _ _ _ _ o Hf)) as Hs.
  destruct (CreateOrUpdate k obj f (c, t)) as [r w']. destruct Hs as (Hp & Ht & _ & Hok).
  split_and!; [done|done|]. intros ret Hr. destruct (Hok ret Hr) as [st Hst].
  pose proof (mutated_touches _ _ _ _ _ _ Hst) as [_ Hfind].
  destruct Hst as (base & o & _ & Hm & Hkept & _).
  pose proof (pure_mutation_ok _ _ _ _ _ _ _ _ _ Hf Hm) as (_ & Hl & Hown & m & ->).
  destruct Hf as [Hb _]. rewrite Hb in Hl, Hown. by exists st, m, base.
Qed.

(** What each step promises: it never panics, it touches one object, and on
    success that object is as [P] says. *)
Definition step_ok {A} (m : M (cluster * entropy) A) (k : kind) (key : NamespacedName)
    (P : KObj k -> Prop) : Prop :=
  forall c t, let '(r, w') := m (c, t) in
    (forall p, r <> Panic p) /\ touches k key c w'.1 /\
    (forall x, r = Ok x -> exists st, find k w'.1 key = Some st /\ P st).

Lemma bind_ret_outcome {A B} (m : M (cluster * entropy) A) (g : A -> B) w :
  (x ← m; mret (g x)) w = (match (m w).1 with Ok x => Ok (g x) | Err e => Err e | Panic p => Panic p end, (m w).2).
Proof. unfold mbind, M_bind. by destruct (m w) as [[]]. Qed.

Lemma step_ok_ret {A B} (m : M (cluster * entropy) A) (g : A -> B) k key P :
  step_ok m k key P -> step_ok (x ← m; mret (g x)) k key P.
Proof.
  intros Hm c t. specialize (Hm c t). rewrite bind_ret_outcome. destruct (m (c, t)) as [r w']. simpl.
  destruct Hm as (Hp & Ht & Hok). destruct r as [x|e|p]; split_and!; eauto; try done.
  by destruct (Hp p).
Qed.

(** A pure mutation is a step that leaves a managed object. *)
Lemma pure_step k a build (P : KObj k -> Prop) obj f :
  managed k = true ->
  pure_mutation k a (Some (labelsFor a)) build f ->
  (forall st m o, kept k st = kept k (build m o) -> managed_meta a m -> P st) ->
  step_ok (CreateOrUpdate k obj f) k (key_of k obj) P.
Proof.
  intros Hk Hf HP c t. pose proof (pure_mutation_step k a _ build f obj c t Hk Hf) as Hs.
  destruct (CreateOrUpdate k obj f (c, t)) as [r w']. destruct Hs as (Hp & Ht & Hok). split_and!; [done|done|].
  intros ret Hr. destruct (Hok ret Hr) as (st & m & o & Hfd & Hkept & Hl & Hown). exists st. split; [done|].
  eapply HP; [exact Hkept|]. split; [by rewrite Hl|done].
Qed.

(** The ConfigMap holds the rendered configuration. *)
Definition config_in_place (a : Authelia) (rendered : string) (st : ConfigMap) : Prop :=
  content (cm_Data st) = {[ "configuration.yaml" := rendered ]} /\ managed_meta a (cm_meta st).

Lemma pure_configmap a rendered :
  pure_mutation KConfigMap a (Some (labelsFor a))
    (fun m cm => mkConfigMap m (Some {[ "configuration.yaml" := rendered ]}) (cm_rest cm))
    (mutateConfigMap a (buildConfigMap a rendered)).
Proof.
  split; [done|]. intros cm t. unfold mutateConfigMap, mbind, M_bind, lift. simpl.
  by destruct (control _ _ _).
Qed.

Lemma reconcileConfigMap_ok a rendered :
  step_ok (reconcileConfigMap a rendered) KConfigMap (objectKey a (configMapName a)) (config_in_place a rendered).
Proof.
  apply (step_ok_ret (CreateOrUpdate KConfigMap _ _)).
  eapply (pure_step KConfigMap a _ (config_in_place a rendered)); [done|apply pure_configmap|].
  - intros st m o Hk Hm.
    pose proof (f_equal cm_Data Hk) as Hd. pose proof (f_equal cm_meta Hk) as Hme. simpl in Hd, Hme.
    injection Hd as Hd. split; [exact Hd|]. eapply managed_meta_kept; [exact Hme|exact Hm].
Qed.

(** The Service is the one the operator builds. *)
Definition service_in_place (a : Authelia) (st : Service) : Prop :=
  svc_Spec (kept KService st) = svc_Spec (kept KService (buildService a)) /\ managed_meta a (svc_meta st).

Lemma pure_service a :
  pure_mutation KService a (Some (labelsFor a))
    (fun m svc => mkService m (mkServiceSpec "ClusterIP" (Some (selectorFor a))
       [mkServicePort "http" "TCP" 80 "http"] (svc_rest (svc_Spec svc))) (svc_status svc))
    (mutateService a (buildService a)).
Proof.
  split; [done|]. intros svc t. unfold mutateService, mbind, M_bind, lift. simpl.
  by destruct (control _ _ _).
Qed.

Lemma reconcileService_ok a :
  step_ok (reconcileService a) KService (objectKey a (au_Name a)) (service_in_place a).
Proof.
  apply (step_ok_ret (CreateOrUpdate KService _ _)).
  eapply (pure_step KService a _ (service_in_place a)); [done|apply pure_service|].
  - intros st m o Hk Hm.
    pose proof (f_equal svc_Spec Hk) as Hd. pose proof (f_equal svc_meta Hk) as Hme.
    split; [exact Hd|]. eapply managed_meta_kept; [exact Hme|exact Hm].
Qed.

(** The Deployment is the one the operator builds for this configuration. *)
Definition deployment_in_place (a : Authelia) (oidc : bool) (checksum : string) (st : Deployment) : Prop :=
  dep_Spec (kept KDeployment st) = dep_Spec (kept KDeployment (buildDeployment a oidc checksum)) /\
  managed_meta a (dep_meta st).

Lemma pure_deployment a oidc checksum :
  pure_mutation KDeployment a (Some (labelsFor a))
    (fun m dep => mkDeployment m (dep_Spec (buildDeployment a oidc checksum)) (dep_ReadyReplicas dep) (dep_rest dep))
    (mutateDeployment a (buildDeployment a oidc checksum)).
Proof.
  split; [done|]. intros dep t. unfold mutateDeployment, mbind, M_bind, lift.
  change (KMeta KDeployment dep) with (dep_meta dep).
  change (om_Labels (dep_meta (buildDeployment a oidc checksum))) with (Some (labelsFor a)).
  by destruct (control _ _ _).
Qed.

Lemma reconcileDeployment_ok a oidc checksum :
  step_ok (reconcileDeployment a oidc checksum) KDeployment (objectKey a (au_Name a))
    (deployment_in_place a oidc checksum).
Proof.
  apply (step_ok_ret (CreateOrUpdate KDeployment _ _)).
  eapply (pure_step KDeployment a _ (deployment_in_place a oidc checksum)); [done|apply pure_deployment|].
  - intros st m o Hk Hm.
    pose proof (f_equal dep_Spec Hk) as Hd. pose proof (f_equal dep_meta Hk) as Hme.
    split; [exact Hd|]. eapply managed_meta_kept; [exact Hme|exact Hm].
Qed.

(** * The core Secret *)

Definition coreKey (a : Authelia) : NamespacedName := objectKey a (coreSecretName a).
Definition freshCoreSecret (a : Authelia) : Secret := newSecret (coreSecretName a) (au_Namespace a).

(** The core Secret is complete and belongs to the Authelia. *)
Definition core_secret_in_place (a : Authelia) (st : Secret) : Prop :=
  sec_Type st = SecretTypeOpaque /\ owned_by kind_of_owner (au_meta a) (sec_meta st) /\
  forall k, k ∈ core_keys -> has_value (content (sec_Data st)) k.

(** Every value that [s] has, [s'] has. *)
Definition keeps_values (s s' : Secret) : Prop :=
  forall k, has_value (content (sec_Data s)) k -> content (sec_Data s') !! k = content (sec_Data s) !! k.

Lemma mutateCoreSecret_ok a s t s' t' :
  mutateCoreSecret a s t = (Ok s', t') ->
  key_of KSecret s' = key_of KSecret s /\ core_secret_in_place a s' /\ keeps_values s s'.
Proof.
  intros E. unfold mutateCoreSecret in E. inv_bind E. inv_bind Hk.
  unfold lift in Hm0. injection Hm0 as Hc ->. apply control_Ok in Hc as (Hkey & _ & Hown & _).
  apply generatedCoreSecretData_ok in Hm as (Hkeep & Hall & _).
  unfold mret, M_ret in Hk0. injection Hk0 as <- <-. split; [exact Hkey|]. split; [split; [done|by split]|].
  intros k Hk. apply Hkeep. by left.
Qed.

Lemma mutateCoreSecret_no_panic a s : no_panic (mutateCoreSecret a s).
Proof.
  unfold mutateCoreSecret. apply no_panic_bind; [apply generatedCoreSecretData_no_panic|].
  intros d. apply no_panic_bind; [apply control_no_panic|]. intros m. apply no_panic_ret.
Qed.

Lemma core_secret_kept a s st :
  kept KSecret st = kept KSecret s ->
  (core_secret_in_place a s -> core_secret_in_place a st) /\ (forall s0, keeps_values s0 s -> keeps_values s0 st).
Proof.
  intros E. pose proof (f_equal sec_Data E) as Ed. pose proof (f_equal sec_Type E) as Et.
  pose proof (f_equal (om_OwnerReferences ∘ sec_meta) E) as Er. simpl in Ed, Et, Er. injection Ed as Ed.
  unfold core_secret_in_place, owned_by, keeps_values. by rewrite Ed, Et, Er.
Qed.

(** Whatever happens, the step touches the core Secret only and keeps its
    values; it does nothing with an existing Secret; and success leaves the
    Secret complete. *)
Lemma reconcileCoreSecret_ok a c t :
  let '(r, w') := reconcileCoreSecret a (c, t) in
  (forall p, r <> Panic p) /\ touches KSecret (coreKey a) c w'.1 /\
  (forall s, find KSecret c (coreKey a) = Some s ->
     exists s', find KSecret w'.1 (coreKey a) = Some s' /\ keeps_values s s') /\
  if decide (ExistingSecret (au_Deployment (au_Spec a)) <> "") then r = Ok tt /\ w' = (c, t)
  else r = Ok tt -> exists st, find KSecret w'.1 (coreKey a) = Some st /\ core_secret_in_place a st.
Proof.
  unfold reconcileCoreSecret. case_decide as Hex.
  { unfold mret, M_ret. split_and!; [done| |..|done|done]; [by intros ???|]. intros s Hs. exists s. by split. }
  rewrite bind_ret_outcome.
  pose proof (CreateOrUpdate_step KSecret (freshCoreSecret a) (mutateCoreSecret a) c t eq_refl) as Hs.
  specialize (Hs (fun o t o' t' E => proj1 (mutateCoreSecret_ok a o t o' t' E)) (mutateCoreSecret_no_panic a)).
  fold (freshCoreSecret a). destruct (CreateOrUpdate _ _ _ _) as [r w']. destruct Hs as (Hp & Ht & Hw & Hok). simpl.
  assert (forall st, mutated KSecret (freshCoreSecret a) (mutateCoreSecret a) (c, t) st w' ->
    find KSecret w'.1 (coreKey a) = Some st /\ core_secret_in_place a st /\
    forall s, find KSecret c (coreKey a) = Some s -> keeps_values s st) as Hmut.
  { intros st Hst. pose proof (mutated_touches _ _ _ _ _ _ Hst) as [_ Hf]. split; [exact Hf|].
    destruct Hst as (base & o & Hb & Hm & Hkept & _).
    apply mutateCoreSecret_ok in Hm as (_ & Hplace & Hkeep). apply (core_secret_kept a) in Hkept as [H1 H2].
    split; [by apply H1|]. intros s Hs. apply H2.
    destruct Hb as [Hb|[Hb _]]; [|simpl in Hb; pose proof (eq_trans (eq_sym Hs) Hb); done].
    pose proof (eq_trans (eq_sym Hs) Hb) as Heq. by injection Heq as ->. }
  split_and!.
  - intros p. destruct r as [?|?|q]; try done. by destruct (Hp q).
  - exact Ht.
  - intros s Hs. destruct Hw as [Hw|[st Hst]].
    + exists s. rewrite (same_find _ _ _ _ Hw). by split.
    + destruct (Hmut st Hst) as (Hf & _ & Hk). exists st. split; [done|by apply Hk].
  - intros Hr. destruct r as [ret| |]; try done. destruct (Hok ret eq_refl) as [st Hst].
    destruct (Hmut st Hst) as (Hf & Hplace & _). by exists st.
Qed.

(** * The claim for the data *)

(** The step creates the claim when it is missing and never changes one. *)
Lemma reconcileDataPVC_ok a c t :
  let '(r, w') := reconcileDataPVC a (c, t) in
  (forall p, r <> Panic p) /\ touches KPersistentVolumeClaim (objectKey a (dataPVCName a)) c w'.1 /\
  (forall p, find KPersistentVolumeClaim c (objectKey a (dataPVCName a)) = Some p ->
     find KPersistentVolumeClaim w'.1 (objectKey a (dataPVCName a)) = Some p) /\
  (r = Ok tt -> is_Some (VolumeClaimTemplate (au_Deployment (au_Spec a))) ->
     is_Some (find KPersistentVolumeClaim w'.1 (objectKey a (dataPVCName a)))).
Proof.
  unfold reconcileDataPVC. destruct (VolumeClaimTemplate _) as [template|].
  2: { unfold mret, M_ret. split_and!; [done|by intros ???|done|by intros _ []]. }
  unfold try, on_cluster at 1. simpl.
  destruct (Get_spec KPersistentVolumeClaim (objectKey a (dataPVCName a)) c) as (r & E & Hr).
  unfold objectKey in E. rewrite E. fold (objectKey a (dataPVCName a)). clear E.
  destruct r as [p|e|p]; simpl; [| |done].
  { unfold mret, M_ret. split_and!; [done|by intros ???|done|]. simpl. rewrite Hr. by eauto. }
  destruct (IsNotFound e).
  2: { unfold throw. split_and!; [done|by intros ???|done|done]. }
  specialize (Hr eq_refl). rewrite bind_ret_outcome. unfold on_cluster. simpl.
  destruct (Create_spec KPersistentVolumeClaim (buildDataPVC a template) c eq_refl) as (r & c' & -> & Hw). simpl.
  assert (same_objects c c' \/ exists o', wrote KPersistentVolumeClaim (buildDataPVC a template) o' c c') as Hd.
  { destruct r as [o'|?|?]; [right; destruct Hw; eauto| |done]. destruct Hw as [?|[_ ?]]; eauto. }
  split_and!.
  - by destruct r.
  - destruct Hd as [Hs|(o' & _ & Hkey & Hst)]; [by apply same_objects_touches|].
    intros k' key' Hne. eapply stored_ne; [exact Hst|]. by rewrite Hkey.
  - intros p Hp. by rewrite Hr in Hp.
  - intros Hok _. destruct r as [o'| |]; try done. destruct Hw as (_ & _ & Hkey & Hst).
    apply stored_lookup in Hst. rewrite Hkey in Hst. exists o'. exact Hst.
Qed.

(** * The status *)

Lemma updateStatus_ok a ready ids domains c t :
  let '(r, w') := updateStatus a ready ids domains (c, t) in
  (forall p, r <> Panic p) /\ touches KAuthelia (key_of KAuthelia a) c w'.1 /\
  (forall a0, find KAuthelia c (key_of KAuthelia a) = Some a0 ->
     exists a1, find KAuthelia w'.1 (key_of KAuthelia a) = Some a1 /\ au_Spec a1 = au_Spec a0) /\
  (r = Ok tt -> exists a1, find KAuthelia w'.1 (key_of KAuthelia a) = Some a1 /\
     au_Status a1 = au_Status (set_status a ready ids domains)).
Proof.
  unfold updateStatus. rewrite bind_ret_outcome. unfold on_cluster. simpl.
  destruct (StatusUpdate_spec KAuthelia (set_status a ready ids domains) c) as (r & c' & -> & Hw). simpl.
  assert (forall o', status_written KAuthelia (set_status a ready ids domains) o' c c' ->
    touches KAuthelia (key_of KAuthelia a) c c' /\ find KAuthelia c' (key_of KAuthelia a) = Some o' /\
    au_Status o' = au_Status (set_status a ready ids domains) /\
    forall a0, find KAuthelia c (key_of KAuthelia a) = Some a0 -> au_Spec o' = au_Spec a0) as Hst.
  { intros o' (a0 & Ha0 & (Hkept & Hkey & Hst) & _).
    change (key_of KAuthelia (set_status a ready ids domains)) with (key_of KAuthelia a) in Ha0.
    change (key_of KAuthelia o' = key_of KAuthelia a0) in Hkey.
    rewrite (objects_key KAuthelia c _ a0 Ha0) in Hkey.
    pose proof (f_equal au_Status Hkept) as Hs. pose proof (f_equal au_Spec Hkept) as Hsp. simpl in Hs, Hsp.
    split_and!.
    - intros k' key' Hne. eapply stored_ne; [exact Hst|]. by rewrite Hkey.
    - rewrite <- Hkey. by apply stored_lookup in Hst.
    - exact Hs.
    - intros a1 Ha1. pose proof (eq_trans (eq_sym Ha1) Ha0) as Heq. by injection Heq as ->. }
  assert (same_objects c c' \/ exists o', status_written KAuthelia (set_status a ready ids domains) o' c c') as Hd
    by (destruct r; [right; eauto|done|done]).
  split_and!.
  - by destruct r.
  - destruct Hd as [Hs|[o' Ho]]; [by apply same_objects_touches|exact (proj1 (Hst o' Ho))].
  - intros a0 Ha0. destruct Hd as [Hs|[o' Ho]].
    + exists a0. by rewrite (same_find _ _ _ _ Hs).
    + exists o'. apply Hst in Ho as (_ & Hf & _ & Hsp). split; [done|by apply Hsp].
  - intros Hok. destruct r as [o'| |]; try done. exists o'. apply Hst in Hw. tauto.
Qed.

(** * All the steps *)

(** The objects a reconcile of [a] may write. *)
Definition owned (a : Authelia) (k : kind) (key : NamespacedName) : Prop :=
  match k with
  | KSecret => ExistingSecret (au_Deployment (au_Spec a)) = "" /\ key = coreKey a
  | KConfigMap => key = objectKey a (configMapName a)
  | KService | KDeployment => key = objectKey a (au_Name a)
  | KPersistentVolumeClaim => key = objectKey a (dataPVCName a)
  | KAuthelia => key = key_of KAuthelia a
  | KOAuthClient | KIngress => False
  end.

(** What may happen to the cluster, whatever the outcome: only owned objects
    change, the core Secret keeps its values, a claim for the data and the
    specification of the Authelia do not change, and no object goes away. *)
Record safe_change (a : Authelia) (c c' : cluster) : Prop := {
  sc_frame k key : ~ owned a k key -> find k c' key = find k c key;
  sc_core s : find KSecret c (coreKey a) = Some s ->
    exists s', find KSecret c' (coreKey a) = Some s' /\ keeps_values s s';
  sc_claim p : find KPersistentVolumeClaim c (objectKey a (dataPVCName a)) = Some p ->
    find KPersistentVolumeClaim c' (objectKey a (dataPVCName a)) = Some p;
  sc_spec a0 : find KAuthelia c (key_of KAuthelia a) = Some a0 ->
    exists a1, find KAuthelia c' (key_of KAuthelia a) = Some a1 /\ au_Spec a1 = au_Spec a0
}.

Lemma keeps_values_trans s1 s2 s3 : keeps_values s1 s2 -> keeps_values s2 s3 -> keeps_values s1 s3.
Proof.
  intros H1 H2 k Hk. rewrite (H2 k), (H1 k Hk); [done|]. unfold has_value. by rewrite (H1 k Hk).
Qed.

#[export] Instance safe_change_preorder a : PreOrder (safe_change a).
Proof.
  split.
  - intros c. split; eauto. intros s Hs. exists s. by split.
  - intros c1 c2 c3 [F1 S1 P1 A1] [F2 S2 P2 A2]. split.
    + intros k key Hn. by rewrite F2, F1.
    + intros s Hs. destruct (S1 s Hs) as (s2 & Hs2 & K1). destruct (S2 s2 Hs2) as (s3 & Hs3 & K2).
      exists s3. split; [done|]. by eapply keeps_values_trans.
    + auto.
    + intros a0 Ha0. destruct (A1 a0 Ha0) as (a1 & Ha1 & E1). destruct (A2 a1 Ha1) as (a2 & Ha2 & E2).
      exists a2. split; [done|congruence].
Qed.

(** A step that touches one owned object of another kind is a safe change. *)
Lemma touches_safe a k key c c' :
  touches k key c c' -> owned a k key ->
  k ∈ [KConfigMap; KService; KDeployment] -> safe_change a c c'.
Proof.
  intros Ht Ho Hk.
  assert (forall k' key', k' <> k -> find k' c' key' = find k' c key') as Hne by (intros; apply Ht; by left).
  assert (k <> KSecret /\ k <> KPersistentVolumeClaim /\ k <> KAuthelia) as (H1 & H2 & H3)
    by (split_and!; intros ->; rewrite !elem_of_cons, elem_of_nil in Hk; intuition discriminate).
  split; intros; rewrite ?Hne by done; eauto.
  - apply Ht. destruct (decide (k0 = k)) as [->|]; [|by left]. right. intros ->. done.
  - exists s. by split.
Qed.

(** A computation whose effect is safe and that does not panic. *)
Definition safe {A} (a : Authelia) (m : M (cluster * entropy) A) : Prop :=
  forall c t, let '(r, w') := m (c, t) in (forall p, r <> Panic p) /\ safe_change a c w'.1.

Lemma safe_bind {A B} a (m : M (cluster * entropy) A) (f : A -> M (cluster * entropy) B) :
  safe a m -> (forall x, safe a (f x)) -> safe a (m ≫= f).
Proof.
  intros Hm Hf c t. unfold mbind, M_bind. specialize (Hm c t). destruct (m (c, t)) as [[x|e|p] [c1 t1]].
  - specialize (Hf x c1 t1). destruct (f x (c1, t1)) as [r w']. simpl in *.
    destruct Hm as [_ H1], Hf as [Hp H2]. split; [done|by etrans].
  - destruct Hm as [_ H1]. by split.
  - destruct Hm as [Hp _]. by destruct (Hp p).
Qed.

Lemma safe_ret {A} a (x : A) : safe a (mret x).
Proof. intros c t. by split. Qed.

Lemma safe_step {A} a (m : M (cluster * entropy) A) k key P :
  step_ok m k key P -> owned a k key -> k ∈ [KConfigMap; KService; KDeployment] -> safe a m.
Proof.
  intros Hm Ho Hk c t. specialize (Hm c t). destruct (m (c, t)) as [r w'].
  destruct Hm as (Hp & Ht & _). split; [done|]. by eapply touches_safe.
Qed.

Lemma safe_core a : safe a (reconcileCoreSecret a).
Proof.
  intros c t. pose proof (reconcileCoreSecret_ok a c t) as Hs.
  destruct (reconcileCoreSecret a (c, t)) as [r w']. destruct Hs as (Hp & Ht & Hkeep & Hex).
  split; [done|]. split.
  - intros k key Hn. destruct (decide (ExistingSecret (au_Deployment (au_Spec a)) = "")) as [E|E].
    + apply Ht. destruct (decide (k = KSecret)) as [->|]; [right|by left]. intros ->. by apply Hn.
    + rewrite decide_True in Hex by done. destruct Hex as [_ ->]. done.
  - exact Hkeep.
  - intros p Hpvc. rewrite Ht; [done|by left].
  - intros a0 Ha0. exists a0. rewrite Ht; [done|by left].
Qed.

Lemma safe_claim a : safe a (reconcileDataPVC a).
Proof.
  intros c t. pose proof (reconcileDataPVC_ok a c t) as Hs.
  destruct (reconcileDataPVC a (c, t)) as [r w']. destruct Hs as (Hp & Ht & Hkeep & _).
  split; [done|]. split.
  - intros k key Hn. apply Ht. destruct (decide (k = KPersistentVolumeClaim)) as [->|]; [right|by left].
    intros ->. by apply Hn.
  - intros s Hs. exists s. split; [rewrite Ht; [done|by left]|done].
  - exact Hkeep.
  - intros a0 Ha0. exists a0. rewrite Ht; [done|by left].
Qed.

Lemma safe_status a ready ids domains : safe a (updateStatus a ready ids domains).
Proof.
  intros c t. pose proof (updateStatus_ok a ready ids domains c t) as Hs.
  destruct (updateStatus a ready ids domains (c, t)) as [r w']. destruct Hs as (Hp & Ht & Hspec & _).
  split; [done|]. split.
  - intros k key Hn. apply Ht. destruct (decide (k = KAuthelia)) as [->|]; [right|by left].
    intros ->. by apply Hn.
  - intros s Hs. exists s. split; [rewrite Ht; [done|by left]|done].
  - intros p Hpvc. rewrite Ht; [done|by left].
  - exact Hspec.
Qed.

Lemma safe_apply a clients missing domains rendered : safe a (applyConfig a clients missing domains rendered).
Proof.
  unfold applyConfig. apply safe_bind; [apply safe_core|intros _].
  apply safe_bind; [eapply safe_step; [apply reconcileConfigMap_ok|done|list_mem]|intros _].
  apply safe_bind; [eapply safe_step; [apply reconcileService_ok|done|list_mem]|intros _].
  apply safe_bind; [apply safe_claim|intros _].
  apply safe_bind; [eapply safe_step; [apply reconcileDeployment_ok|done|list_mem]|intros ready].
  apply safe_bind; [apply safe_status|intros _]. apply safe_ret.
Qed.

(** What a successful run leaves. *)
Definition applied (a : Authelia) (clients : list oidcClient) (missing : nat) (domains : list string)
    (rendered : string) (c' : cluster) : Prop :=
  (exists st, find KConfigMap c' (objectKey a (configMapName a)) = Some st /\ config_in_place a rendered st) /\
  (exists st, find KDeployment c' (objectKey a (au_Name a)) = Some st /\
     deployment_in_place a (negb (bool_decide (clients = []))) (configChecksum rendered) st) /\
  (exists st, find KService c' (objectKey a (au_Name a)) = Some st /\ service_in_place a st) /\
  (ExistingSecret (au_Deployment (au_Spec a)) = "" ->
     exists st, find KSecret c' (coreKey a) = Some st /\ core_secret_in_place a st) /\
  (is_Some (VolumeClaimTemplate (au_Deployment (au_Spec a))) ->
     is_Some (find KPersistentVolumeClaim c' (objectKey a (dataPVCName a)))) /\
  (exists a' ready, find KAuthelia c' (key_of KAuthelia a) = Some a' /\
     au_Status a' = mkAutheliaStatus (au_Conditions (au_Status a)) ready
       (sort_Strings (ClientID ∘ spec <$> clients)) domains).

Lemma applyConfig_ok a clients missing domains rendered c t res c' t' :
  applyConfig a clients missing domains rendered (c, t) = (Ok res, (c', t')) ->
  applied a clients missing domains rendered c' /\
  res = mkResult (if decide (0 < missing) then 10 * Second else 0).
Proof.
  intros E. unfold applyConfig in E.
  apply M_bind_Ok in E as ([] & [c1 t1] & E1 & E). apply M_bind_Ok in E as ([] & [c2 t2] & E2 & E).
  apply M_bind_Ok in E as ([] & [c3 t3] & E3 & E). apply M_bind_Ok in E as ([] & [c4 t4] & E4 & E).
  apply M_bind_Ok in E as (ready & [c5 t5] & E5 & E). apply M_bind_Ok in E as ([] & [c6 t6] & E6 & E).
  unfold mret, M_ret in E. injection E as <- <- <-.
  pose proof (reconcileCoreSecret_ok a c t) as H1. rewrite E1 in H1. destruct H1 as (_ & T1 & _ & H1).
  pose proof (reconcileConfigMap_ok a rendered c1 t1) as H2. rewrite E2 in H2. destruct H2 as (_ & T2 & H2).
  pose proof (reconcileService_ok a c2 t2) as H3. rewrite E3 in H3. destruct H3 as (_ & T3 & H3).
  pose proof (reconcileDataPVC_ok a c3 t3) as H4. rewrite E4 in H4. destruct H4 as (_ & T4 & _ & H4).
  pose proof (reconcileDeployment_ok a (negb (bool_decide (clients = []))) (configChecksum rendered) c4 t4) as H5.
  rewrite E5 in H5. destruct H5 as (_ & T5 & H5).
  pose proof (updateStatus_ok a ready (sort_Strings ((fun c => ClientID (spec c)) <$> clients)) domains c5 t5) as H6.
  rewrite E6 in H6. destruct H6 as (_ & T6 & _ & H6). simpl in *.
  split; [|done]. unfold applied. split_and!.
  - destruct (H2 _ eq_refl) as (st & Hf & Hst). exists st. split; [|done]. through. exact Hf.
  - destruct (H5 _ eq_refl) as (st & Hf & Hst). exists st. split; [|done]. through. exact Hf.
  - destruct (H3 _ eq_refl) as (st & Hf & Hst). exists st. split; [|done]. through. exact Hf.
  - intros Hex. rewrite decide_False in H1 by tauto.
    destruct (H1 eq_refl) as (st & Hf & Hst). exists st. split; [|done]. through. exact Hf.
  - intros Ht. specialize (H4 eq_refl Ht). through. exact H4.
  - destruct (H6 eq_refl) as (a' & Hf & Hs). by exists a', ready.
Qed.
End writes.

(** * Reconciling an Authelia *)

Section reconcile.
Context {API : Api} {APIL : ApiLaws} {OWN : Owners} {OWNL : OwnersLaws} {KEYS : RSA}.
Context {SORT : UnstableSort} {RANGE : MapRange} {YAML : Yaml}.

(** What a reconcile of [a] reads from the cluster [c]: the ready clients and
    the number of missing ones, the rules and the domains. *)
Definition inputs (a : Authelia) (c : cluster) (clients : list oidcClient) (missing : nat)
    (rules : list (gmap string any)) (domains : list string) : Prop :=
  (exists items, items ≡ₚ all_objects KOAuthClient c /\
     clients = omap (ready_client c) (targeting a items) /\
     missing = length (pending c (targeting a items))) /\
  (exists items, items ≡ₚ all_objects KIngress c /\
     rules = ar_rule <$> sortAccessRules (items ≫= rules_of) /\
     domains = sortAccessRules (items ≫= rules_of) ≫= hosts_of).

Definition render (a : Authelia) (clients : list oidcClient) (rules : list (gmap string any)) : outcome string :=
  renderConfig (Settings (au_Spec a)) clients rules (Hostname (au_Spec a)).

(** The three ways of a reconcile: it stops while reading, it stops at the
    rendering, or it goes on to the writes. *)
Definition reconcile_cases (req : NamespacedName) (c : cluster) (t : entropy)
    (r : outcome Result) (w' : cluster * entropy) : Prop :=
  (w' = (c, t) /\ (find KAuthelia c req = None /\ r = Ok (mkResult 0) \/ exists e, r = Err e)) \/
  exists a clients missing rules domains, find KAuthelia c req = Some a /\
    inputs a c clients missing rules domains /\
    match render a clients rules with
    | Ok rendered => (r, w') = applyConfig a clients missing domains rendered (c, t)
    | Err e => r = Err e /\ w' = (c, t)
    | Panic p => r = Panic p /\ w' = (c, t)
    end.

Lemma Reconcile_cases req c t :
  let '(r, w') := Reconcile req (c, t) in reconcile_cases req c t r w'.
Proof.
  unfold Reconcile, try, on_cluster at 1. simpl.
  destruct (Get_spec KAuthelia req c) as (r & -> & Hr). destruct r as [a|e|p]; simpl; [| |done].
  2: { destruct (IsNotFound e); unfold mret, M_ret, throw; left; split; eauto. }
  destruct (collectClients_reads a c) as (r1 & E1 & H1). unfold mbind at 1, M_bind at 1, on_cluster at 1.
  simpl. rewrite E1. destruct r1 as [[clients missing]|e|p]; [|left; split; eauto|done].
  destruct (collectIngressRules_reads c) as (r2 & E2 & H2). unfold mbind at 1, M_bind at 1, on_cluster at 1.
  simpl. rewrite E2. destruct r2 as [[rules domains]|e|p]; [|left; split; eauto|done].
  unfold mbind at 1, M_bind at 1, lift. fold (render a clients rules).
  destruct (render a clients rules) as [rendered|e|p] eqn:Er.
  - destruct (applyConfig a clients missing domains rendered (c, t)) as [r w'] eqn:Ea.
    right. exists a, clients, missing, rules, domains. rewrite Er. split_and!; done.
  - right. exists a, clients, missing, rules, domains. rewrite Er. split_and!; done.
  - right. exists a, clients, missing, rules, domains. rewrite Er. split_and!; done.
Qed.

Lemma Reconcile_safe_change req c t :
  let '(r, (c', t')) := Reconcile req (c, t) in
  match find KAuthelia c req with
  | None => c' = c /\ forall p, r <> Panic p
  | Some a => safe_change a c c' /\
      forall p, r = Panic p -> p = NilMapWrite /\ parseAdditionalConfig (Settings (au_Spec a)) = Ok None
  end.
Proof.
  pose proof (Reconcile_cases req c t) as Hr. destruct (Reconcile req (c, t)) as [r [c' t']].
  destruct Hr as [[[= -> ->] Hr]|(a & clients & missing & rules & domains & Ha & _ & Hr)].
  { destruct (find KAuthelia c req) as [a|].
    - split; [reflexivity|]. intros p. destruct Hr as [[_ ->]|[e ->]]; done.
    - split; [done|]. intros p. destruct Hr as [[_ ->]|[e ->]]; done. }
  rewrite Ha. unfold render in Hr. rewrite renderConfig_eq in Hr.
  pose proof (parseAdditionalConfig_no_panic (Settings (au_Spec a))) as Hnp.
  destruct (parseAdditionalConfig (Settings (au_Spec a))) as [[base|]|e|p].
  - unfold encode in Hr. destruct (yaml_Marshal _) as [out|e].
    + pose proof (safe_apply a clients missing domains out c t) as Hs. rewrite <- Hr in Hs.
      destruct Hs as [Hp Hs]. split; [exact Hs|]. intros p E. by destruct (Hp p).
    + destruct Hr as [-> [= -> ->]]. by split.
  - case_decide.
    + destruct Hr as [-> [= -> ->]]. split; [reflexivity|]. intros p [= <-]. done.
    + unfold encode in Hr. destruct (yaml_Marshal _) as [out|e].
      * pose proof (safe_apply a clients missing domains out c t) as Hs. rewrite <- Hr in Hs.
        destruct Hs as [Hp Hs]. split; [exact Hs|]. intros p E. by destruct (Hp p).
      * destruct Hr as [-> [= -> ->]]. by split.
  - destruct Hr as [-> [= -> ->]]. by split.
  - by destruct (Hnp p).
Qed.

(** C5: a reconcile of an Authelia is safe whatever happens, failures and partial
    failures included.  The only panic is the nil-map write of the renderer, on
    a configuration that is the literal [null]; when the Authelia does not exist
    nothing changes; otherwise only its own objects are written (no Secret at all when the
    user supplies one), nothing is deleted, the values of the core Secret are
    never rotated, an existing claim for the data is left exactly as it is, and
    the specification of the Authelia is not changed. *)
Theorem Reconcile_authelia_safe req c t :
  let '(r, (c', t')) := Reconcile req (c, t) in
  (forall p, r = Panic p -> p = NilMapWrite /\
     exists a, find KAuthelia c req = Some a /\ parseAdditionalConfig (Settings (au_Spec a)) = Ok None) /\
  match find KAuthelia c req with
  | None => c' = c
  | Some a =>
    (forall k key, ~ owned a k key -> find k c' key = find k c key) /\
    (forall s, find KSecret c (coreKey a) = Some s ->
       exists s', find KSecret c' (coreKey a) = Some s' /\ keeps_values s s') /\
    (forall p, find KPersistentVolumeClaim c (objectKey a (dataPVCName a)) = Some p ->
       find KPersistentVolumeClaim c' (objectKey a (dataPVCName a)) = Some p) /\
    (exists a', find KAuthelia c' req = Some a' /\ au_Spec a' = au_Spec a)
  end.
Proof.
  pose proof (Reconcile_safe_change req c t) as Hs. destruct (Reconcile req (c, t)) as [r [c' t']].
  destruct (find KAuthelia c req) as [a|] eqn:Ha.
  - destruct Hs as [[Hf Hc Hp Ha'] Hpanic]. split.
    + intros p Hr. destruct (Hpanic p Hr). eauto.
    + pose proof (objects_key KAuthelia c req a Ha) as Hreq. rewrite Hreq in Ha'. auto 6.
  - destruct Hs as [-> Hnp]. split; [|done]. intros p Hr. by destruct (Hnp p).
Qed.

(** C26: a configuration that cannot be parsed changes nothing: the reconcile
    reports an error and the cluster stays exactly as it was. *)
Theorem Reconcile_parse_error req c t a e :
  find KAuthelia c req = Some a -> parseAdditionalConfig (Settings (au_Spec a)) = Err e ->
  exists e', Reconcile req (c, t) = (Err e', (c, t)).
Proof.
  intros Ha He. pose proof (Reconcile_cases req c t) as Hr. destruct (Reconcile req (c, t)) as [r w'].
  destruct Hr as [[-> [[Hn _]|[e' ->]]]|(a' & clients & missing & rules & domains & Ha' & _ & Hr)].
  - congruence.
  - by exists e'.
  - assert (a' = a) as -> by congruence. unfold render in Hr. rewrite renderConfig_eq, He in Hr.
    destruct Hr as [-> ->]. by exists e.
Qed.

Lemma Reconcile_applied req c t res c' t' a :
  Reconcile req (c, t) = (Ok res, (c', t')) -> find KAuthelia c req = Some a ->
  exists clients missing rules domains rendered,
    inputs a c clients missing rules domains /\
    render a clients rules = Ok rendered /\
    applied a clients missing domains rendered c' /\
    res = mkResult (if decide (0 < missing) then 10 * Second else 0).
Proof.
  intros E Ha. pose proof (Reconcile_cases req c t) as Hr. rewrite E in Hr.
  destruct Hr as [[_ [[Hn _]|[e [=]]]]|(a' & clients & missing & rules & domains & Ha' & Hin & Hr)];
    [congruence|]. assert (a' = a) as -> by congruence.
  destruct (render a clients rules) as [rendered|e|p] eqn:Er; [|by destruct Hr..].
  symmetry in Hr. apply applyConfig_ok in Hr as [Happ ->].
  by exists clients, missing, rules, domains, rendered.
Qed.

(** C4: a successful reconcile puts everything in place.  Of an Authelia that
    exists, the ConfigMap holds exactly the configuration rendered from the
    clients and rules of the cluster; the Deployment is the one built for that
    very text (its pod template carries the checksum of what the
    ConfigMap holds, so a new text rolls the pods) with OIDC enabled exactly when there are
    clients; the Service is the operator's; the core Secret, unless supplied, is
    complete; a requested claim exists; the status lists the client IDs in order and
    the domains of the rules; and the request comes back after ten seconds
    exactly when some client still waits for its digest. *)
Theorem Reconcile_authelia_ok req c t res c' t' :
  Reconcile req (c, t) = (Ok res, (c', t')) ->
  match find KAuthelia c req with
  | None => c' = c /\ res = mkResult 0
  | Some a =>
    exists clients missing rules domains rendered,
      inputs a c clients missing rules domains /\
      render a clients rules = Ok rendered /\
      applied a clients missing domains rendered c' /\
      res = mkResult (if decide (0 < missing) then 10 * Second else 0)
  end.
Proof.
  intros E. destruct (find KAuthelia c req) as [a|] eqn:Ha; [by eapply Reconcile_applied|].
  pose proof (Reconcile_cases req c t) as Hr. rewrite E in Hr.
  destruct Hr as [[[= -> ->] [[_ [= ->]]|[e [=]]]]|(a & _ & _ & _ & _ & Ha' & _)]; [done|congruence].
Qed.
End reconcile.

(** * Routing *)

(** Client events reach the right Authelia: a change of a client is routed
    to an Authelia (with a name) exactly when that Authelia collects the
    client. *)
Lemma client_routing c a :
  au_Name a <> "" ->
  clientTargets c a = true <-> key_of KAuthelia a ∈ mapClientToAuthelia (AnObject KOAuthClient c).
Proof.
  intros Hne. unfold clientTargets, mapClientToAuthelia. change (key_of KAuthelia a) with (mkNamespacedName (au_Namespace a) (au_Name a)).
  set (ns := if decide (ref_Namespace (AutheliaRef (oc_Spec c)) = "") then _ else _).
  set (name := ref_Name (AutheliaRef (oc_Spec c))).
  destruct (decide (name = au_Name a)) as [E|E].
  - rewrite decide_False by tauto. rewrite bool_decide_eq_true, decide_False by congruence.
    rewrite list_elem_of_singleton, E. split; [by intros ->|by intros [= ->]].
  - rewrite decide_True by done. split; [done|]. case_decide; [by intros ?%elem_of_nil|].
    rewrite list_elem_of_singleton. intros [= _ En]. congruence.
Qed.

(** An Ingress event reaches every Authelia of the cluster when the Ingress
    opts in, and none when it does not, in which case it declares no rule
    either; the mapping only reads. *)
Theorem ingress_routing {API : Api} {APIL : ApiLaws} {RANGE : MapRange} ing c :
  (hasRuleAnnotations ing = true ->
     reads (mapIngressToAuthelia (AnObject KIngress ing)) c (fun reqs =>
       reqs = [] \/ forall a, a ∈ all_objects KAuthelia c -> key_of KAuthelia a ∈ reqs)) /\
  (hasRuleAnnotations ing = false ->
     mapIngressToAuthelia (AnObject KIngress ing) c = (Ok [], c) /\ rules_of ing = []).
Proof.
  unfold mapIngressToAuthelia. split; intros Hh; rewrite Hh; simpl.
  - unfold reads, try. destruct (List_spec KAuthelia c) as (r & -> & Hr).
    destruct r as [items|e|p]; [| |done]; eexists; (split; [reflexivity|]); [right|by left].
    intros a Ha. rewrite <- Hr in Ha. apply list_elem_of_fmap. by exists a.
  - split; [done|]. by apply no_annotations_no_rules.
Qed.
