(* ===== verification/System.v ===== *)
(** The two controllers together: what one leaves for the other, and what holds
    in every state the running system can reach. *)

From S2P Require Import Prelude GoSort GoJson GoCrypto ApiTypes Secrets Resources Render Ingress Cluster OAuthClientController AutheliaController.

(** * From a client to the configuration *)

Section pipeline.
Context {API : Api} {APIL : ApiLaws} {OWN : Owners} {OWNL : OwnersLaws}.

(** The name that the client controller reports is the one the Authelia
    controller reads. *)
Lemma digestSecret_reported oc oc' :
  SecretName (oc_Status oc') = oauthSecretName oc -> key_of KOAuthClient oc' = key_of KOAuthClient oc ->
  digestSecret oc' = secretKey oc.
Proof.
  intros Hs Hk. injection Hk as Hns Hn. unfold digestSecret, secretKey. rewrite Hs, Hns.
  rewrite decide_False; [done|]. unfold oauthSecretName. by destruct (om_Name (oc_meta oc)).
Qed.

(** C8: after the client controller has reconciled a client, the client is no
    longer missing for the Authelia it targets: what the Authelia controller
    then reads for it is a rendered client with the client's settings and
    effective ID; a public client has no digest; a confidential one
    has the digest that its Secret already had, if it had one, and otherwise a
    PBKDF2 digest of the secret handed to the application. *)
Theorem client_becomes_ready req c t res c' t' oc :
  bytes_ok t -> OAuthClientController.Reconcile req (c, t) = (Ok res, (c', t')) ->
  find KOAuthClient c req = Some oc ->
  exists oc' st ready,
    find KOAuthClient c' req = Some oc' /\ find KSecret c' (secretKey oc) = Some st /\
    ready_client c' oc' = Some ready /\
    spec ready = set_ClientID (effectiveClientID oc) (oc_Spec oc) /\
    content (sec_Data st) !! "client_id" = Some (ClientID (spec ready)) /\
    if Public (oc_Spec oc) then secretDigest ready = ""
    else exists secret, content (sec_Data st) !! "client_secret" = Some secret /\ secret <> "" /\
      if decide (has_value (content (sec_Data (old_secret oc c))) "client_secret_digest")
      then content (sec_Data (old_secret oc c)) !! "client_secret_digest" = Some (secretDigest ready)
      else digest_of secret (secretDigest ready).
Proof.
  intros Hb E Hoc. pose proof (Reconcile_client_inv req c t res c' t' oc Hb E Hoc)
    as (st & oc' & Hst & Hcs & Hoc' & Hsp & Hkey & Hname).
  assert (digestSecret oc' = secretKey oc) as Hd by by apply digestSecret_reported.
  assert (digest_in c' oc' = default "" (content (sec_Data st) !! "client_secret_digest")) as Hdig.
  { unfold digest_in. rewrite Hd. by destruct (find KSecret c' (secretKey oc)); simplify_eq. }
  assert (clientSpec oc' = set_ClientID (effectiveClientID oc) (oc_Spec oc)) as Hcsp.
  { injection Hkey as _ Hn. unfold clientSpec, effectiveClientID. by rewrite Hsp, Hn. }
  destruct Hcs as (_ & _ & _ & Hcd). pose proof Hcd as (Hid & _ & Hdata). exists oc', st.
  unfold ready_client. rewrite Hsp, Hdig, Hcsp. destruct (Public (oc_Spec oc)) eqn:Hp.
  - eexists. split_and!; try reflexivity; done.
  - destruct (client_data_complete _ _ _ Hp Hcd) as [Hs1 Hs2].
    destruct Hdata as (secret & digest & Hsec & Hdg & _ & Hdg2). unfold has_value in Hs1, Hs2.
    rewrite Hsec in Hs1. rewrite Hdg in Hs2 |- *. simpl in *. rewrite decide_False by done.
    eexists. split_and!; [done|done|reflexivity|done|exact Hid|]. exists secret.
    split_and!; [done|done|]. by case_decide.
Qed.
End pipeline.

(** * The running system *)

Section system.
Context {API : Api} {APIL : ApiLaws} {OWN : Owners} {OWNL : OwnersLaws} {KEYS : RSA}.
Context {SORT : UnstableSort} {RANGE : MapRange} {YAML : Yaml}.

(** What others (users, other controllers) may do to the cluster. *)
Context (environment : cluster -> cluster -> Prop).

(** One step: a reconcile of some resource, to its end or to an error, with any
    bytes from the entropy source; or a change by someone else. *)
Inductive system_step (c c' : cluster) : Prop :=
  | step_authelia req t r t' :
      bytes_ok t -> AutheliaController.Reconcile req (c, t) = (r, (c', t')) -> system_step c c'
  | step_client req t r t' :
      bytes_ok t -> OAuthClientController.Reconcile req (c, t) = (r, (c', t')) -> system_step c c'
  | step_other : environment c c' -> system_step c c'.

(** The Secret [key] keeps the value it has for [k]. *)
Definition value_kept (key : NamespacedName) (k : string) (c c' : cluster) : Prop :=
  forall s, find KSecret c key = Some s -> has_value (content (sec_Data s)) k ->
    exists s', find KSecret c' key = Some s' /\ content (sec_Data s') !! k = content (sec_Data s) !! k.

#[export] Instance value_kept_preorder key k : PreOrder (value_kept key k).
Proof.
  split.
  - intros c s Hs _. by exists s.
  - intros c1 c2 c3 H1 H2 s Hs Hv. destruct (H1 s Hs Hv) as (s2 & Hs2 & E2).
    assert (has_value (content (sec_Data s2)) k) as Hv2 by (unfold has_value in *; by rewrite E2).
    destruct (H2 s2 Hs2 Hv2) as (s3 & Hs3 & E3). exists s3. split; [done|congruence].
Qed.

Lemma same_value_kept key k c c' : find KSecret c' key = find KSecret c key -> value_kept key k c c'.
Proof. intros E s Hs _. exists s. by rewrite E. Qed.

(** The names of the two kinds of generated Secrets. *)
Definition coreSecretKey (ns name : string) : NamespacedName := mkNamespacedName ns (name +:+ "-secrets").
Definition clientSecretKey (ns name : string) : NamespacedName := mkNamespacedName ns (name +:+ "-oauth-secret").

Lemma HasSuffix_last_neq (s t : string) : s +:+ "-secrets" <> t +:+ "-oauth-secret".
Proof.
  intros E%(f_equal (last ∘ bytes_of)). simpl in E. rewrite !bytes_of_app, !last_app in E.
  vm_compute in E. discriminate E.
Qed.

Lemma secret_names_differ ns1 n1 ns2 n2 : coreSecretKey ns1 n1 <> clientSecretKey ns2 n2.
Proof. intros E. injection E as _ E. by apply HasSuffix_last_neq in E. Qed.

(** No step of the Authelia controller takes a value away from any Secret. *)
Lemma authelia_step_keeps req c t r c' t' key k :
  AutheliaController.Reconcile req (c, t) = (r, (c', t')) -> value_kept key k c c'.
Proof.
  intros E. pose proof (Reconcile_safe_change req c t) as Hs. rewrite E in Hs.
  destruct (find KAuthelia c req) as [a|]; [|destruct Hs as [-> _]; reflexivity].
  destruct Hs as [[Hf Hc _ _] _]. destruct (decide (key = coreKey a)) as [->|Hne].
  - intros s Hs Hv. destruct (Hc s Hs) as (s' & Hs' & Hk). exists s'. split; [done|by apply Hk].
  - apply same_value_kept, Hf. intros [_ ?]. done.
Qed.

(** No step of the client controller touches the Secret of anything but the
    client it reconciles. *)
Lemma client_step_keeps req c t r c' t' key k :
  bytes_ok t -> OAuthClientController.Reconcile req (c, t) = (r, (c', t')) ->
  key <> clientSecretKey (nn_Namespace req) (nn_Name req) \/
  (k ∈ ["client_secret"; "client_secret_digest"] /\
   forall oc, find KOAuthClient c req = Some oc -> Public (oc_Spec oc) = false) ->
  value_kept key k c c'.
Proof.
  intros Hb E Hkey. pose proof (Reconcile_client_frame req c t r c' t' Hb E) as [Hf _].
  assert (forall oc, find KOAuthClient c req = Some oc ->
    secretKey oc = clientSecretKey (nn_Namespace req) (nn_Name req)) as Hsk.
  { intros oc Hoc. by rewrite <- (objects_key KOAuthClient c req oc Hoc). }
  destruct (find KOAuthClient c req) as [oc|] eqn:Hoc.
  2: { apply same_value_kept, Hf; [intros oc [=]|by left]. }
  specialize (Hsk oc eq_refl). destruct (decide (key = secretKey oc)) as [->|Hne].
  - destruct Hkey as [Hn|[Hk Hp]]; [by rewrite Hsk in Hn|].
    intros s Hs Hv. eapply Reconcile_client_keeps; eauto.
  - apply same_value_kept, Hf; [|by left]. intros oc1 [= <-]. by right.
Qed.

(** core secrets are never rotated.  In every run of the system, of any
    length and interleaving, with failures anywhere, as long as others leave
    the Secret of that name alone: a value that the
    core Secret ["<name>-secrets"] has for some key at one moment, it has for
    ever after. *)
Theorem core_secrets_stable ns name k c c' :
  (forall c1 c2, environment c1 c2 -> value_kept (coreSecretKey ns name) k c1 c2) ->
  rtc system_step c c' -> value_kept (coreSecretKey ns name) k c c'.
Proof.
  intros Henv. induction 1 as [c|c1 c2 c3 Hstep _ IH]; [reflexivity|].
  etrans; [|exact IH]. destruct Hstep as [req t r t' Hb E|req t r t' Hb E|He].
  - by eapply authelia_step_keeps.
  - eapply client_step_keeps; [exact Hb|exact E|left]. apply secret_names_differ.
  - by apply Henv.
Qed.

(** client secrets are never rotated.  In every run of the system, as long as
    others leave the Secret alone and do not declare the client public, the
    client secret and its digest, once there, stay: applications
    configured with the secret keep working. *)
Theorem client_secrets_stable ns name k c c' :
  k ∈ ["client_secret"; "client_secret_digest"] ->
  let confidential c := forall oc, find KOAuthClient c (mkNamespacedName ns name) = Some oc ->
                                   Public (oc_Spec oc) = false in
  (forall c1 c2, environment c1 c2 ->
     value_kept (clientSecretKey ns name) k c1 c2 /\ (confidential c1 -> confidential c2)) ->
  confidential c -> rtc system_step c c' -> value_kept (clientSecretKey ns name) k c c'.
Proof.
  intros Hk confidential Henv Hconf Hrun. revert Hconf.
  induction Hrun as [c|c1 c2 c3 Hstep _ IH]; intros Hconf; [reflexivity|].
  assert (value_kept (clientSecretKey ns name) k c1 c2 /\ confidential c2) as [Hv Hc2];
    [|etrans; [exact Hv|by apply IH]].
  destruct Hstep as [req t r t' Hb E|req t r t' Hb E|He]; [| |destruct (Henv _ _ He); auto].
  - split; [by eapply authelia_step_keeps|]. intros oc Hoc. apply Hconf. rewrite <- Hoc. symmetry.
    pose proof (Reconcile_safe_change req c1 t) as Hs. rewrite E in Hs.
    destruct (find KAuthelia c1 req) as [a|]; [|by destruct Hs as [-> _]].
    destruct Hs as [[Hf _ _ _] _]. apply Hf. by intros [].
  - pose proof (Reconcile_client_frame req c1 t r c2 t' Hb E) as [Hf Hspec].
    destruct (decide (req = mkNamespacedName ns name)) as [->|Hne].
    + split; [eapply client_step_keeps; [exact Hb|exact E|right; by split]|].
      intros oc' Hoc'. destruct (find KOAuthClient c1 (mkNamespacedName ns name)) as [oc|] eqn:Hoc.
      * destruct (Hspec oc eq_refl) as (oc2 & Hoc2 & Hsp). assert (oc2 = oc') as -> by congruence.
        rewrite Hsp. by apply Hconf.
      * exfalso. pose proof (Reconcile_two_steps (mkNamespacedName ns name) c1 t) as Hr. rewrite E in Hr.
        destruct Hr as (_ & c4 & Hfirst & Hlast).
        destruct Hfirst as [Hs|(oc & st & Ho & _)]; [|congruence].
        destruct Hlast as [Hs2|(oc & oc2 & Ho & _)].
        -- rewrite (same_find _ _ _ _ Hs2), (same_find _ _ _ _ Hs) in Hoc'. congruence.
        -- rewrite (same_find _ _ _ _ Hs) in Ho. congruence.
    + split.
      * eapply client_step_keeps; [exact Hb|exact E|left]. intros Ek. apply Hne.
        destruct req as [ns2 name2]. injection Ek as -> En. simpl in En.
        by apply str_app_inj_r in En as ->.
      * intros oc Hoc. apply Hconf. rewrite <- Hoc. symmetry. apply Hf; [by left|]. right. congruence.
Qed.
End system.

(** * Stability of the rollout *)

Section rollout.
Context {API : Api} {APIL : ApiLaws} {OWN : Owners} {OWNL : OwnersLaws} {KEYS : RSA}.
Context {SORT : UnstableSort} {RANGE : MapRange} {YAML : Yaml}.

(** Two clusters in which an Authelia is rendered from the same resources. *)
Record same_sources (req : NamespacedName) (c1 c2 : cluster) : Prop := {
  ss_authelia a1 a2 : find KAuthelia c1 req = Some a1 -> find KAuthelia c2 req = Some a2 ->
    au_Spec a2 = au_Spec a1;
  ss_clients : objects KOAuthClient c2 = objects KOAuthClient c1;
  ss_ingresses : objects KIngress c2 = objects KIngress c1;
  ss_digests oc : digest_in c2 oc = digest_in c1 oc
}.

(** The client IDs of the clients that are ready for [a] are distinct. *)
Definition distinct_ids (a : Authelia) (c : cluster) : Prop :=
  NoDup (ClientID ∘ spec <$> omap (ready_client c) (targeting a (all_objects KOAuthClient c))).

Lemma same_name req c1 c2 a1 a2 :
  find KAuthelia c1 req = Some a1 -> find KAuthelia c2 req = Some a2 ->
  au_Name a2 = au_Name a1 /\ au_Namespace a2 = au_Namespace a1.
Proof.
  intros H1%(objects_key KAuthelia) H2%(objects_key KAuthelia). rewrite <- H1 in H2.
  injection H2 as Hns Hn. done.
Qed.

Lemma inputs_agree req c1 c2 a1 a2 clients1 missing1 rules1 domains1 clients2 missing2 rules2 domains2 :
  same_sources req c1 c2 -> find KAuthelia c1 req = Some a1 -> find KAuthelia c2 req = Some a2 ->
  dns_cluster c1 ->
  inputs a1 c1 clients1 missing1 rules1 domains1 -> inputs a2 c2 clients2 missing2 rules2 domains2 ->
  clients1 ≡ₚ clients2 /\ rules1 = rules2 /\
  clients1 ≡ₚ omap (ready_client c1) (targeting a1 (all_objects KOAuthClient c1)).
Proof.
  intros [_ Hcl Hing Hdig] H1 H2 Hdns [(l1 & Hl1 & -> & _) (i1 & Hi1 & -> & _)] [(l2 & Hl2 & -> & _) (i2 & Hi2 & -> & _)].
  destruct (same_name _ _ _ _ _ H1 H2) as [Hn Hns].
  assert (all_objects KOAuthClient c2 = all_objects KOAuthClient c1) as E1 by (unfold all_objects; by rewrite Hcl).
  assert (all_objects KIngress c2 = all_objects KIngress c1) as E2 by (unfold all_objects; by rewrite Hing).
  rewrite E1 in Hl2. rewrite E2 in Hi2.
  assert (forall l, targeting a2 l = targeting a1 l) as Ht
    by (intros l; unfold targeting, clientTargets; by rewrite Hn, Hns).
  assert (forall l : list AutheliaOAuthClient, omap (ready_client c2) l = omap (ready_client c1) l) as Hr.
  { intros l. induction l as [|oc l IH]; [done|]. cbn [omap list_omap].
    assert (ready_client c2 oc = ready_client c1 oc) as -> by (unfold ready_client; by rewrite Hdig).
    by rewrite IH. }
  rewrite Ht, Hr. unfold targeting. split_and!.
  - by rewrite Hl1, Hl2.
  - f_equal. apply sorted_rules_independent.
    + change (NoDup (ing_id <$> i1)). rewrite Hi1. apply all_objects_ids.
    + unfold dns_cluster in Hdns. by rewrite Hi1.
    + by rewrite Hi1, Hi2.
  - by rewrite Hl1.
Qed.

Lemma kept_deployment_spec d1 d2 :
  dep_Spec d1 = dep_Spec d2 -> dep_Spec (kept KDeployment d1) = dep_Spec (kept KDeployment d2).
Proof. intros E. simpl. by rewrite E. Qed.

(** C7: no spurious rollout, for Authelias whose clients have distinct client IDs.
    Two successful reconciles of an Authelia from the
    same resources (the same clients with the same digests, the same Ingresses,
    the same specification), whatever order the API server lists them in and
    however the rest of the cluster changed in between, leave the same
    configuration text and the same pod template, checksum included, so the pods
    are not restarted.  (The names of the resources are Kubernetes names.  With
    duplicate client IDs the text does depend on the listing order.) *)
Theorem no_spurious_rollout req c1 t1 r1 c1' t1' c2 t2 r2 c2' t2' a1 a2 :
  find KAuthelia c1 req = Some a1 -> find KAuthelia c2 req = Some a2 ->
  same_sources req c1 c2 -> dns_cluster c1 -> distinct_ids a1 c1 ->
  Reconcile req (c1, t1) = (Ok r1, (c1', t1')) -> Reconcile req (c2, t2) = (Ok r2, (c2', t2')) ->
  exists cm1 cm2 d1 d2,
    find KConfigMap c1' (objectKey a1 (configMapName a1)) = Some cm1 /\
    find KConfigMap c2' (objectKey a1 (configMapName a1)) = Some cm2 /\
    content (cm_Data cm2) = content (cm_Data cm1) /\
    find KDeployment c1' (objectKey a1 (au_Name a1)) = Some d1 /\
    find KDeployment c2' (objectKey a1 (au_Name a1)) = Some d2 /\
    dep_Spec (kept KDeployment d2) = dep_Spec (kept KDeployment d1).
Proof.
  intros H1 H2 Hsame Hdns Hids E1 E2.
  destruct (Reconcile_applied _ _ _ _ _ _ _ E1 H1) as (cl1 & m1 & ru1 & do1 & x1 & Hin1 & Hr1 & Ha1 & _).
  destruct (Reconcile_applied _ _ _ _ _ _ _ E2 H2) as (cl2 & m2 & ru2 & do2 & x2 & Hin2 & Hr2 & Ha2 & _).
  destruct (inputs_agree _ _ _ _ _ _ _ _ _ _ _ _ _ Hsame H1 H2 Hdns Hin1 Hin2) as (Hp & -> & Hc).
  destruct (same_name _ _ _ _ _ H1 H2) as [Hn Hns]. pose proof (ss_authelia _ _ _ Hsame _ _ H1 H2) as Hsp.
  assert (x2 = x1) as ->.
  { unfold render in *. rewrite Hsp in Hr2.
    rewrite (renderConfig_perm SORT SORT _ cl1 cl2) in Hr1; [congruence| |done].
    unfold distinct_ids in Hids. by rewrite Hc. }
  assert (bool_decide (cl2 = []) = bool_decide (cl1 = [])) as Hb.
  { apply bool_decide_ext. split; intros ->; [by apply Permutation_nil_r in Hp|by apply Permutation_nil_l in Hp]. }
  destruct Ha1 as ((cm1 & Hf1 & Hd1 & _) & (d1 & Hg1 & Hs1 & _) & _).
  destruct Ha2 as ((cm2 & Hf2 & Hd2 & _) & (d2 & Hg2 & Hs2 & _) & _).
  unfold objectKey, configMapName in *. rewrite Hn, Hns in *. rewrite Hb in Hs2.
  exists cm1, cm2, d1, d2. split_and!; [done|done|by rewrite Hd1, Hd2|done|done|].
  rewrite Hs1, Hs2. apply kept_deployment_spec, buildDeployment_spec; done.
Qed.
End rollout.
