(* ===== verification/Script.v ===== *)
(** A reconcile, request by request.

    The controllers are functions of the API they talk to.  Here they talk to a
    script: a list of answers, handed out one by one.  When the answers run out
    the run is blocked on the request it would make next.  So a reconcile that
    has received some answers and now waits for the next one is the run of the
    {e same} code on these answers ([playable]: one more answer only continues
    the run), and the reconciles of several controllers can be interleaved. *)

From S2P Require Import Prelude GoSort GoJson GoCrypto ApiTypes Secrets Resources Render Ingress Cluster OAuthClientController AutheliaController.

(** * Requests and answers *)

Inductive request :=
  | RGet (k : kind) (key : NamespacedName)
  | RList (k : kind)
  | RCreate (k : kind) (o : KObj k)
  | RUpdate (k : kind) (o : KObj k)
  | RStatusUpdate (k : kind) (o : KObj k).

Inductive reply :=
  | RObject (o : client_Object)
  | RObjects (k : kind) (l : list (KObj k))
  | RError (e : go_error).

(** The answers still to come, the requests that were answered (the latest
    first), and the request that found no answer. *)
Record script := mkScript {
  answers : list reply;
  asked : list (request * reply);
  blocked : option request
}.

Definition ErrBlocked : go_error := ErrNew "no answer yet".
Definition ErrAnswer : go_error := ErrNew "not an answer to this request".

Definition ask (q : request) : M script reply := fun s =>
  match blocked s with
  | Some _ => (Err ErrBlocked, s)
  | None =>
    match answers s with
    | [] => (Err ErrBlocked, mkScript [] (asked s) (Some q))
    | r :: rest => (Ok r, mkScript rest ((q, r) :: asked s) None)
    end
  end.

Definition as_kind (k k' : kind) (o : KObj k') : outcome (KObj k) :=
  match kind_eq_dec k' k with
  | left e => Ok (eq_rect k' KObj o k e)
  | right _ => Err ErrAnswer
  end.

(** An object that was asked for by name has that name. *)
Definition fits (q : request) (k : kind) (o : KObj k) : bool :=
  match q with RGet _ key => bool_decide (key_of k o = key) | _ => true end.

Definition one_object (k : kind) (q : request) (r : reply) : outcome (KObj k) :=
  match r with
  | RObject (AnObject k' o) => o ← as_kind k k' o; if fits q k o then Ok o else Err ErrAnswer
  | RObjects _ _ => Err ErrAnswer
  | RError e => Err e
  end.

Definition all_objects_of (k : kind) (r : reply) : outcome (list (KObj k)) :=
  match r with
  | RObjects k' l =>
    match kind_eq_dec k' k with
    | left e => Ok (eq_rect k' (fun k => list (KObj k)) l k e)
    | right _ => Err ErrAnswer
    end
  | RObject _ => Err ErrAnswer
  | RError e => Err e
  end.

Definition ask_object (k : kind) (q : request) : M script (KObj k) := r ← ask q; lift (one_object k q r).
Definition ask_objects (k : kind) (q : request) : M script (list (KObj k)) :=
  r ← ask q; lift (all_objects_of k r).

Definition scripted (deep_equal : forall k, KObj k -> KObj k -> bool) : Api := {|
  cluster := script;
  objects := fun _ _ => ∅;
  Get := fun k key => ask_object k (RGet k key);
  ListAll := fun k => ask_objects k (RList k);
  Create := fun k o => ask_object k (RCreate k o);
  Update := fun k o => ask_object k (RUpdate k o);
  StatusUpdate := fun k o => ask_object k (RStatusUpdate k o);
  DeepEqual := deep_equal;
  CreateOrUpdate := fun k obj f =>
    let on_script {A} (m : M script A) : M (script * entropy) A := fun w =>
      let '(r, c) := m w.1 in (r, (c, w.2)) in
    let on_tape {A} (m : M entropy A) : M (script * entropy) A := fun w =>
      let '(r, t) := m w.2 in (r, (w.1, t)) in
    try (on_script (ask_object k (RGet k (key_of k obj)))) (fun r =>
      match r with
      | inr err => if IsNotFound err
                   then o' ← on_tape (f obj); on_script (ask_object k (RCreate k o'))
                   else throw err
      | inl o => o' ← on_tape (f o);
                 if deep_equal k o o' then mret o' else on_script (ask_object k (RUpdate k o'))
      end)
|}.

(** * Worlds with a script *)

(** The operator's code runs on a script, or on a script and a tape. *)
Class ScriptWorld (W : Type) := {
  script_of : W -> script;
  with_script : W -> script -> W;
  script_with w s : script_of (with_script w s) = s;
  with_script_of w : with_script w (script_of w) = w;
  with_script_twice w s s' : with_script (with_script w s) s' = with_script w s'
}.
#[export] Program Instance script_alone : ScriptWorld script :=
  {| script_of := fun s => s; with_script := fun _ s => s |}.
Solve Obligations with done.
#[export] Program Instance script_and_tape : ScriptWorld (script * entropy) :=
  {| script_of := fst; with_script := fun w s => (s, w.2) |}.
Solve Obligations with (by intros []) || done.

(** The same script with more answers at its end. *)
Definition more_answers (x : list reply) (s : script) : script :=
  mkScript (answers s ++ x) (asked s) (blocked s).
Definition more `{ScriptWorld W} (x : list reply) (w : W) : W :=
  with_script w (more_answers x (script_of w)).

(** The number of requests made so far, the unanswered one included. *)
Definition requests (s : script) : nat :=
  length (asked s) + match blocked s with Some _ => 1 | None => 0 end.

(** What makes replaying a code from its start the same as continuing it. *)
Record playable `{ScriptWorld W} {A} (m : M W A) : Prop := {
  (** once blocked, nothing more is asked *)
  pl_stuck w : is_Some (blocked (script_of w)) -> script_of (m w).2 = script_of w;
  (** requests and answers are paired in order, until the answers run out *)
  pl_grows w : exists l, asked (script_of (m w).2) = l ++ asked (script_of w) /\
    answers (script_of w) = (reverse l).*2 ++ answers (script_of (m w).2);
  pl_blocked w : blocked (script_of w) = None -> is_Some (blocked (script_of (m w).2)) ->
    answers (script_of (m w).2) = [];
  (** one more answer is the answer to the request the code waits for, and
      without such a request the code has ended *)
  pl_replays w x : blocked (script_of w) = None ->
    match blocked (script_of (m w).2) with
    | None => m (more x w) = ((m w).1, more x (m w).2)
    | Some q => forall y x', x = y :: x' ->
        exists l, asked (script_of (m (more x w)).2) = l ++ (q, y) :: asked (script_of (m w).2)
    end
}.

Section playable_rules.
Context `{ScriptWorld W}.

Lemma more_blocked x (w : W) : blocked (script_of (more x w)) = blocked (script_of w).
Proof. unfold more. by rewrite script_with. Qed.

(** Code that leaves the script alone. *)
Lemma playable_pure {A} (m : M W A) :
  (forall w, script_of (m w).2 = script_of w) ->
  (forall w s, m (with_script w s) = ((m w).1, with_script (m w).2 s)) -> playable m.
Proof.
  intros Hs Hw. split.
  - intros w _. apply Hs.
  - intros w. exists []. by rewrite Hs.
  - intros w E. rewrite Hs, E. by intros [? ?].
  - intros w x E. rewrite Hs, E. unfold more. by rewrite Hw, Hs.
Qed.

Lemma playable_ret {A} (a : A) : playable (mret a : M W A).
Proof. by apply playable_pure. Qed.
Lemma playable_throw {A} e : playable (throw e : M W A).
Proof. by apply playable_pure. Qed.
Lemma playable_lift {A} (o : outcome A) : playable (lift o : M W A).
Proof. by apply playable_pure. Qed.

(** [try] is the general sequence; a bind is a [try] that passes errors on. *)
Lemma playable_try {A B} (m : M W A) (k : A + go_error -> M W B) :
  playable m -> (forall r, playable (k r)) -> playable (try m k).
Proof.
  intros [St Gr Bl Re] Hk. split.
  - intros w Hw. unfold try. specialize (St w Hw). destruct (m w) as [[a|e|p] w1]; simpl in *; [..|done];
      rewrite (pl_stuck _ (Hk _)); congruence.
  - intros w. unfold try. destruct (Gr w) as (l1 & E1 & F1). destruct (m w) as [[a|e|p] w1]; simpl in *; [..|by exists l1];
      match goal with |- context [k ?r w1] => destruct (pl_grows _ (Hk r) w1) as (l2 & E2 & F2) end;
      exists (l2 ++ l1); rewrite E2, E1, F1, F2, reverse_app, fmap_app, !app_assoc; done.
  - intros w Hw. unfold try. specialize (Bl w Hw). destruct (m w) as [[a|e|p] w1]; simpl in *; [..|done];
      match goal with |- context [k ?r w1] => pose proof (pl_blocked _ (Hk r) w1) as Bk; pose proof (pl_stuck _ (Hk r) w1) as Sk end;
      (destruct (blocked (script_of w1)) as [q|] eqn:Eq; [rewrite Sk by done; by rewrite Eq|by apply Bk]).
  - intros w x Hw. unfold try. specialize (Re w x Hw).
    destruct (m w) as [r1 w1] eqn:E1. simpl in Re. destruct (blocked (script_of w1)) as [q|] eqn:Eq.
    + (* blocked in [m] *)
      assert (forall y x', x = y :: x' -> exists l, asked (script_of (try m k (more x w)).2) = l ++ (q, y) :: asked (script_of w1)) as Hl.
      { intros y x' Hx. destruct (Re y x' Hx) as [l El]. unfold try.
        destruct (m (more x w)) as [[a|e|p] w2]; simpl in *; [..|by exists l];
          match goal with |- context [k ?r w2] => destruct (pl_grows _ (Hk r) w2) as (l2 & E2 & _) end;
          exists (l2 ++ l); by rewrite E2, El, <- app_assoc. }
      unfold try in Hl. destruct r1 as [a|e|p]; simpl;
        [rewrite (pl_stuck _ (Hk _) w1) by (by rewrite Eq); by rewrite Eq..|by rewrite Eq].
    + rewrite Re. destruct r1 as [a|e|p]; simpl; [..|by rewrite Eq]; by apply (pl_replays _ (Hk _)).
Qed.

Lemma playable_ext {A} (m m' : M W A) : (forall w, m w = m' w) -> playable m -> playable m'.
Proof.
  intros E [St Gr Bl Re].
  split; [intros w Hw|intros w|intros w Hw|intros w x Hw]; rewrite <- !E; auto. by apply Re.
Qed.

Lemma playable_bind {A B} (m : M W A) (f : A -> M W B) :
  playable m -> (forall a, playable (f a)) -> playable (m ≫= f).
Proof.
  intros Hm Hf. apply (playable_ext (try m (fun r => match r with inl a => f a | inr e => throw e end))).
  - intros w. unfold try, mbind, M_bind, throw. by destruct (m w) as [[]].
  - apply playable_try; [done|]. intros [a|e]; [apply Hf|apply playable_throw].
Qed.
End playable_rules.

Lemma playable_ask q : playable (ask q).
Proof.
  split.
  - intros s [q' E]. unfold ask. simpl in *. by rewrite E.
  - intros s. unfold ask. destruct s as [[|r rest] h [q'|]]; simpl; [by exists []..|by exists [(q, r)]].
  - intros s. unfold ask. destruct s as [[|r rest] h [q'|]]; simpl; [done|done|done|]. intros _ [? ?]. done.
  - intros s x. unfold ask, more, more_answers. destruct s as [[|r rest] h [q'|]]; simpl; [done| |done|done].
    intros _ y x' ->. by exists [].
Qed.
Create HintDb script.
#[export] Hint Resolve playable_ret playable_throw playable_lift playable_bind playable_try playable_ask : script.

Lemma playable_object k q : playable (ask_object k q).
Proof. unfold ask_object. auto with script. Qed.
Lemma playable_objects k q : playable (ask_objects k q).
Proof. unfold ask_objects. auto with script. Qed.
#[export] Hint Resolve playable_object playable_objects : script.

Section controllers.
Context (deep_equal : forall k, KObj k -> KObj k -> bool).
Local Instance API : Api := scripted deep_equal.
Context {OWN : Owners} {KEYS : RSA} {SORT : UnstableSort} {RANGE : MapRange} {YAML : Yaml}.

Lemma playable_on_cluster {A} (m : M script A) : playable m -> playable (W:=script * entropy) (on_cluster m).
Proof.
  intros [St Gr Bl Re]. unfold on_cluster. split.
  - intros [s t] Hs. simpl in *. specialize (St s Hs). by destruct (m s).
  - intros [s t]. specialize (Gr s). simpl. by destruct (m s).
  - intros [s t] Hs. simpl in *. specialize (Bl s Hs). by destruct (m s).
  - intros [s t] x Hs. simpl in *. specialize (Re s x Hs). unfold more in *. simpl in *.
    destruct (m s) as [r1 s1] eqn:E1. simpl in *. destruct (blocked s1).
    + intros y x' Hx. destruct (Re y x' Hx) as [l El]. exists l. by destruct (m (more_answers x s)).
    + by rewrite Re.
Qed.

Lemma playable_on_entropy {A} (m : M entropy A) : playable (W:=script * entropy) (on_entropy m).
Proof. apply playable_pure; intros [s t]; [|intros s']; unfold on_entropy; simpl; by destruct (m t). Qed.
Hint Resolve playable_on_cluster playable_on_entropy : script.

Lemma playable_Get k key : playable (W:=script) (Get k key).
Proof. apply playable_object. Qed.
Lemma playable_ListAll k : playable (W:=script) (ListAll k).
Proof. apply playable_objects. Qed.
Lemma playable_Create k o : playable (W:=script) (Create k o).
Proof. apply playable_object. Qed.
Lemma playable_StatusUpdate k o : playable (W:=script) (StatusUpdate k o).
Proof. apply playable_object. Qed.

Lemma playable_CreateOrUpdate k obj f : playable (W:=script * entropy) (CreateOrUpdate k obj f).
Proof.
  apply playable_try; [apply (playable_on_cluster (ask_object k _)); auto with script|].
  intros [o|e].
  - apply playable_bind; [apply (playable_on_entropy (f o))|]. intros o'.
    destruct (deep_equal k o o'); [apply playable_ret|].
    apply (playable_on_cluster (ask_object k _)); auto with script.
  - destruct (IsNotFound e); [|apply playable_throw].
    apply playable_bind; [apply (playable_on_entropy (f obj))|]. intros o'.
    apply (playable_on_cluster (ask_object k _)); auto with script.
Qed.
Hint Resolve playable_Get playable_ListAll playable_Create playable_StatusUpdate playable_CreateOrUpdate : script.

(** One tactic walks through the controllers' code. *)
Ltac play :=
  repeat first
    [ progress (intros; cbv beta zeta)
    | solve [eauto 2 with script]
    | apply playable_bind | apply playable_try | apply playable_on_cluster
    | match goal with
      | |- playable (match ?x with _ => _ end) => destruct x
      | |- playable (if ?x then _ else _) => destruct x
      end ].

Lemma playable_client req : playable (W:=script * entropy) (OAuthClientController.Reconcile req).
Proof. unfold OAuthClientController.Reconcile. play. Qed.

Lemma playable_collect a items : playable (W:=script) (collect_loop a items).
Proof. induction items as [|c items IH]; simpl; unfold clientSecretDigest; play. Qed.
Hint Resolve playable_collect : script.

Lemma playable_apply a clients missing domains rendered :
  playable (W:=script * entropy) (applyConfig a clients missing domains rendered).
Proof.
  unfold applyConfig, reconcileCoreSecret, reconcileConfigMap, reconcileService, reconcileDataPVC,
    reconcileDeployment, updateStatus. play.
Qed.
Hint Resolve playable_apply : script.

Lemma playable_authelia req : playable (W:=script * entropy) (AutheliaController.Reconcile req).
Proof. unfold AutheliaController.Reconcile, collectClients, collectIngressRules. play. Qed.

(** * Jobs *)

(** What a worker of the manager runs. *)
Inductive job :=
  | ReconcileAuthelia (req : NamespacedName)
  | ReconcileClient (req : NamespacedName).

Definition run_job (j : job) : M (script * entropy) Result :=
  match j with
  | ReconcileAuthelia req => AutheliaController.Reconcile req
  | ReconcileClient req => OAuthClientController.Reconcile req
  end.

(** The script after the job received [answers], and the request it waits for. *)
Definition played (j : job) (t : entropy) (received : list reply) : script :=
  (run_job j (mkScript received [] None, t)).2.1.
Definition pending (j : job) (t : entropy) (received : list reply) : option request :=
  blocked (played j t received).

Lemma playable_job j : playable (run_job j).
Proof. destruct j; [apply playable_authelia|apply playable_client]. Qed.

Theorem played_extends j t received :
  match pending j t received with
  | None => forall x, asked (played j t (received ++ x)) = asked (played j t received)
  | Some q => (asked (played j t received)).*2 = reverse received /\
      forall y, exists l, asked (played j t (received ++ [y])) = l ++ (q, y) :: asked (played j t received)
  end.
Proof.
  pose proof (playable_job j) as Hp. unfold pending, played.
  pose proof (pl_replays _ Hp (mkScript received [] None, t)) as Hr.
  pose proof (pl_grows _ Hp (mkScript received [] None, t)) as (l & El & Fl).
  pose proof (pl_blocked _ Hp (mkScript received [] None, t) eq_refl) as Hb.
  unfold more in Hr. simpl in *. rewrite app_nil_r in El.
  destruct (run_job j (mkScript received [] None, t)) as [r [s t']] eqn:E. simpl in *.
  destruct (blocked s) as [q|] eqn:Eq.
  - split; [|intros y; by apply (Hr [y] eq_refl y [])].
    rewrite Hb in Fl by done. by rewrite app_nil_r in Fl; rewrite Fl, El, <- fmap_reverse, reverse_involutive.
  - intros x. specialize (Hr x eq_refl). unfold more_answers in Hr. simpl in Hr. by rewrite Hr.
Qed.
End controllers.
