(* ===== verification/Discipline.v ===== *)
(** What the controllers ask for, whatever they are told: how many requests a
    reconcile makes, and that an update of a Secret is always that of the very
    version it was computed from, with all values the Secret had.  Both are
    facts about the controllers' code alone; the answers are arbitrary. *)

From S2P Require Import Prelude GoSort GoJson GoCrypto ApiTypes Secrets Resources Render Ingress Cluster OAuthClientController AutheliaController Script.

(** * Counting requests *)

Definition is_blocked (s : script) : nat := match blocked s with Some _ => 1 | None => 0 end.


Section counting.
Context `{ScriptWorld W} (L : nat).






End counting.




Section controllers.
Context (deep_equal : forall k, KObj k -> KObj k -> bool).
#[local] Instance API : Api := scripted deep_equal.
Context {OWN : Owners} {KEYS : RSA} {SORT : UnstableSort} {RANGE : MapRange} {YAML : Yaml}.
Context (L : nat).











End controllers.


(** * Updates of Secrets *)

(** [metadata.resourceVersion]: the server's mark of one state of an object,
    carried along by the operator with the rest of the metadata. *)
Definition version (m : ObjectMeta) : option string := om_rest m !! "resourceVersion".

(** [o] was among the answers. *)
Definition told (s : script) (o : client_Object) : Prop := exists q, (q, RObject o) ∈ asked s.

(** The values the client controller replaces or removes: the ID, and the
    credentials of a client it was told is public. *)
Definition may_change (known : client_Object -> Prop) (key : NamespacedName) (k : string) : Prop :=
  exists oc, known (AnObject KOAuthClient oc) /\ key = secretKey oc /\
    (k = "client_id" \/ Public (oc_Spec oc) = true /\ k ∈ ["client_secret"; "client_secret_digest"]).

(** The Secret to be written is a Secret that was read, at the same version, with
    every value of it that may not change. *)
Definition justified (known : client_Object -> Prop) (o : Secret) : Prop :=
  exists base, known (AnObject KSecret base) /\ key_of KSecret base = key_of KSecret o /\
    version (sec_meta base) = version (sec_meta o) /\
    forall k, has_value (content (sec_Data base)) k ->
      content (sec_Data o) !! k = content (sec_Data base) !! k \/ may_change known (key_of KSecret o) k.

Definition request_ok (known : client_Object -> Prop) (q : request) : Prop :=
  match q with
  | RCreate k _ => managed k = true
  | RUpdate KSecret o => justified known o
  | RUpdate k _ => managed k = true
  | _ => True
  end.

Definition issued (s : script) (q : request) : Prop :=
  blocked s = Some q \/ exists r, (q, r) ∈ asked s.

Definition good (s : script) : Prop := forall q, issued s q -> request_ok (told s) q.

Lemma request_ok_mono (known known' : client_Object -> Prop) q :
  (forall o, known o -> known' o) -> request_ok known q -> request_ok known' q.
Proof.
  intros Hk. destruct q as [| | |[] o|]; simpl; try done.
  intros (base & Hb & Hkey & Hv & Hval). exists base. split_and!; [by apply Hk|done|done|].
  intros k Hhas. destruct (Hval k Hhas) as [?|(oc & Hoc & ?)]; [by left|right]. exists oc. split; [by apply Hk|done].
Qed.

Section obeying.
Context `{ScriptWorld W}.

(** Started with good requests behind it and knowing [T], [m] makes good
    requests only (and forgets nothing). *)
Definition obeys {A} (T : list client_Object) (m : M W A) : Prop := forall w,
  good (script_of w) -> (forall o, o ∈ T -> told (script_of w) o) ->
  good (script_of (m w).2) /\ forall o, told (script_of w) o -> told (script_of (m w).2) o.

Lemma obeys_pure {A} T (m : M W A) : (forall w, script_of (m w).2 = script_of w) -> obeys T m.
Proof. intros E w. rewrite E. done. Qed.

Lemma obeys_try {A B} T (m : M W A) (k : A + go_error -> M W B) :
  obeys T m -> (forall r, obeys T (k r)) -> obeys T (try m k).
Proof.
  intros Hm Hk w Hg Ht. destruct (Hm w Hg Ht) as [Hg1 Ht1]. unfold try.
  destruct (m w) as [[a|e|p] w1]; simpl in *; [..|done];
    match goal with |- context [k ?r w1] => destruct (Hk r w1 Hg1) as [Hg2 Ht2] end; auto.
Qed.

Lemma obeys_bind {A B} T (m : M W A) (f : A -> M W B) :
  obeys T m -> (forall a, obeys T (f a)) -> obeys T (m ≫= f).
Proof.
  intros Hm Hf w Hg Ht. destruct (Hm w Hg Ht) as [Hg1 Ht1]. unfold mbind, M_bind.
  destruct (m w) as [[a|e|p] w1]; simpl in *; [|done..]. destruct (Hf a w1 Hg1) as [Hg2 Ht2]; auto.
Qed.
End obeying.

Lemma obeys_ask T q : (forall s, (forall o, o ∈ T -> told s o) -> request_ok (told s) q) -> obeys T (ask q).
Proof.
  intros Hq s Hg Ht. specialize (Hq s Ht). unfold ask. simpl in *. destruct s as [[|r rest] h [q'|]]; simpl; try done.
  - split; [|done]. intros q2 [[= <-]|Hin]; [exact Hq|]. apply Hg. by right.
  - assert (forall o, told (mkScript (r :: rest) h None) o -> told (mkScript rest ((q, r) :: h) None) o) as Hmono.
    { intros o [q2 Hin]. exists q2. by apply elem_of_cons; right. }
    split; [|done]. intros q2 [?|[r2 Hin]]; [done|]. eapply request_ok_mono; [exact Hmono|].
    simpl in Hin. apply elem_of_cons in Hin as [[= -> ->]|Hin]; [exact Hq|]. apply Hg. right. by exists r2.
Qed.

Lemma one_object_Ok k q r o : one_object k q r = Ok o -> r = RObject (AnObject k o) /\ fits q k o = true.
Proof.
  destruct r as [[k' o']| |]; simpl; try done. unfold as_kind.
  destruct (kind_eq_dec k' k) as [<-|]; [|done]. simpl. destruct (fits q k' o') eqn:E; [|done]. by intros [= <-].
Qed.

(** What an answered request for an object adds to what is known. *)
Lemma ask_object_told k q s o :
  (ask_object k q s).1 = Ok o -> told (ask_object k q s).2 (AnObject k o) /\ fits q k o = true.
Proof.
  unfold ask_object, ask, mbind, M_bind, lift. destruct s as [[|r rest] h [q'|]]; simpl; try done.
  intros [-> Hf]%one_object_Ok. split; [|done]. exists q. by apply elem_of_cons; left.
Qed.

Section obeying_controllers.
Context (deep_equal : forall k, KObj k -> KObj k -> bool).
#[local] Instance API2 : Api := scripted deep_equal.
Context {OWN : Owners} {OWNL : OwnersLaws} {KEYS : RSA} {SORT : UnstableSort} {RANGE : MapRange} {YAML : Yaml}.

Lemma obeys_on_cluster {A} T (m : M script A) : obeys T m -> obeys (W:=script * entropy) T (on_cluster m).
Proof. intros Hm [s t] Hs. specialize (Hm s Hs). unfold on_cluster. simpl in *. by destruct (m s). Qed.

Lemma obeys_on_entropy {A} T (m : M entropy A) : obeys (W:=script * entropy) T (on_entropy m).
Proof. apply obeys_pure. intros [s t]. unfold on_entropy. simpl. by destruct (m t). Qed.

Lemma obeys_request {A} T q (g : reply -> outcome A) :
  (forall s, (forall o, o ∈ T -> told s o) -> request_ok (told s) q) -> obeys T (r ← ask q; lift (g r)).
Proof. intros Hq. apply obeys_bind; [by apply obeys_ask|]. intros r. by apply obeys_pure. Qed.

(** What is read stays known in what follows. *)
Lemma obeys_try_Get {B} T k key (g : KObj k + go_error -> M (script * entropy) B) :
  (forall o, key_of k o = key -> obeys (AnObject k o :: T) (g (inl o))) -> (forall e, obeys T (g (inr e))) ->
  obeys (W:=script * entropy) T (try (on_cluster (ask_object k (RGet k key))) g).
Proof.
  intros Ho He [s t] Hg Ht. unfold try, on_cluster. cbn [fst snd script_of script_and_tape] in *.
  destruct (obeys_request T (RGet k key) (one_object k (RGet k key)) ltac:(done) s Hg Ht) as [Hg1 Ht1].
  pose proof (ask_object_told k (RGet k key) s) as Htold. fold (ask_object k (RGet k key)) in *.
  destruct (ask_object k (RGet k key) s) as [[o|e|p] s1]; simpl in *; [| |done].
  - destruct (Htold o eq_refl) as [Hknown Hfits%bool_decide_eq_true].
    destruct (Ho o Hfits (s1, t) Hg1) as [Hg2 Ht2]; [|auto]. simpl.
    intros x [->|Hx]%elem_of_cons; [done|by apply Ht1, Ht].
  - destruct (He e (s1, t) Hg1) as [Hg2 Ht2]; [|auto]. intros x Hx. by apply Ht1, Ht.
Qed.

(** The closure may be given any Secret of that name. *)
Definition justifies (T : list client_Object) (key : NamespacedName) (f : Secret -> M entropy Secret) : Prop :=
  forall base o t t', key_of KSecret base = key -> f base t = (Ok o, t') ->
    key_of KSecret base = key_of KSecret o /\ version (sec_meta base) = version (sec_meta o) /\
    forall k, has_value (content (sec_Data base)) k ->
      content (sec_Data o) !! k = content (sec_Data base) !! k \/ may_change (.∈ T) (key_of KSecret o) k.

Lemma obeys_on_tape_bind {A B} T (m : M entropy A) (g : A -> M (script * entropy) B) :
  (forall a t t', m t = (Ok a, t') -> obeys T (g a)) -> obeys (W:=script * entropy) T (on_entropy m ≫= g).
Proof.
  intros Hg [s t] Hs Ht. unfold mbind, M_bind, on_entropy. simpl in *.
  destruct (m t) as [[a|e|p] t'] eqn:E; simpl; [|done..]. by apply (Hg a t t' E (s, t')).
Qed.

Lemma obeys_CreateOrUpdate_Secret T obj f :
  justifies T (key_of KSecret obj) f -> obeys (W:=script * entropy) T (CreateOrUpdate KSecret obj f).
Proof.
  intros Hf. apply (obeys_try_Get T KSecret (key_of KSecret obj)).
  - intros base Hb. apply (obeys_on_tape_bind _ (f base)). intros o t t' E.
    destruct (deep_equal KSecret base o); [by apply obeys_pure|].
    apply (obeys_on_cluster _ (ask_object KSecret _)), obeys_request.
    intros s Ht. simpl. destruct (Hf base o t t' Hb E) as (Hkey & Hv & Hval). exists base.
    split_and!; [apply Ht, elem_of_cons; by left|done|done|]. intros k Hk.
    destruct (Hval k Hk) as [?|(oc & Hoc & ?)]; [by left|right]. exists oc.
    split; [apply Ht, elem_of_cons; by right|done].
  - intros e. destruct (IsNotFound e); [|by apply obeys_pure].
    apply (obeys_on_tape_bind _ (f obj)). intros o t t' E.
    by apply (obeys_on_cluster _ (ask_object KSecret _)), obeys_request.
Qed.

Lemma obeys_CreateOrUpdate T k obj f :
  managed k = true -> k <> KSecret -> obeys (W:=script * entropy) T (CreateOrUpdate k obj f).
Proof.
  intros Hk Hne. assert (forall known o, request_ok known (RUpdate k o)) as Hu by (intros; by destruct k).
  apply obeys_try; [by apply (obeys_on_cluster _ (ask_object k _)), obeys_request|]. intros [o|e].
  - apply obeys_bind; [apply (obeys_on_entropy _ (f o))|]. intros o'.
    destruct (deep_equal k o o'); [by apply obeys_pure|].
    apply (obeys_on_cluster _ (ask_object k _)), obeys_request. intros s _. apply Hu.
  - destruct (IsNotFound e); [|by apply obeys_pure].
    apply obeys_bind; [apply (obeys_on_entropy _ (f obj))|]. intros o'.
    by apply (obeys_on_cluster _ (ask_object k _)), obeys_request.
Qed.

Lemma controlled_meta k owner m m' :
  control k owner m = Ok m' -> meta_key m' = meta_key m /\ version m' = version m.
Proof.
  unfold control. destruct (SetControllerReference k owner m) as [m1|] eqn:E; [|done]. intros [= <-].
  apply SetControllerReference_ok in E as ((refs & ->) & _). done.
Qed.

Lemma completeCredentials_keeps data t d t' k :
  completeCredentials data t = (Ok d, t') -> has_value data k -> d !! k = data !! k.
Proof.
  intros E Hk. unfold completeCredentials in E. inv_bind E.
  assert (a !! k = data !! k) as Ha.
  { rewrite empty_at_spec in Hm. case_bool_decide as Hs; simpl in Hm.
    - unfold mret, M_ret in Hm. by simplify_eq.
    - inv_bind Hm. unfold mret, M_ret in Hk1. simplify_eq. apply lookup_insert_ne. by intros <-. }
  rewrite <- Ha. assert (has_value a k) as Hk2 by (unfold has_value in *; by rewrite Ha).
  rewrite empty_at_spec in Hk0. case_bool_decide as Hs; simpl in Hk0.
  - unfold mret, M_ret in Hk0. by simplify_eq.
  - inv_bind Hk0. unfold mret, M_ret in Hk1. simplify_eq. apply lookup_insert_ne. by intros <-.
Qed.

Lemma client_justifies oc :
  justifies [AnObject KOAuthClient oc] (secretKey oc) (mutateClientSecret oc).
Proof.
  intros s o t t' Hs E. unfold mutateClientSecret in E. inv_bind E. inv_bind Hk.
  unfold lift in Hm0. injection Hm0 as Hc ->. apply controlled_meta in Hc as [Hkey Hv].
  unfold mret, M_ret in Hk0. injection Hk0 as <- <-.
  set (new := set_sec_meta a0 _). assert (key_of KSecret new = secretKey oc) as Hks by exact (eq_trans Hkey Hs).
  rewrite Hks. split_and!; [exact Hs|exact (eq_sym Hv)|]. clear Hks. simpl. intros k Hk.
  destruct (decide (k = "client_id")) as [->|Hid].
  { right. exists oc. split_and!; [apply elem_of_cons; by left|done|by left]. }
  destruct (Public (oc_Spec oc)) eqn:Hp.
  - unfold mret, M_ret in Hm. injection Hm as <- <-.
    destruct (decide (k ∈ ["client_secret"; "client_secret_digest"])) as [Hin|Hin].
    + right. exists oc. split_and!; [apply elem_of_cons; by left|done|by right].
    + left. rewrite !not_elem_of_cons in Hin. destruct Hin as (H1 & H2 & _).
      by rewrite !lookup_delete_ne, lookup_insert_ne.
  - left. rewrite (completeCredentials_keeps _ _ _ _ k Hm); [by rewrite lookup_insert_ne|].
    unfold has_value. by rewrite lookup_insert_ne.
Qed.

Lemma core_justifies T a key : justifies T key (mutateCoreSecret a).
Proof.
  intros s o t t' Hs E. unfold mutateCoreSecret in E. inv_bind E. inv_bind Hk.
  unfold lift in Hm0. injection Hm0 as Hc ->. apply controlled_meta in Hc as [Hkey Hv].
  apply generatedCoreSecretData_ok in Hm as (Hkeep & _).
  unfold mret, M_ret in Hk0. injection Hk0 as <- <-.
  split_and!; [exact (eq_sym Hkey)|exact (eq_sym Hv)|]. intros k Hk. left. apply Hkeep. by left.
Qed.

Lemma obeys_Get T k key : obeys (W:=script) T (Get k key).
Proof. by apply (obeys_request T (RGet k key) (one_object k _)). Qed.
Lemma obeys_ListAll T k : obeys (W:=script) T (ListAll k).
Proof. by apply (obeys_request T (RList k) (all_objects_of k)). Qed.
Lemma obeys_Create T k o : managed k = true -> obeys (W:=script) T (Create k o).
Proof. intros Hk. by apply (obeys_request T (RCreate k o) (one_object k _)). Qed.
Lemma obeys_StatusUpdate T k o : obeys (W:=script) T (StatusUpdate k o).
Proof. by apply (obeys_request T (RStatusUpdate k o) (one_object k _)). Qed.

Create HintDb obeying.

(** The code that reads, or writes something else than a Secret. *)
Ltac obey :=
  repeat first
    [ progress (intros; cbv beta zeta)
    | solve [by apply obeys_pure]
    | solve [eauto 1 with obeying]
    | apply obeys_Get | apply (obeys_Get _ KSecret) | apply (obeys_Get _ KAuthelia)
    | apply (obeys_ListAll _ KOAuthClient) | apply (obeys_ListAll _ KIngress)
    | apply obeys_StatusUpdate
    | apply obeys_Create; reflexivity
    | apply obeys_CreateOrUpdate; [reflexivity|discriminate]
    | apply (obeys_CreateOrUpdate _ KDeployment); [reflexivity|discriminate]
    | apply obeys_CreateOrUpdate_Secret; [apply core_justifies]
    | apply obeys_bind | apply obeys_on_cluster | apply obeys_try
    | match goal with
      | H : obeys _ ?m |- obeys _ ?m => exact H
      | |- obeys _ (match ?x with _ => _ end) => destruct x
      | |- obeys _ (if ?x then _ else _) => destruct x
      end ].

Lemma obeys_client req : obeys (W:=script * entropy) [] (OAuthClientController.Reconcile req).
Proof.
  apply (obeys_try_Get [] KOAuthClient req); [|intros e; destruct (IsNotFound e); by apply obeys_pure].
  intros oc _. cbv beta zeta. apply obeys_bind; [|obey].
  apply (obeys_CreateOrUpdate_Secret _ (freshSecret oc)), client_justifies.
Qed.

Lemma obeys_collect a items : obeys (W:=script) [] (collect_loop a items).
Proof. induction items as [|c items IH]; simpl; unfold clientSecretDigest; obey. Qed.
Hint Resolve obeys_collect : obeying.

Lemma obeys_apply a clients missing domains rendered :
  obeys (W:=script * entropy) [] (applyConfig a clients missing domains rendered).
Proof.
  unfold applyConfig, reconcileCoreSecret, reconcileConfigMap, reconcileService, reconcileDataPVC,
    reconcileDeployment, updateStatus. obey.
Qed.
Hint Resolve obeys_apply : obeying.

Lemma obeys_authelia req : obeys (W:=script * entropy) [] (AutheliaController.Reconcile req).
Proof.
  unfold AutheliaController.Reconcile, collectClients, collectIngressRules. obey.
Qed.

(** Every request of a job, answered or pending, is in order. *)
Lemma job_good j t received : good (played deep_equal j t received).
Proof.
  assert (obeys (W:=script * entropy) [] (run_job deep_equal j)) as Hj
    by (destruct j; [apply obeys_authelia|apply obeys_client]).
  destruct (Hj (mkScript received [] None, t)) as [H _]; [|by intros o ?%elem_of_nil|exact H].
  intros q [?|[r ?%elem_of_nil]]; done.
Qed.
End obeying_controllers.
