(* ===== verification/Concurrent.v ===== *)
(** Both controllers at work at the same time.

    Any number of reconciles run at once (several workers, a second manager that
    still runs while the leadership changes hands), their requests interleaved
    in any order with each other and with the changes of everybody else.  They
    read from caches, so what they are told may be out of date; the server
    protects an object by its resource version only.  Requests fail, before or
    after they were performed, and reconciles are abandoned half-way.

    The theorems: in every such run the generated secrets are never rotated. *)

From S2P Require Import Prelude GoSort GoJson GoCrypto ApiTypes Secrets Resources Render Ingress Cluster OAuthClientController AutheliaController System Script Discipline.

(** * The server *)

(** The objects as they are, and everything that was ever stored. *)
Record server := mkServer { live : Memory.store; past : list client_Object }.

Definition stored_at (k : kind) (s : server) (key : NamespacedName) : option (KObj k) :=
  find (H:=Memory.api) k (live s) key.

Definition put (k : kind) (o : KObj k) (s : server) : server :=
  mkServer (Memory.put k o (live s)) (AnObject k o :: past s).

(** The server gives every stored state of an object a version of its own. *)
Definition fresh (k : kind) (o : KObj k) (s : server) : Prop :=
  exists v, version (KMeta k o) = Some v /\
    forall o', AnObject k o' ∈ past s -> key_of k o' = key_of k o -> version (KMeta k o') <> Some v.

(** [sent] is stored as [o]. *)
Definition stores (k : kind) (sent o : KObj k) (s s' : server) : Prop :=
  kept k o = kept k sent /\ key_of k o = key_of k sent /\ fresh k o s /\ s' = put k o s.

(** The answer to a performed write: the stored object, or a failure on the way
    back. *)
Definition acknowledges (k : kind) (o : KObj k) (r : reply) : Prop :=
  r = RObject (AnObject k o) \/ exists e, r = RError e.

(** The answers the server, or a cache in front of it, may give. *)
Inductive serves : request -> reply -> server -> server -> Prop :=
  | serves_get k key o s :
      AnObject k o ∈ past s -> key_of k o = key -> serves (RGet k key) (RObject (AnObject k o)) s s
  | serves_missing k key s : serves (RGet k key) (RError (ErrApi NotFound)) s s
  | serves_list k l s : Forall (fun o => AnObject k o ∈ past s) l -> serves (RList k) (RObjects k l) s s
  | serves_create k o o' r s s' :
      stored_at k s (key_of k o) = None -> stores k o o' s s' -> acknowledges k o' r ->
      serves (RCreate k o) r s s'
  | serves_update k o o' cur r s s' :
      stored_at k s (key_of k o) = Some cur ->
      (version (KMeta k o) = None \/ version (KMeta k o) = version (KMeta k cur)) ->
      stores k o o' s s' -> acknowledges k o' r ->
      serves (RUpdate k o) r s s'
  | serves_status k o o' cur r s s' :
      stored_at k s (key_of k o) = Some cur -> stores k (with_status k cur o) o' s s' ->
      acknowledges k o' r -> serves (RStatusUpdate k o) r s s'
  | serves_refused q e s : serves q (RError e) s s.

Record wf (s : server) : Prop := {
  wf_past k key o : stored_at k s key = Some o -> AnObject k o ∈ past s;
  wf_version k o : AnObject k o ∈ past s -> is_Some (version (KMeta k o));
  wf_unique k o1 o2 : AnObject k o1 ∈ past s -> AnObject k o2 ∈ past s ->
    key_of k o1 = key_of k o2 -> version (KMeta k o1) = version (KMeta k o2) -> o1 = o2
}.

(** * Reconciles at work *)

Record thread := mkThread { th_job : job; th_tape : entropy; th_received : list reply }.
Record config := mkConfig { srv : server; threads : list thread }.

Section concurrency.
Context (deep_equal : forall k, KObj k -> KObj k -> bool).
Context {OWN : Owners} {OWNL : OwnersLaws} {KEYS : RSA} {SORT : UnstableSort} {RANGE : MapRange} {YAML : Yaml}.
(** what everybody else does *)
Context (others : server -> server -> Prop).

Definition waits_for (th : thread) : option request :=
  pending deep_equal (th_job th) (th_tape th) (th_received th).
Definition receive (r : reply) (th : thread) : thread :=
  mkThread (th_job th) (th_tape th) (th_received th ++ [r]).

Inductive concurrent_step : config -> config -> Prop :=
  | cs_start s ths j t : bytes_ok t -> concurrent_step (mkConfig s ths) (mkConfig s (mkThread j t [] :: ths))
  | cs_answer s s' ths i th q r :
      ths !! i = Some th -> waits_for th = Some q -> serves q r s s' ->
      concurrent_step (mkConfig s ths) (mkConfig s' (<[i := receive r th]> ths))
  | cs_gone s ths1 th ths2 : concurrent_step (mkConfig s (ths1 ++ th :: ths2)) (mkConfig s (ths1 ++ ths2))
  | cs_others s s' ths : others s s' -> concurrent_step (mkConfig s ths) (mkConfig s' ths).

(** The Secret [key] keeps the value it has for [k]. *)
Definition secret_kept (key : NamespacedName) (k : string) (s s' : server) : Prop :=
  value_kept (API:=Memory.api) key k (live s) (live s').

(** * Versions *)

Lemma an_object_inj k (o o' : KObj k) : AnObject k o = AnObject k o' -> o = o'.
Proof. intros [= E]. by apply (Eqdep_dec.inj_pair2_eq_dec _ kind_eq_dec) in E. Qed.

Lemma stored_at_put k o s k' key :
  stored_at k' (put k o s) key = stored_at k' s key \/
  key = key_of k o /\ exists e : k = k', stored_at k' (put k o s) key = Some (eq_rect k KObj o k' e).
Proof.
  unfold stored_at. pose proof (Memory.stored_put k o (live s)) as Hst.
  destruct (decide (k' = k)) as [->|Hk]; [|left; by apply (stored_ne _ _ _ _ _ _ Hst); left].
  destruct (decide (key = key_of k o)) as [->|Hkey]; [|left; by apply (stored_ne _ _ _ _ _ _ Hst); right].
  right. split; [done|]. exists eq_refl. by apply stored_lookup in Hst.
Qed.

Lemma elem_of_past_put k o s k' o' :
  AnObject k' o' ∈ past (put k o s) <-> AnObject k' o' = AnObject k o \/ AnObject k' o' ∈ past s.
Proof. apply elem_of_cons. Qed.

Lemma stores_wf k sent o s s' : wf s -> stores k sent o s s' -> wf s' /\ past s ⊆ past s'.
Proof.
  intros [Hp Hv Hu] (_ & _ & (v & Hov & Hfresh) & ->).
  split; [|intros x Hx; by apply elem_of_cons; right]. split.
  - intros k' key o' Ho'. apply elem_of_cons. destruct (stored_at_put k o s k' key) as [E|(-> & <- & E)].
    + right. rewrite E in Ho'. by eapply Hp.
    + left. rewrite E in Ho'. by injection Ho' as <-.
  - intros k' o'. rewrite elem_of_past_put. intros [E|Hin]; [|by apply Hv].
    pose proof E as [= -> _]. apply an_object_inj in E as ->. by exists v.
  - intros k' o1 o2. rewrite !elem_of_past_put. intros [E1|H1] [E2|H2] Hkey Hver.
    + pose proof E1 as [= -> _]. apply an_object_inj in E1 as ->. by apply an_object_inj in E2 as ->.
    + pose proof E1 as [= -> _]. apply an_object_inj in E1 as ->. exfalso. apply (Hfresh o2); congruence.
    + pose proof E2 as [= -> _]. apply an_object_inj in E2 as ->. exfalso. apply (Hfresh o1); congruence.
    + by apply Hu.
Qed.

Lemma serves_wf q r s s' : serves q r s s' -> wf s -> wf s' /\ past s ⊆ past s'.
Proof. destruct 1; intros Hs; try (split; [done|by intros ?]); by eapply stores_wf. Qed.

(** What a thread is told, the server has stored. *)
Lemma serves_known q r s s' o :
  wf s -> serves q r s s' -> r = RObject o -> o ∈ past s'.
Proof.
  intros Hs H Hr. destruct H; simplify_eq; try done;
    match goal with Ha : acknowledges _ _ _ |- _ => destruct Ha as [[= ->]|[? ?]]; [|done] end;
    match goal with Hst : stores _ _ _ _ _ |- _ => destruct Hst as (_ & _ & _ & ->) end; apply elem_of_cons; by left.
Qed.

(** * One request *)

Definition known (s : server) (o : client_Object) : Prop := o ∈ past s.

Lemma kept_data (o o' : Secret) : kept KSecret o = kept KSecret o' -> content (sec_Data o) = content (sec_Data o').
Proof. intros E. pose proof (f_equal sec_Data E) as Ed. by injection Ed. Qed.

Lemma put_kept k o s key k2 :
  (forall e : k = KSecret, key = key_of k o -> forall cur, stored_at KSecret s key = Some cur ->
     has_value (content (sec_Data cur)) k2 ->
     content (sec_Data (eq_rect k KObj o KSecret e)) !! k2 = content (sec_Data cur) !! k2) ->
  secret_kept key k2 s (put k o s).
Proof.
  intros H cur Hcur Hv. fold (stored_at KSecret s key) in Hcur.
  destruct (stored_at_put k o s KSecret key) as [E|(Hkey & e & E)].
  - exists cur. split; [|done]. unfold stored_at in *. by rewrite E.
  - exists (eq_rect k KObj o KSecret e). split; [exact E|]. by apply H.
Qed.

(** A request in order keeps every value that is not released, even when it was
    computed from a state of the Secret that was read long ago. *)
Lemma serves_keeps q r s s' key k :
  wf s -> request_ok (known s) q -> serves q r s s' -> ~ may_change (known s) key k ->
  secret_kept key k s s'.
Proof.
  intros Hs Hok H Hno. unfold secret_kept. destruct H as
    [| | |k' o o' r s s' Hcur Hst Ha|k' o o' cur r s s' Hcur Hv Hst Ha|k' o o' cur r s s' Hcur Hst Ha|]; try reflexivity;
    destruct Hst as (Hk & Hkey & _ & ->); apply put_kept; intros e Hkk cur2 Hcur2 Hhas; subst k'; simpl.
  - rewrite Hkk, Hkey in Hcur2. by rewrite Hcur in Hcur2.
  - rewrite Hkk, Hkey in Hcur2. rewrite Hcur in Hcur2. injection Hcur2 as <-.
    destruct Hok as (base & Hb & Hbk & Hbv & Hval).
    assert (base = cur) as ->.
    { apply (wf_unique s Hs KSecret); [exact Hb|by eapply wf_past|..].
      - rewrite Hbk. apply (objects_key (ApiLaws:=Memory.api_laws)) in Hcur. exact (eq_sym Hcur).
      - destruct Hv as [Hv|Hv]; [|by rewrite <- Hv].
        destruct (wf_version s Hs KSecret base Hb) as [v Hbv2]. simpl in Hbv2, Hv. congruence. }
    rewrite (kept_data _ _ Hk). destruct (Hval k Hhas) as [?|Hm]; [done|]. exfalso. apply Hno.
    by rewrite Hkk, Hkey.
  - rewrite Hkk, Hkey in Hcur2. rewrite (kept_data _ _ Hk). simpl in *.
    assert (stored_at KSecret s (key_of KSecret cur) = Some cur) as Hc.
    { pose proof (objects_key (ApiLaws:=Memory.api_laws) KSecret _ _ _ Hcur) as Hck. by rewrite Hck. }
    congruence.
Qed.

(** * Runs *)

(** The server's store is in order, and a thread was only told what was stored. *)
Record sound (c : config) : Prop := {
  sound_wf : wf (srv c);
  sound_told th o : th ∈ threads c -> RObject o ∈ th_received th -> o ∈ past (srv c)
}.

Lemma told_received j t received o : told (played deep_equal j t received) o -> RObject o ∈ received.
Proof.
  intros [q Hin]. unfold played in Hin.
  destruct (pl_grows _ (playable_job deep_equal j) (mkScript received [] None, t)) as (l & El & Fl).
  simpl in *. rewrite app_nil_r in El. rewrite El in Hin. rewrite Fl. apply elem_of_app. left.
  apply list_elem_of_fmap. exists (q, RObject o). split; [done|]. by apply elem_of_reverse.
Qed.

Lemma waiting_ok c th q :
  sound c -> th ∈ threads c -> waits_for th = Some q -> request_ok (known (srv c)) q.
Proof.
  intros Hs Hth Hq. eapply request_ok_mono; [|by apply (job_good deep_equal); left].
  intros o Ho. by apply (sound_told c Hs th), (told_received (th_job th) (th_tape th)).
Qed.

Lemma elem_of_insert_inv {A} (l : list A) i y z : z ∈ <[i:=y]> l -> z = y \/ z ∈ l.
Proof.
  intros [j Hj]%list_elem_of_lookup. rewrite list_lookup_insert_Some in Hj.
  destruct Hj as [(_ & <- & _)|[_ Hj]]; [by left|right]. by apply list_elem_of_lookup_2 in Hj.
Qed.

(** What the theorems assume of everybody else: they write through the same
    server. *)
Definition others_wf : Prop := forall s s', others s s' -> wf s -> wf s' /\ past s ⊆ past s'.

Lemma step_sound c c' : others_wf -> concurrent_step c c' -> sound c -> sound c' /\ past (srv c) ⊆ past (srv c').
Proof.
  intros Ho H [Hw Ht]. destruct H as [s ths j t Hb|s s' ths i th q r Hth Hq Hr|s ths1 th ths2|s s' ths Hoth]; simpl in *.
  - split; [|done]. split; [done|]. intros th o [->|Hin]%elem_of_cons; [by intros ?%elem_of_nil|by apply (Ht th)].
  - destruct (serves_wf _ _ _ _ Hr Hw) as [Hw' Hp]. split; [|done]. split; [done|]. simpl.
    intros th' o [->|Hin]%elem_of_insert_inv Hrec; [|by apply Hp, (Ht th')].
    apply elem_of_app in Hrec as [Hrec|Hrec%list_elem_of_singleton].
    + apply Hp, (Ht th); [by apply list_elem_of_lookup_2 in Hth|done].
    + by apply (serves_known q r s s' o Hw Hr).
  - split; [|done]. split; [done|]. simpl. intros th' o Hin. apply (Ht th'). rewrite elem_of_app, elem_of_cons. rewrite elem_of_app in Hin. tauto.
  - destruct (Ho s s' Hoth Hw) as [Hw' Hp]. split; [|done]. split; [done|]. simpl. intros th o Hin Hrec.
    by apply Hp, (Ht th).
Qed.

Lemma run_sound c c' :
  others_wf -> rtc concurrent_step c c' -> sound c -> sound c'.
Proof. intros Ho Hrun. induction Hrun; intros Hs; [done|]. apply IHHrun. by eapply step_sound. Qed.

(** A value is kept along a run through states in which nothing may change it. *)
Section keeping.
Context (key : NamespacedName) (k : string) (calm : server -> Prop).
Context (calm_holds : forall s, calm s -> ~ may_change (known s) key k).
Context (calm_serves : forall q r s s', request_ok (known s) q -> serves q r s s' -> wf s -> calm s -> calm s').
Context (others_behave : others_wf).
Context (others_calm : forall s s', others s s' -> calm s -> calm s' /\ secret_kept key k s s').

Lemma step_keeps c c' :
  concurrent_step c c' -> sound c -> calm (srv c) -> calm (srv c') /\ secret_kept key k (srv c) (srv c').
Proof.
  intros H Hs Hc. destruct H as [s ths j t Hb|s s' ths i th q r Hth Hq Hr|s ths1 th ths2|s s' ths Hoth]; simpl in *.
  - split; [done|]. unfold secret_kept. reflexivity.
  - assert (request_ok (known s) q) as Hok.
    { eapply (waiting_ok (mkConfig s ths)); [done| |done]. by apply list_elem_of_lookup_2 in Hth. }
    split; [eapply calm_serves; eauto; by destruct Hs|].
    eapply serves_keeps; [by destruct Hs|done|done|by apply calm_holds].
  - split; [done|]. unfold secret_kept. reflexivity.
  - by apply others_calm.
Qed.

Lemma run_keeps c c' :
  rtc concurrent_step c c' -> sound c -> calm (srv c) -> secret_kept key k (srv c) (srv c').
Proof.
  intros Hrun. induction Hrun as [c|c1 c2 c3 Hstep _ IH]; intros Hs Hc; [unfold secret_kept; reflexivity|].
  destruct (step_keeps _ _ Hstep Hs Hc) as [Hc2 Hv]. unfold secret_kept in *. etrans; [exact Hv|].
  apply IH; [by eapply step_sound|done].
Qed.
End keeping.

(** C1: core secrets are never rotated, whatever runs at the same time.  In every
    run of any number of interleaved reconciles of both controllers, with stale
    reads, lost answers and abandoned reconciles, a value of the core Secret,
    once there, is never changed and never lost, if nobody else does that. *)
Theorem core_secrets_concurrent ns name k c c' :
  others_wf -> (forall s s', others s s' -> secret_kept (coreSecretKey ns name) k s s') ->
  sound c -> rtc concurrent_step c c' ->
  secret_kept (coreSecretKey ns name) k (srv c) (srv c').
Proof.
  intros Ho Hk Hs Hrun. apply (run_keeps _ _ (fun _ => True)); try done; [|by auto].
  intros s _ (oc & _ & E & _). unfold coreSecretKey, secretKey, oauthSecretName in E.
  injection E as _ E. by apply HasSuffix_last_neq in E.
Qed.

(** The client was confidential in every state in which it was ever stored. *)
Definition always_confidential (ns name : string) (s : server) : Prop :=
  forall oc, AnObject KOAuthClient oc ∈ past s -> key_of KOAuthClient oc = mkNamespacedName ns name ->
    Public (oc_Spec oc) = false.

Lemma confidential_serves ns name q r s s' :
  request_ok (known s) q -> serves q r s s' -> wf s -> always_confidential ns name s ->
  always_confidential ns name s'.
Proof.
  intros Hok H Hw Hc. destruct H as
    [| | |k' o o' r s s' Hcur Hst Ha|k' o o' cur r s s' Hcur Hv Hst Ha|k' o o' cur r s s' Hcur Hst Ha|]; try done;
    destruct Hst as (Hk & Hkey & _ & ->); intros oc Hin Hocy; apply elem_of_cons in Hin as [E|Hin]; [|by apply Hc| |by apply Hc| |by apply Hc];
    pose proof E as [= <- _]; apply an_object_inj in E as ->; simpl in *; [done..|].
  assert (oc_Spec o' = oc_Spec cur) as -> by (by apply (f_equal oc_Spec) in Hk).
  apply (Hc cur); [by eapply wf_past|]. rewrite <- Hocy, Hkey. reflexivity.
Qed.

(** C2: client secrets are never rotated, whatever runs at the same time: the
    secret and the digest of a client that was never public stay in every run
    of interleaved reconciles, if everybody else leaves them alone and
    never declares the client public. *)
Theorem client_secrets_concurrent ns name k c c' :
  k ∈ ["client_secret"; "client_secret_digest"] -> others_wf ->
  (forall s s', others s s' -> always_confidential ns name s ->
     always_confidential ns name s' /\ secret_kept (clientSecretKey ns name) k s s') ->
  sound c -> always_confidential ns name (srv c) -> rtc concurrent_step c c' ->
  secret_kept (clientSecretKey ns name) k (srv c) (srv c').
Proof.
  intros Hk Ho Hoth Hs Hc Hrun.
  apply (run_keeps _ _ (always_confidential ns name)); try done; [|by intros; eapply confidential_serves].
  intros s Hconf (oc & Hin & E & Hch). unfold clientSecretKey, secretKey, oauthSecretName in E.
  injection E as -> E%str_app_inj_r. subst name. destruct Hch as [->|[Hp _]].
  - rewrite !elem_of_cons, elem_of_nil in Hk. naive_solver.
  - rewrite (Hconf oc Hin eq_refl) in Hp. done.
Qed.
End concurrency.
