(* ===== verification/Progress.v ===== *)
(** Progress: when requests do not fail, reconciles get through, and the system
    reaches the state it is meant to reach. *)

From S2P Require Import Prelude GoSort GoJson GoCrypto ApiTypes Secrets Resources Render Ingress Cluster OAuthClientController AutheliaController System.

(** * A server that does what it is asked *)

Class Reliable `{ApiLaws} : Prop := {
  Get_found k key c o : find k c key = Some o -> (Get k key c).1 = Ok o;
  Get_missing k key c : find k c key = None -> exists e, (Get k key c).1 = Err e /\ IsNotFound e = true;
  ListAll_ok k c : is_ok (ListAll k c).1 = true;
  Create_ok k o c : managed k = true -> find k c (key_of k o) = None -> is_ok (Create k o c).1 = true;
  Update_ok k o c : managed k = true -> is_Some (find k c (key_of k o)) -> is_ok (Update k o c).1 = true;
  StatusUpdate_ok k o c : is_Some (find k c (key_of k o)) -> is_ok (StatusUpdate k o c).1 = true
}.

#[export] Instance memory_reliable : @Reliable Memory.api Memory.api_laws.
Proof.
  split; unfold find; simpl.
  - intros k key c o E. unfold Memory.get. by rewrite E.
  - intros k key c E. unfold Memory.get. rewrite E. by eexists.
  - done.
  - intros k o c _ E. unfold Memory.create. by rewrite E.
  - intros k o c _ [o0 E]. unfold Memory.update. by rewrite E.
  - intros k o c [o0 E]. unfold Memory.status_update. by rewrite E.
Qed.

(** The computation ends with a value. *)
Definition succeeds {W A} (m : M W A) (w : W) : Prop := is_ok (m w).1 = true.

Lemma succeeds_run {W A} (m : M W A) w : succeeds m w -> exists x w', m w = (Ok x, w').
Proof. unfold succeeds. destruct (m w) as [[x|e|p] w']; [by eauto|done..]. Qed.

Lemma succeeds_bind {W A B} (m : M W A) (f : A -> M W B) w :
  succeeds m w -> (forall x w', m w = (Ok x, w') -> succeeds (f x) w') -> succeeds (m ≫= f) w.
Proof.
  intros Hm Hf. destruct (succeeds_run _ _ Hm) as (x & w' & E). unfold succeeds, mbind, M_bind. rewrite E.
  by apply Hf.
Qed.

Section progress.
Context {API : Api} {APIL : ApiLaws} {REL : Reliable} {OWN : Owners} {OWNL : OwnersLaws}.

Lemma succeeds_on_cluster {A} (m : M cluster A) c (t : entropy) : succeeds m c -> succeeds (on_cluster m) (c, t).
Proof. unfold succeeds, on_cluster. simpl. by destruct (m c). Qed.

(** The object a write starts from. *)
Definition base_object (k : kind) (obj : KObj k) (c : cluster) : KObj k :=
  default obj (find k c (key_of k obj)).

Lemma CreateOrUpdate_succeeds k obj f c t :
  managed k = true -> keeps_key k f ->
  succeeds (f (base_object k obj c)) t -> succeeds (CreateOrUpdate k obj f) (c, t).
Proof.
  intros Hk Hf Hs. unfold succeeds. rewrite CreateOrUpdate_spec by done. unfold try, on_cluster, on_entropy. simpl.
  unfold base_object in Hs. destruct (find k c (key_of k obj)) as [base|] eqn:Eb; simpl in Hs.
  - pose proof (Get_found k _ c base Eb) as Hg.
    destruct (Get_spec k (key_of k obj) c) as (r & E & _). rewrite E in Hg |- *. simpl in Hg. subst r.
    destruct (succeeds_run _ _ Hs) as (o & t' & Eo). unfold mbind, M_bind. simpl. rewrite Eo.
    destruct (DeepEqual k base o); [done|]. simpl.
    pose proof (Update_ok k o c Hk) as Hu. rewrite (Hf _ _ _ _ Eo), (objects_key _ _ _ _ Eb) in Hu.
    specialize (Hu (ex_intro _ _ Eb)). by destruct (Update k o c).
  - destruct (Get_missing k _ c Eb) as (e & Hg & He).
    destruct (Get_spec k (key_of k obj) c) as (r & E & _). rewrite E in Hg |- *. simpl in Hg. subst r. rewrite He.
    destruct (succeeds_run _ _ Hs) as (o & t' & Eo). unfold mbind, M_bind. simpl. rewrite Eo. simpl.
    pose proof (Create_ok k o c Hk) as Hu. rewrite (Hf _ _ _ _ Eo) in Hu. specialize (Hu Eb).
    by destruct (Create k o c).
Qed.

(** * Owner references are not refused *)

Definition accepted (owner_kind : string) (owner m : ObjectMeta) : Prop :=
  exists m', SetControllerReference owner_kind owner m = inl m'.

Lemma accepted_control owner_kind owner m m2 :
  accepted owner_kind owner m -> om_Name m2 = om_Name m -> om_Namespace m2 = om_Namespace m ->
  om_OwnerReferences m2 = om_OwnerReferences m -> exists m', control owner_kind owner m2 = Ok m'.
Proof.
  intros [m' E] Hn Hns Hr. unfold control.
  pose proof (SetControllerReference_refs owner_kind owner m2 m Hn Hns Hr) as Ha. rewrite E in Ha.
  destruct (SetControllerReference owner_kind owner m2) as [m2'|]; [by exists m2'|done].
Qed.

(** * The client controller *)

(** The Secret of the client, if it exists, does not belong to somebody else. *)
Definition client_accepted (c : cluster) (oc : AutheliaOAuthClient) : Prop :=
  accepted "AutheliaOAuthClient" (oc_meta oc) (sec_meta (base_object KSecret (freshSecret oc) c)).

Lemma completeCredentials_succeeds data t :
  bytes_ok t -> 64 <= length t -> succeeds (completeCredentials data) t.
Proof.
  intros Hb Hl. apply (succeeds_bind (W:=entropy)).
  - destruct (empty_at data "client_secret"); [|done]. unfold succeeds, mbind, M_bind.
    by rewrite generateSecret_enough by lia.
  - intros d t' E. assert (bytes_ok t' /\ 16 <= length t') as [Hb' Hl'].
    { destruct (empty_at data "client_secret").
      - unfold mbind, M_bind in E. rewrite generateSecret_enough in E by lia.
        unfold mret, M_ret in E. injection E as _ <-. split; [by apply Forall_drop|rewrite length_drop; lia].
      - unfold mret, M_ret in E. injection E as _ <-. split; [done|lia]. }
    destruct (empty_at d "client_secret_digest"); [|done]. unfold succeeds, mbind, M_bind.
    destruct (hashClientSecret_enough (default "" (d !! "client_secret")) t' Hb' Hl') as (x & -> & _). done.
Qed.

Lemma mutateClientSecret_succeeds oc s t :
  bytes_ok t -> 64 <= length t -> accepted "AutheliaOAuthClient" (oc_meta oc) (sec_meta s) ->
  succeeds (mutateClientSecret oc s) t.
Proof.
  intros Hb Hl Ha. apply (succeeds_bind (W:=entropy)).
  - destruct (Public (oc_Spec oc)); [done|by apply completeCredentials_succeeds].
  - intros d t' _. unfold succeeds, mbind, M_bind, lift.
    destruct (accepted_control _ _ _ (sec_meta (set_secret s (<["app.kubernetes.io/managed-by":="heliop"]>
      (content (om_Labels (sec_meta s)))) d)) Ha) as [m' ->]; done.
Qed.

Lemma client_run_succeeds req c t oc :
  bytes_ok t -> 64 <= length t -> find KOAuthClient c req = Some oc -> client_accepted c oc ->
  succeeds (OAuthClientController.Reconcile req) (c, t).
Proof.
  intros Hb Hl Hoc Ha. unfold succeeds, OAuthClientController.Reconcile, try, on_cluster at 1. simpl.
  pose proof (Get_found KOAuthClient req c oc Hoc) as Hg.
  destruct (Get_spec KOAuthClient req c) as (r & E & _). rewrite E in Hg |- *. simpl in Hg. subst r.
  change (succeeds (_ ← CreateOrUpdate KSecret (freshSecret oc) (mutateClientSecret oc);
    if decide (SecretName (oc_Status oc) <> oauthSecretName oc) then
      _ ← on_cluster (StatusUpdate KOAuthClient (set_SecretName (oauthSecretName oc) oc));
      mret (mkResult 0)
    else mret (mkResult 0)) (c, t)).
  apply succeeds_bind.
  - apply CreateOrUpdate_succeeds; [done|apply mutate_keeps_key|]. by apply mutateClientSecret_succeeds.
  - intros x [c1 t1] E1. case_decide; [|done]. apply succeeds_bind; [|done].
    apply succeeds_on_cluster, StatusUpdate_ok.
    assert (find KOAuthClient c1 req = Some oc) as Hoc1.
    { pose proof (CreateOrUpdate_step KSecret (freshSecret oc) (mutateClientSecret oc) c t eq_refl
        (mutate_keeps_key oc) (mutate_no_panic oc)) as Hs. rewrite E1 in Hs.
      destruct Hs as (_ & Ht & _). simpl in Ht. rewrite Ht; [done|by left]. }
    change (key_of KOAuthClient (set_SecretName (oauthSecretName oc) oc)) with (key_of KOAuthClient oc).
    rewrite (objects_key _ _ _ _ Hoc). by eexists.
Qed.

(** A reconcile of a client gets through.  When requests do not fail, the
    client's Secret belongs to nobody else and sixty-four bytes of entropy are
    left, the reconcile succeeds. *)
Theorem Reconcile_client_succeeds req c t oc :
  bytes_ok t -> 64 <= length t -> find KOAuthClient c req = Some oc -> client_accepted c oc ->
  exists c' t', OAuthClientController.Reconcile req (c, t) = (Ok (mkResult 0), (c', t')).
Proof.
  intros Hb Hl Hoc Ha. destruct (succeeds_run _ _ (client_run_succeeds req c t oc Hb Hl Hoc Ha)) as (x & [c' t'] & E).
  exists c', t'. pose proof (Reconcile_effect req c t) as Hr. rewrite E in Hr |- *.
  destruct Hr as [(_ & _ & [[Hr _]|[e [=]]])|(oc0 & _ & [[_ [e [=]]]|(st & c1 & _ & Hr)])]; [by injection Hr as ->|].
  by destruct Hr as [[_ [e [=]]]|[(oc' & _ & [[= ->]|[e [=]]])|(_ & [= ->] & _)]].
Qed.

(** * All clients *)

(** The clients [keys] are reconciled one after the other. *)
Inductive rounds : list NamespacedName -> cluster -> cluster -> Prop :=
  | rounds_nil c : rounds [] c c
  | rounds_cons key keys c t r c1 t' c2 :
      bytes_ok t -> 64 <= length t -> OAuthClientController.Reconcile key (c, t) = (r, (c1, t')) ->
      rounds keys c1 c2 -> rounds (key :: keys) c c2.

(** The client and its Secret. *)
Definition same_client (key : NamespacedName) (c c' : cluster) : Prop :=
  find KOAuthClient c' key = find KOAuthClient c key /\
  find KSecret c' (clientSecretKey (nn_Namespace key) (nn_Name key))
  = find KSecret c (clientSecretKey (nn_Namespace key) (nn_Name key)).

Lemma secretKey_of c key oc :
  find KOAuthClient c key = Some oc -> secretKey oc = clientSecretKey (nn_Namespace key) (nn_Name key).
Proof. intros Hoc. by rewrite <- (objects_key KOAuthClient c key oc Hoc). Qed.

Lemma clientSecretKey_inj k1 k2 :
  clientSecretKey (nn_Namespace k1) (nn_Name k1) = clientSecretKey (nn_Namespace k2) (nn_Name k2) -> k1 = k2.
Proof.
  destruct k1 as [n1 m1], k2 as [n2 m2]. intros E. injection E as -> E. simpl in E.
  by apply str_app_inj_r in E as ->.
Qed.

Lemma round_frame key c t r c1 t' key' :
  bytes_ok t -> OAuthClientController.Reconcile key (c, t) = (r, (c1, t')) -> key' <> key ->
  same_client key' c c1 /\
  forall k x, k <> KOAuthClient -> (k = KSecret -> forall kk, x <> clientSecretKey (nn_Namespace kk) (nn_Name kk)) ->
    find k c1 x = find k c x.
Proof.
  intros Hb E Hne. pose proof (Reconcile_client_frame key c t r c1 t' Hb E) as [Hf _].
  split; [split|].
  - apply Hf; [by left|by right].
  - apply Hf; [|by left]. intros oc Hoc. right. rewrite (secretKey_of _ _ _ Hoc).
    by intros ?%clientSecretKey_inj.
  - intros k x Hk Hx. apply Hf; [|by left]. intros oc Hoc.
    destruct (decide (k = KSecret)) as [->|]; [right|by left]. rewrite (secretKey_of _ _ _ Hoc). by apply Hx.
Qed.

(** What is not a client, and not a client's Secret, does not change. *)
Lemma rounds_frame keys c c' k x :
  rounds keys c c' -> k <> KOAuthClient ->
  (k = KSecret -> forall kk, x <> clientSecretKey (nn_Namespace kk) (nn_Name kk)) -> find k c' x = find k c x.
Proof.
  induction 1 as [c|key keys c t r c1 t' c2 Hb Hl E Hr IH]; intros Hk Hx; [done|]. rewrite IH by done.
  pose proof (Reconcile_client_frame key c t r c1 t' Hb E) as [Hf _].
  apply Hf; [|by left]. intros oc Hoc.
  destruct (decide (k = KSecret)) as [->|]; [right|by left]. rewrite (secretKey_of _ _ _ Hoc). by apply Hx.
Qed.

Lemma rounds_other keys c c' key : rounds keys c c' -> key ∉ keys -> same_client key c c'.
Proof.
  induction 1 as [c|key1 keys c t r c1 t' c2 Hb Hl E Hr IH]; intros Hn; [done|].
  rewrite not_elem_of_cons in Hn. destruct Hn as [Hne Hn]. destruct (IH Hn) as [H1 H2].
  destruct (round_frame key1 c t r c1 t' key Hb E Hne) as [[H3 H4] _]. split; congruence.
Qed.

Lemma same_client_accepted key c c' oc :
  same_client key c c' -> find KOAuthClient c key = Some oc -> client_accepted c oc -> client_accepted c' oc.
Proof.
  intros [_ Hs] Hoc. unfold client_accepted, base_object.
  change (key_of KSecret (freshSecret oc)) with (secretKey oc). by rewrite (secretKey_of _ _ _ Hoc), Hs.
Qed.

(** Reconciled, and from then on readable for the Authelia controller. *)
Definition settled (key : NamespacedName) (oc : AutheliaOAuthClient) (c : cluster) : Prop :=
  exists oc', find KOAuthClient c key = Some oc' /\ oc_Spec oc' = oc_Spec oc /\
    SecretName (oc_Status oc') = oauthSecretName oc' /\ is_Some (ready_client c oc').

Lemma settled_same key oc c c' : same_client key c c' -> settled key oc c -> settled key oc c'.
Proof.
  intros [H1 H2] (oc' & Hoc & Hsp & Hn & Hr). exists oc'. rewrite H1. split_and!; [done..|].
  unfold ready_client, digest_in in *. rewrite (digestSecret_reported oc' oc' Hn eq_refl) in *.
  by rewrite (secretKey_of _ _ _ Hoc), H2 in *.
Qed.


Lemma settled_now key c t r c' t' oc :
  bytes_ok t -> find KOAuthClient c key = Some oc -> OAuthClientController.Reconcile key (c, t) = (Ok r, (c', t')) ->
  settled key oc c'.
Proof.
  intros Hb Hoc E. destruct (Reconcile_client_inv key c t r c' t' oc Hb E Hoc)
    as (st & oc' & Hst & (_ & _ & _ & Hcd) & Hoc' & Hsp & Hkey & Hname). pose proof Hkey as Hkey'. injection Hkey' as _ Hn.
  exists oc'. split_and!; [done|done|by unfold oauthSecretName in *; rewrite Hn|].
  unfold ready_client, digest_in. rewrite Hsp, (digestSecret_reported oc oc' Hname Hkey), Hst.
  destruct (Public (oc_Spec oc)) eqn:Hp; [by eexists|]. rewrite decide_False; [by eexists|].
  by apply (client_data_complete oc _ _ Hp Hcd).
Qed.

Lemma clients_settle keys c c' :
  rounds keys c c' -> NoDup keys ->
  (forall key, key ∈ keys -> exists oc, find KOAuthClient c key = Some oc /\ client_accepted c oc) ->
  forall key oc, key ∈ keys -> find KOAuthClient c key = Some oc -> settled key oc c'.
Proof.
  induction 1 as [c|key keys c t r c1 t' c2 Hb Hl E Hr IH]; intros Hd Hacc key' oc Hin Hoc; [by apply elem_of_nil in Hin|].
  apply NoDup_cons in Hd as [Hnew Hd]. apply elem_of_cons in Hin as [->|Hin].
  - eapply settled_same; [by eapply rounds_other|].
    destruct (Hacc key) as (oc0 & Hoc0 & Ha); [by left|]. assert (oc0 = oc) as -> by congruence.
    destruct (succeeds_run _ _ (client_run_succeeds key c t oc Hb Hl Hoc Ha)) as (x & w & Ew).
    rewrite E in Ew. injection Ew as -> _. by eapply settled_now.
  - assert (forall key', key' ∈ keys -> same_client key' c c1) as Hsame
      by (intros k1 H1; eapply (round_frame key c t r c1 t'); [done|done|]; by intros ->).
    apply IH; [done| |done|by rewrite (proj1 (Hsame key' Hin))].
    intros k1 H1. destruct (Hacc k1) as (oc1 & Hoc1 & Ha); [by right|].
    exists oc1. split; [by rewrite (proj1 (Hsame k1 H1))|]. by eapply same_client_accepted; eauto.
Qed.

(** * The Authelia controller *)

(** The object [key], if it exists, is not controlled by somebody else. *)
Definition may_own (a : Authelia) (c : cluster) (k : kind) (key : NamespacedName) : Prop :=
  accepted kind_of_owner (au_meta a)
    (default (newMeta (nn_Name key) (nn_Namespace key)) (KMeta k <$> find k c key)).

Lemma may_own_base a c k obj :
  may_own a c k (key_of k obj) -> KMeta k obj = newMeta (om_Name (KMeta k obj)) (om_Namespace (KMeta k obj)) ->
  accepted kind_of_owner (au_meta a) (KMeta k (base_object k obj c)).
Proof.
  unfold may_own, base_object. intros Hm Hn. destruct (find k c (key_of k obj)); [exact Hm|].
  change (accepted kind_of_owner (au_meta a) (newMeta (om_Name (KMeta k obj)) (om_Namespace (KMeta k obj)))) in Hm.
  by rewrite <- Hn in Hm.
Qed.

Lemma may_own_same a c c' k key : find k c' key = find k c key -> may_own a c k key -> may_own a c' k key.
Proof. unfold may_own. by intros ->. Qed.

Lemma pure_mutation_succeeds k a l build f obj c t :
  managed k = true -> pure_mutation k a l build f ->
  KMeta k obj = newMeta (om_Name (KMeta k obj)) (om_Namespace (KMeta k obj)) ->
  may_own a c k (key_of k obj) -> succeeds (CreateOrUpdate k obj f) (c, t).
Proof.
  intros Hk Hf Hn Hm. apply CreateOrUpdate_succeeds; [done|by eapply pure_mutation_keeps_key|].
  unfold succeeds. rewrite (proj2 Hf).
  destruct (accepted_control _ _ _ (set_Labels l (KMeta k (base_object k obj c))) (may_own_base _ _ _ _ Hm Hn))
    as [m' ->]; done.
Qed.

(** The core data can be generated from what the core Secret holds. *)
Context {KEYS : RSA}.
Definition core_entropy (a : Authelia) (c : cluster) (t : entropy) : Prop :=
  succeeds (generatedCoreSecretData (sec_Data (base_object KSecret (freshCoreSecret a) c))) t.

Lemma reconcileCoreSecret_succeeds a c t :
  (ExistingSecret (au_Deployment (au_Spec a)) = "" -> may_own a c KSecret (coreKey a) /\ core_entropy a c t) ->
  succeeds (reconcileCoreSecret a) (c, t).
Proof.
  intros Hx. unfold reconcileCoreSecret. case_decide as He; [done|].
  destruct Hx as [Hm Ht]; [by destruct (decide (ExistingSecret (au_Deployment (au_Spec a)) = ""))|].
  apply succeeds_bind; [|done]. apply CreateOrUpdate_succeeds; [done| |].
  - intros o t1 o' t1' E. by apply mutateCoreSecret_ok in E as [? _].
  - fold (freshCoreSecret a). apply succeeds_bind; [exact Ht|]. intros d t' _. unfold succeeds, mbind, M_bind, lift.
    pose proof (may_own_base a c KSecret (freshCoreSecret a) Hm eq_refl) as Ha.
    match goal with |- context [control _ _ ?m] => destruct (accepted_control _ _ _ m Ha) as [m' ->]; done end.
Qed.

Lemma reconcileDataPVC_succeeds a c t : succeeds (reconcileDataPVC a) (c, t).
Proof.
  unfold reconcileDataPVC. destruct (VolumeClaimTemplate _) as [template|]; [|done].
  unfold succeeds, try, on_cluster at 1. simpl.
  set (key := mkNamespacedName (au_Namespace a) (dataPVCName a)).
  destruct (Get_spec KPersistentVolumeClaim key c) as (r & E & _).
  destruct (find KPersistentVolumeClaim c key) as [p|] eqn:Ep.
  - pose proof (Get_found _ _ _ _ Ep) as Hg. rewrite E in Hg |- *. simpl in Hg. by subst r.
  - destruct (Get_missing _ _ _ Ep) as (e & Hg & He). rewrite E in Hg |- *. simpl in Hg. subst r. rewrite He.
    apply (succeeds_bind (on_cluster (Create KPersistentVolumeClaim (buildDataPVC a template)))); [|done].
    apply succeeds_on_cluster, Create_ok; [done|exact Ep].
Qed.

Lemma updateStatus_succeeds a ready ids domains c t :
  is_Some (find KAuthelia c (key_of KAuthelia a)) -> succeeds (updateStatus a ready ids domains) (c, t).
Proof.
  intros Ha. apply succeeds_bind; [|done]. by apply succeeds_on_cluster, StatusUpdate_ok.
Qed.

(** The objects of the Authelia do not belong to somebody else, and the key
    material of the core Secret can be drawn from [t]. *)
Record authelia_accepted (a : Authelia) (c : cluster) (t : entropy) : Prop := {
  aa_exists : is_Some (find KAuthelia c (key_of KAuthelia a));
  aa_core : ExistingSecret (au_Deployment (au_Spec a)) = "" -> may_own a c KSecret (coreKey a) /\ core_entropy a c t;
  aa_config : may_own a c KConfigMap (objectKey a (configMapName a));
  aa_service : may_own a c KService (objectKey a (au_Name a));
  aa_deployment : may_own a c KDeployment (objectKey a (au_Name a))
}.

Ltac next_step H :=
  apply succeeds_bind;
  [|let x := fresh "x" in let c' := fresh "c" in let t' := fresh "t" in let E := fresh "E" in let T := fresh "T" in
    intros x [c' t'] E; pose proof H as T; rewrite E in T; destruct T as (_ & T & _); simpl in T].

Lemma applyConfig_succeeds a clients missing domains rendered c t :
  authelia_accepted a c t -> succeeds (applyConfig a clients missing domains rendered) (c, t).
Proof.
  intros [Ha Hcore Hcm Hsvc Hdep]. unfold applyConfig.
  next_step (reconcileCoreSecret_ok a c t); [by apply reconcileCoreSecret_succeeds|].
  next_step (reconcileConfigMap_ok a rendered c0 t0).
  { apply succeeds_bind; [|done]. eapply (pure_mutation_succeeds KConfigMap); [done|apply pure_configmap|done|].
    eapply may_own_same; [|exact Hcm]. through. done. }
  next_step (reconcileService_ok a c1 t1).
  { apply succeeds_bind; [|done]. eapply (pure_mutation_succeeds KService); [done|apply pure_service|done|].
    eapply may_own_same; [|exact Hsvc]. through. done. }
  next_step (reconcileDataPVC_ok a c2 t2); [by apply reconcileDataPVC_succeeds|].
  next_step (reconcileDeployment_ok a (negb (bool_decide (clients = []))) (configChecksum rendered) c3 t3).
  { apply succeeds_bind; [|done]. eapply (pure_mutation_succeeds KDeployment); [done|apply pure_deployment|done|].
    eapply may_own_same; [|exact Hdep]. through. done. }
  apply succeeds_bind; [|done]. apply updateStatus_succeeds. through. exact Ha.
Qed.

(** * Reading succeeds *)

Context {RANGE : MapRange}.

Lemma clientSecretDigest_succeeds oc c : succeeds (clientSecretDigest oc) c.
Proof.
  unfold succeeds, clientSecretDigest, try. destruct (find KSecret c (digestSecret oc)) as [s|] eqn:Es.
  - pose proof (Get_found _ _ _ _ Es) as Hg. destruct (Get KSecret (digestSecret oc) c) as [r c']. simpl in Hg. by subst r.
  - destruct (Get_missing _ _ _ Es) as (e & Hg & He).
    destruct (Get KSecret (digestSecret oc) c) as [r c']. simpl in Hg. subst r. by rewrite He.
Qed.

Lemma collect_loop_succeeds a items c : succeeds (collect_loop a items) c.
Proof.
  revert c. induction items as [|oc items IH]; intros c; [done|]. cbn [collect_loop].
  destruct (clientTargets oc a); simpl; [|apply IH].
  destruct (Public (oc_Spec oc)).
  - apply succeeds_bind; [apply IH|]. by intros [].
  - apply succeeds_bind; [apply clientSecretDigest_succeeds|]. intros d c1 _.
    case_decide; (apply succeeds_bind; [apply IH|]; by intros []).
Qed.

Lemma collectClients_succeeds a c : succeeds (collectClients a) c.
Proof. apply succeeds_bind; [apply (ListAll_ok KOAuthClient)|]. intros items c1 _. apply collect_loop_succeeds. Qed.

Lemma collectIngressRules_succeeds c : succeeds collectIngressRules c.
Proof.
  apply succeeds_bind; [apply (ListAll_ok KIngress)|]. intros items c1 _.
  apply succeeds_bind; [unfold succeeds, lift; by rewrite all_rules_eq|]. intros rules c2 E.
  unfold lift in E. rewrite all_rules_eq in E. injection E as <- _.
  apply succeeds_bind; [unfold succeeds, lift; by rewrite sorted_rules_domains|done].
Qed.

Lemma reads_result {A} (m : M cluster A) c (P : A -> Prop) :
  reads m c P -> succeeds m c -> exists x, m c = (Ok x, c) /\ P x.
Proof. intros (r & E & Hr) Hs. unfold succeeds in Hs. rewrite E in Hs |- *. destruct r; eauto; done. Qed.

Context {SORT : UnstableSort} {YAML : Yaml}.

(** The configuration of the Authelia is a JSON object, and can be encoded. *)
Definition renderable (a : Authelia) : Prop :=
  (exists base, parseAdditionalConfig (Settings (au_Spec a)) = Ok (Some base)) /\
  forall root, is_Some (match yaml_Marshal root with inl out => Some out | inr _ => None end).

Lemma renderable_renders a clients rules : renderable a -> exists rendered, render a clients rules = Ok rendered.
Proof.
  intros [[base Hb] Hy]. unfold render. rewrite renderConfig_eq, Hb. unfold encode.
  match goal with |- context [yaml_Marshal ?r] => destruct (Hy r) as [out Ho]; destruct (yaml_Marshal r); [by eexists|done] end.
Qed.

(** A reconcile of an Authelia gets through.  When requests do not fail, none
    of its objects is controlled by somebody else, the configuration is an
    object and there is entropy for the missing core values, the reconcile
    succeeds. *)
Theorem Reconcile_authelia_succeeds req c t a :
  find KAuthelia c req = Some a -> authelia_accepted a c t -> renderable a ->
  exists res c' t', AutheliaController.Reconcile req (c, t) = (Ok res, (c', t')).
Proof.
  intros Ha Hacc Hren. pose proof (Reconcile_cases req c t) as Hr.
  destruct (Get_spec KAuthelia req c) as (r & Hget & _). pose proof (Get_found KAuthelia req c a Ha) as Hg.
  rewrite Hget in Hg. simpl in Hg. subst r.
  destruct (reads_result _ _ _ (collectClients_reads a c) (collectClients_succeeds a c)) as ([clients missing] & E1 & _).
  destruct (reads_result _ _ _ (collectIngressRules_reads c) (collectIngressRules_succeeds c)) as ([rules domains] & E2 & _).
  destruct (renderable_renders a clients rules Hren) as [rendered Er]. unfold render in Er.
  destruct (succeeds_run _ _ (applyConfig_succeeds a clients missing domains rendered c t Hacc)) as (res & [c' t'] & E3).
  exists res, c', t'. unfold AutheliaController.Reconcile, try, on_cluster at 1. simpl. rewrite Hget.
  unfold mbind at 1, M_bind at 1, on_cluster at 1. simpl. rewrite E1.
  unfold mbind at 1, M_bind at 1, on_cluster at 1. simpl. rewrite E2.
  unfold mbind at 1, M_bind at 1, lift. by rewrite Er.
Qed.

(** * The system converges *)

Lemma client_of_key c key oc : find KOAuthClient c key = Some oc -> key_of KOAuthClient oc = key.
Proof. apply objects_key. Qed.

(** Whether a client targets an Authelia depends on its specification and its
    namespace. *)
Lemma clientTargets_same a oc oc' :
  oc_Spec oc' = oc_Spec oc -> key_of KOAuthClient oc' = key_of KOAuthClient oc -> clientTargets oc' a = clientTargets oc a.
Proof. intros Hs Hk. injection Hk as Hns _. unfold clientTargets. by rewrite Hs, Hns. Qed.

Lemma elem_of_all_objects k c o : o ∈ all_objects k c <-> exists key, find k c key = Some o.
Proof.
  unfold all_objects. rewrite list_elem_of_fmap. split.
  - intros ([key o'] & -> & Hi). exists key. by apply elem_of_map_to_list in Hi.
  - intros [key Hi]. exists (key, o). split; [done|]. by apply elem_of_map_to_list.
Qed.

(** Every client of the Authelia is among [keys], and may have its Secret. *)
Definition all_clients (a : Authelia) (keys : list NamespacedName) (c : cluster) : Prop :=
  (forall key oc, find KOAuthClient c key = Some oc -> clientTargets oc a = true -> key ∈ keys) /\
  (forall key, key ∈ keys -> exists oc, find KOAuthClient c key = Some oc /\ client_accepted c oc).

(** After the rounds a client of the Authelia is one that was there before, and it
    is ready. *)
Lemma all_settled a keys c c1 key oc1 :
  rounds keys c c1 -> NoDup keys -> all_clients a keys c ->
  find KOAuthClient c1 key = Some oc1 -> clientTargets oc1 a = true ->
  exists oc, find KOAuthClient c key = Some oc /\ oc_Spec oc1 = oc_Spec oc /\ is_Some (ready_client c1 oc1).
Proof.
  intros Hr Hd [Hall Hacc] Hoc1 Ht. destruct (decide (key ∈ keys)) as [Hin|Hn].
  - destruct (Hacc key Hin) as (oc & Hoc & Ha).
    destruct (clients_settle keys c c1 Hr Hd Hacc key oc Hin Hoc) as (oc2 & Hoc2 & Hsp & _ & Hready).
    assert (oc2 = oc1) as -> by congruence. by exists oc.
  - destruct (rounds_other keys c c1 key Hr Hn) as [Hf _]. rewrite Hf in Hoc1. destruct Hn. by eapply Hall.
Qed.

Lemma none_pending a keys c c1 items :
  rounds keys c c1 -> NoDup keys -> all_clients a keys c -> items ≡ₚ all_objects KOAuthClient c1 ->
  pending c1 (targeting a items) = [].
Proof.
  intros Hr Hd Hall Hi. unfold pending, targeting. rewrite list_filter_filter.
  apply elem_of_nil_inv. intros oc1 [[Hn Ht] Hin]%list_elem_of_filter. apply Hn. rewrite Hi in Hin.
  apply (elem_of_all_objects KOAuthClient) in Hin as [key Hoc1].
  by destruct (all_settled a keys c c1 key oc1 Hr Hd Hall Hoc1 Ht) as (oc & _ & _ & Hready).
Qed.

(** The clients of the Authelia are still there after the rounds. *)
Lemma still_there keys c c1 key oc :
  rounds keys c c1 -> NoDup keys ->
  (forall key, key ∈ keys -> exists oc, find KOAuthClient c key = Some oc /\ client_accepted c oc) ->
  find KOAuthClient c key = Some oc -> exists oc1, find KOAuthClient c1 key = Some oc1 /\ oc_Spec oc1 = oc_Spec oc.
Proof.
  intros Hr Hd Hacc Hoc. destruct (decide (key ∈ keys)) as [Hin|Hn].
  - destruct (clients_settle keys c c1 Hr Hd Hacc key oc Hin Hoc) as (oc1 & Hoc1 & Hsp & _). by exists oc1.
  - exists oc. by rewrite (proj1 (rounds_other keys c c1 key Hr Hn)).
Qed.

Lemma authelia_accepted_rounds a keys c c1 t :
  rounds keys c c1 -> authelia_accepted a c t -> authelia_accepted a c1 t.
Proof.
  intros Hr [Ha Hcore Hcm Hsvc Hdep].
  assert (find KSecret c1 (coreKey a) = find KSecret c (coreKey a) \/
          ExistingSecret (au_Deployment (au_Spec a)) <> "") as Hs.
  { destruct (decide (ExistingSecret (au_Deployment (au_Spec a)) = "")) as [E|]; [left|by right].
    eapply rounds_frame; [done|done|]. intros _ kk. unfold coreKey, coreSecretName. rewrite decide_False by tauto.
    apply secret_names_differ. }
  split.
  - by rewrite (rounds_frame keys c c1 KAuthelia).
  - intros E. destruct Hs as [Hs|]; [|done]. destruct (Hcore E) as [Hm Ht].
    split; [by eapply may_own_same|]. unfold core_entropy, base_object in *.
    change (key_of KSecret (freshCoreSecret a)) with (coreKey a) in *. by rewrite Hs.
  - eapply may_own_same; [by eapply (rounds_frame keys c c1 KConfigMap)|done].
  - eapply may_own_same; [by eapply (rounds_frame keys c c1 KService)|done].
  - eapply may_own_same; [by eapply (rounds_frame keys c c1 KDeployment)|done].
Qed.

(** There is always a next round. *)
Lemma rounds_exist keys c : exists c1, rounds keys c c1.
Proof.
  revert c. induction keys as [|key keys IH]; intros c; [exists c; constructor|].
  destruct (OAuthClientController.Reconcile key (c, replicate 64 0%N)) as [r [c1 t']] eqn:E.
  destruct (IH c1) as [c2 Hr]. exists c2. eapply rounds_cons; [|by rewrite length_replicate|exact E|exact Hr].
  by apply Forall_replicate.
Qed.

Lemma ready_client_spec c oc r :
  ready_client c oc = Some r ->
  spec r = set_ClientID (effectiveClientID oc) (oc_Spec oc) /\ (Public (oc_Spec oc) = false -> secretDigest r <> "").
Proof.
  unfold ready_client. destruct (Public (oc_Spec oc)); [by intros [= <-]|].
  case_decide as Hd; [done|]. by intros [= <-].
Qed.

(** The client as the portal is configured with it. *)
Definition rendered_in (clients : list oidcClient) (oc : AutheliaOAuthClient) : Prop :=
  exists r, r ∈ clients /\ spec r = set_ClientID (effectiveClientID oc) (oc_Spec oc) /\
    (Public (oc_Spec oc) = false -> secretDigest r <> "").

(** C3: the system converges.  Suppose that requests do not fail, that the
    Authelia's additional configuration is absent or parses to an object and the
    result can be encoded ([renderable]), that none of the objects the two
    controllers write is controlled by somebody else, and that there is entropy
    for what has to be generated ([authelia_accepted], [all_clients], and
    [rounds], in which every reconcile of a client has at least 64 bytes).  Then
    one round of reconciles over the clients of the Authelia, in any order, is
    enough: the next reconcile of the Authelia succeeds and does not ask to be
    called again, every object is in place, and the configuration stored has
    every client that targets the Authelia, the confidential ones with a
    digest. *)
Theorem system_converges areq keys c c1 t a :
  find KAuthelia c areq = Some a -> renderable a -> authelia_accepted a c t ->
  all_clients a keys c -> NoDup keys -> rounds keys c c1 ->
  exists clients rules domains rendered c2 t2,
    AutheliaController.Reconcile areq (c1, t) = (Ok (mkResult 0), (c2, t2)) /\
    render a clients rules = Ok rendered /\ applied a clients 0 domains rendered c2 /\
    forall key oc, find KOAuthClient c key = Some oc -> clientTargets oc a = true -> rendered_in clients oc.
Proof.
  intros Ha Hren Hacc Hall Hd Hr. assert (find KAuthelia c1 areq = Some a) as Ha1 by by rewrite (rounds_frame keys c c1 KAuthelia).
  destruct (Reconcile_authelia_succeeds areq c1 t a Ha1) as (res & c2 & t2 & E); [by eapply authelia_accepted_rounds|done|].
  destruct (Reconcile_applied _ _ _ _ _ _ _ E Ha1) as (clients & missing & rules & domains & rendered & Hin & Hx & Happ & ->).
  destruct Hin as [(items & Hi & -> & ->) _].
  pose proof (none_pending a keys c c1 items Hr Hd Hall Hi) as Hp. rewrite Hp in *.
  eexists _, rules, domains, rendered, c2, t2. split_and!; [exact E|exact Hx|exact Happ|].
  intros key oc Hoc Ht. destruct (still_there keys c c1 key oc Hr Hd (proj2 Hall) Hoc) as (oc1 & Hoc1 & Hsp).
  assert (key_of KOAuthClient oc1 = key_of KOAuthClient oc) as Hkey
    by (by rewrite (client_of_key _ _ _ Hoc), (client_of_key _ _ _ Hoc1)).
  pose proof (clientTargets_same a oc oc1 Hsp Hkey) as Ht1. rewrite Ht in Ht1.
  destruct (all_settled a keys c c1 key oc1 Hr Hd Hall Hoc1 Ht1) as (_ & _ & _ & [r Hready]). exists r. split.
  - apply list_elem_of_omap. exists oc1. split; [|done]. unfold targeting. apply list_elem_of_filter. split; [done|].
    rewrite Hi. apply (elem_of_all_objects KOAuthClient). by exists key.
  - apply ready_client_spec in Hready as [-> Hdig]. injection Hkey as _ Hn. unfold effectiveClientID in *.
    rewrite Hsp, Hn in *. done.
Qed.
End progress.
