(* ===== verification/Watches.v ===== *)
(** What the controllers are registered for: the [SetupWithManager] methods and
    the API group.

    Which requests a change of an object makes: for the resource itself, for the
    owner of an owned object, and for what the mapping functions of the Authelia
    controller return.  How an owner is found ([EnqueueRequestForOwner]) is code of
    controller-runtime, a parameter with its documented behaviour. *)

From S2P Require Import Prelude GoSort ApiTypes Ingress Cluster OAuthClientController AutheliaController.

(** * The API group *)

Record GroupVersion := mkGroupVersion { gv_Group : string; gv_Version : string }.
Definition SchemeGroupVersion : GroupVersion := mkGroupVersion "authelia.snosr.se" "v1alpha1".

(** [scheme.Builder]: the group and the types registered with it. *)
Record Builder := mkBuilder { sb_GroupVersion : GroupVersion; sb_types : list string }.
Definition Register (types : list string) (b : Builder) : Builder := mkBuilder (sb_GroupVersion b) (sb_types b ++ types).

(** [SchemeBuilder] after the [init] functions of the package. *)
Definition register_Authelia : Builder -> Builder := Register ["Authelia"; "AutheliaList"].
Definition register_AutheliaOAuthClient : Builder -> Builder := Register ["AutheliaOAuthClient"; "AutheliaOAuthClientList"].
Definition SchemeBuilder : Builder :=
  register_AutheliaOAuthClient (register_Authelia (mkBuilder SchemeGroupVersion [])).

(** * Controllers *)

Inductive mapping := MapClientToAuthelia | MapIngressToAuthelia.

(** What is handed to [ctrl.NewControllerManagedBy(mgr)]. *)
Record controller := mkController {
  ctl_Named : string;
  ctl_For : kind;
  ctl_Owns : list kind;
  ctl_Watches : list (kind * mapping)
}.

Definition AutheliaReconciler_SetupWithManager : controller :=
  mkController "authelia" KAuthelia [KDeployment; KService; KConfigMap; KSecret]
    [(KOAuthClient, MapClientToAuthelia); (KIngress, MapIngressToAuthelia)].

Definition AutheliaOAuthClientReconciler_SetupWithManager : controller :=
  mkController "autheliaoauthclient" KOAuthClient [KSecret] [].

(** The name of a resource type in owner references. *)
Definition kind_name (k : kind) : string :=
  match k with
  | KAuthelia => "Authelia" | KOAuthClient => "AutheliaOAuthClient" | KIngress => "Ingress"
  | KSecret => "Secret" | KConfigMap => "ConfigMap" | KService => "Service"
  | KPersistentVolumeClaim => "PersistentVolumeClaim" | KDeployment => "Deployment"
  end.

(** [handler.EnqueueRequestForOwner] with [OnlyControllerOwner]: the requests for
    the owner of the given kind. *)
Class OwnerHandler := owner_requests : string -> ObjectMeta -> list NamespacedName.

(** The controller of the object is the one reference marked so. *)
Definition controlled_by (owner_kind owner_name : string) (m : ObjectMeta) : Prop :=
  exists ref, ref ∈ om_OwnerReferences m /\ or_Controller ref = true /\ or_Kind ref = owner_kind /\
    or_Name ref = owner_name /\ forall ref', ref' ∈ om_OwnerReferences m -> or_Controller ref' = true -> ref' = ref.

Class OwnerHandlerLaws `{OwnerHandler} : Prop :=
  owner_requests_spec k name m : controlled_by k name m -> owner_requests k m = [mkNamespacedName (om_Namespace m) name].

Section routing.
Context {API : Api} {RANGE : MapRange} {HANDLER : OwnerHandler}.

Definition run_mapping (f : mapping) (obj : client_Object) : M cluster (list NamespacedName) :=
  match f with
  | MapClientToAuthelia => mret (mapClientToAuthelia obj)
  | MapIngressToAuthelia => mapIngressToAuthelia obj
  end.

(** The mapping functions registered for the kind, one after the other. *)
Fixpoint run_watches (ws : list (kind * mapping)) (k : kind) (obj : client_Object) : M cluster (list NamespacedName) :=
  match ws with
  | [] => mret []
  | (k', f) :: ws' =>
    reqs ← (if decide (k' = k) then run_mapping f obj else mret []);
    rest ← run_watches ws' k obj;
    mret (reqs ++ rest)
  end.

(** The requests a change of [obj] makes for a controller. *)
Definition requests_for (ctl : controller) (obj : client_Object) : M cluster (list NamespacedName) :=
  match obj with
  | AnObject k o =>
    let self := if decide (ctl_For ctl = k) then [key_of k o] else [] in
    let owner := if decide (k ∈ ctl_Owns ctl) then owner_requests (kind_name (ctl_For ctl)) (KMeta k o) else [] in
    reqs ← run_watches (ctl_Watches ctl) k obj;
    mret (self ++ owner ++ reqs)
  end.
End routing.

(** * No event is lost *)

Section complete.
Context {API : Api} {APIL : ApiLaws} {OWN : Owners} {RANGE : MapRange}.
Context {HANDLER : OwnerHandler} {HANDLERL : OwnerHandlerLaws}.

(** Anything a reconcile of [a] depends on, or put there: the Authelia itself, an
    object it controls, a client that targets it, an Ingress that opts in. *)
Inductive concerns (a : Authelia) : client_Object -> Prop :=
  | concerns_self a' : key_of KAuthelia a' = key_of KAuthelia a -> concerns a (AnObject KAuthelia a')
  | concerns_owned k (o : KObj k) :
      k ∈ [KDeployment; KService; KConfigMap; KSecret] -> om_Namespace (KMeta k o) = au_Namespace a ->
      controlled_by "Authelia" (au_Name a) (KMeta k o) -> concerns a (AnObject k o)
  | concerns_client oc : au_Name a <> "" -> clientTargets oc a = true -> concerns a (AnObject KOAuthClient oc)
  | concerns_ingress ing : hasRuleAnnotations ing = true -> concerns a (AnObject KIngress ing).

Lemma run_watches_none ws k obj (c : cluster) :
  (forall p, p ∈ ws -> p.1 <> k) -> run_watches ws k obj c = (Ok [], c).
Proof.
  induction ws as [|[k' f] ws IH]; intros Hn; [done|]. cbn [run_watches].
  assert (k' <> k) as Hk by (apply (Hn (k', f)); left). rewrite decide_False by done.
  unfold mbind, M_bind, mret, M_ret. rewrite IH; [done|]. intros p Hp. apply Hn. by right.
Qed.

(** A mapping function that failed to list the Authelias. *)
Definition list_failed (c : cluster) : Prop := exists e, (ListAll KAuthelia c).1 = Err e.

Lemma mapIngressToAuthelia_all ing a c :
  hasRuleAnnotations ing = true -> a ∈ all_objects KAuthelia c ->
  exists reqs, mapIngressToAuthelia (AnObject KIngress ing) c = (Ok reqs, c) /\
    (key_of KAuthelia a ∈ reqs /\ ~ list_failed c \/ reqs = [] /\ list_failed c).
Proof.
  intros Hh Ha. unfold mapIngressToAuthelia. rewrite Hh. simpl. unfold try, list_failed.
  destruct (List_spec KAuthelia c) as (r & -> & Hr). destruct r as [items|e|p]; [..|done].
  - eexists. split; [reflexivity|]. left. split; [|by intros [e He]].
    rewrite <- Hr in Ha. apply list_elem_of_fmap. by exists a.
  - eexists. split; [reflexivity|]. right. split; [done|]. by eexists.
Qed.

(** The change of an Ingress, while the Authelias cannot be listed. *)
Definition lost (obj : client_Object) (c : cluster) : Prop :=
  (exists ing, obj = AnObject KIngress ing) /\ list_failed c.

Lemma not_lost k (o : KObj k) c : k <> KIngress -> ~ lost (AnObject k o) c.
Proof. intros Hk [[ing [= E _]] _]. done. Qed.

(** C15: which events reach an Authelia.  When anything that concerns an Authelia of
    the cluster changes, the registered watches enqueue a request for that
    Authelia, with one exception: the change of an Ingress makes no request at
    all while the Authelias cannot be listed. *)
Theorem events_reach_authelia a obj c :
  a ∈ all_objects KAuthelia c -> concerns a obj ->
  exists reqs, requests_for AutheliaReconciler_SetupWithManager obj c = (Ok reqs, c) /\
    (key_of KAuthelia a ∈ reqs /\ ~ lost obj c \/ reqs = [] /\ lost obj c).
Proof.
  intros Ha Hc. destruct Hc as [a' Hk|k o Hk Hns Hown|oc Hne Ht|ing Hh]; unfold requests_for, mbind, M_bind.
  - rewrite run_watches_none by (intros p Hp; repeat (apply elem_of_cons in Hp as [->|Hp]; [done|]); by apply elem_of_nil in Hp).
    eexists. split; [reflexivity|]. left. split; [|by apply not_lost]. simpl. rewrite Hk. left.
  - assert (k <> KOAuthClient /\ k <> KIngress) as [H1 H2]
      by (split; intros ->; rewrite !elem_of_cons, elem_of_nil in Hk; intuition discriminate).
    rewrite run_watches_none by (intros p Hp; repeat (apply elem_of_cons in Hp as [->|Hp]; [done|]); by apply elem_of_nil in Hp).
    eexists. split; [reflexivity|]. left. split; [|by apply not_lost]. rewrite (decide_True _ _ Hk). apply elem_of_app. right. apply elem_of_app. left.
    change (kind_name (ctl_For AutheliaReconciler_SetupWithManager)) with "Authelia".
    rewrite (owner_requests_spec _ _ _ Hown), Hns. by apply list_elem_of_singleton.
  - eexists. split; [reflexivity|]. left. split; [|by apply not_lost]. simpl. rewrite app_nil_r.
    by apply client_routing.
  - destruct (mapIngressToAuthelia_all ing a c Hh Ha) as (reqs & E & Hr).
    exists reqs. cbn [AutheliaReconciler_SetupWithManager ctl_Watches run_watches run_mapping].
    unfold mbind, M_bind, mret, M_ret. simpl. simpl in E. rewrite E. rewrite app_nil_r. split; [done|].
    destruct Hr as [[Hr Hn]|[-> Hf]]; [left|right]; (split; [done|]); [by intros [_ ?]|split; [by eexists|done]].
Qed.
End complete.

(** * A concrete handler *)

(** The first controller reference decides. *)
Definition first_controller : OwnerHandler := fun k m =>
  match filter (fun ref => or_Controller ref = true) (om_OwnerReferences m) with
  | ref :: _ => if decide (or_Kind ref = k) then [mkNamespacedName (om_Namespace m) (or_Name ref)] else []
  | [] => []
  end.

Lemma first_controller_laws : @OwnerHandlerLaws first_controller.
Proof.
  intros k name m (ref & Hin & Hc & Hk & Hn & Hu). unfold owner_requests, first_controller.
  destruct (filter _ (om_OwnerReferences m)) as [|ref' refs] eqn:E.
  - assert (ref ∈ filter (fun ref => or_Controller ref = true) (om_OwnerReferences m)) as H by by apply list_elem_of_filter.
    rewrite E in H. by apply elem_of_nil in H.
  - assert (ref' ∈ filter (fun ref => or_Controller ref = true) (om_OwnerReferences m)) as H by (rewrite E; left).
    apply list_elem_of_filter in H as [Hc' Hin']. rewrite (Hu ref' Hin' Hc'). by rewrite decide_True, Hn.
Qed.
