(* ===== verification/Permissions.v ===== *)
(** The rights of the operator: the RBAC markers in front of the controllers, from
    which its role is generated, against the requests the controllers make. *)

From S2P Require Import Prelude GoSort GoJson GoCrypto ApiTypes Secrets Resources Render Ingress Cluster OAuthClientController AutheliaController Script Discipline Watches.

(** * Markers *)

(** [+kubebuilder:rbac:groups=...,resources=...,verbs=...] *)
Record rule := mkRule { ru_group : string; ru_resources : list string; ru_verbs : list string }.

Definition all_verbs : list string := ["get"; "list"; "watch"; "create"; "update"; "patch"; "delete"].

Definition AutheliaReconciler_rbac : list rule :=
  [ mkRule "authelia.snosr.se" ["authelias"] all_verbs;
    mkRule "authelia.snosr.se" ["authelias/status"] ["get"; "update"; "patch"];
    mkRule "authelia.snosr.se" ["authelias/finalizers"] ["update"];
    mkRule "authelia.snosr.se" ["autheliaoauthclients"] ["get"; "list"; "watch"];
    mkRule "apps" ["deployments"] all_verbs;
    mkRule "" ["services"; "configmaps"; "secrets"] all_verbs;
    mkRule "" ["persistentvolumeclaims"] ["get"; "list"; "watch"; "create"];
    mkRule "networking.k8s.io" ["ingresses"] ["get"; "list"; "watch"] ].

Definition AutheliaOAuthClientReconciler_rbac : list rule :=
  [ mkRule "authelia.snosr.se" ["autheliaoauthclients"] all_verbs;
    mkRule "authelia.snosr.se" ["autheliaoauthclients/status"] ["get"; "update"; "patch"];
    mkRule "authelia.snosr.se" ["autheliaoauthclients/finalizers"] ["update"];
    mkRule "" ["secrets"] all_verbs ].

(** The role bound to the operator, generated from the markers
    ([config/rbac/role.yaml]). *)
Definition manager_role : list rule :=
  [ mkRule "" ["configmaps"; "secrets"; "services"] ["create"; "delete"; "get"; "list"; "patch"; "update"; "watch"];
    mkRule "" ["persistentvolumeclaims"] ["create"; "get"; "list"; "watch"];
    mkRule "apps" ["deployments"] ["create"; "delete"; "get"; "list"; "patch"; "update"; "watch"];
    mkRule "authelia.snosr.se" ["autheliaoauthclients"; "authelias"]
      ["create"; "delete"; "get"; "list"; "patch"; "update"; "watch"];
    mkRule "authelia.snosr.se" ["autheliaoauthclients/finalizers"; "authelias/finalizers"] ["update"];
    mkRule "authelia.snosr.se" ["autheliaoauthclients/status"; "authelias/status"] ["get"; "patch"; "update"];
    mkRule "networking.k8s.io" ["ingresses"] ["get"; "list"; "watch"] ].

(** * What a request needs *)

Definition resource (k : kind) : string * string :=
  match k with
  | KAuthelia => ("authelia.snosr.se", "authelias")
  | KOAuthClient => ("authelia.snosr.se", "autheliaoauthclients")
  | KIngress => ("networking.k8s.io", "ingresses")
  | KSecret => ("", "secrets") | KConfigMap => ("", "configmaps") | KService => ("", "services")
  | KPersistentVolumeClaim => ("", "persistentvolumeclaims")
  | KDeployment => ("apps", "deployments")
  end.

(** Group, resource (with a subresource after a slash) and verb. *)
Definition right : Type := string * string * string.
Definition right_on (k : kind) (sub verb : string) : right := ((resource k).1, (resource k).2 +:+ sub, verb).

(** Reads go through a cache that lists and watches. *)
Definition reading (k : kind) : list right := right_on k "" <$> ["get"; "list"; "watch"].

(** An owner reference that blocks the deletion of the owner needs the right to
    update the owner's finalizers. *)
Definition needs (owner : kind) (q : request) : list right :=
  match q with
  | RGet k _ | RList k => reading k
  | RCreate k _ => [right_on k "" "create"; right_on owner "/finalizers" "update"]
  | RUpdate k _ => [right_on k "" "update"; right_on owner "/finalizers" "update"]
  | RStatusUpdate k _ => [right_on k "/status" "update"]
  end.

Definition grants (r : rule) (x : right) : bool :=
  bool_decide (ru_group r = x.1.1 /\ x.1.2 ∈ ru_resources r /\ x.2 ∈ ru_verbs r).
Definition granted (rules : list rule) (x : right) : bool := existsb (fun r => grants r x) rules.
Definition permitted (rules : list rule) (xs : list right) : bool := forallb (granted rules) xs.

(** All that a list of rules grants. *)
Definition rights_of (rules : list rule) : list right :=
  r ← rules; res ← ru_resources r; verb ← ru_verbs r; [(ru_group r, res, verb)].

Lemma granted_rights_of rules x : granted rules x = true <-> x ∈ rights_of rules.
Proof.
  unfold granted, grants, rights_of. rewrite existsb_exists. setoid_rewrite bool_decide_eq_true.
  setoid_rewrite <-list_elem_of_In. set_unfold. destruct x as [[g res] verb]; simpl. split.
  - intros (r & Hr & <- & Hres & Hv). exists r. split; [|done]. exists res. split; [|done]. by exists verb.
  - intros (r & (res' & (v & [= -> -> ->] & Hv) & Hres) & Hr). by exists r.
Qed.

Lemma granted_mono rules rules' : rights_of rules ⊆ rights_of rules' ->
  forall x, granted rules x = true -> granted rules' x = true.
Proof. intros Hs x. rewrite !granted_rights_of. apply Hs. Qed.

Lemma permitted_mono rules rules' xs : rights_of rules ⊆ rights_of rules' ->
  permitted rules xs = true -> permitted rules' xs = true.
Proof. unfold permitted. rewrite !forallb_forall. intros Hs H x Hx. by apply (granted_mono _ _ Hs), H. Qed.

(** The markers and the kind of the controller that does a job. *)
Definition rules_of (j : job) : list rule :=
  match j with ReconcileAuthelia _ => AutheliaReconciler_rbac | ReconcileClient _ => AutheliaOAuthClientReconciler_rbac end.
Definition owner_of (j : job) : kind :=
  match j with ReconcileAuthelia _ => KAuthelia | ReconcileClient _ => KOAuthClient end.

(** The role is up to date: it grants what the markers of the two controllers
    grant together, and nothing else. *)
Lemma role_is_generated x :
  granted manager_role x = granted (AutheliaReconciler_rbac ++ AutheliaOAuthClientReconciler_rbac) x.
Proof.
  apply eq_bool_prop_intro. rewrite !Is_true_true. split; apply granted_mono; apply (bool_decide_unpack _); by vm_compute.
Qed.

Lemma rules_of_role j : rights_of (rules_of j) ⊆ rights_of manager_role.
Proof. destruct j; apply (bool_decide_unpack _); by vm_compute. Qed.

(** * The requests of a computation *)

Section asking.
Context `{ScriptWorld W} (Q : request -> Prop).

(** All requests made so far satisfy [Q]. *)
Definition within (s : script) : Prop := forall q, issued s q -> Q q.

Definition asks {A} (m : M W A) : Prop := forall w, within (script_of w) -> within (script_of (m w).2).

Lemma asks_pure {A} (m : M W A) : (forall w, script_of (m w).2 = script_of w) -> asks m.
Proof. intros E w Hw. by rewrite E. Qed.
Lemma asks_ret {A} (a : A) : asks (mret a).
Proof. by apply asks_pure. Qed.
Lemma asks_throw {A} e : asks (throw (A:=A) e).
Proof. by apply asks_pure. Qed.
Lemma asks_lift {A} (o : outcome A) : asks (lift o).
Proof. by apply asks_pure. Qed.

Lemma asks_bind {A B} (m : M W A) (f : A -> M W B) : asks m -> (forall a, asks (f a)) -> asks (m ≫= f).
Proof.
  intros Hm Hf w Hw. specialize (Hm w Hw). unfold mbind, M_bind.
  destruct (m w) as [[a|e|p] w1]; simpl in *; [by apply Hf|done..].
Qed.

Lemma asks_try {A B} (m : M W A) (k : A + go_error -> M W B) : asks m -> (forall r, asks (k r)) -> asks (try m k).
Proof.
  intros Hm Hk w Hw. specialize (Hm w Hw). unfold try.
  destruct (m w) as [[a|e|p] w1]; simpl in *; [by apply Hk..|done].
Qed.
End asking.

Lemma asks_ask (Q : request -> Prop) q : Q q -> asks (W:=script) Q (ask q).
Proof.
  intros Hq s Hs. unfold ask. simpl in *. destruct s as [[|r rest] h [q'|]]; simpl; try done.
  - intros q2 [[= <-]|Hin]; [done|]. apply Hs. by right.
  - intros q2 [?|[r2 Hin]]; [done|]. simpl in Hin. apply elem_of_cons in Hin as [[= -> ->]|Hin]; [done|].
    apply Hs. right. by exists r2.
Qed.

Lemma asks_object (Q : request -> Prop) k q : Q q -> asks (W:=script) Q (ask_object k q).
Proof. intros Hq. apply asks_bind; [by apply asks_ask|]. intros r. apply asks_lift. Qed.
Lemma asks_objects (Q : request -> Prop) k q : Q q -> asks (W:=script) Q (ask_objects k q).
Proof. intros Hq. apply asks_bind; [by apply asks_ask|]. intros r. apply asks_lift. Qed.

Section controllers.
Context (deep_equal : forall k, KObj k -> KObj k -> bool).
#[local] Instance API3 : Api := scripted deep_equal.
Context {OWN : Owners} {KEYS : RSA} {SORT : UnstableSort} {RANGE : MapRange} {YAML : Yaml}.

Definition allowed (j : job) (q : request) : Prop := permitted (rules_of j) (needs (owner_of j) q) = true.

Section walk.
Context (Q : request -> Prop).

Lemma asks_on_cluster {A} (m : M script A) : asks Q m -> asks (W:=script * entropy) Q (on_cluster m).
Proof. intros Hm [s t] Hs. specialize (Hm s Hs). unfold on_cluster. simpl in *. by destruct (m s). Qed.
Lemma asks_on_entropy {A} (m : M entropy A) : asks (W:=script * entropy) Q (on_entropy m).
Proof. apply asks_pure. intros [s t]. unfold on_entropy. simpl. by destruct (m t). Qed.

Lemma asks_Get k key : Q (RGet k key) -> asks (W:=script) Q (Get k key).
Proof. apply asks_object. Qed.
Lemma asks_ListAll k : Q (RList k) -> asks (W:=script) Q (ListAll k).
Proof. apply asks_objects. Qed.
Lemma asks_Create k o : Q (RCreate k o) -> asks (W:=script) Q (Create k o).
Proof. apply asks_object. Qed.
Lemma asks_StatusUpdate k o : Q (RStatusUpdate k o) -> asks (W:=script) Q (StatusUpdate k o).
Proof. apply asks_object. Qed.

Lemma asks_CreateOrUpdate k obj f :
  (forall key, Q (RGet k key)) -> (forall o, Q (RCreate k o)) -> (forall o, Q (RUpdate k o)) ->
  asks (W:=script * entropy) Q (CreateOrUpdate k obj f).
Proof.
  intros Hg Hc Hu. apply asks_try; [apply (asks_on_cluster (ask_object k _)), asks_object, Hg|]. intros [o|e].
  - apply asks_bind; [apply (asks_on_entropy (f o))|]. intros o'.
    destruct (deep_equal k o o'); [apply asks_ret|]. apply (asks_on_cluster (ask_object k _)), asks_object, Hu.
  - destruct (IsNotFound e); [|apply asks_throw].
    apply asks_bind; [apply (asks_on_entropy (f obj))|]. intros o'.
    apply (asks_on_cluster (ask_object k _)), asks_object, Hc.
Qed.
End walk.

(** Walks through the code by its head; the rights of each request are computed. *)
Ltac check_rights :=
  repeat (cbv beta zeta;
    lazymatch goal with
    | |- forall _, _ => intro
    | |- allowed _ _ => vm_compute; reflexivity
    | |- asks _ (mbind _ _) => apply asks_bind
    | |- asks _ (try _ _) => apply asks_try
    | |- asks _ (on_cluster _) => apply asks_on_cluster
    | |- asks _ (on_entropy _) => apply asks_on_entropy
    | |- asks _ (Get ?k _) => apply (asks_Get _ k)
    | |- asks _ (ListAll ?k) => apply (asks_ListAll _ k)
    | |- asks _ (Create ?k _) => apply (asks_Create _ k)
    | |- asks _ (StatusUpdate ?k _) => apply (asks_StatusUpdate _ k)
    | |- asks _ (CreateOrUpdate ?k _ _) => apply (asks_CreateOrUpdate _ k)
    | |- asks _ (match ?x with _ => _ end) => destruct x
    | |- asks _ (mret _) => apply asks_ret
    | |- asks _ (throw _) => apply asks_throw
    | |- asks _ (lift _) => apply asks_lift
    end).

Lemma asks_client req : asks (W:=script * entropy) (allowed (ReconcileClient req)) (OAuthClientController.Reconcile req).
Proof. unfold OAuthClientController.Reconcile. check_rights. Qed.

Lemma asks_collect req a items : asks (W:=script) (allowed (ReconcileAuthelia req)) (collect_loop a items).
Proof. induction items as [|c items IH]; simpl; unfold clientSecretDigest; check_rights; exact IH. Qed.

Lemma asks_authelia req : asks (W:=script * entropy) (allowed (ReconcileAuthelia req)) (AutheliaController.Reconcile req).
Proof.
  unfold AutheliaController.Reconcile, collectClients, collectIngressRules, applyConfig, reconcileCoreSecret,
    reconcileConfigMap, reconcileService, reconcileDataPVC, reconcileDeployment, updateStatus.
  check_rights; apply asks_collect.
Qed.

Lemma issued_allowed j t received q : issued (played deep_equal j t received) q -> allowed j q.
Proof.
  assert (within (allowed j) (mkScript received [] None)) as H0
    by (intros q' [?|[r Hin]]; [done|by apply elem_of_nil in Hin]).
  unfold played. destruct j as [req|req]; intros Hq;
    [exact (asks_authelia req (mkScript received [] None, t) H0 q Hq)|exact (asks_client req (mkScript received [] None, t) H0 q Hq)].
Qed.

(** C39: the operator has the rights it needs, and only asks for what it may do.
    Whatever a reconcile is told, and however far it gets, every request it makes
    is granted by the markers of its own controller: the read with the list and
    watch of the cache behind it, the write, the status update, and the
    finalizers of the owner for what it controls.  What the controllers are
    registered to watch, they may list and watch.  The role that is generated
    from the markers grants all of it too, and nothing the markers do not. *)
Theorem requests_permitted j t received q :
  issued (played deep_equal j t received) q ->
  (forall rules, rules = rules_of j \/ rules = manager_role -> permitted rules (needs (owner_of j) q) = true /\
    let ctl := match j with ReconcileAuthelia _ => AutheliaReconciler_SetupWithManager
                       | ReconcileClient _ => AutheliaOAuthClientReconciler_SetupWithManager end in
    forall k, k ∈ ctl_For ctl :: ctl_Owns ctl ++ (ctl_Watches ctl).*1 -> permitted rules (reading k) = true) /\
  forall x, granted manager_role x = granted (AutheliaReconciler_rbac ++ AutheliaOAuthClientReconciler_rbac) x.
Proof.
  intros Hq. split; [|exact role_is_generated]. intros rules Hr.
  assert (forall xs, permitted (rules_of j) xs = true -> permitted rules xs = true) as Hmono
    by (destruct Hr as [->| ->]; [done|intros xs; apply permitted_mono, rules_of_role]).
  split; [apply Hmono, (issued_allowed _ _ _ _ Hq)|]. intros ctl k Hk. apply Hmono. subst ctl.
  destruct j; simpl in Hk; repeat (apply elem_of_cons in Hk as [->|Hk]; [by vm_compute|]); by apply elem_of_nil in Hk.
Qed.
End controllers.
