(* ===== verification/Main.v ===== *)
(** [cmd/main.go]: flags, options and start-up of the manager.

    Go's [flag] package is modelled as documented: [parseOne] and the two kinds of
    flags.  Flags that other packages register (zap's, the kubeconfig) are a
    parameter.  The manager, its servers and the scheme are controller-runtime's:
    what the program does with them is a sequence of actions, each of which may
    fail ([answers], an arbitrary function of what happened before). *)

From S2P Require Import Prelude GoStrings ApiTypes Cluster Watches.

(** * Flags *)

(** The variables of [main]. *)
Record Flags := mkFlags {
  metricsAddr : string;
  metricsCertPath : string; metricsCertName : string; metricsCertKey : string;
  webhookCertPath : string; webhookCertName : string; webhookCertKey : string;
  enableLeaderElection : bool;
  probeAddr : string;
  secureMetrics : bool;
  enableHTTP2 : bool
}.
#[export] Instance Flags_eq_dec : EqDecision Flags.
Proof. solve_decision. Defined.

Definition defaults : Flags := mkFlags "0" "" "tls.crt" "tls.key" "" "tls.crt" "tls.key" false ":8081" true false.

Inductive flag :=
  | StringVar (set : string -> Flags -> Flags)
  | BoolVar (set : bool -> Flags -> Flags)
  | OtherVar (is_bool : bool) (accepts : string -> bool).

(** Flags of other packages. *)
Class OtherFlags := other_flag : string -> option (bool * (string -> bool)).

Definition registered : list (string * flag) :=
  [ ("metrics-bind-address", StringVar (fun v f => mkFlags v (metricsCertPath f) (metricsCertName f) (metricsCertKey f)
       (webhookCertPath f) (webhookCertName f) (webhookCertKey f) (enableLeaderElection f) (probeAddr f) (secureMetrics f) (enableHTTP2 f)));
    ("health-probe-bind-address", StringVar (fun v f => mkFlags (metricsAddr f) (metricsCertPath f) (metricsCertName f) (metricsCertKey f)
       (webhookCertPath f) (webhookCertName f) (webhookCertKey f) (enableLeaderElection f) v (secureMetrics f) (enableHTTP2 f)));
    ("leader-elect", BoolVar (fun v f => mkFlags (metricsAddr f) (metricsCertPath f) (metricsCertName f) (metricsCertKey f)
       (webhookCertPath f) (webhookCertName f) (webhookCertKey f) v (probeAddr f) (secureMetrics f) (enableHTTP2 f)));
    ("metrics-secure", BoolVar (fun v f => mkFlags (metricsAddr f) (metricsCertPath f) (metricsCertName f) (metricsCertKey f)
       (webhookCertPath f) (webhookCertName f) (webhookCertKey f) (enableLeaderElection f) (probeAddr f) v (enableHTTP2 f)));
    ("webhook-cert-path", StringVar (fun v f => mkFlags (metricsAddr f) (metricsCertPath f) (metricsCertName f) (metricsCertKey f)
       v (webhookCertName f) (webhookCertKey f) (enableLeaderElection f) (probeAddr f) (secureMetrics f) (enableHTTP2 f)));
    ("webhook-cert-name", StringVar (fun v f => mkFlags (metricsAddr f) (metricsCertPath f) (metricsCertName f) (metricsCertKey f)
       (webhookCertPath f) v (webhookCertKey f) (enableLeaderElection f) (probeAddr f) (secureMetrics f) (enableHTTP2 f)));
    ("webhook-cert-key", StringVar (fun v f => mkFlags (metricsAddr f) (metricsCertPath f) (metricsCertName f) (metricsCertKey f)
       (webhookCertPath f) (webhookCertName f) v (enableLeaderElection f) (probeAddr f) (secureMetrics f) (enableHTTP2 f)));
    ("metrics-cert-path", StringVar (fun v f => mkFlags (metricsAddr f) v (metricsCertName f) (metricsCertKey f)
       (webhookCertPath f) (webhookCertName f) (webhookCertKey f) (enableLeaderElection f) (probeAddr f) (secureMetrics f) (enableHTTP2 f)));
    ("metrics-cert-name", StringVar (fun v f => mkFlags (metricsAddr f) (metricsCertPath f) v (metricsCertKey f)
       (webhookCertPath f) (webhookCertName f) (webhookCertKey f) (enableLeaderElection f) (probeAddr f) (secureMetrics f) (enableHTTP2 f)));
    ("metrics-cert-key", StringVar (fun v f => mkFlags (metricsAddr f) (metricsCertPath f) (metricsCertName f) v
       (webhookCertPath f) (webhookCertName f) (webhookCertKey f) (enableLeaderElection f) (probeAddr f) (secureMetrics f) (enableHTTP2 f)));
    ("enable-http2", BoolVar (fun v f => mkFlags (metricsAddr f) (metricsCertPath f) (metricsCertName f) (metricsCertKey f)
       (webhookCertPath f) (webhookCertName f) (webhookCertKey f) (enableLeaderElection f) (probeAddr f) (secureMetrics f) v)) ].

Fixpoint lookup_flag (name : string) (fs : list (string * flag)) : option flag :=
  match fs with
  | [] => None
  | (n, f) :: fs' => if decide (n = name) then Some f else lookup_flag name fs'
  end.

(** * [flag.Parse] *)

(** [strconv.ParseBool] *)
Definition ParseBool (s : string) : option bool :=
  if decide (s ∈ ["1"; "t"; "T"; "true"; "TRUE"; "True"]) then Some true
  else if decide (s ∈ ["0"; "f"; "F"; "false"; "FALSE"; "False"]) then Some false
  else None.

(** How parsing ends: [ExitOnError] ends the program with 0 after [-help] and
    with 2 after any error. *)
Inductive stop := Help | Bad.

(** [name[=value]], the first character being part of the name. *)
Fixpoint cut_equals (s : string) : string * option string :=
  match s with
  | EmptyString => ("", None)
  | String c s' =>
    match s' with
    | EmptyString => (s, None)
    | String d s'' => if decide (d = "="%char) then (String c "", Some s'')
                      else let '(n, v) := cut_equals s' in (String c n, v)
    end
  end.

(** One argument: no flag at all, the terminator ["--"], or a flag. *)
Inductive argument := NoFlag | Terminator | Malformed | Named (name : string) (value : option string).

Definition read_name (name : string) : argument :=
  match name with
  | EmptyString => Malformed
  | String c _ => if decide (c = "-"%char \/ c = "="%char) then Malformed
                  else let '(n, v) := cut_equals name in Named n v
  end.

Definition read_argument (s : string) : argument :=
  match s with
  | String "-" EmptyString | EmptyString => NoFlag
  | String "-" (String "-" EmptyString) => Terminator
  | String "-" (String "-" name) => read_name name
  | String "-" name => read_name name
  | String _ _ => NoFlag
  end.

Section program.
Context {OTHERS : OtherFlags}.

Definition formal (name : string) : option flag :=
  match lookup_flag name registered with
  | Some f => Some f
  | None => match other_flag name with Some (b, acc) => Some (OtherVar b acc) | None => None end
  end.

Definition is_bool_flag (f : flag) : bool :=
  match f with StringVar _ => false | BoolVar _ => true | OtherVar b _ => b end.

(** [flag.Value.Set] *)
Definition set_flag (f : flag) (value : string) (fl : Flags) : stop + Flags :=
  match f with
  | StringVar set => inr (set value fl)
  | BoolVar set => match ParseBool value with Some b => inr (set b fl) | None => inl Bad end
  | OtherVar _ acc => if acc value then inr fl else inl Bad
  end.

Fixpoint Parse (args : list string) (fl : Flags) : stop + Flags :=
  match args with
  | [] => inr fl
  | s :: args' =>
    match read_argument s with
    | NoFlag => inr fl
    | Terminator => inr fl
    | Malformed => inl Bad
    | Named name value =>
      match formal name with
      | None => if decide (name = "help" \/ name = "h") then inl Help else inl Bad
      | Some f =>
        match value with
        | Some v => match set_flag f v fl with inr fl' => Parse args' fl' | inl e => inl e end
        | None =>
          if is_bool_flag f
          then match set_flag f "true" fl with inr fl' => Parse args' fl' | inl e => inl e end
          else match args' with
               | [] => inl Bad
               | v :: args'' => match set_flag f v fl with inr fl' => Parse args'' fl' | inl e => inl e end
               end
        end
      end
    end
  end.

(** * Options *)

(** [tls.Config] *)
Record tls_Config := mkTlsConfig { NextProtos : list string; tls_rest : gmap string string }.

Definition disableHTTP2 (c : tls_Config) : tls_Config := mkTlsConfig ["http/1.1"] (tls_rest c).

Definition tlsOpts (f : Flags) : list (tls_Config -> tls_Config) :=
  if negb (enableHTTP2 f) then [disableHTTP2] else [].

(** [webhook.Options] *)
Record WebhookOptions := mkWebhookOptions {
  wh_TLSOpts : list (tls_Config -> tls_Config); wh_CertDir : string; wh_CertName : string; wh_KeyName : string
}.

Definition webhookServerOptions (f : Flags) : WebhookOptions :=
  let opts := mkWebhookOptions (tlsOpts f) "" "" "" in
  if decide (0 < String.length (webhookCertPath f))
  then mkWebhookOptions (wh_TLSOpts opts) (webhookCertPath f) (webhookCertName f) (webhookCertKey f)
  else opts.

Inductive filter_provider := WithAuthenticationAndAuthorization.

(** [metricsserver.Options] *)
Record MetricsOptions := mkMetricsOptions {
  ms_BindAddress : string; ms_SecureServing : bool; ms_TLSOpts : list (tls_Config -> tls_Config);
  ms_FilterProvider : option filter_provider; ms_CertDir : string; ms_CertName : string; ms_KeyName : string
}.

Definition metricsServerOptions (f : Flags) : MetricsOptions :=
  let opts := mkMetricsOptions (metricsAddr f) (secureMetrics f) (tlsOpts f) None "" "" "" in
  let opts := if secureMetrics f
              then mkMetricsOptions (ms_BindAddress opts) (ms_SecureServing opts) (ms_TLSOpts opts)
                     (Some WithAuthenticationAndAuthorization) (ms_CertDir opts) (ms_CertName opts) (ms_KeyName opts)
              else opts in
  if decide (0 < String.length (metricsCertPath f))
  then mkMetricsOptions (ms_BindAddress opts) (ms_SecureServing opts) (ms_TLSOpts opts) (ms_FilterProvider opts)
         (metricsCertPath f) (metricsCertName f) (metricsCertKey f)
  else opts.

(** [ctrl.Options] *)
Record ManagerOptions := mkManagerOptions {
  mo_Metrics : MetricsOptions; mo_WebhookServer : WebhookOptions; mo_HealthProbeBindAddress : string;
  mo_LeaderElection : bool; mo_LeaderElectionID : string
}.

Definition managerOptions (f : Flags) : ManagerOptions :=
  mkManagerOptions (metricsServerOptions f) (webhookServerOptions f) (probeAddr f) (enableLeaderElection f)
    "4d05d2cf.snosr.se".

(** * Start-up *)

(** What the program asks of other packages. *)
Inductive action :=
  | AddClientGoToScheme
  | AddToScheme (b : Builder)
  | GetConfig
  | NewManager (o : ManagerOptions)
  | SetupWithManager (c : controller)
  | AddHealthzCheck (name : string)
  | AddReadyzCheck (name : string)
  | Start.

Context (answers : list action -> action -> option go_error).

(** The actions performed, the latest first; the program may exit with a code. *)
Definition P (A : Type) : Type := list action -> (nat + A) * list action.

#[export] Instance P_ret : MRet P := fun A a tr => (inr a, tr).
#[export] Instance P_bind : MBind P := fun A B f m tr =>
  match m tr with
  | (inl code, tr') => (inl code, tr')
  | (inr a, tr') => f a tr'
  end.

(** [if err := ...; err != nil { os.Exit(code) }] *)
Definition perform (code : nat) (x : action) : P unit := fun tr =>
  (match answers tr x with None => inr tt | Some _ => inl code end, x :: tr).

(** [utilruntime.Must] panics, which ends a program with code 2. *)
Definition init : P unit :=
  _ ← perform 2 AddClientGoToScheme;
  perform 2 (AddToScheme SchemeBuilder).

Definition flag_Parse (args : list string) : P Flags := fun tr =>
  (match Parse args defaults with inr f => inr f | inl Help => inl 0 | inl Bad => inl 2 end, tr).

Definition main (args : list string) : P unit :=
  f ← flag_Parse args;
  _ ← perform 1 GetConfig;
  _ ← perform 1 (NewManager (managerOptions f));
  _ ← perform 1 (SetupWithManager AutheliaReconciler_SetupWithManager);
  _ ← perform 1 (SetupWithManager AutheliaOAuthClientReconciler_SetupWithManager);
  _ ← perform 1 (AddHealthzCheck "healthz");
  _ ← perform 1 (AddReadyzCheck "readyz");
  perform 1 Start.

Definition program (args : list string) : P unit :=
  _ ← init;
  main args.

(** * The command line *)

Definition show_bool (b : bool) : string := if b then "true" else "false".

(** The command line that spells all flags out. *)
Definition command_line (f : Flags) : list string :=
  [ "--metrics-bind-address=" +:+ metricsAddr f;
    "--health-probe-bind-address=" +:+ probeAddr f;
    "--leader-elect=" +:+ show_bool (enableLeaderElection f);
    "--metrics-secure=" +:+ show_bool (secureMetrics f);
    "--webhook-cert-path=" +:+ webhookCertPath f;
    "--webhook-cert-name=" +:+ webhookCertName f;
    "--webhook-cert-key=" +:+ webhookCertKey f;
    "--metrics-cert-path=" +:+ metricsCertPath f;
    "--metrics-cert-name=" +:+ metricsCertName f;
    "--metrics-cert-key=" +:+ metricsCertKey f;
    "--enable-http2=" +:+ show_bool (enableHTTP2 f) ].

(** the command line is read back.  Every setting of the flags, whatever the
    strings are, is what parsing its command line yields, on top of whatever was
    set before, and arguments that follow are parsed on top of it. *)
Theorem command_line_roundtrip f f0 rest : Parse (command_line f ++ rest) f0 = Parse rest f.
Proof. destruct f as [? ? ? ? ? ? ? [] ? [] []], f0; reflexivity. Qed.

(** Some argument names the flag. *)
Definition mentions (name : string) (args : list string) : Prop :=
  exists s v, s ∈ args /\ read_argument s = Named name v.

Lemma mentions_cons name s args : mentions name args -> mentions name (s :: args).
Proof. intros (s' & v & Hin & E). exists s', v. split; [by right|done]. Qed.

(** A flag that reads and writes one variable. *)
Lemma set_flag_keeps name f v fl fl' {A} (get : Flags -> A) :
  formal name = Some f -> set_flag f v fl = inr fl' ->
  (forall n g, (n, g) ∈ registered -> n = name -> match g with
     | StringVar set => forall v x, get (set v x) = get x
     | BoolVar set => forall v x, get (set v x) = get x
     | OtherVar _ _ => True end) ->
  get fl' = get fl.
Proof.
  intros Hf Hs Hk. unfold formal in Hf.
  assert (forall fs, lookup_flag name fs = Some f -> (name, f) ∈ fs) as Hl.
  { induction fs as [|[n g] fs IH]; [done|]. simpl. case_decide as E; [intros [= ->]; subst; left|]. intros Hn. right. by apply IH. }
  destruct (lookup_flag name registered) as [g|] eqn:El.
  - injection Hf as ->. specialize (Hk name f (Hl _ El) eq_refl). destruct f; simpl in Hs.
    + by injection Hs as <-.
    + destruct (ParseBool v); [|done]. by injection Hs as <-.
    + destruct (accepts v); [|done]. by injection Hs as <-.
  - destruct (other_flag name) as [[b acc]|]; [|done]. injection Hf as <-. simpl in Hs.
    destruct (acc v); [|done]. by injection Hs as <-.
Qed.

(** A variable keeps its value when no argument names its flag. *)
Lemma Parse_keeps name {A} (get : Flags -> A) :
  (forall n g, (n, g) ∈ registered -> n <> name -> match g with
     | StringVar set => forall v x, get (set v x) = get x
     | BoolVar set => forall v x, get (set v x) = get x
     | OtherVar _ _ => True end) ->
  forall args fl fl', ~ mentions name args -> Parse args fl = inr fl' -> get fl' = get fl.
Proof.
  intros Hk args. induction args as [args IH] using (induction_ltof1 _ length). intros fl fl' Hm E.
  destruct args as [|s args]; [by injection E as <-|]. cbn [Parse] in E.
  destruct (read_argument s) as [| | |n value] eqn:Er; try (by injection E as <-); try done.
  assert (n <> name) as Hn by (intros ->; apply Hm; exists s, value; split; [left|done]).
  assert (forall args', mentions name args' -> mentions name (s :: args')) as Hc by (intros; by apply mentions_cons).
  destruct (formal n) as [f|] eqn:Ef; [|by case_decide].
  assert (forall v fl1, set_flag f v fl = inr fl1 -> get fl1 = get fl) as Hset
    by (intros v fl1 Hs; eapply set_flag_keeps; [exact Ef|exact Hs|]; intros m g Hin Hmn; apply (Hk m g Hin); congruence).
  destruct value as [v|]; [|destruct (is_bool_flag f)].
  - destruct (set_flag f v fl) as [|fl1] eqn:Es; [done|]. rewrite <- (Hset _ _ Es).
    eapply IH; [|by intros ?%Hc|exact E]. unfold ltof. simpl. lia.
  - destruct (set_flag f "true" fl) as [|fl1] eqn:Es; [done|]. rewrite <- (Hset _ _ Es).
    eapply IH; [|by intros ?%Hc|exact E]. unfold ltof. simpl. lia.
  - destruct args as [|v args]; [done|]. destruct (set_flag f v fl) as [|fl1] eqn:Es; [done|]. rewrite <- (Hset _ _ Es).
    eapply IH; [|by intros ?%(mentions_cons name v)%Hc|exact E]. unfold ltof. simpl. lia.
Qed.

Ltac each_flag :=
  intros ? ? Hin ?; repeat (apply elem_of_cons in Hin as [[= -> ->]|Hin]; [done|]); by apply elem_of_nil in Hin.

Lemma Parse_keeps_http2 args fl fl' :
  ~ mentions "enable-http2" args -> Parse args fl = inr fl' -> enableHTTP2 fl' = enableHTTP2 fl.
Proof. apply (Parse_keeps "enable-http2" enableHTTP2). each_flag. Qed.

Lemma Parse_keeps_secure args fl fl' :
  ~ mentions "metrics-secure" args -> Parse args fl = inr fl' -> secureMetrics fl' = secureMetrics fl.
Proof. apply (Parse_keeps "metrics-secure" secureMetrics). each_flag. Qed.

(** * What a run does *)

Lemma P_bind_inv {A B} (m : P A) (k : A -> P B) tr r tr' :
  (m ≫= k) tr = (r, tr') ->
  (exists a tr1, m tr = (inr a, tr1) /\ k a tr1 = (r, tr')) \/ (exists code, m tr = (inl code, tr') /\ r = inl code).
Proof.
  unfold mbind, P_bind. destruct (m tr) as [[code|a] tr1] eqn:E.
  - intros [= <- <-]. right. by exists code.
  - intros E'. left. by exists a, tr1.
Qed.

Lemma perform_inv code x tr r tr' :
  perform code x tr = (r, tr') ->
  tr' = x :: tr /\ (answers tr x = None /\ r = inr tt \/ is_Some (answers tr x) /\ r = inl code).
Proof.
  unfold perform. destruct (answers tr x) eqn:E; intros [= <- <-]; (split; [done|]); [right|left]; split; eauto.
Qed.

(** The exit code of a failed action: [utilruntime.Must] panics, [main] exits. *)
Definition exit_code (x : action) : nat :=
  match x with AddClientGoToScheme | AddToScheme _ => 2 | _ => 1 end.

(** Every action of a history succeeded, given what was done before it. *)
Definition went_well (tr : list action) : Prop :=
  forall l x past, tr = l ++ x :: past -> answers past x = None.

(** A computation that stops at the first failure, with the exit code of the
    action that failed. *)
Definition fail_stop {A} (m : P A) : Prop := forall tr,
  went_well tr ->
  match m tr with
  | (inr _, tr') => went_well tr'
  | (inl code, tr') =>
    went_well tr' \/
    exists x past, tr' = x :: past /\ went_well past /\ is_Some (answers past x) /\ code = exit_code x
  end.

Lemma went_well_cons x tr : answers tr x = None -> went_well tr -> went_well (x :: tr).
Proof. intros Hx Hw [|y l] z past [= -> E]; [by subst|by eapply Hw]. Qed.

Lemma fail_stop_perform x : fail_stop (perform (exit_code x) x).
Proof.
  intros tr Hw. unfold perform. destruct (answers tr x) eqn:E; [|by apply went_well_cons].
  right. exists x, tr. by rewrite E.
Qed.

Lemma fail_stop_bind {A B} (m : P A) (k : A -> P B) : fail_stop m -> (forall a, fail_stop (k a)) -> fail_stop (m ≫= k).
Proof.
  intros Hm Hk tr Hw. specialize (Hm tr Hw). unfold mbind, P_bind.
  destruct (m tr) as [[code|a] tr']; [exact Hm|]. by apply Hk.
Qed.

Lemma fail_stop_Parse args : fail_stop (flag_Parse args).
Proof. intros tr Hw. unfold flag_Parse. destruct (Parse args defaults) as [[]|f]; [by left..|done]. Qed.

Lemma fail_stop_program args : fail_stop (program args).
Proof.
  unfold program, init, main.
  repeat (apply fail_stop_bind; [|intros ?]); try apply fail_stop_Parse;
    first [exact (fail_stop_perform AddClientGoToScheme)|apply (fail_stop_perform (AddToScheme _))|
      apply (fail_stop_perform GetConfig)|apply (fail_stop_perform (NewManager _))|
      apply (fail_stop_perform (SetupWithManager _))|apply (fail_stop_perform (AddHealthzCheck _))|
      apply (fail_stop_perform (AddReadyzCheck _))|apply (fail_stop_perform Start)].
Qed.

(** The scheme has been told of a kind and of its lists: by the operator's own
    builder, under the group that the controllers' markers name, or by
    client-go's, which has the kinds of Kubernetes. *)
Definition scheme_knows (past : list action) (k : kind) : Prop :=
  match k with
  | KAuthelia | KOAuthClient =>
    exists b, AddToScheme b ∈ past /\ sb_GroupVersion b = mkGroupVersion "authelia.snosr.se" "v1alpha1" /\
      kind_name k ∈ sb_types b /\ kind_name k +:+ "List" ∈ sb_types b
  | _ => AddClientGoToScheme ∈ past
  end.

(** What has to have been done, in a history, before the manager starts. *)
Definition prepared (f : Flags) (past : list action) : Prop :=
  exists later earlier, past = later ++ (NewManager (managerOptions f) :: earlier) /\
    (forall k, scheme_knows earlier k) /\
    (forall o, (NewManager o ∉ later) /\ (NewManager o ∉ earlier)) /\
    (forall c, c ∈ [AutheliaReconciler_SetupWithManager; AutheliaOAuthClientReconciler_SetupWithManager] ->
       SetupWithManager c ∈ later) /\
    (exists healthz, AddHealthzCheck healthz ∈ later) /\ (exists readyz, AddReadyzCheck readyz ∈ later).

(** The history of the start, in which everything is different from the start. *)
Definition before_start (f : Flags) : list action :=
  [AddReadyzCheck "readyz"; AddHealthzCheck "healthz";
   SetupWithManager AutheliaOAuthClientReconciler_SetupWithManager;
   SetupWithManager AutheliaReconciler_SetupWithManager] ++
  [NewManager (managerOptions f); GetConfig; AddToScheme SchemeBuilder; AddClientGoToScheme].

Lemma program_starts args r tr :
  program args [] = (r, tr) -> Start ∈ tr ->
  exists f, Parse args defaults = inr f /\ tr = Start :: before_start f.
Proof.
  unfold program, init, main, flag_Parse. unfold mbind, P_bind, perform.
  destruct (answers [] AddClientGoToScheme); [intros [= <- <-] Hin; by apply elem_of_cons in Hin as [?|?%elem_of_nil]|].
  destruct (answers _ (AddToScheme SchemeBuilder));
    [intros [= <- <-] Hin; repeat (apply elem_of_cons in Hin as [?|Hin]; [done|]); by apply elem_of_nil in Hin|].
  destruct (Parse args defaults) as [[]|f];
    [intros [= <- <-] Hin; repeat (apply elem_of_cons in Hin as [?|Hin]; [done|]); by apply elem_of_nil in Hin..|].
  intros E Hin. exists f. split; [done|]. unfold before_start. generalize dependent (managerOptions f). intros o E.
  repeat match type of E with context [match answers ?t ?x with _ => _ end] => destruct (answers t x) end;
    injection E as <- <-;
    first [reflexivity | repeat (apply elem_of_cons in Hin as [Hin|Hin]; [discriminate Hin|]); by apply elem_of_nil in Hin].
Qed.

Lemma before_start_prepared f : prepared f (before_start f).
Proof.
  exists [AddReadyzCheck "readyz"; AddHealthzCheck "healthz";
    SetupWithManager AutheliaOAuthClientReconciler_SetupWithManager; SetupWithManager AutheliaReconciler_SetupWithManager],
    [GetConfig; AddToScheme SchemeBuilder; AddClientGoToScheme].
  split; [done|]. split_and!.
  - intros []; try (do 2 right; left); (exists SchemeBuilder; split_and!; [right; left|done|..]);
      apply (bool_decide_unpack _); by vm_compute.
  - intros o. split; intros Hin; repeat (apply elem_of_cons in Hin as [Hin|Hin]; [discriminate Hin|]); by apply elem_of_nil in Hin.
  - intros c [->|[->|[]%elem_of_nil]%elem_of_cons]%elem_of_cons; [do 3 right; left|do 2 right; left].
  - exists "healthz". right. left.
  - exists "readyz". left.
Qed.

Lemma start_last f l past : Start :: before_start f = l ++ Start :: past -> l = [] /\ past = before_start f.
Proof.
  intros E. destruct l as [|x l]; [by injection E as <-|]. injection E as _ E.
  assert (Start ∈ before_start f) as Hin by (rewrite E; apply elem_of_app; right; left).
  repeat (apply elem_of_cons in Hin as [Hin|Hin]; [discriminate Hin|]). by apply elem_of_nil in Hin.
Qed.

Lemma program_returns args tr : program args [] = (inr tt, tr) -> Start ∈ tr.
Proof.
  unfold program, init, main, flag_Parse. unfold mbind, P_bind, perform.
  destruct (answers [] AddClientGoToScheme); [done|]. destruct (answers _ (AddToScheme SchemeBuilder)); [done|].
  destruct (Parse args defaults) as [[]|f]; [done|done|]. generalize (managerOptions f). intros o E.
  repeat match type of E with context [match answers ?t ?x with _ => _ end] => destruct (answers t x); [discriminate E|] end.
  injection E as <-. left.
Qed.

(** C16: start-up is safe.  Whatever the command line and whichever actions fail
    and when: after a failed action nothing more is done, and the program exits
    with 2 when a scheme could not be set up, and with 1 otherwise; the program
    returns normally only after the manager has run without error; and the
    manager is only ever started, as the last action, when the command line was
    accepted and the one manager there is has the options it asks for, was
    created after the scheme knew every kind (and kind of list) that the
    controllers use, and then was given both controllers, a health check and a
    readiness check, all of them successfully. *)
Theorem start_up_safe args r tr :
  program args [] = (r, tr) ->
  (forall l x past, tr = l ++ x :: past -> is_Some (answers past x) -> l = [] /\ r = inl (exit_code x)) /\
  (r = inr tt -> Start ∈ tr) /\
  (forall l past, tr = l ++ Start :: past ->
     l = [] /\ went_well past /\ exists f, Parse args defaults = inr f /\ prepared f past).
Proof.
  intros E. pose proof (fail_stop_program args []) as Hf. rewrite E in Hf.
  assert (went_well []) as H0 by by intros [] ? ?. specialize (Hf H0). split_and!.
  - intros l x past -> [e He]. destruct r as [code|[]]; [|by rewrite (Hf l x past eq_refl) in He].
    destruct Hf as [Hf|(x' & past' & Etr & Hw & _ & ->)]; [by rewrite (Hf l x past eq_refl) in He|].
    destruct l as [|y l]; injection Etr as -> <-; [done|]. by rewrite (Hw l x past eq_refl) in He.
  - intros ->. by apply program_returns in E.
  - intros l past ->. destruct (program_starts args r _ E) as (f & Hp & Etr); [apply elem_of_app; right; left|].
    destruct (start_last f l past (eq_sym Etr)) as [-> ->]. split; [done|].
    split; [|exists f; split; [done|apply before_start_prepared]].
    destruct r as [code|[]].
    + destruct Hf as [Hf|(x' & past' & [= _ <-] & Hw & _)]; [|exact Hw]. intros l x p Ep. apply (Hf (Start :: l) x p). simpl. by rewrite Ep.
    + intros l x p Ep. apply (Hf (Start :: l) x p). simpl. by rewrite Ep.
Qed.

(** The state in which the manager runs. *)
Lemma program_manager args o r tr :
  program args [] = (r, tr) -> NewManager o ∈ tr -> exists f, Parse args defaults = inr f /\ o = managerOptions f.
Proof.
  unfold program, init, main, flag_Parse. unfold mbind, P_bind, perform.
  destruct (answers [] AddClientGoToScheme); [intros [= <- <-] Hin; by apply elem_of_cons in Hin as [?|?%elem_of_nil]|].
  destruct (answers _ (AddToScheme SchemeBuilder));
    [intros [= <- <-] Hin; repeat (apply elem_of_cons in Hin as [?|Hin]; [done|]); by apply elem_of_nil in Hin|].
  destruct (Parse args defaults) as [[]|f];
    [intros [= <- <-] Hin; repeat (apply elem_of_cons in Hin as [?|Hin]; [done|]); by apply elem_of_nil in Hin..|].
  intros E Hin. exists f. split; [done|].
  repeat match type of E with context [match answers ?t ?x with _ => _ end] => destruct (answers t x) end;
    injection E as <- <-;
    repeat (apply elem_of_cons in Hin as [Hin|Hin]; [first [discriminate Hin | by injection Hin as ->]|]); by apply elem_of_nil in Hin.
Qed.

(** [opts] applied to a server's configuration, in order. *)
Definition apply_TLSOpts (opts : list (tls_Config -> tls_Config)) (c : tls_Config) : tls_Config :=
  fold_left (fun c opt => opt c) opts c.

(** C14: the servers are protected unless asked otherwise.  Of every manager that a
    run creates, whatever else is on the command line: without the flag
    enable-http2 both the metrics and the webhook server speak HTTP/1.1 only
    (the vulnerable HTTP/2 is off); without the flag metrics-secure the metrics
    are served over HTTPS to authenticated and authorized users only; and HTTPS
    and the authentication always go together. *)
Theorem servers_protected args o r tr c :
  program args [] = (r, tr) -> NewManager o ∈ tr ->
  (~ mentions "enable-http2" args ->
     NextProtos (apply_TLSOpts (ms_TLSOpts (mo_Metrics o)) c) = ["http/1.1"] /\
     NextProtos (apply_TLSOpts (wh_TLSOpts (mo_WebhookServer o)) c) = ["http/1.1"]) /\
  (~ mentions "metrics-secure" args -> ms_SecureServing (mo_Metrics o) = true) /\
  (ms_SecureServing (mo_Metrics o) = true <->
     ms_FilterProvider (mo_Metrics o) = Some WithAuthenticationAndAuthorization).
Proof.
  intros E Hin. destruct (program_manager args o r tr E Hin) as (f & Hf & ->). split; [|split].
  - intros Hm. pose proof (Parse_keeps_http2 args defaults f Hm Hf) as Hh. simpl in *.
    unfold webhookServerOptions, metricsServerOptions, tlsOpts. rewrite Hh. simpl.
    split; repeat case_decide; destruct (secureMetrics f); done.
  - intros Hm. pose proof (Parse_keeps_secure args defaults f Hm Hf) as Hh. simpl in *.
    unfold metricsServerOptions. rewrite Hh. by case_decide.
  - simpl. unfold metricsServerOptions. destruct (secureMetrics f); case_decide; done.
Qed.
End program.

(** * A concrete run *)

Definition no_other_flags : OtherFlags := fun _ => None.
#[local] Existing Instance no_other_flags.

(** The arguments of config/manager/manager.yaml, with the metrics patch. *)
Definition deployed_args : list string :=
  ["--metrics-bind-address=:8443"; "--leader-elect"; "--health-probe-bind-address=:8081"].
Definition all_well : list action -> action -> option go_error := fun _ _ => None.

Definition deployed_flags : Flags :=
  mkFlags ":8443" "" "tls.crt" "tls.key" "" "tls.crt" "tls.key" true ":8081" true false.

Lemma deployed_parse : Parse deployed_args defaults = inr deployed_flags.
Proof. by vm_compute. Qed.

Lemma servers_protected_witness :
  NextProtos (apply_TLSOpts (ms_TLSOpts (metricsServerOptions deployed_flags)) (mkTlsConfig ["h2"] ∅)) = ["http/1.1"] /\
  ms_FilterProvider (metricsServerOptions deployed_flags) = Some WithAuthenticationAndAuthorization.
Proof.
  destruct (program all_well deployed_args []) as [r tr] eqn:E.
  assert (NewManager (managerOptions deployed_flags) ∈ tr) as Hin.
  { unfold program, main, flag_Parse, mbind, P_bind in E. simpl in E. injection E as <- <-.
    do 5 right. left. }
  destruct (servers_protected all_well deployed_args (managerOptions deployed_flags) r tr (mkTlsConfig ["h2"] ∅) E Hin)
    as (H1 & H2 & H3).
  assert (forall name, name ∈ ["enable-http2"; "metrics-secure"] -> ~ mentions name deployed_args) as Hm.
  { intros name Hn (s & v & Hs & Er). unfold deployed_args in Hs.
    rewrite !elem_of_cons, elem_of_nil in Hs. destruct Hs as [->|[->|[->|[]]]]; vm_compute in Er; injection Er as <- _;
      rewrite !elem_of_cons, elem_of_nil in Hn; destruct Hn as [Hn|[Hn|[]]]; discriminate Hn. }
  split; [apply H1, Hm; left|]. apply H3, H2, Hm. right. left.
Defined.

Lemma start_up_safe_witness : prepared deployed_flags (tail (program all_well deployed_args []).2).
Proof.
  destruct (program all_well deployed_args []) as [r tr] eqn:E.
  destruct (start_up_safe all_well deployed_args r tr E) as (_ & _ & H).
  unfold program, main, flag_Parse, mbind, P_bind in E. simpl in E. injection E as <- <-.
  destruct (H [] _ eq_refl) as (_ & _ & f & Hf & Hp). rewrite deployed_parse in Hf. injection Hf as <-. exact Hp.
Defined.
