(* ===== verification/GoHeap.v ===== *)
(** Go's memory, as far as code that copies structures needs it: cells with
    typed contents, references to variables, to fields and to slice elements,
    allocation, slices as an array with an offset and a length.

    What can be seen of a value by following its pointers is a tree
    ([observe]), together with the cells that were visited.  [Copies] is the
    specification of a deep copy: the target gets a value of the same tree,
    through new cells only, and nothing else changes. *)

From S2P Require Import Prelude.

(** * Memory *)

Abbreviation loc := nat (only parsing).
Abbreviation heap := (gmap nat).

(** Cells of [C] that hold a [T]. *)
Class Cell (C T : Type) := {
  inj : T -> C;
  proj : C -> option T;
  proj_inj v : proj (inj v) = Some v;
  inj_proj c v : proj c = Some v -> inj v = c
}.

(** [&x], [&p.f], [&s[i]]: a place inside a cell. *)
Record ref (C T : Type) := mkRef {
  rloc : loc;
  rget : C -> option T;
  rset : T -> C -> C
}.
Arguments mkRef {C T} rloc rget rset.
Arguments rloc {C T} r.
Arguments rget {C T} r c.
Arguments rset {C T} r v c.

(** A slice that is not nil. *)
Record slice (T : Type) := mkSlice { sl_array : loc; sl_off : nat; sl_len : nat }.
Arguments mkSlice {T} sl_array sl_off sl_len.
Arguments sl_array {T} s.
Arguments sl_off {T} s.
Arguments sl_len {T} s.

(** A pointer, or nil. *)
Inductive ptr (T : Type) := Nil | Addr (l : loc).
Arguments Nil {T}.
Arguments Addr {T} l.
Definition slice_value (T : Type) : Type := option (slice T).

Definition fresh_loc {C} (h : heap C) : loc := S (map_fold (fun l _ m => Nat.max l m) 0 h).

Section memory.
Context {C : Type}.

Definition deref {T} `{Cell C T} (l : loc) : ref C T := mkRef l proj (fun v _ => inj v).

Definition field {T A} (r : ref C T) (get : T -> A) (set : A -> T -> T) : ref C A :=
  mkRef (rloc r) (fun c => get <$> rget r c)
    (fun a c => match rget r c with Some v => rset r (set a v) c | None => c end).

Definition index {T} `{Cell C (list T)} (l : loc) (k : nat) : ref C T :=
  mkRef l (fun c => proj c ≫= fun vs => vs !! k)
    (fun v c => match proj c with Some vs => inj (<[k := v]> vs) | None => c end).

Definition load {T} (r : ref C T) : M (heap C) T := fun h =>
  match h !! rloc r ≫= rget r with Some v => (Ok v, h) | None => (Panic NilDereference, h) end.

Definition store {T} (r : ref C T) (v : T) : M (heap C) unit := fun h =>
  match h !! rloc r with
  | Some c => (Ok tt, <[rloc r := rset r v c]> h)
  | None => (Panic NilDereference, h)
  end.

(** [new(T)] and [make([]T, n)], with the zero value. *)
Definition new {T} `{Cell C T} (zero : T) : M (heap C) loc := fun h =>
  (Ok (fresh_loc h), <[fresh_loc h := inj zero]> h).
Definition make {T} `{Cell C (list T)} (zero : T) (n : nat) : M (heap C) (slice T) :=
  l ← new (replicate n zero); mret (mkSlice l 0 n).

(** [*o = *i] *)
Definition assign {T} (i o : ref C T) : M (heap C) unit := v ← load i; store o v.

(** [&( *r)[k]] *)
Definition element {T} `{Cell C (list T)} (r : ref C (slice_value T)) (k : nat) : M (heap C) (ref C T) :=
  s ← load r;
  match s with
  | Some s => if decide (k < sl_len s) then mret (index (sl_array s) (sl_off s + k)) else lift (Panic IndexOutOfRange)
  | None => lift (Panic IndexOutOfRange)
  end.

(** [for i := range *in { body(&( *in)[i], &( *out)[i]) }], from [k] on. *)
Fixpoint range_elements {T} `{Cell C (list T)} (body : ref C T -> ref C T -> M (heap C) unit)
    (i o : ref C (slice_value T)) (k n : nat) : M (heap C) unit :=
  match n with
  | O => mret tt
  | S n' =>
    a ← element i k;
    b ← element o k;
    _ ← body a b;
    range_elements body i o (S k) n'
  end.

(** The elements of a slice. *)
Definition elements_of {T} (s : slice T) (vs : list T) : list T := take (sl_len s) (drop (sl_off s) vs).

(** [copy( *o, *i)] *)
Definition copy_elements {T} `{Cell C (list T)} (i o : ref C (slice_value T)) : M (heap C) unit :=
  si ← load i;
  so ← load o;
  match si, so with
  | Some si, Some so =>
    vs ← load (deref (T:=list T) (sl_array si));
    ws ← load (deref (T:=list T) (sl_array so));
    let copied := take (Nat.min (sl_len si) (sl_len so)) (elements_of si vs) in
    store (deref (T:=list T) (sl_array so)) (list_inserts (sl_off so) copied ws)
  | _, _ => mret tt
  end.

(** [if in.F != nil { in, out := &in.F, &out.F; *out = new(T); body( *in, *out) }] *)
Definition copy_pointer {T} `{Cell C T} (zero : T) (body : ref C T -> ref C T -> M (heap C) unit)
    (i o : ref C (ptr T)) : M (heap C) unit :=
  p ← load i;
  match p with
  | Nil => mret tt
  | Addr _ =>
    l ← new zero;
    _ ← store o (Addr l);
    pi ← load i;
    po ← load o;
    match pi, po with
    | Addr li, Addr lo => body (deref li) (deref lo)
    | _, _ => lift (Panic NilDereference)
    end
  end.

(** [if in.F != nil { in, out := &in.F, &out.F; *out = make([]T, len( *in)); fill }] *)
Definition copy_slice {T} `{Cell C (list T)} (zero : T)
    (fill : ref C (slice_value T) -> ref C (slice_value T) -> nat -> M (heap C) unit)
    (i o : ref C (slice_value T)) : M (heap C) unit :=
  s ← load i;
  match s with
  | None => mret tt
  | Some s =>
    s' ← make zero (sl_len s);
    _ ← store o (Some s');
    fill i o (sl_len s)
  end.
End memory.

(** * What can be seen *)

Inductive tree :=
  | TStr (s : string)
  | TInt (z : Z)
  | TBool (b : bool)
  | TNil
  | TPtr (t : tree)
  | TList (ts : list tree)
  | TStruct (ts : list tree).

Class Shape (C T : Type) := {
  observe : heap C -> T -> option (tree * gset loc);
  observe_dom h v t L : observe h v = Some (t, L) -> L ⊆ dom h;
  observe_local h h' v t L :
    observe h v = Some (t, L) -> (forall l, l ∈ L -> h' !! l = h !! l) -> observe h' v = Some (t, L)
}.

(** Values without pointers. *)
Class Plain (C T : Type) `{Shape C T} := {
  plain : T -> tree;
  observe_plain h v : observe h v = Some (plain v, ∅)
}.

Section shapes.
Context {C : Type}.

Program Definition plain_shape {T} (enc : T -> tree) : Shape C T :=
  {| observe := fun _ v => Some (enc v, ∅) |}.
Next Obligation. intros T enc h v t L [= _ <-]. set_solver. Qed.
Next Obligation. done. Qed.

Definition observe_pointer `{Cell C T, Shape C T} (h : heap C) (p : ptr T) : option (tree * gset loc) :=
  match p with
  | Nil => Some (TNil, ∅)
  | Addr l => c ← h !! l; v ← proj c; '(t, L) ← observe h v; Some (TPtr t, {[l]} ∪ L)
  end.

#[export] Program Instance pointer_shape `{Cell C T, Shape C T} : Shape C (ptr T) := {| observe := observe_pointer |}.
Next Obligation.
  intros T HC HS h [|l] t L; simpl; [intros [= _ <-]; set_solver|].
  destruct (h !! l) as [c|] eqn:Ec; simpl; [|done]. destruct (proj c) as [v|]; simpl; [|done].
  destruct (observe h v) as [[t1 L1]|] eqn:Ev; simpl; [|done]. intros [= _ <-].
  apply observe_dom in Ev. apply elem_of_dom_2 in Ec. set_solver.
Qed.
Next Obligation.
  intros T HC HS h h' [|l] t L; simpl; [done|].
  destruct (h !! l) as [c|] eqn:Ec; simpl; [|done]. destruct (proj c) as [v|] eqn:Ep; simpl; [|done].
  destruct (observe h v) as [[t1 L1]|] eqn:Ev; simpl; [|done]. intros [= <- <-] Hl.
  rewrite (Hl l) by set_solver. rewrite Ec. simpl. rewrite Ep. simpl.
  by rewrite (observe_local h h' v t1 L1) by (done || set_solver).
Qed.

Fixpoint observe_list `{Shape C T} (h : heap C) (vs : list T) : option (list tree * gset loc) :=
  match vs with
  | [] => Some ([], ∅)
  | v :: vs' => '(t, L) ← observe h v; '(ts, Ls) ← observe_list h vs'; Some (t :: ts, L ∪ Ls)
  end.

Lemma observe_list_cons `{Shape C T} h v vs ts L :
  observe_list h (v :: vs) = Some (ts, L) <->
  exists t L1 ts' L2, observe h v = Some (t, L1) /\ observe_list h vs = Some (ts', L2) /\
    ts = t :: ts' /\ L = L1 ∪ L2.
Proof.
  simpl. destruct (observe h v) as [[t L1]|]; simpl; [|naive_solver].
  destruct (observe_list h vs) as [[ts' L2]|]; simpl; naive_solver.
Qed.

Lemma observe_list_dom `{Shape C T} h vs ts L : observe_list h vs = Some (ts, L) -> L ⊆ dom h.
Proof.
  revert ts L. induction vs as [|v vs IH]; intros ts L; [intros [= _ <-]; set_solver|].
  rewrite observe_list_cons. intros (t & L1 & ts' & L2 & E1%observe_dom & E2%IH & _ & ->). set_solver.
Qed.

Lemma observe_list_local `{Shape C T} h h' vs ts L :
  observe_list h vs = Some (ts, L) -> (forall l, l ∈ L -> h' !! l = h !! l) -> observe_list h' vs = Some (ts, L).
Proof.
  revert ts L. induction vs as [|v vs IH]; intros ts L; [done|].
  rewrite !observe_list_cons. intros (t & L1 & ts' & L2 & E1 & E2 & -> & ->) Hl.
  exists t, L1, ts', L2. split_and!; [eapply observe_local; [done|]|apply IH; [done|]|done|done]; set_solver.
Qed.

Definition observe_slice `{Cell C (list T), Shape C T} (h : heap C) (s : slice_value T) : option (tree * gset loc) :=
  match s with
  | None => Some (TNil, ∅)
  | Some s =>
    c ← h !! sl_array s; vs ← proj c;
    if decide (sl_off s + sl_len s <= length vs) then
      '(ts, L) ← observe_list h (elements_of s vs); Some (TList ts, {[sl_array s]} ∪ L)
    else None
  end.

#[export] Program Instance slice_shape `{Cell C (list T), Shape C T} : Shape C (slice_value T) :=
  {| observe := observe_slice |}.
Next Obligation.
  intros T HC HS h [s|] t L; simpl; [|intros [= _ <-]; set_solver].
  destruct (h !! sl_array s) as [c|] eqn:Ec; simpl; [|done]. destruct (proj c) as [vs|]; simpl; [|done].
  case_decide; [|done]. destruct (observe_list h _) as [[ts L1]|] eqn:Ev; simpl; [|done]. intros [= _ <-].
  apply observe_list_dom in Ev. apply elem_of_dom_2 in Ec. set_solver.
Qed.
Next Obligation.
  intros T HC HS h h' [s|] t L; simpl; [|done].
  destruct (h !! sl_array s) as [c|] eqn:Ec; simpl; [|done]. destruct (proj c) as [vs|] eqn:Ep; simpl; [|done].
  case_decide as Hd; [|done]. destruct (observe_list h _) as [[ts L1]|] eqn:Ev; simpl; [|done]. intros [= <- <-] Hl.
  rewrite (Hl (sl_array s)) by set_solver. rewrite Ec. simpl. rewrite Ep. simpl. rewrite decide_True by done.
  by rewrite (observe_list_local h h' _ ts L1) by (done || set_solver).
Qed.

(** A field of a structure: data, or something with a shape of its own. *)
Inductive member (T : Type) :=
  | Data (enc : T -> tree)
  | Part {A} (HA : Shape C A) (get : T -> A).
Arguments Data {T} enc.
Arguments Part {T A HA} get.

Definition observe_member {T} (h : heap C) (v : T) (f : member T) : option (tree * gset loc) :=
  match f with
  | Data enc => Some (enc v, ∅)
  | @Part _ A HA get => observe h (get v)
  end.

Fixpoint observe_members {T} (h : heap C) (v : T) (fs : list (member T)) : option (list tree * gset loc) :=
  match fs with
  | [] => Some ([], ∅)
  | f :: fs' => '(t, L) ← observe_member h v f; '(ts, Ls) ← observe_members h v fs'; Some (t :: ts, L ∪ Ls)
  end.

Lemma observe_members_cons {T} h (v : T) f fs ts L :
  observe_members h v (f :: fs) = Some (ts, L) <->
  exists t L1 ts' L2, observe_member h v f = Some (t, L1) /\ observe_members h v fs = Some (ts', L2) /\
    ts = t :: ts' /\ L = L1 ∪ L2.
Proof.
  simpl. destruct (observe_member h v f) as [[t L1]|]; simpl; [|naive_solver].
  destruct (observe_members h v fs) as [[ts' L2]|]; simpl; naive_solver.
Qed.

Lemma observe_members_dom {T} h (v : T) fs ts L : observe_members h v fs = Some (ts, L) -> L ⊆ dom h.
Proof.
  revert ts L. induction fs as [|f fs IH]; intros ts L; [intros [= _ <-]; set_solver|].
  rewrite observe_members_cons. intros (t & L1 & ts' & L2 & E1 & E2%IH & _ & ->).
  assert (L1 ⊆ dom h); [|set_solver]. destruct f; simpl in E1; [simplify_eq; set_solver|by apply observe_dom in E1].
Qed.

Lemma observe_members_local {T} h h' (v : T) fs ts L :
  observe_members h v fs = Some (ts, L) -> (forall l, l ∈ L -> h' !! l = h !! l) -> observe_members h' v fs = Some (ts, L).
Proof.
  revert ts L. induction fs as [|f fs IH]; intros ts L; [done|].
  rewrite !observe_members_cons. intros (t & L1 & ts' & L2 & E1 & E2 & -> & ->) Hl.
  exists t, L1, ts', L2. split_and!; [|apply IH; [done|set_solver]|done|done].
  destruct f; simpl in *; [done|]. eapply observe_local; [done|set_solver].
Qed.

Definition observe_struct {T} (fs : list (member T)) (h : heap C) (v : T) : option (tree * gset loc) :=
  '(ts, L) ← observe_members h v fs; Some (TStruct ts, L).

Program Definition struct_shape {T} (fs : list (member T)) : Shape C T := {| observe := observe_struct fs |}.
Next Obligation.
  intros T fs h v t L. unfold observe_struct. destruct (observe_members h v fs) as [[ts L1]|] eqn:E; simpl; [|done].
  intros [= _ <-]. by eapply observe_members_dom.
Qed.
Next Obligation.
  intros T fs h h' v t L. unfold observe_struct. destruct (observe_members h v fs) as [[ts L1]|] eqn:E; simpl; [|done].
  intros [= <- <-] Hl. by rewrite (observe_members_local h h' v fs ts L1).
Qed.
End shapes.
Arguments Data {C T} enc.
Arguments Part {C T A HA} get.

(** * Deep copies *)

Section copies.
Context {C : Type}.

Lemma fresh_loc_fresh (h : heap C) : h !! fresh_loc h = None.
Proof.
  assert (forall l, is_Some (h !! l) -> l < fresh_loc h) as Hlt.
  { unfold fresh_loc. apply (map_fold_weak_ind (fun n (m : heap C) => forall l, is_Some (m !! l) -> l < S n)).
    - intros l [x Hx]. by rewrite lookup_empty in Hx.
    - intros l c m n _ IH l' [x Hx]. destruct (decide (l = l')) as [->|Hne]; [lia|].
      rewrite lookup_insert_ne in Hx by done. specialize (IH l' (ex_intro _ x Hx)). lia. }
  destruct (h !! fresh_loc h) eqn:E; [|done]. specialize (Hlt (fresh_loc h) (ex_intro _ _ E)). lia.
Qed.

(** Reading back what was written. *)
Record lawful {T} (r : ref C T) : Prop := {
  get_set c v w : rget r c = Some w -> rget r (rset r v c) = Some v;
  set_set c v1 v2 w : rget r c = Some w -> rset r v2 (rset r v1 c) = rset r v2 c;
  set_id c v : rget r c = Some v -> rset r v c = c
}.

Lemma lawful_deref {T} `{Cell C T} l : lawful (deref (T:=T) l).
Proof. split; simpl; [intros; apply proj_inj|done|intros; by apply inj_proj]. Qed.

Lemma lawful_index {T} `{Cell C (list T)} l k : lawful (index (T:=T) l k).
Proof.
  split; simpl; intros c; destruct (proj c) as [vs|] eqn:E; simpl; try done.
  - intros v w Hk%lookup_lt_Some. rewrite proj_inj. simpl. by apply list_lookup_insert_eq.
  - intros v1 v2 w _. by rewrite proj_inj, list_insert_insert_eq.
  - intros v Hv. rewrite list_insert_id by done. by apply inj_proj.
Qed.

(** A getter and a setter of a field. *)
Record lens {T A} (get : T -> A) (set : A -> T -> T) : Prop := {
  lens_get a v : get (set a v) = a;
  lens_set a b v : set b (set a v) = set b v;
  lens_id v : set (get v) v = v
}.

Lemma lawful_field {T A} (r : ref C T) (get : T -> A) set : lawful r -> lens get set -> lawful (field r get set).
Proof.
  intros [Hg Hs Hi] [Lg Ls Li]. split; simpl; intros c; destruct (rget r c) as [x|] eqn:E; simpl; try done.
  - intros a b _. rewrite (Hg c _ x) by done. simpl. by rewrite Lg.
  - intros a b w _. rewrite (Hg c _ x), (Hs c _ _ x) by done. by rewrite Ls.
  - intros a [= <-]. rewrite Li. by apply Hi.
Qed.

(** The value a reference leads to. *)
Definition at_ref {T} (r : ref C T) (h : heap C) : option T := h !! rloc r ≫= rget r.

Lemma load_at {T} (r : ref C T) h v : at_ref r h = Some v -> load r h = (Ok v, h).
Proof. unfold at_ref, load. by intros ->. Qed.

(** [v'] in [h'] looks like [v] in [h], and shares nothing with [h]. *)
Definition fresh_copy {T} `{Shape C T} (h h' : heap C) (v v' : T) : Prop :=
  exists t L L', observe h v = Some (t, L) /\ observe h' v' = Some (t, L') /\ L' ## dom h.

(** [body], run on a variable and another one that holds a copy of its bits
    ([shallow]) or anything, leaves a deep copy in the other. *)
Definition copies_from {T} `{Shape C T} (shallow : bool) (body : ref C T -> ref C T -> M (heap C) unit) : Prop :=
  forall i o h v t L c w,
    lawful i -> lawful o -> at_ref i h = Some v -> observe h v = Some (t, L) ->
    h !! rloc o = Some c -> rget o c = Some w -> (shallow = true -> w = v) ->
    rloc o <> rloc i -> rloc o ∉ L ->
    exists v' h', body i o h = (Ok tt, <[rloc o := rset o v' c]> h') /\ h ⊆ h' /\ fresh_copy h h' v v'.
Definition Copies {T} `{Shape C T} := copies_from (T:=T) false.
Definition Finishes {T} `{Shape C T} := copies_from (T:=T) true.

Lemma Copies_Finishes {T} `{Shape C T} body : Copies body -> Finishes body.
Proof. intros Hb i o h v t L c w ?????????. by eapply Hb. Qed.

Lemma fresh_copy_mono {T} `{Shape C T} h h1 h2 (v v' : T) : h1 ⊆ h2 -> fresh_copy h h1 v v' -> fresh_copy h h2 v v'.
Proof.
  intros Hs (t & L & L' & E & E' & Hd). exists t, L, L'. split_and!; [done| |done].
  eapply observe_local; [done|]. intros l Hl. apply observe_dom in E'. apply E', elem_of_dom in Hl as [c Hc].
  rewrite Hc. by eapply lookup_weaken.
Qed.

(** What was there still looks the same in a larger memory, and after a write to
    a cell it does not lead to. *)
Lemma observe_mono {T} `{Shape C T} h h' (v : T) t L : h ⊆ h' -> observe h v = Some (t, L) -> observe h' v = Some (t, L).
Proof.
  intros Hs E. eapply observe_local; [done|]. intros l Hl. apply (observe_dom _ _ _ _ E), elem_of_dom in Hl as [c Hc].
  rewrite Hc. by eapply lookup_weaken.
Qed.

Lemma observe_insert {T} `{Shape C T} h l c (v : T) t L : l ∉ L -> observe h v = Some (t, L) -> observe (<[l := c]> h) v = Some (t, L).
Proof. intros Hl E. eapply observe_local; [done|]. intros l' Hl'. rewrite lookup_insert_ne; [done|]. by intros ->. Qed.

Lemma at_ref_insert {T} (r : ref C T) h l c : rloc r <> l -> at_ref r (<[l := c]> h) = at_ref r h.
Proof. intros Hn. unfold at_ref. by rewrite lookup_insert_ne. Qed.

Lemma at_ref_mono {T} (r : ref C T) h h' v : h ⊆ h' -> at_ref r h = Some v -> at_ref r h' = Some v.
Proof.
  unfold at_ref. intros Hs. destruct (h !! rloc r) as [c|] eqn:E; [|done]. simpl. by rewrite (lookup_weaken _ _ _ _ E Hs).
Qed.

Lemma store_at {T} (r : ref C T) h c v : h !! rloc r = Some c -> store r v h = (Ok tt, <[rloc r := rset r v c]> h).
Proof. unfold store. by intros ->. Qed.

Lemma assign_at {T} (i o : ref C T) h v c :
  at_ref i h = Some v -> h !! rloc o = Some c -> assign i o h = (Ok tt, <[rloc o := rset o v c]> h).
Proof. intros Hi Ho. unfold assign, mbind, M_bind. rewrite (load_at _ _ _ Hi). by apply store_at. Qed.

(** Data without pointers is copied by assignment. *)
Lemma assign_plain {T} `{Plain C T} : Copies (T:=T) assign.
Proof.
  intros i o h v t L c w _ _ Hi Hv Ho _ _ _ _. exists v, h. split; [by apply assign_at|]. split; [done|].
  rewrite observe_plain in Hv. injection Hv as <- <-. exists (plain v), ∅, ∅. rewrite observe_plain. set_solver.
Qed.

(** * Field by field *)

(** The state while the copy in [o] is completed: [o] holds [v] by now, the other
    old cells are as in [h], and there may be new ones. *)
Definition copying {T} (o : ref C T) (c : C) (h hk : heap C) (v : T) (m : heap C) : Prop :=
  m = <[rloc o := rset o v c]> hk /\ h ⊆ hk.

Lemma finish_field {T A} `{Shape C A} (get : T -> A) set body (i o : ref C T) c h hk v vk w t L m :
  Finishes body -> lens get set -> lawful i -> lawful o -> h !! rloc o = Some c -> rget o c = Some w ->
  at_ref i h = Some v -> rloc o <> rloc i -> observe h (get v) = Some (t, L) -> rloc o ∉ L ->
  get vk = get v -> copying o c h hk vk m ->
  exists a hk' m', body (field i get set) (field o get set) m = (Ok tt, m') /\
    copying o c h hk' (set a vk) m' /\ hk ⊆ hk' /\ fresh_copy h hk' (get v) a.
Proof.
  intros Hb Hl Hi Ho Hc Hw Hv Hne Hobs HL Hk [-> Hsub].
  assert (observe (<[rloc o := rset o vk c]> hk) (get v) = Some (t, L)) as Hobs'
    by (apply observe_insert; [done|by eapply observe_mono]).
  destruct (Hb (field i get set) (field o get set) (<[rloc o := rset o vk c]> hk) (get v) t L (rset o vk c) (get vk))
    as (a & h' & E & Hsub' & Hf).
  - by apply lawful_field.
  - by apply lawful_field.
  - unfold at_ref. simpl. rewrite lookup_insert_ne by done. pose proof (at_ref_mono _ _ _ _ Hsub Hv) as Hv'.
    unfold at_ref in Hv'. destruct (hk !! rloc i) as [ci|]; [|done]. simpl in *. by rewrite Hv'.
  - exact Hobs'.
  - simpl. by rewrite lookup_insert_eq.
  - simpl. by rewrite (get_set o Ho c vk w).
  - done.
  - done.
  - done.
  - simpl in E. rewrite (get_set o Ho c vk w) in E by done. rewrite (set_set o Ho c vk _ w) in E by done.
    assert (hk ⊆ <[rloc o := c]> h') as Hs.
    { apply map_subseteq_spec. intros l x Hx. destruct (decide (l = rloc o)) as [->|Hn].
      - rewrite lookup_insert_eq. by rewrite (lookup_weaken _ _ _ _ Hc Hsub) in Hx.
      - rewrite lookup_insert_ne by done. eapply lookup_weaken; [|done]. by rewrite lookup_insert_ne. }
    exists a, (<[rloc o := c]> h'), (<[rloc o := rset o (set a vk) c]> h').
    split; [exact E|]. split; [split; [by rewrite insert_insert_eq|by etrans]|]. split; [done|].
    destruct Hf as (t1 & L1 & L' & E1 & E2 & Hd). rewrite Hobs' in E1. injection E1 as <- <-.
    rewrite dom_insert in Hd. exists t, L, L'.
    split_and!; [done|apply observe_insert; [set_solver|done]|].
    assert (dom h ⊆ dom hk) by (by apply subseteq_dom). set_solver.
Qed.

(** What a structure is made of, one member after the other. *)
Definition member_copied {T} (h h' : heap C) (v v' : T) (f : member (C:=C) T) : Prop :=
  match f with
  | Data enc => enc v' = enc v
  | @Part _ _ A HA get => fresh_copy h h' (get v) (get v')
  end.

Lemma observe_part {T A} {HA : Shape C A} (get : T -> A) fs h v t L :
  observe_struct fs h v = Some (t, L) -> Part get ∈ fs ->
  exists t' L', observe h (get v) = Some (t', L') /\ L' ⊆ L.
Proof.
  unfold observe_struct. intros E Hin.
  destruct (observe_members h v fs) as [[ts L0]|] eqn:Em; simpl in E; [|done]. injection E as _ ->.
  revert ts L Em. induction fs as [|f fs IH]; intros ts L; [by apply elem_of_nil in Hin|].
  rewrite observe_members_cons. intros (t1 & L1 & ts' & L2 & E1 & E2 & _ & ->).
  apply elem_of_cons in Hin as [<-|Hin]; [exists t1, L1; split; [exact E1|set_solver]|].
  destruct (IH Hin ts' L2 E2) as (t' & L' & E' & Hs). exists t', L'. split; [exact E'|set_solver].
Qed.

Lemma struct_copied {T} (fs : list (member T)) h h' v v' t L :
  observe_struct fs h v = Some (t, L) -> Forall (member_copied h h' v v') fs ->
  fresh_copy (H:=struct_shape fs) h h' v v'.
Proof.
  unfold observe_struct. intros E Hall.
  destruct (observe_members h v fs) as [[ts L0]|] eqn:Em; simpl in E; [|done].
  assert (exists L', observe_members h' v' fs = Some (ts, L') /\ L' ## dom h) as (L' & E' & Hd).
  { clear E. revert ts L0 Em. induction Hall as [|f fs Hf _ IH]; intros ts L0.
    - intros [= <- <-]. exists ∅. split; [done|set_solver].
    - rewrite observe_members_cons. intros (t1 & L1 & ts' & L2 & E1 & E2 & -> & ->).
      destruct (IH ts' L2 E2) as (L' & E' & Hd).
      assert (exists L1', observe_member h' v' f = Some (t1, L1') /\ L1' ## dom h) as (L1' & E1' & Hd1).
      { destruct f as [enc|A HA get]; simpl in *.
        - exists ∅. rewrite Hf. injection E1 as <- _. split; [done|set_solver].
        - destruct Hf as (t2 & L2' & L3 & F1 & F2 & F3). rewrite E1 in F1. injection F1 as <- <-. by exists L3. }
      exists (L1' ∪ L'). split; [|set_solver]. apply observe_members_cons. by exists t1, L1', ts', L'. }
  exists (TStruct ts), L0, L'. simpl. unfold observe_struct. by rewrite Em, E'.
Qed.

(** The two variables of a call, and what is known of them. *)
Record copy_job {T} `{Shape C T} (i o : ref C T) (h : heap C) (v : T) (t : tree) (L : gset loc) (c : C) (w : T) : Prop := {
  cj_in : lawful i;
  cj_out : lawful o;
  cj_value : at_ref i h = Some v;
  cj_seen : observe h v = Some (t, L);
  cj_cell : h !! rloc o = Some c;
  cj_target : rget o c = Some w;
  cj_apart : rloc o <> rloc i;
  cj_unseen : rloc o ∉ L
}.

(** The rest of a call completes the copy. *)
Definition completes {T} `{Shape C T} (o : ref C T) (c : C) (h : heap C) (v : T) (rest : M (heap C) unit) (m : heap C) : Prop :=
  exists v' h', rest m = (Ok tt, <[rloc o := rset o v' c]> h') /\ h ⊆ h' /\ fresh_copy h h' v v'.

Lemma Copies_intro {T} `{Shape C T} (body : ref C T -> ref C T -> M (heap C) unit) :
  (forall i o h v t L c w, copy_job i o h v t L c w -> completes o c h v (body i o) h) -> Copies body.
Proof. intros Hb i o h v t L c w ?????????. by eapply Hb. Qed.

Lemma completes_last {T} `{Shape C T} o c h (v : T) rest m :
  completes o c h v (_ ← rest; mret tt) m -> completes o c h v rest m.
Proof.
  unfold completes, mbind, M_bind, mret, M_ret. intros (v' & h' & E & Hs). exists v', h'. split; [|done].
  destruct (rest m) as [[[]|e|p] m']; done.
Qed.

Lemma completes_assign {T} `{Shape C T} i o h (v : T) t L c w rest :
  copy_job i o h v t L c w ->
  (forall m, copying o c h h v m -> completes o c h v rest m) -> completes o c h v (_ ← assign i o; rest) h.
Proof.
  intros J Hr. destruct (Hr (<[rloc o := rset o v c]> h)) as (v' & h' & E & Hs); [done|].
  exists v', h'. split; [|done]. unfold mbind, M_bind.
  rewrite (assign_at i o h v c (cj_value _ _ _ _ _ _ _ _ J) (cj_cell _ _ _ _ _ _ _ _ J)). exact E.
Qed.

Lemma completes_part {T} (fs : list (member T)) {A} {HA : Shape C A} (get : T -> A) set body i o h v t L c w hk vk m rest :
  copy_job (H:=struct_shape fs) i o h v t L c w -> copying o c h hk vk m ->
  Finishes body -> lens get set -> Part get ∈ fs -> get vk = get v ->
  (forall a hk' m', copying o c h hk' (set a vk) m' -> hk ⊆ hk' -> fresh_copy h hk' (get v) a ->
     completes (H:=struct_shape fs) o c h v rest m') ->
  completes (H:=struct_shape fs) o c h v (_ ← body (field i get set) (field o get set); rest) m.
Proof.
  intros J Hm Hb Hl Hin Hk Hr. destruct (observe_part get fs h v t L (cj_seen _ _ _ _ _ _ _ _ J) Hin) as (t' & L' & E & HL).
  destruct J as [Ji Jo Jv Js Jc Jw Ja Ju].
  destruct (finish_field get set body i o c h hk v vk w t' L' m Hb Hl Ji Jo Jc Jw Jv Ja E) as (a & hk' & m' & E' & Hm' & Hs & Hf);
    [by intros ?%HL|done|done|].
  destruct (Hr a hk' m' Hm' Hs Hf) as (v' & h' & E'' & H'). exists v', h'. split; [|done].
  unfold mbind, M_bind. by rewrite E'.
Qed.

Lemma completes_done {T} (fs : list (member T)) i o h v t L c w hk vk m :
  copy_job (H:=struct_shape fs) i o h v t L c w -> copying o c h hk vk m ->
  Forall (member_copied h hk v vk) fs -> completes (H:=struct_shape fs) o c h v (mret tt) m.
Proof.
  intros J [-> Hs] Hall. exists vk, hk. split; [done|]. split; [done|].
  eapply struct_copied; [exact (cj_seen _ _ _ _ _ _ _ _ J)|exact Hall].
Qed.
End copies.

(** * Pointers and slices *)

Section indirections.
Context {C : Type}.

Lemma observe_pointer_Some `{Cell C T, Shape C T} h l t L :
  observe_pointer h (Addr l : ptr T) = Some (t, L) ->
  exists c v t' L', h !! l = Some c /\ proj c = Some v /\ observe h v = Some (t', L') /\ t = TPtr t' /\ L = {[l]} ∪ L'.
Proof.
  simpl. destruct (h !! l) as [c|] eqn:Ec; simpl; [|done]. destruct (proj c) as [v|] eqn:Ep; simpl; [|done].
  destruct (observe h v) as [[t1 L1]|] eqn:Ev; simpl; [|done]. intros [= <- <-]. by exists c, v, t1, L1.
Qed.

Lemma observe_slice_Some `{Cell C (list T), Shape C T} h (s : slice T) t L :
  observe_slice h (Some s) = Some (t, L) ->
  exists c vs ts L', h !! sl_array s = Some c /\ proj c = Some vs /\ sl_off s + sl_len s <= length vs /\
    observe_list h (elements_of s vs) = Some (ts, L') /\ t = TList ts /\ L = {[sl_array s]} ∪ L'.
Proof.
  simpl. destruct (h !! sl_array s) as [c|] eqn:Ec; simpl; [|done]. destruct (proj c) as [vs|] eqn:Ep; simpl; [|done].
  case_decide; [|done]. destruct (observe_list h _) as [[ts L1]|] eqn:Ev; simpl; [|done].
  intros [= <- <-]. by exists c, vs, ts, L1.
Qed.

Lemma at_ref_set {T} (o : ref C T) h c v w :
  lawful o -> rget o c = Some w -> at_ref o (<[rloc o := rset o v c]> h) = Some v.
Proof. intros Ho Hw. unfold at_ref. rewrite lookup_insert_eq. simpl. by eapply get_set. Qed.

Lemma at_deref `{Cell C T} l h c v : h !! l = Some c -> proj c = Some v -> at_ref (deref (T:=T) l) h = Some v.
Proof. unfold at_ref. simpl. by intros ->. Qed.

(** Nothing to be done for nil: the shallow copy is nil. *)
Lemma finish_nil {T} `{Shape C T} (o : ref C T) h c v :
  lawful o -> h !! rloc o = Some c -> rget o c = Some v -> observe h v = Some (TNil, ∅) ->
  completes o c h v (mret tt) h.
Proof.
  intros Ho Hc Hw Hv. exists v, h. split; [|split; [done|by exists TNil, ∅, ∅]].
  unfold mret, M_ret. rewrite (set_id o Ho c v) by done. by rewrite insert_id.
Qed.

(** The state after a new cell [l] was stored in [o]. *)
Lemma stored_new {T} (o : ref C T) h c w z v l :
  lawful o -> h !! rloc o = Some c -> rget o c = Some w -> h !! l = None ->
  store o v (<[l := z]> h) = (Ok tt, <[rloc o := rset o v c]> (<[l := z]> h)) /\
  h ⊆ <[l := z]> h /\ rloc o <> l.
Proof.
  intros Ho Hc Hw Hl. assert (rloc o <> l) as Hne by congruence. split_and!; [|by apply insert_subseteq|done].
  apply store_at. by rewrite lookup_insert_ne.
Qed.

Lemma copy_pointer_copies `{Cell C T, Shape C T} (zero : T) body : Copies body -> Finishes (copy_pointer zero body).
Proof.
  intros Hb i o h p t L c w Hi Ho Hv Hobs Hc Hw Hsh Hne HL. rewrite (Hsh eq_refl) in Hw. clear Hsh w.
  unfold copy_pointer, mbind at 1, M_bind at 1. rewrite (load_at _ _ _ Hv). destruct p as [|l].
  { by apply finish_nil. }
  apply observe_pointer_Some in Hobs as (cl & v & t' & L' & Hl & Hp & Hobs & -> & ->).
  set (n := fresh_loc h). pose proof (fresh_loc_fresh h : h !! n = None) as Hn.
  destruct (stored_new o h c _ (inj zero) (Addr n) n Ho Hc Hw Hn) as (Es & Hsub & Hon).
  set (m := <[rloc o := rset o (Addr n) c]> (<[n := inj zero]> h)) in *.
  unfold mbind at 1, M_bind at 1, new. fold n. unfold mbind at 1, M_bind at 1. rewrite Es.
  assert (at_ref i m = Some (Addr l)) as Hi'.
  { unfold m. rewrite at_ref_insert by done. by eapply at_ref_mono. }
  unfold mbind at 1, M_bind at 1. rewrite (load_at _ _ _ Hi').
  unfold mbind at 1, M_bind at 1. rewrite (load_at o m (Addr n) (at_ref_set o _ c (Addr n) _ Ho Hw)).
  assert (l <> n) as Hln by congruence. assert (n ∉ L') as HnL by (intros Hin; apply (observe_dom _ _ _ _ Hobs), elem_of_dom in Hin as [? ?]; congruence).
  destruct (Hb (deref l) (deref n) m v t' L' (inj zero) zero) as (v' & h' & E & Hs' & Hf); simpl; try done.
  - apply lawful_deref.
  - apply lawful_deref.
  - eapply at_deref; [|exact Hp]. unfold m. rewrite !lookup_insert_ne by (set_solver || done). done.
  - unfold m. apply observe_insert; [set_solver|]. by apply observe_insert.
  - unfold m. by rewrite lookup_insert_ne, lookup_insert_eq by done.
  - apply proj_inj.
  - rewrite E. exists (Addr n), (<[rloc o := c]> (<[n := inj v']> h')). simpl.
    assert (h' !! rloc o = Some (rset o (Addr n) c)) as Ho' by (eapply lookup_weaken; [|exact Hs']; by apply lookup_insert_eq).
    split; [|split].
    + f_equal. rewrite insert_insert_eq. symmetry. apply insert_id. by rewrite lookup_insert_ne.
    + apply map_subseteq_spec. intros k x Hx. destruct (decide (k = rloc o)) as [->|Hk]; [rewrite lookup_insert_eq; congruence|].
      destruct (decide (k = n)) as [->|Hk2]; [congruence|]. rewrite !lookup_insert_ne by done.
      eapply lookup_weaken; [|exact Hs']. unfold m. by rewrite !lookup_insert_ne.
    + destruct Hf as (t1 & L1 & L2 & E1 & E2 & Hd).
      assert (observe m v = Some (t', L')) as Hm by (unfold m; apply observe_insert; [set_solver|]; by apply observe_insert).
      rewrite Hm in E1. injection E1 as <- <-. unfold m in Hd. rewrite !dom_insert in Hd.
      exists (TPtr t'), ({[l]} ∪ L'), ({[n]} ∪ L2). simpl. rewrite Hl. simpl. rewrite Hp. simpl. rewrite Hobs. simpl.
      split; [done|]. rewrite lookup_insert_ne, lookup_insert_eq by done. simpl. rewrite proj_inj. simpl.
      rewrite (observe_insert _ _ _ _ t' L2), ?E2 by (try apply observe_insert; set_solver).
      split; [done|]. apply disjoint_union_l. split; [|set_solver]. apply not_elem_of_dom in Hn. set_solver.
Qed.

(** Copies of the elements of a slice, cell [n] being the new array. *)
Definition element_copied `{Shape C T} (h hk : heap C) (n : loc) (x y : T) : Prop :=
  exists t L L', observe h x = Some (t, L) /\ observe hk y = Some (t, L') /\ L' ## {[n]} ∪ dom h.

Lemma elements_copied_list `{Shape C T} h hk n xs ys ts L :
  Forall2 (element_copied h hk n) xs ys -> observe_list h xs = Some (ts, L) ->
  exists L', observe_list hk ys = Some (ts, L') /\ L' ## {[n]} ∪ dom h.
Proof.
  intros Hf. revert ts L. induction Hf as [|x y xs ys Hxy _ IH]; intros ts L.
  - intros [= <- <-]. exists ∅. split; [done|set_solver].
  - rewrite observe_list_cons. intros (t & L1 & ts' & L2 & E1 & E2 & -> & ->).
    destruct (IH ts' L2 E2) as (L' & E' & Hd). destruct Hxy as (t1 & L3 & L4 & F1 & F2 & F3).
    rewrite E1 in F1. injection F1 as <- <-. exists (L4 ∪ L'). split; [|set_solver].
    apply observe_list_cons. by exists t, L4, ts', L'.
Qed.

Lemma element_at `{Cell C (list T)} (r : ref C (slice_value T)) h s k :
  at_ref r h = Some (Some s) -> k < sl_len s -> element r k h = (Ok (index (sl_array s) (sl_off s + k)), h).
Proof. intros Hr Hk. unfold element, mbind, M_bind. rewrite (load_at _ _ _ Hr). by rewrite decide_True. Qed.

(** An element's copy stays what it is while the array is filled and memory grows. *)
Lemma element_copied_mono `{Shape C T} h hk hk' n (x y : T) :
  element_copied h hk n x y -> (forall l, l <> n -> is_Some (hk !! l) -> hk' !! l = hk !! l) -> element_copied h hk' n x y.
Proof.
  intros (t & L & L' & E & E' & Hd) Hk. exists t, L, L'. split_and!; [done| |done].
  eapply observe_local; [done|]. intros l Hl. apply Hk; [set_solver|].
  apply (observe_dom _ _ _ _ E') in Hl. by apply elem_of_dom in Hl.
Qed.

Section loop.
Context `{Cell C (list T), Shape C T} (body : ref C T -> ref C T -> M (heap C) unit) (body_copies : Copies body).
Context (i o : ref C (slice_value T)) (h : heap C) (c : C) (w : slice_value T) (s : slice T) (vs : list T) (cs : C) (n : loc).
Context (Hi : lawful i) (Ho : lawful o) (Hv : at_ref i h = Some (Some s)) (Hc : h !! rloc o = Some c) (Hw : rget o c = Some w).
Context (Hne : rloc o <> rloc i) (Hcs : h !! sl_array s = Some cs) (Hvs : proj cs = Some vs).
Context (Hlen : sl_off s + sl_len s <= length vs) (Hos : rloc o <> sl_array s) (Hn : h !! n = None).
Context (Helem : forall k x, k < sl_len s -> vs !! (sl_off s + k) = Some x ->
  exists t L, observe h x = Some (t, L) /\ rloc o ∉ L).

Definition new_slice : slice_value T := Some (mkSlice n 0 (sl_len s)).

(** After [k] rounds. *)
Record filling (k : nat) (hk : heap C) (ys : list T) : Prop := {
  fl_old : h ⊆ hk;
  fl_array : hk !! n = Some (inj ys);
  fl_length : length ys = sl_len s;
  fl_done j x y : j < k -> vs !! (sl_off s + j) = Some x -> ys !! j = Some y -> element_copied h hk n x y
}.

Lemma filling_step k hk ys :
  filling k hk ys -> k < sl_len s ->
  exists hk' ys', body (index (sl_array s) (sl_off s + k)) (index n (0 + k)) (<[rloc o := rset o new_slice c]> hk)
    = (Ok tt, <[rloc o := rset o new_slice c]> hk') /\ filling (S k) hk' ys'.
Proof.
  intros [Hold Harr Hl Hdone] Hk. set (m := <[rloc o := rset o new_slice c]> hk).
  destruct (lookup_lt_is_Some_2 vs (sl_off s + k)) as [x Hx]; [lia|].
  destruct (lookup_lt_is_Some_2 ys k) as [y0 Hy0]; [lia|].
  destruct (Helem k x Hk Hx) as (t & L & Hobs & HL). assert (rloc o <> n) as Hon by congruence.
  assert (sl_array s <> n) as Hsn by congruence.
  assert (n ∉ L) as HnL by (intros Hin; apply (observe_dom _ _ _ _ Hobs), elem_of_dom in Hin as [? ?]; congruence).
  assert (observe m x = Some (t, L)) as Hm by (apply observe_insert; [done|by eapply observe_mono]).
  destruct (body_copies (index (sl_array s) (sl_off s + k)) (index n k) m x t L (inj ys) y0) as (y & h' & E & Hs & Hf); simpl; try done.
  - apply lawful_index.
  - apply lawful_index.
  - unfold at_ref, m. simpl. rewrite lookup_insert_ne by done. rewrite (lookup_weaken _ _ _ _ Hcs Hold). simpl. by rewrite Hvs.
  - unfold m. by rewrite lookup_insert_ne.
  - by rewrite proj_inj.
  - simpl in E. rewrite proj_inj in E.
    assert (forall l z, hk !! l = Some z -> l <> n -> (<[rloc o := c]> (<[n := inj (<[k := y]> ys)]> h')) !! l = Some z) as Hgrow.
    { intros l z Hz Hln. destruct (decide (l = rloc o)) as [->|Hlo].
      - rewrite lookup_insert_eq. by rewrite (lookup_weaken _ _ _ _ Hc Hold) in Hz.
      - rewrite !lookup_insert_ne by done. eapply lookup_weaken; [|exact Hs]. unfold m. by rewrite lookup_insert_ne. }
    exists (<[rloc o := c]> (<[n := inj (<[k := y]> ys)]> h')), (<[k := y]> ys). split; [|split].
    + rewrite E. f_equal. rewrite insert_insert_eq. symmetry. apply insert_id. rewrite lookup_insert_ne by done.
      eapply lookup_weaken; [|exact Hs]. apply lookup_insert_eq.
    + apply map_subseteq_spec. intros l z Hz. apply Hgrow; [by eapply lookup_weaken|congruence].
    + by rewrite lookup_insert_ne, lookup_insert_eq by done.
    + by rewrite length_insert.
    + intros j xj yj Hj Hxj Hyj. destruct (decide (j = k)) as [->|Hjk].
      * rewrite list_lookup_insert_eq in Hyj by lia. injection Hyj as <-. assert (xj = x) as -> by congruence.
        destruct Hf as (t1 & L1 & L2 & E1 & E2 & Hd). rewrite Hm in E1. injection E1 as <- <-.
        exists t, L, L2. split; [done|]. unfold m in Hd. rewrite dom_insert in Hd.
        assert (n ∈ dom hk /\ dom h ⊆ dom hk) as [? ?] by (split; [by apply elem_of_dom; eexists|by apply subseteq_dom]).
        split; [|set_solver]. apply observe_insert; [set_solver|]. apply observe_insert; [set_solver|done].
      * rewrite list_lookup_insert_ne in Hyj by done. eapply element_copied_mono; [apply (Hdone j); [lia|done|done]|].
        intros l Hln [z Hz]. rewrite Hz. by apply Hgrow.
Qed.

Lemma range_elements_filling r k hk ys :
  filling k hk ys -> k + r = sl_len s ->
  exists hk' ys', range_elements body i o k r (<[rloc o := rset o new_slice c]> hk)
    = (Ok tt, <[rloc o := rset o new_slice c]> hk') /\ filling (sl_len s) hk' ys'.
Proof.
  revert k hk ys. induction r as [|r IH]; intros k hk ys Hf Hr.
  { exists hk, ys. split; [done|]. by replace (sl_len s) with k by lia. }
  cbn [range_elements]. destruct (filling_step k hk ys Hf) as (hk1 & ys1 & E & Hf1); [lia|].
  unfold mbind at 1, M_bind at 1. rewrite (element_at i _ s).
  2: { rewrite at_ref_insert by done. eapply at_ref_mono; [apply Hf|done]. } 2: lia.
  unfold mbind at 1, M_bind at 1. rewrite (element_at o _ (mkSlice n 0 (sl_len s))).
  2: { by eapply at_ref_set. } 2: { simpl. lia. }
  unfold mbind at 1, M_bind at 1. cbn [sl_array sl_off]. rewrite E. apply (IH (S k) hk1 ys1); [done|lia].
Qed.
End loop.

(** A filled array is a copy of the slice. *)
Lemma filled_copy `{Cell C (list T), Shape C T} h (s : slice T) vs cs n hk ys t L :
  h !! sl_array s = Some cs -> proj cs = Some vs -> sl_off s + sl_len s <= length vs -> h !! n = None ->
  filling h s vs n (sl_len s) hk ys -> observe h (Some s : slice_value T) = Some (t, L) ->
  fresh_copy h hk (Some s : slice_value T) (new_slice s n).
Proof.
  intros Hcs Hvs Hlen Hn [Hold Harr Hl Hdone] Hobs. pose proof Hobs as Hobs1.
  apply observe_slice_Some in Hobs as (c1 & vs1 & ts & L' & E1 & E2 & _ & Hts & -> & ->).
  assert (vs1 = vs) as -> by congruence.
  destruct (elements_copied_list h hk n (elements_of s vs) ys ts L') as (L2 & E' & Hd); [|done|].
  - apply Forall2_same_length_lookup_2.
    { unfold elements_of. rewrite length_take, length_drop. lia. }
    intros j x y Hx Hy. unfold elements_of in Hx. apply lookup_take_Some in Hx as [Hx Hj]. rewrite lookup_drop in Hx. by eapply Hdone.
  - exists (TList ts), ({[sl_array s]} ∪ L'), ({[n]} ∪ L2). split; [exact Hobs1|]. split.
    + simpl. rewrite Harr. simpl. rewrite proj_inj. simpl. rewrite decide_True by (simpl; lia).
      unfold elements_of. simpl. rewrite drop_0, take_ge by lia. by rewrite E'.
    + apply not_elem_of_dom in Hn. set_solver.
Qed.
(** The new array, before it is filled. *)
Lemma copy_slice_copies `{Cell C (list T), Shape C T} (zero : T) fill :
  (forall i o h c s t L n,
     lawful i -> lawful o -> at_ref i h = Some (Some s) -> h !! rloc o = Some c -> rget o c = Some (Some s) ->
     rloc o <> rloc i -> observe h (Some s : slice_value T) = Some (t, L) -> rloc o ∉ L -> h !! n = None ->
     exists hk, fill i o (sl_len s) (<[rloc o := rset o (new_slice s n) c]> (<[n := inj (replicate (sl_len s) zero)]> h))
         = (Ok tt, <[rloc o := rset o (new_slice s n) c]> hk) /\ h ⊆ hk /\
       fresh_copy h hk (Some s : slice_value T) (new_slice s n)) ->
  Finishes (copy_slice zero fill).
Proof.
  intros Hfill i o h p t L c w Hi Ho Hv Hobs Hc Hw Hsh Hne HL. rewrite (Hsh eq_refl) in Hw. clear Hsh w.
  unfold copy_slice, mbind at 1, M_bind at 1. rewrite (load_at _ _ _ Hv). destruct p as [s|]; [|by apply finish_nil].
  pose proof (fresh_loc_fresh h) as Hn.
  destruct (stored_new o h c _ (inj (replicate (sl_len s) zero)) (new_slice s (fresh_loc h)) _ Ho Hc Hw Hn) as (Es & _ & _).
  destruct (Hfill i o h c s t L (fresh_loc h) Hi Ho Hv Hc Hw Hne Hobs HL Hn) as (hk & E & Hs & Hf).
  exists (new_slice s (fresh_loc h)), hk. split; [|done].
  unfold make, new, mbind, M_bind, mret, M_ret. fold (new_slice s (fresh_loc h)). by rewrite Es.
Qed.

(** Slices of structures are copied element by element. *)
Lemma copy_structs_copies `{Cell C (list T), Shape C T} (zero : T) body :
  Copies body -> Finishes (copy_slice zero (fun i o n => range_elements body i o 0 n)).
Proof.
  intros Hb. apply copy_slice_copies. intros i o h c s t L n Hi Ho Hv Hc Hw Hne Hobs HL Hn.
  pose proof Hobs as Hobs1. apply observe_slice_Some in Hobs as (cs & vs & ts & L' & Hcs & Hvs & Hlen & Hts & -> & ->).
  assert (forall k x, k < sl_len s -> vs !! (sl_off s + k) = Some x -> exists t L, observe h x = Some (t, L) /\ rloc o ∉ L) as Helem.
  { intros k x Hk Hx. assert (x ∈ elements_of s vs) as Hin.
    { apply list_elem_of_lookup. exists k. unfold elements_of. rewrite lookup_take, lookup_drop. by rewrite decide_True. }
    assert (rloc o ∉ L') as HL' by set_solver. clear - Hts Hin HL'. revert ts L' Hts HL'. induction (elements_of s vs) as [|y ys IH]; intros ts L'; [by apply elem_of_nil in Hin|].
    rewrite observe_list_cons. intros (t & L1 & ts' & L2 & E1 & E2 & -> & ->) HL.
    apply elem_of_cons in Hin as [->|Hin]; [exists t, L1; split; [done|set_solver]|]. eapply IH; [done|exact E2|set_solver]. }
  assert (filling h s vs n 0 (<[n := inj (replicate (sl_len s) zero)]> h) (replicate (sl_len s) zero)) as Hfill0.
  { split; [by apply insert_subseteq|by rewrite lookup_insert_eq|by rewrite length_replicate|lia]. }
  destruct (range_elements_filling body Hb i o h c (Some s) s vs cs n Hi Ho Hv Hc Hw Hne Hcs Hvs Hlen) with (k := 0) (r := sl_len s)
    (hk := <[n := inj (replicate (sl_len s) zero)]> h) (ys := replicate (sl_len s) zero) as (hk & ys & E & Hf); try done; [set_solver|].
  exists hk. split; [exact E|]. split; [apply Hf|]. by eapply (filled_copy h s vs cs n).
Qed.

(** Slices of data are copied at once. *)
Lemma copy_values_copies `{Cell C (list T), Plain C T} (zero : T) :
  Finishes (copy_slice zero (fun i o _ => copy_elements (T:=T) i o)).
Proof.
  apply copy_slice_copies. intros i o h c s t L n Hi Ho Hv Hc Hw Hne Hobs HL Hn.
  pose proof Hobs as Hobs1. apply observe_slice_Some in Hobs as (cs & vs & ts & L' & Hcs & Hvs & Hlen & Hts & -> & ->).
  set (ys := elements_of s vs). assert (length ys = sl_len s) as Hys by (unfold ys, elements_of; rewrite length_take, length_drop; lia).
  assert (rloc o <> n) as Hon by congruence. assert (sl_array s <> n) as Hsn by congruence.
  assert (list_inserts 0 ys (replicate (sl_len s) zero) = ys) as Hins.
  { apply list_eq_same_length with (length ys); [done|rewrite length_inserts, length_replicate; lia|].
    intros k x y Hk Hx Hy. rewrite list_lookup_inserts in Hx by (rewrite ?length_replicate; lia). rewrite Nat.sub_0_r in Hx. congruence. }
  exists (<[n := inj ys]> h). split; [|split].
  - unfold copy_elements. unfold mbind at 1, M_bind at 1. rewrite (load_at _ _ (Some s)).
    2: { rewrite at_ref_insert by done. eapply at_ref_mono; [by apply insert_subseteq|done]. }
    unfold mbind at 1, M_bind at 1. rewrite (load_at _ _ (new_slice s n)) by by eapply at_ref_set.
    unfold new_slice at 1. unfold mbind at 1, M_bind at 1. rewrite (load_at _ _ vs).
    2: { eapply at_deref; [|exact Hvs]. rewrite !lookup_insert_ne by (set_solver || done). done. }
    unfold mbind at 1, M_bind at 1. rewrite (load_at _ _ (replicate (sl_len s) zero)).
    2: { eapply at_deref; [|apply proj_inj]. simpl. by rewrite lookup_insert_ne, lookup_insert_eq. }
    simpl. rewrite Nat.min_id. fold ys. rewrite take_ge by lia. rewrite Hins.
    unfold store. simpl. rewrite lookup_insert_ne, lookup_insert_eq by done. f_equal.
    rewrite (insert_insert_ne _ n (rloc o)) by done. by rewrite insert_insert_eq.
  - by apply insert_subseteq.
  - eapply (filled_copy h s vs cs n _ ys _ _ Hcs Hvs Hlen Hn); [|exact Hobs1].
    split; [by apply insert_subseteq|by rewrite lookup_insert_eq|done|].
    intros j x y Hj Hx Hy. unfold ys, elements_of in Hy. apply lookup_take_Some in Hy as [Hy _]. rewrite lookup_drop in Hy.
    assert (y = x) as -> by congruence. exists (plain x), ∅, ∅. rewrite !observe_plain. set_solver.
Qed.
End indirections.

(** * [DeepCopy] *)

Section deep_copy.
Context {C : Type}.

(** [func (in *T) DeepCopy() *T] *)
Definition deep_copy {T} `{Cell C T} (zero : T) (body : ref C T -> ref C T -> M (heap C) unit) (p : ptr T) :
    M (heap C) (ptr T) :=
  match p with
  | Nil => mret Nil
  | Addr l =>
    out ← new zero;
    _ ← body (deref l) (deref out);
    mret (Addr out)
  end.

(** [p'] in [h'] is a copy of [p] in [h]: it looks the same, consists of new cells,
    the old ones are as they were, and so neither sees what is written to the other's. *)
Record independent_copy {T} `{Cell C T, Shape C T} (p : ptr T) (h : heap C) (p' : ptr T) (h' : heap C) : Prop := {
  ic_nil : p' = Nil <-> p = Nil;
  ic_old l : l ∈ dom h -> h' !! l = h !! l;
  ic_same t L : observe h p = Some (t, L) -> exists L', observe h' p' = Some (t, L') /\ L' ## dom h;
  ic_copy_apart t L m : observe h p = Some (t, L) -> (forall l, l ∉ dom h -> m !! l = h' !! l) ->
    exists L', observe m p' = Some (t, L');
  ic_original_apart t L m : observe h p = Some (t, L) -> (forall l, l ∈ dom h -> m !! l = h' !! l) ->
    observe m p = Some (t, L)
}.

Lemma deep_copy_independent {T} `{Cell C T, Shape C T} (zero : T) body (p : ptr T) h t L :
  Copies body -> observe h p = Some (t, L) ->
  exists p' h', deep_copy zero body p h = (Ok p', h') /\ independent_copy p h p' h'.
Proof.
  intros Hb Hobs. destruct p as [|l].
  { exists Nil, h. split; [done|]. simpl in *. injection Hobs as <- <-.
       split; simpl; [done|done|..]; intros; simplify_eq; eauto with set_solver. exists ∅. set_solver. }
  pose proof Hobs as Hobs1. apply observe_pointer_Some in Hobs as (c & v & t' & L' & Hl & Hp & Hobs & -> & ->).
  set (n := fresh_loc h). pose proof (fresh_loc_fresh h : h !! n = None) as Hn. assert (l <> n) as Hln by congruence.
  assert (n ∉ L') as HnL by (intros Hin; apply (observe_dom _ _ _ _ Hobs), elem_of_dom in Hin as [? ?]; congruence).
  destruct (Hb (deref l) (deref n) (<[n := inj zero]> h) v t' L' (inj zero) zero) as (v' & h' & E & Hs & Hf); simpl; try done.
  { apply lawful_deref. } { apply lawful_deref. }
  { eapply at_deref; [|exact Hp]. by rewrite lookup_insert_ne. } { by apply observe_insert. } { by rewrite lookup_insert_eq. } { apply proj_inj. }
  exists (Addr n), (<[n := inj v']> h'). split.
  { unfold deep_copy, new, mbind, M_bind, mret, M_ret. fold n. simpl in E. by rewrite E. }
  assert (forall k, k ∈ dom h -> <[n := inj v']> h' !! k = h !! k) as Hold.
  { intros k [x Hx]%elem_of_dom. rewrite lookup_insert_ne by congruence. rewrite Hx. eapply lookup_weaken; [|exact Hs].
    rewrite lookup_insert_ne by congruence. done. }
  assert (exists L2, observe (<[n := inj v']> h') (Addr n : ptr T) = Some (TPtr t', L2) /\ L2 ## dom h) as (L2 & E2 & Hd).
  { destruct Hf as (t1 & L1 & L2 & F1 & F2 & Hd). rewrite (observe_insert h n _ v t' L') in F1 by done. injection F1 as <- <-.
    rewrite dom_insert in Hd. exists ({[n]} ∪ L2). split; [|apply not_elem_of_dom in Hn; set_solver].
    simpl. rewrite lookup_insert_eq. simpl. rewrite proj_inj. simpl. by rewrite (observe_insert _ _ _ _ t' L2) by (done || set_solver). }
  split; [done|exact Hold|..].
  - intros t L E1. rewrite Hobs1 in E1. injection E1 as <- <-. by exists L2.
  - intros t L m E1 Hm. rewrite Hobs1 in E1. injection E1 as <- <-. exists L2.
    eapply observe_local; [exact E2|]. intros k Hk. apply Hm. set_solver.
  - intros t L m E1 Hm. eapply observe_local; [exact E1|]. intros k Hk. apply (observe_dom _ _ _ _ E1) in Hk.
    by rewrite Hm, Hold.
Qed.
End deep_copy.

(** [&x.f] *)
Class FieldOf {T A} (get : T -> A) := { setf : A -> T -> T; setf_lens : lens get setf }.
Notation "r @& get" := (field r get (setf (get:=get))) (at level 25, no associativity).

(** A structure of members [fs]: its assignment, then its parts, then the end. *)
Ltac copy_start := apply Copies_intro; intros i o h v t L c w J; eapply completes_assign; [exact J|]; intros m Hm.
Ltac in_list := repeat first [apply list_elem_of_here | apply list_elem_of_further].
Tactic Notation "copy_part" uconstr(body) :=
  lazymatch goal with |- completes _ _ _ _ (_ ≫= _) _ => idtac | _ => apply completes_last end; eapply completes_part;
  [eassumption | eassumption | refine body | apply setf_lens | in_list | reflexivity |];
  let a := fresh "a" in let hk := fresh "hk" in let m := fresh "m" in
  let Hm := fresh "Hm" in let Hs := fresh "Hs" in let Hf := fresh "Hf" in
  intros a hk m Hm Hs Hf;
  repeat match goal with H : fresh_copy _ ?h1 _ _ |- _ => lazymatch type of Hs with h1 ⊆ _ => apply (fresh_copy_mono _ _ _ _ _ Hs) in H end end;
  clear Hs.
Ltac copy_end := eapply completes_done; [eassumption..|]; repeat constructor; assumption.
