(* ===== verification/DeepCopy.v ===== *)
(** [api/v1alpha1/zz_generated.deepcopy.go]: the deep copies of the API types.

    The types of [api/v1alpha1] as they lie in memory ([_mem]): pointers and
    slices are locations of the heap of GoHeap.v.  Each generated method is
    translated statement by statement.  The types of other packages and
    their own [DeepCopyInto] are parameters ([Externals], [ExternalCopies]); a
    concrete instance is at the end.

    The theorems: every [DeepCopy] returns a structure that looks the same and
    shares no cell with the original, so that what a reconciler does to its copy
    never shows in the cache it came from; and [DeepCopyObject] never wraps a
    nil pointer into an interface. *)

From S2P Require Import Prelude GoHeap.

(** * Types of other packages *)

Class Externals := {
  TypeMeta : Type; ObjectMeta : Type; ListMeta : Type; Condition : Type;
  ResourceRequirements : Type; PersistentVolumeClaimSpec : Type; RawExtension : Type;
  (** cells that only these packages know *)
  ext_cell : Type;
  zero_TypeMeta : TypeMeta; zero_ObjectMeta : ObjectMeta; zero_ListMeta : ListMeta; zero_Condition : Condition;
  zero_ResourceRequirements : ResourceRequirements;
  zero_PersistentVolumeClaimSpec : PersistentVolumeClaimSpec; zero_RawExtension : RawExtension
}.

Section deepcopy.
Context {EXT : Externals}.

(** * The structures in memory *)

Record SecretKeyRef_mem := mkSecretKeyRef {
  sr_Name : string;
  sr_Key : string
}.
Definition zero_SecretKeyRef : SecretKeyRef_mem := mkSecretKeyRef "" "".

Record AutheliaSecret_mem := mkAutheliaSecret {
  as_Name : string;
  as_Secret : ptr SecretKeyRef_mem
}.
Definition zero_AutheliaSecret : AutheliaSecret_mem := mkAutheliaSecret "" Nil.

Record AutheliaSettings_mem := mkAutheliaSettings {
  st_AdditionalConfig : ptr RawExtension;
  st_FileUsersSecret : ptr SecretKeyRef_mem;
  st_Secrets : slice_value AutheliaSecret_mem
}.
Definition zero_AutheliaSettings : AutheliaSettings_mem := mkAutheliaSettings Nil Nil None.

Record AutheliaDeploymentSpec_mem := mkAutheliaDeploymentSpec {
  ds_Replicas : ptr Z;
  ds_Image : string;
  ds_ImagePullPolicy : string;
  ds_Resources : ResourceRequirements;
  ds_ExistingSecret : string;
  ds_VolumeClaimTemplate : ptr PersistentVolumeClaimSpec
}.
Definition zero_AutheliaDeploymentSpec : AutheliaDeploymentSpec_mem :=
  mkAutheliaDeploymentSpec Nil "" "" zero_ResourceRequirements "" Nil.

Record AutheliaSpec_mem := mkAutheliaSpec {
  sp_Hostname : string;
  sp_Deployment : AutheliaDeploymentSpec_mem;
  sp_Settings : AutheliaSettings_mem
}.
Definition zero_AutheliaSpec : AutheliaSpec_mem :=
  mkAutheliaSpec "" zero_AutheliaDeploymentSpec zero_AutheliaSettings.

Record AutheliaStatus_mem := mkAutheliaStatus {
  ss_Conditions : slice_value Condition;
  ss_ReadyReplicas : Z;
  ss_OIDCClients : slice_value string;
  ss_AccessControlRules : slice_value string
}.
Definition zero_AutheliaStatus : AutheliaStatus_mem := mkAutheliaStatus None 0%Z None None.

Record Authelia_mem := mkAuthelia {
  a_TypeMeta : TypeMeta;
  a_ObjectMeta : ObjectMeta;
  a_Spec : AutheliaSpec_mem;
  a_Status : AutheliaStatus_mem
}.
Definition zero_Authelia : Authelia_mem :=
  mkAuthelia zero_TypeMeta zero_ObjectMeta zero_AutheliaSpec zero_AutheliaStatus.

Record AutheliaList_mem := mkAutheliaList {
  al_TypeMeta : TypeMeta;
  al_ListMeta : ListMeta;
  al_Items : slice_value Authelia_mem
}.
Definition zero_AutheliaList : AutheliaList_mem := mkAutheliaList zero_TypeMeta zero_ListMeta None.

Record AutheliaReference_mem := mkAutheliaReference {
  rf_Name : string;
  rf_Namespace : string
}.
Definition zero_AutheliaReference : AutheliaReference_mem := mkAutheliaReference "" "".

Record AutheliaOAuthClientSpec_mem := mkAutheliaOAuthClientSpec {
  cs_AutheliaRef : AutheliaReference_mem;
  cs_ClientID : string;
  cs_ClientName : string;
  cs_Public : bool;
  cs_AuthorizationPolicy : string;
  cs_ConsentMode : string;
  cs_ClaimsPolicy : string;
  cs_Lifespan : string;
  cs_RedirectURIs : slice_value string;
  cs_Scopes : slice_value string;
  cs_GrantTypes : slice_value string;
  cs_ResponseTypes : slice_value string;
  cs_TokenEndpointAuthMethod : string;
  cs_UserinfoSignedResponseAlg : string
}.
Definition zero_AutheliaOAuthClientSpec : AutheliaOAuthClientSpec_mem :=
  mkAutheliaOAuthClientSpec zero_AutheliaReference "" "" false "" "" "" "" None None None None "" "".

Record AutheliaOAuthClientStatus_mem := mkAutheliaOAuthClientStatus {
  ct_Conditions : slice_value Condition;
  ct_SecretName : string
}.
Definition zero_AutheliaOAuthClientStatus : AutheliaOAuthClientStatus_mem := mkAutheliaOAuthClientStatus None "".

Record AutheliaOAuthClient_mem := mkAutheliaOAuthClient {
  c_TypeMeta : TypeMeta;
  c_ObjectMeta : ObjectMeta;
  c_Spec : AutheliaOAuthClientSpec_mem;
  c_Status : AutheliaOAuthClientStatus_mem
}.
Definition zero_AutheliaOAuthClient : AutheliaOAuthClient_mem :=
  mkAutheliaOAuthClient zero_TypeMeta zero_ObjectMeta zero_AutheliaOAuthClientSpec zero_AutheliaOAuthClientStatus.

Record AutheliaOAuthClientList_mem := mkAutheliaOAuthClientList {
  cl_TypeMeta : TypeMeta;
  cl_ListMeta : ListMeta;
  cl_Items : slice_value AutheliaOAuthClient_mem
}.
Definition zero_AutheliaOAuthClientList : AutheliaOAuthClientList_mem :=
  mkAutheliaOAuthClientList zero_TypeMeta zero_ListMeta None.

(** * Cells *)

Inductive cell :=
  | CExt (v : ext_cell)
  | CInt32 (v : Z)
  | CStrings (v : list string)
  | CConditions (v : list Condition)
  | CRawExtension (v : RawExtension)
  | CPersistentVolumeClaimSpec (v : PersistentVolumeClaimSpec)
  | CSecretKeyRef (v : SecretKeyRef_mem)
  | CAutheliaSecret (v : AutheliaSecret_mem)
  | CAutheliaSettings (v : AutheliaSettings_mem)
  | CAutheliaDeploymentSpec (v : AutheliaDeploymentSpec_mem)
  | CAutheliaSpec (v : AutheliaSpec_mem)
  | CAutheliaStatus (v : AutheliaStatus_mem)
  | CAuthelia (v : Authelia_mem)
  | CAutheliaList (v : AutheliaList_mem)
  | CAutheliaReference (v : AutheliaReference_mem)
  | CAutheliaOAuthClientSpec (v : AutheliaOAuthClientSpec_mem)
  | CAutheliaOAuthClientStatus (v : AutheliaOAuthClientStatus_mem)
  | CAutheliaOAuthClient (v : AutheliaOAuthClient_mem)
  | CAutheliaOAuthClientList (v : AutheliaOAuthClientList_mem)
  | CSecrets (v : list AutheliaSecret_mem)
  | CAuthelias (v : list Authelia_mem)
  | CClients (v : list AutheliaOAuthClient_mem).

#[local] Obligation Tactic := try done; try (by intros []; simpl; intros; simplify_eq).

#[export] Program Instance Ext_cell : Cell cell (ext_cell) :=
  {| inj := CExt; proj c := if c is CExt v then Some v else None |}.
#[export] Program Instance Int32_cell : Cell cell (Z) :=
  {| inj := CInt32; proj c := if c is CInt32 v then Some v else None |}.
#[export] Program Instance Strings_cell : Cell cell (list string) :=
  {| inj := CStrings; proj c := if c is CStrings v then Some v else None |}.
#[export] Program Instance Conditions_cell : Cell cell (list Condition) :=
  {| inj := CConditions; proj c := if c is CConditions v then Some v else None |}.
#[export] Program Instance RawExtension_cell : Cell cell (RawExtension) :=
  {| inj := CRawExtension; proj c := if c is CRawExtension v then Some v else None |}.
#[export] Program Instance PersistentVolumeClaimSpec_cell : Cell cell (PersistentVolumeClaimSpec) :=
  {| inj := CPersistentVolumeClaimSpec; proj c := if c is CPersistentVolumeClaimSpec v then Some v else None |}.
#[export] Program Instance SecretKeyRef_cell : Cell cell (SecretKeyRef_mem) :=
  {| inj := CSecretKeyRef; proj c := if c is CSecretKeyRef v then Some v else None |}.
#[export] Program Instance AutheliaSecret_cell : Cell cell (AutheliaSecret_mem) :=
  {| inj := CAutheliaSecret; proj c := if c is CAutheliaSecret v then Some v else None |}.
#[export] Program Instance AutheliaSettings_cell : Cell cell (AutheliaSettings_mem) :=
  {| inj := CAutheliaSettings; proj c := if c is CAutheliaSettings v then Some v else None |}.
#[export] Program Instance AutheliaDeploymentSpec_cell : Cell cell (AutheliaDeploymentSpec_mem) :=
  {| inj := CAutheliaDeploymentSpec; proj c := if c is CAutheliaDeploymentSpec v then Some v else None |}.
#[export] Program Instance AutheliaSpec_cell : Cell cell (AutheliaSpec_mem) :=
  {| inj := CAutheliaSpec; proj c := if c is CAutheliaSpec v then Some v else None |}.
#[export] Program Instance AutheliaStatus_cell : Cell cell (AutheliaStatus_mem) :=
  {| inj := CAutheliaStatus; proj c := if c is CAutheliaStatus v then Some v else None |}.
#[export] Program Instance Authelia_cell : Cell cell (Authelia_mem) :=
  {| inj := CAuthelia; proj c := if c is CAuthelia v then Some v else None |}.
#[export] Program Instance AutheliaList_cell : Cell cell (AutheliaList_mem) :=
  {| inj := CAutheliaList; proj c := if c is CAutheliaList v then Some v else None |}.
#[export] Program Instance AutheliaReference_cell : Cell cell (AutheliaReference_mem) :=
  {| inj := CAutheliaReference; proj c := if c is CAutheliaReference v then Some v else None |}.
#[export] Program Instance AutheliaOAuthClientSpec_cell : Cell cell (AutheliaOAuthClientSpec_mem) :=
  {| inj := CAutheliaOAuthClientSpec; proj c := if c is CAutheliaOAuthClientSpec v then Some v else None |}.
#[export] Program Instance AutheliaOAuthClientStatus_cell : Cell cell (AutheliaOAuthClientStatus_mem) :=
  {| inj := CAutheliaOAuthClientStatus; proj c := if c is CAutheliaOAuthClientStatus v then Some v else None |}.
#[export] Program Instance AutheliaOAuthClient_cell : Cell cell (AutheliaOAuthClient_mem) :=
  {| inj := CAutheliaOAuthClient; proj c := if c is CAutheliaOAuthClient v then Some v else None |}.
#[export] Program Instance AutheliaOAuthClientList_cell : Cell cell (AutheliaOAuthClientList_mem) :=
  {| inj := CAutheliaOAuthClientList; proj c := if c is CAutheliaOAuthClientList v then Some v else None |}.
#[export] Program Instance Secrets_cell : Cell cell (list AutheliaSecret_mem) :=
  {| inj := CSecrets; proj c := if c is CSecrets v then Some v else None |}.
#[export] Program Instance Authelias_cell : Cell cell (list Authelia_mem) :=
  {| inj := CAuthelias; proj c := if c is CAuthelias v then Some v else None |}.
#[export] Program Instance Clients_cell : Cell cell (list AutheliaOAuthClient_mem) :=
  {| inj := CClients; proj c := if c is CClients v then Some v else None |}.

(** * Fields *)

#[local] Obligation Tactic := split; [done|done|by intros []].

#[export] Program Instance as_Secret_field : FieldOf as_Secret := {| setf v x := mkAutheliaSecret (as_Name x) v |}.
#[export] Program Instance st_AdditionalConfig_field : FieldOf st_AdditionalConfig :=
  {| setf v x := mkAutheliaSettings v (st_FileUsersSecret x) (st_Secrets x) |}.
#[export] Program Instance st_FileUsersSecret_field : FieldOf st_FileUsersSecret :=
  {| setf v x := mkAutheliaSettings (st_AdditionalConfig x) v (st_Secrets x) |}.
#[export] Program Instance st_Secrets_field : FieldOf st_Secrets :=
  {| setf v x := mkAutheliaSettings (st_AdditionalConfig x) (st_FileUsersSecret x) v |}.
#[export] Program Instance ds_Replicas_field : FieldOf ds_Replicas :=
  {| setf v x := mkAutheliaDeploymentSpec v (ds_Image x) (ds_ImagePullPolicy x) (ds_Resources x) (ds_ExistingSecret x)
      (ds_VolumeClaimTemplate x) |}.
#[export] Program Instance ds_Resources_field : FieldOf ds_Resources :=
  {| setf v x := mkAutheliaDeploymentSpec (ds_Replicas x) (ds_Image x) (ds_ImagePullPolicy x) v (ds_ExistingSecret x)
      (ds_VolumeClaimTemplate x) |}.
#[export] Program Instance ds_VolumeClaimTemplate_field : FieldOf ds_VolumeClaimTemplate :=
  {| setf v x := mkAutheliaDeploymentSpec (ds_Replicas x) (ds_Image x) (ds_ImagePullPolicy x) (ds_Resources x)
      (ds_ExistingSecret x) v |}.
#[export] Program Instance sp_Deployment_field : FieldOf sp_Deployment :=
  {| setf v x := mkAutheliaSpec (sp_Hostname x) v (sp_Settings x) |}.
#[export] Program Instance sp_Settings_field : FieldOf sp_Settings :=
  {| setf v x := mkAutheliaSpec (sp_Hostname x) (sp_Deployment x) v |}.
#[export] Program Instance ss_Conditions_field : FieldOf ss_Conditions :=
  {| setf v x := mkAutheliaStatus v (ss_ReadyReplicas x) (ss_OIDCClients x) (ss_AccessControlRules x) |}.
#[export] Program Instance ss_OIDCClients_field : FieldOf ss_OIDCClients :=
  {| setf v x := mkAutheliaStatus (ss_Conditions x) (ss_ReadyReplicas x) v (ss_AccessControlRules x) |}.
#[export] Program Instance ss_AccessControlRules_field : FieldOf ss_AccessControlRules :=
  {| setf v x := mkAutheliaStatus (ss_Conditions x) (ss_ReadyReplicas x) (ss_OIDCClients x) v |}.
#[export] Program Instance a_TypeMeta_field : FieldOf a_TypeMeta :=
  {| setf v x := mkAuthelia v (a_ObjectMeta x) (a_Spec x) (a_Status x) |}.
#[export] Program Instance a_ObjectMeta_field : FieldOf a_ObjectMeta :=
  {| setf v x := mkAuthelia (a_TypeMeta x) v (a_Spec x) (a_Status x) |}.
#[export] Program Instance a_Spec_field : FieldOf a_Spec :=
  {| setf v x := mkAuthelia (a_TypeMeta x) (a_ObjectMeta x) v (a_Status x) |}.
#[export] Program Instance a_Status_field : FieldOf a_Status :=
  {| setf v x := mkAuthelia (a_TypeMeta x) (a_ObjectMeta x) (a_Spec x) v |}.
#[export] Program Instance al_TypeMeta_field : FieldOf al_TypeMeta :=
  {| setf v x := mkAutheliaList v (al_ListMeta x) (al_Items x) |}.
#[export] Program Instance al_ListMeta_field : FieldOf al_ListMeta :=
  {| setf v x := mkAutheliaList (al_TypeMeta x) v (al_Items x) |}.
#[export] Program Instance al_Items_field : FieldOf al_Items :=
  {| setf v x := mkAutheliaList (al_TypeMeta x) (al_ListMeta x) v |}.
#[export] Program Instance cs_AutheliaRef_field : FieldOf cs_AutheliaRef :=
  {| setf v x := mkAutheliaOAuthClientSpec v (cs_ClientID x) (cs_ClientName x) (cs_Public x) (cs_AuthorizationPolicy x)
      (cs_ConsentMode x) (cs_ClaimsPolicy x) (cs_Lifespan x) (cs_RedirectURIs x) (cs_Scopes x) (cs_GrantTypes x)
      (cs_ResponseTypes x) (cs_TokenEndpointAuthMethod x) (cs_UserinfoSignedResponseAlg x) |}.
#[export] Program Instance cs_RedirectURIs_field : FieldOf cs_RedirectURIs :=
  {| setf v x := mkAutheliaOAuthClientSpec (cs_AutheliaRef x) (cs_ClientID x) (cs_ClientName x) (cs_Public x)
      (cs_AuthorizationPolicy x) (cs_ConsentMode x) (cs_ClaimsPolicy x) (cs_Lifespan x) v (cs_Scopes x) (cs_GrantTypes x)
      (cs_ResponseTypes x) (cs_TokenEndpointAuthMethod x) (cs_UserinfoSignedResponseAlg x) |}.
#[export] Program Instance cs_Scopes_field : FieldOf cs_Scopes :=
  {| setf v x := mkAutheliaOAuthClientSpec (cs_AutheliaRef x) (cs_ClientID x) (cs_ClientName x) (cs_Public x)
      (cs_AuthorizationPolicy x) (cs_ConsentMode x) (cs_ClaimsPolicy x) (cs_Lifespan x) (cs_RedirectURIs x) v
      (cs_GrantTypes x) (cs_ResponseTypes x) (cs_TokenEndpointAuthMethod x) (cs_UserinfoSignedResponseAlg x) |}.
#[export] Program Instance cs_GrantTypes_field : FieldOf cs_GrantTypes :=
  {| setf v x := mkAutheliaOAuthClientSpec (cs_AutheliaRef x) (cs_ClientID x) (cs_ClientName x) (cs_Public x)
      (cs_AuthorizationPolicy x) (cs_ConsentMode x) (cs_ClaimsPolicy x) (cs_Lifespan x) (cs_RedirectURIs x) (cs_Scopes x)
      v (cs_ResponseTypes x) (cs_TokenEndpointAuthMethod x) (cs_UserinfoSignedResponseAlg x) |}.
#[export] Program Instance cs_ResponseTypes_field : FieldOf cs_ResponseTypes :=
  {| setf v x := mkAutheliaOAuthClientSpec (cs_AutheliaRef x) (cs_ClientID x) (cs_ClientName x) (cs_Public x)
      (cs_AuthorizationPolicy x) (cs_ConsentMode x) (cs_ClaimsPolicy x) (cs_Lifespan x) (cs_RedirectURIs x) (cs_Scopes x)
      (cs_GrantTypes x) v (cs_TokenEndpointAuthMethod x) (cs_UserinfoSignedResponseAlg x) |}.
#[export] Program Instance ct_Conditions_field : FieldOf ct_Conditions :=
  {| setf v x := mkAutheliaOAuthClientStatus v (ct_SecretName x) |}.
#[export] Program Instance c_TypeMeta_field : FieldOf c_TypeMeta :=
  {| setf v x := mkAutheliaOAuthClient v (c_ObjectMeta x) (c_Spec x) (c_Status x) |}.
#[export] Program Instance c_ObjectMeta_field : FieldOf c_ObjectMeta :=
  {| setf v x := mkAutheliaOAuthClient (c_TypeMeta x) v (c_Spec x) (c_Status x) |}.
#[export] Program Instance c_Spec_field : FieldOf c_Spec :=
  {| setf v x := mkAutheliaOAuthClient (c_TypeMeta x) (c_ObjectMeta x) v (c_Status x) |}.
#[export] Program Instance c_Status_field : FieldOf c_Status :=
  {| setf v x := mkAutheliaOAuthClient (c_TypeMeta x) (c_ObjectMeta x) (c_Spec x) v |}.
#[export] Program Instance cl_TypeMeta_field : FieldOf cl_TypeMeta :=
  {| setf v x := mkAutheliaOAuthClientList v (cl_ListMeta x) (cl_Items x) |}.
#[export] Program Instance cl_ListMeta_field : FieldOf cl_ListMeta :=
  {| setf v x := mkAutheliaOAuthClientList (cl_TypeMeta x) v (cl_Items x) |}.
#[export] Program Instance cl_Items_field : FieldOf cl_Items :=
  {| setf v x := mkAutheliaOAuthClientList (cl_TypeMeta x) (cl_ListMeta x) v |}.

#[local] Obligation Tactic := done.

(** * What can be seen of a structure *)

(** The methods of other packages that are called, and what they promise: they
    are deep copies themselves. *)
Class ExternalCopies := {
  TypeMeta_shape :: Shape cell TypeMeta;
  TypeMeta_plain :: Plain cell TypeMeta;
  ObjectMeta_shape :: Shape cell ObjectMeta;
  ObjectMeta_DeepCopyInto : ref cell ObjectMeta -> ref cell ObjectMeta -> M (heap cell) unit;
  ObjectMeta_copies : Copies ObjectMeta_DeepCopyInto;
  ListMeta_shape :: Shape cell ListMeta;
  ListMeta_DeepCopyInto : ref cell ListMeta -> ref cell ListMeta -> M (heap cell) unit;
  ListMeta_copies : Copies ListMeta_DeepCopyInto;
  Condition_shape :: Shape cell Condition;
  Condition_DeepCopyInto : ref cell Condition -> ref cell Condition -> M (heap cell) unit;
  Condition_copies : Copies Condition_DeepCopyInto;
  ResourceRequirements_shape :: Shape cell ResourceRequirements;
  ResourceRequirements_DeepCopyInto : ref cell ResourceRequirements -> ref cell ResourceRequirements -> M (heap
    cell) unit;
  ResourceRequirements_copies : Copies ResourceRequirements_DeepCopyInto;
  PersistentVolumeClaimSpec_shape :: Shape cell PersistentVolumeClaimSpec;
  PersistentVolumeClaimSpec_DeepCopyInto : ref cell PersistentVolumeClaimSpec -> ref cell PersistentVolumeClaimSpec
    -> M (heap cell) unit;
  PersistentVolumeClaimSpec_copies : Copies PersistentVolumeClaimSpec_DeepCopyInto;
  RawExtension_shape :: Shape cell RawExtension;
  RawExtension_DeepCopyInto : ref cell RawExtension -> ref cell RawExtension -> M (heap cell) unit;
  RawExtension_copies : Copies RawExtension_DeepCopyInto
}.
Context {COPIES : ExternalCopies}.

#[export] Instance Z_shape : Shape cell Z := plain_shape TInt.
#[export] Instance string_shape : Shape cell string := plain_shape TStr.
#[export] Program Instance Z_plain : Plain cell Z := {| plain := TInt |}.
#[export] Program Instance string_plain : Plain cell string := {| plain := TStr |}.

#[export] Instance SecretKeyRef_shape : Shape cell SecretKeyRef_mem :=
  plain_shape (fun x => TStruct [TStr (sr_Name x); TStr (sr_Key x)]).
#[export] Program Instance SecretKeyRef_plain : Plain cell SecretKeyRef_mem :=
  {| plain x := TStruct [TStr (sr_Name x); TStr (sr_Key x)] |}.

Definition AutheliaSecret_members : list (member (C:=cell) AutheliaSecret_mem) :=
  [Data (fun x => TStr (as_Name x)); Part as_Secret].
#[export] Instance AutheliaSecret_shape : Shape cell AutheliaSecret_mem := struct_shape AutheliaSecret_members.

Definition AutheliaSettings_members : list (member (C:=cell) AutheliaSettings_mem) :=
  [Part st_AdditionalConfig; Part st_FileUsersSecret; Part st_Secrets].
#[export] Instance AutheliaSettings_shape : Shape cell AutheliaSettings_mem := struct_shape AutheliaSettings_members.

Definition AutheliaDeploymentSpec_members : list (member (C:=cell) AutheliaDeploymentSpec_mem) :=
  [Part ds_Replicas; Data (fun x => TStr (ds_Image x)); Data (fun x => TStr (ds_ImagePullPolicy x));
    Part ds_Resources; Data (fun x => TStr (ds_ExistingSecret x)); Part ds_VolumeClaimTemplate].
#[export] Instance AutheliaDeploymentSpec_shape : Shape cell AutheliaDeploymentSpec_mem :=
  struct_shape AutheliaDeploymentSpec_members.

Definition AutheliaSpec_members : list (member (C:=cell) AutheliaSpec_mem) :=
  [Data (fun x => TStr (sp_Hostname x)); Part sp_Deployment; Part sp_Settings].
#[export] Instance AutheliaSpec_shape : Shape cell AutheliaSpec_mem := struct_shape AutheliaSpec_members.

Definition AutheliaStatus_members : list (member (C:=cell) AutheliaStatus_mem) :=
  [Part ss_Conditions; Data (fun x => TInt (ss_ReadyReplicas x)); Part ss_OIDCClients; Part ss_AccessControlRules].
#[export] Instance AutheliaStatus_shape : Shape cell AutheliaStatus_mem := struct_shape AutheliaStatus_members.

Definition Authelia_members : list (member (C:=cell) Authelia_mem) :=
  [Part a_TypeMeta; Part a_ObjectMeta; Part a_Spec; Part a_Status].
#[export] Instance Authelia_shape : Shape cell Authelia_mem := struct_shape Authelia_members.

Definition AutheliaList_members : list (member (C:=cell) AutheliaList_mem) :=
  [Part al_TypeMeta; Part al_ListMeta; Part al_Items].
#[export] Instance AutheliaList_shape : Shape cell AutheliaList_mem := struct_shape AutheliaList_members.

#[export] Instance AutheliaReference_shape : Shape cell AutheliaReference_mem :=
  plain_shape (fun x => TStruct [TStr (rf_Name x); TStr (rf_Namespace x)]).
#[export] Program Instance AutheliaReference_plain : Plain cell AutheliaReference_mem :=
  {| plain x := TStruct [TStr (rf_Name x); TStr (rf_Namespace x)] |}.

Definition AutheliaOAuthClientSpec_members : list (member (C:=cell) AutheliaOAuthClientSpec_mem) :=
  [Part cs_AutheliaRef; Data (fun x => TStr (cs_ClientID x)); Data (fun x => TStr (cs_ClientName x));
    Data (fun x => TBool (cs_Public x)); Data (fun x => TStr (cs_AuthorizationPolicy x));
    Data (fun x => TStr (cs_ConsentMode x)); Data (fun x => TStr (cs_ClaimsPolicy x));
    Data (fun x => TStr (cs_Lifespan x)); Part cs_RedirectURIs; Part cs_Scopes; Part cs_GrantTypes;
    Part cs_ResponseTypes; Data (fun x => TStr (cs_TokenEndpointAuthMethod x));
    Data (fun x => TStr (cs_UserinfoSignedResponseAlg x))].
#[export] Instance AutheliaOAuthClientSpec_shape : Shape cell AutheliaOAuthClientSpec_mem :=
  struct_shape AutheliaOAuthClientSpec_members.

Definition AutheliaOAuthClientStatus_members : list (member (C:=cell) AutheliaOAuthClientStatus_mem) :=
  [Part ct_Conditions; Data (fun x => TStr (ct_SecretName x))].
#[export] Instance AutheliaOAuthClientStatus_shape : Shape cell AutheliaOAuthClientStatus_mem :=
  struct_shape AutheliaOAuthClientStatus_members.

Definition AutheliaOAuthClient_members : list (member (C:=cell) AutheliaOAuthClient_mem) :=
  [Part c_TypeMeta; Part c_ObjectMeta; Part c_Spec; Part c_Status].
#[export] Instance AutheliaOAuthClient_shape : Shape cell AutheliaOAuthClient_mem :=
  struct_shape AutheliaOAuthClient_members.

Definition AutheliaOAuthClientList_members : list (member (C:=cell) AutheliaOAuthClientList_mem) :=
  [Part cl_TypeMeta; Part cl_ListMeta; Part cl_Items].
#[export] Instance AutheliaOAuthClientList_shape : Shape cell AutheliaOAuthClientList_mem :=
  struct_shape AutheliaOAuthClientList_members.

(** * [DeepCopyInto] *)

Definition SecretKeyRef_DeepCopyInto (in_ out : ref cell SecretKeyRef_mem) : M (heap cell) unit :=
  assign in_ out.

Definition AutheliaSecret_DeepCopyInto (in_ out : ref cell AutheliaSecret_mem) : M (heap cell) unit :=
  _ ← assign in_ out;
  copy_pointer zero_SecretKeyRef assign (in_ @& as_Secret) (out @& as_Secret).

Definition AutheliaSettings_DeepCopyInto (in_ out : ref cell AutheliaSettings_mem) : M (heap cell) unit :=
  _ ← assign in_ out;
  _ ← copy_pointer zero_RawExtension RawExtension_DeepCopyInto
    (in_ @& st_AdditionalConfig) (out @& st_AdditionalConfig);
  _ ← copy_pointer zero_SecretKeyRef assign (in_ @& st_FileUsersSecret) (out @& st_FileUsersSecret);
  copy_slice zero_AutheliaSecret (fun i o n => range_elements AutheliaSecret_DeepCopyInto i o 0 n)
    (in_ @& st_Secrets) (out @& st_Secrets).

Definition AutheliaDeploymentSpec_DeepCopyInto (in_ out : ref cell AutheliaDeploymentSpec_mem) : M (heap cell) unit :=
  _ ← assign in_ out;
  _ ← copy_pointer 0%Z assign (in_ @& ds_Replicas) (out @& ds_Replicas);
  _ ← ResourceRequirements_DeepCopyInto (in_ @& ds_Resources) (out @& ds_Resources);
  copy_pointer zero_PersistentVolumeClaimSpec PersistentVolumeClaimSpec_DeepCopyInto
    (in_ @& ds_VolumeClaimTemplate) (out @& ds_VolumeClaimTemplate).

Definition AutheliaSpec_DeepCopyInto (in_ out : ref cell AutheliaSpec_mem) : M (heap cell) unit :=
  _ ← assign in_ out;
  _ ← AutheliaDeploymentSpec_DeepCopyInto (in_ @& sp_Deployment) (out @& sp_Deployment);
  AutheliaSettings_DeepCopyInto (in_ @& sp_Settings) (out @& sp_Settings).

Definition AutheliaStatus_DeepCopyInto (in_ out : ref cell AutheliaStatus_mem) : M (heap cell) unit :=
  _ ← assign in_ out;
  _ ← copy_slice zero_Condition (fun i o n => range_elements Condition_DeepCopyInto i o 0 n)
    (in_ @& ss_Conditions) (out @& ss_Conditions);
  _ ← copy_slice "" (fun i o _ => copy_elements i o) (in_ @& ss_OIDCClients) (out @& ss_OIDCClients);
  copy_slice "" (fun i o _ => copy_elements i o) (in_ @& ss_AccessControlRules) (out @& ss_AccessControlRules).

Definition Authelia_DeepCopyInto (in_ out : ref cell Authelia_mem) : M (heap cell) unit :=
  _ ← assign in_ out;
  _ ← assign (in_ @& a_TypeMeta) (out @& a_TypeMeta);
  _ ← ObjectMeta_DeepCopyInto (in_ @& a_ObjectMeta) (out @& a_ObjectMeta);
  _ ← AutheliaSpec_DeepCopyInto (in_ @& a_Spec) (out @& a_Spec);
  AutheliaStatus_DeepCopyInto (in_ @& a_Status) (out @& a_Status).

Definition AutheliaList_DeepCopyInto (in_ out : ref cell AutheliaList_mem) : M (heap cell) unit :=
  _ ← assign in_ out;
  _ ← assign (in_ @& al_TypeMeta) (out @& al_TypeMeta);
  _ ← ListMeta_DeepCopyInto (in_ @& al_ListMeta) (out @& al_ListMeta);
  copy_slice zero_Authelia (fun i o n => range_elements Authelia_DeepCopyInto i o 0 n)
    (in_ @& al_Items) (out @& al_Items).

Definition AutheliaReference_DeepCopyInto (in_ out : ref cell AutheliaReference_mem) : M (heap cell) unit :=
  assign in_ out.

Definition AutheliaOAuthClientSpec_DeepCopyInto (in_ out : ref cell AutheliaOAuthClientSpec_mem) : M (heap cell)
    unit :=
  _ ← assign in_ out;
  _ ← assign (in_ @& cs_AutheliaRef) (out @& cs_AutheliaRef);
  _ ← copy_slice "" (fun i o _ => copy_elements i o) (in_ @& cs_RedirectURIs) (out @& cs_RedirectURIs);
  _ ← copy_slice "" (fun i o _ => copy_elements i o) (in_ @& cs_Scopes) (out @& cs_Scopes);
  _ ← copy_slice "" (fun i o _ => copy_elements i o) (in_ @& cs_GrantTypes) (out @& cs_GrantTypes);
  copy_slice "" (fun i o _ => copy_elements i o) (in_ @& cs_ResponseTypes) (out @& cs_ResponseTypes).

Definition AutheliaOAuthClientStatus_DeepCopyInto (in_ out : ref cell AutheliaOAuthClientStatus_mem) : M (heap
    cell) unit :=
  _ ← assign in_ out;
  copy_slice zero_Condition (fun i o n => range_elements Condition_DeepCopyInto i o 0 n)
    (in_ @& ct_Conditions) (out @& ct_Conditions).

Definition AutheliaOAuthClient_DeepCopyInto (in_ out : ref cell AutheliaOAuthClient_mem) : M (heap cell) unit :=
  _ ← assign in_ out;
  _ ← assign (in_ @& c_TypeMeta) (out @& c_TypeMeta);
  _ ← ObjectMeta_DeepCopyInto (in_ @& c_ObjectMeta) (out @& c_ObjectMeta);
  _ ← AutheliaOAuthClientSpec_DeepCopyInto (in_ @& c_Spec) (out @& c_Spec);
  AutheliaOAuthClientStatus_DeepCopyInto (in_ @& c_Status) (out @& c_Status).

Definition AutheliaOAuthClientList_DeepCopyInto (in_ out : ref cell AutheliaOAuthClientList_mem) : M (heap cell)
    unit :=
  _ ← assign in_ out;
  _ ← assign (in_ @& cl_TypeMeta) (out @& cl_TypeMeta);
  _ ← ListMeta_DeepCopyInto (in_ @& cl_ListMeta) (out @& cl_ListMeta);
  copy_slice zero_AutheliaOAuthClient (fun i o n => range_elements AutheliaOAuthClient_DeepCopyInto i o 0 n)
    (in_ @& cl_Items) (out @& cl_Items).

(** * [DeepCopy] *)

Definition SecretKeyRef_DeepCopy : ptr SecretKeyRef_mem -> M (heap cell) (ptr SecretKeyRef_mem) :=
  deep_copy zero_SecretKeyRef SecretKeyRef_DeepCopyInto.
Definition AutheliaSecret_DeepCopy : ptr AutheliaSecret_mem -> M (heap cell) (ptr AutheliaSecret_mem) :=
  deep_copy zero_AutheliaSecret AutheliaSecret_DeepCopyInto.
Definition AutheliaSettings_DeepCopy : ptr AutheliaSettings_mem -> M (heap cell) (ptr AutheliaSettings_mem) :=
  deep_copy zero_AutheliaSettings AutheliaSettings_DeepCopyInto.
Definition AutheliaDeploymentSpec_DeepCopy : ptr AutheliaDeploymentSpec_mem -> M (heap cell) (ptr
    AutheliaDeploymentSpec_mem) :=
  deep_copy zero_AutheliaDeploymentSpec AutheliaDeploymentSpec_DeepCopyInto.
Definition AutheliaSpec_DeepCopy : ptr AutheliaSpec_mem -> M (heap cell) (ptr AutheliaSpec_mem) :=
  deep_copy zero_AutheliaSpec AutheliaSpec_DeepCopyInto.
Definition AutheliaStatus_DeepCopy : ptr AutheliaStatus_mem -> M (heap cell) (ptr AutheliaStatus_mem) :=
  deep_copy zero_AutheliaStatus AutheliaStatus_DeepCopyInto.
Definition Authelia_DeepCopy : ptr Authelia_mem -> M (heap cell) (ptr Authelia_mem) :=
  deep_copy zero_Authelia Authelia_DeepCopyInto.
Definition AutheliaList_DeepCopy : ptr AutheliaList_mem -> M (heap cell) (ptr AutheliaList_mem) :=
  deep_copy zero_AutheliaList AutheliaList_DeepCopyInto.
Definition AutheliaReference_DeepCopy : ptr AutheliaReference_mem -> M (heap cell) (ptr AutheliaReference_mem) :=
  deep_copy zero_AutheliaReference AutheliaReference_DeepCopyInto.
Definition AutheliaOAuthClientSpec_DeepCopy : ptr AutheliaOAuthClientSpec_mem -> M (heap cell) (ptr
    AutheliaOAuthClientSpec_mem) :=
  deep_copy zero_AutheliaOAuthClientSpec AutheliaOAuthClientSpec_DeepCopyInto.
Definition AutheliaOAuthClientStatus_DeepCopy : ptr AutheliaOAuthClientStatus_mem -> M (heap cell) (ptr
    AutheliaOAuthClientStatus_mem) :=
  deep_copy zero_AutheliaOAuthClientStatus AutheliaOAuthClientStatus_DeepCopyInto.
Definition AutheliaOAuthClient_DeepCopy : ptr AutheliaOAuthClient_mem -> M (heap cell) (ptr
    AutheliaOAuthClient_mem) :=
  deep_copy zero_AutheliaOAuthClient AutheliaOAuthClient_DeepCopyInto.
Definition AutheliaOAuthClientList_DeepCopy : ptr AutheliaOAuthClientList_mem -> M (heap cell) (ptr
    AutheliaOAuthClientList_mem) :=
  deep_copy zero_AutheliaOAuthClientList AutheliaOAuthClientList_DeepCopyInto.

(** * [DeepCopyObject] *)

(** [runtime.Object] that is not nil: a pointer of one of the registered types,
    which may itself be nil. *)
Inductive runtime_Object :=
  | OAuthelia (p : ptr Authelia_mem)
  | OAutheliaList (p : ptr AutheliaList_mem)
  | OAutheliaOAuthClient (p : ptr AutheliaOAuthClient_mem)
  | OAutheliaOAuthClientList (p : ptr AutheliaOAuthClientList_mem).

Definition Authelia_DeepCopyObject (p : ptr Authelia_mem) : M (heap cell) (option runtime_Object) :=
  c ← Authelia_DeepCopy p;
  if c is Addr _ then mret (Some (OAuthelia c)) else mret None.
Definition AutheliaList_DeepCopyObject (p : ptr AutheliaList_mem) : M (heap cell) (option runtime_Object) :=
  c ← AutheliaList_DeepCopy p;
  if c is Addr _ then mret (Some (OAutheliaList c)) else mret None.
Definition AutheliaOAuthClient_DeepCopyObject (p : ptr AutheliaOAuthClient_mem) :
    M (heap cell) (option runtime_Object) :=
  c ← AutheliaOAuthClient_DeepCopy p;
  if c is Addr _ then mret (Some (OAutheliaOAuthClient c)) else mret None.
Definition AutheliaOAuthClientList_DeepCopyObject (p : ptr AutheliaOAuthClientList_mem) :
    M (heap cell) (option runtime_Object) :=
  c ← AutheliaOAuthClientList_DeepCopy p;
  if c is Addr _ then mret (Some (OAutheliaOAuthClientList c)) else mret None.

(** * Every method copies *)

Lemma SecretKeyRef_copies : Copies SecretKeyRef_DeepCopyInto.
Proof. exact assign_plain. Qed.

Lemma AutheliaSecret_copies : Copies AutheliaSecret_DeepCopyInto.
Proof.
  copy_start.
  copy_part (copy_pointer_copies _ _ assign_plain).
  copy_end.
Qed.

Lemma AutheliaSettings_copies : Copies AutheliaSettings_DeepCopyInto.
Proof.
  copy_start.
  copy_part (copy_pointer_copies _ _ RawExtension_copies).
  copy_part (copy_pointer_copies _ _ assign_plain).
  copy_part (copy_structs_copies _ _ AutheliaSecret_copies).
  copy_end.
Qed.

Lemma AutheliaDeploymentSpec_copies : Copies AutheliaDeploymentSpec_DeepCopyInto.
Proof.
  copy_start.
  copy_part (copy_pointer_copies _ _ assign_plain).
  copy_part (Copies_Finishes _ ResourceRequirements_copies).
  copy_part (copy_pointer_copies _ _ PersistentVolumeClaimSpec_copies).
  copy_end.
Qed.

Lemma AutheliaSpec_copies : Copies AutheliaSpec_DeepCopyInto.
Proof.
  copy_start.
  copy_part (Copies_Finishes _ AutheliaDeploymentSpec_copies).
  copy_part (Copies_Finishes _ AutheliaSettings_copies).
  copy_end.
Qed.

Lemma AutheliaStatus_copies : Copies AutheliaStatus_DeepCopyInto.
Proof.
  copy_start.
  copy_part (copy_structs_copies _ _ Condition_copies).
  copy_part (copy_values_copies _).
  copy_part (copy_values_copies _).
  copy_end.
Qed.

Lemma Authelia_copies : Copies Authelia_DeepCopyInto.
Proof.
  copy_start.
  copy_part (Copies_Finishes _ assign_plain).
  copy_part (Copies_Finishes _ ObjectMeta_copies).
  copy_part (Copies_Finishes _ AutheliaSpec_copies).
  copy_part (Copies_Finishes _ AutheliaStatus_copies).
  copy_end.
Qed.

Lemma AutheliaList_copies : Copies AutheliaList_DeepCopyInto.
Proof.
  copy_start.
  copy_part (Copies_Finishes _ assign_plain).
  copy_part (Copies_Finishes _ ListMeta_copies).
  copy_part (copy_structs_copies _ _ Authelia_copies).
  copy_end.
Qed.

Lemma AutheliaReference_copies : Copies AutheliaReference_DeepCopyInto.
Proof. exact assign_plain. Qed.

Lemma AutheliaOAuthClientSpec_copies : Copies AutheliaOAuthClientSpec_DeepCopyInto.
Proof.
  copy_start.
  copy_part (Copies_Finishes _ assign_plain).
  copy_part (copy_values_copies _).
  copy_part (copy_values_copies _).
  copy_part (copy_values_copies _).
  copy_part (copy_values_copies _).
  copy_end.
Qed.

Lemma AutheliaOAuthClientStatus_copies : Copies AutheliaOAuthClientStatus_DeepCopyInto.
Proof.
  copy_start.
  copy_part (copy_structs_copies _ _ Condition_copies).
  copy_end.
Qed.

Lemma AutheliaOAuthClient_copies : Copies AutheliaOAuthClient_DeepCopyInto.
Proof.
  copy_start.
  copy_part (Copies_Finishes _ assign_plain).
  copy_part (Copies_Finishes _ ObjectMeta_copies).
  copy_part (Copies_Finishes _ AutheliaOAuthClientSpec_copies).
  copy_part (Copies_Finishes _ AutheliaOAuthClientStatus_copies).
  copy_end.
Qed.

Lemma AutheliaOAuthClientList_copies : Copies AutheliaOAuthClientList_DeepCopyInto.
Proof.
  copy_start.
  copy_part (Copies_Finishes _ assign_plain).
  copy_part (Copies_Finishes _ ListMeta_copies).
  copy_part (copy_structs_copies _ _ AutheliaOAuthClient_copies).
  copy_end.
Qed.

(** * The theorems *)

Inductive api_type :=
  | T_SecretKeyRef | T_AutheliaSecret | T_AutheliaSettings | T_AutheliaDeploymentSpec | T_AutheliaSpec
  | T_AutheliaStatus | T_Authelia | T_AutheliaList | T_AutheliaReference | T_AutheliaOAuthClientSpec
  | T_AutheliaOAuthClientStatus | T_AutheliaOAuthClient | T_AutheliaOAuthClientList.

Definition mem (T : api_type) : Type :=
  match T with
  | T_SecretKeyRef => SecretKeyRef_mem | T_AutheliaSecret => AutheliaSecret_mem
  | T_AutheliaSettings => AutheliaSettings_mem | T_AutheliaDeploymentSpec => AutheliaDeploymentSpec_mem
  | T_AutheliaSpec => AutheliaSpec_mem | T_AutheliaStatus => AutheliaStatus_mem | T_Authelia => Authelia_mem
  | T_AutheliaList => AutheliaList_mem | T_AutheliaReference => AutheliaReference_mem
  | T_AutheliaOAuthClientSpec => AutheliaOAuthClientSpec_mem
  | T_AutheliaOAuthClientStatus => AutheliaOAuthClientStatus_mem
  | T_AutheliaOAuthClient => AutheliaOAuthClient_mem | T_AutheliaOAuthClientList => AutheliaOAuthClientList_mem
  end.
#[export] Instance mem_cell T : Cell cell (mem T) :=
  match T with
  | T_SecretKeyRef => SecretKeyRef_cell | T_AutheliaSecret => AutheliaSecret_cell
  | T_AutheliaSettings => AutheliaSettings_cell | T_AutheliaDeploymentSpec => AutheliaDeploymentSpec_cell
  | T_AutheliaSpec => AutheliaSpec_cell | T_AutheliaStatus => AutheliaStatus_cell | T_Authelia => Authelia_cell
  | T_AutheliaList => AutheliaList_cell | T_AutheliaReference => AutheliaReference_cell
  | T_AutheliaOAuthClientSpec => AutheliaOAuthClientSpec_cell
  | T_AutheliaOAuthClientStatus => AutheliaOAuthClientStatus_cell
  | T_AutheliaOAuthClient => AutheliaOAuthClient_cell
  | T_AutheliaOAuthClientList => AutheliaOAuthClientList_cell
  end.
#[export] Instance mem_shape T : Shape cell (mem T) :=
  match T with
  | T_SecretKeyRef => SecretKeyRef_shape | T_AutheliaSecret => AutheliaSecret_shape
  | T_AutheliaSettings => AutheliaSettings_shape | T_AutheliaDeploymentSpec => AutheliaDeploymentSpec_shape
  | T_AutheliaSpec => AutheliaSpec_shape | T_AutheliaStatus => AutheliaStatus_shape
  | T_Authelia => Authelia_shape | T_AutheliaList => AutheliaList_shape
  | T_AutheliaReference => AutheliaReference_shape | T_AutheliaOAuthClientSpec => AutheliaOAuthClientSpec_shape
  | T_AutheliaOAuthClientStatus => AutheliaOAuthClientStatus_shape
  | T_AutheliaOAuthClient => AutheliaOAuthClient_shape
  | T_AutheliaOAuthClientList => AutheliaOAuthClientList_shape
  end.

(** The method of a type. *)
Definition DeepCopy (T : api_type) : ptr (mem T) -> M (heap cell) (ptr (mem T)) :=
  match T with
  | T_SecretKeyRef => SecretKeyRef_DeepCopy | T_AutheliaSecret => AutheliaSecret_DeepCopy
  | T_AutheliaSettings => AutheliaSettings_DeepCopy
  | T_AutheliaDeploymentSpec => AutheliaDeploymentSpec_DeepCopy | T_AutheliaSpec => AutheliaSpec_DeepCopy
  | T_AutheliaStatus => AutheliaStatus_DeepCopy | T_Authelia => Authelia_DeepCopy
  | T_AutheliaList => AutheliaList_DeepCopy | T_AutheliaReference => AutheliaReference_DeepCopy
  | T_AutheliaOAuthClientSpec => AutheliaOAuthClientSpec_DeepCopy
  | T_AutheliaOAuthClientStatus => AutheliaOAuthClientStatus_DeepCopy
  | T_AutheliaOAuthClient => AutheliaOAuthClient_DeepCopy
  | T_AutheliaOAuthClientList => AutheliaOAuthClientList_DeepCopy
  end.

(** C13: deep copies are independent.  Called on any pointer to a structure in
    memory, nil included, and however the parts of the structure are shared
    inside it, [DeepCopy] of every API type returns normally; the copy looks the
    same, nil and empty told apart; it consists of cells that did not exist before,
    the old ones being untouched; so nothing that is later written to the
    original, or to anything else that existed, shows in the copy, and nothing
    written through the copy shows in the original. *)
Theorem DeepCopy_independent T (p : ptr (mem T)) h t L :
  observe h p = Some (t, L) ->
  exists p' h', DeepCopy T p h = (Ok p', h') /\ independent_copy p h p' h'.
Proof.
  destruct T; simpl in *; eapply deep_copy_independent;
    first [exact SecretKeyRef_copies | exact AutheliaSecret_copies | exact AutheliaSettings_copies
    | exact AutheliaDeploymentSpec_copies | exact AutheliaSpec_copies | exact AutheliaStatus_copies
    | exact Authelia_copies | exact AutheliaList_copies | exact AutheliaReference_copies
    | exact AutheliaOAuthClientSpec_copies | exact AutheliaOAuthClientStatus_copies
    | exact AutheliaOAuthClient_copies | exact AutheliaOAuthClientList_copies].
Qed.

(** The interface method. *)
Definition DeepCopyObject (x : runtime_Object) : M (heap cell) (option runtime_Object) :=
  match x with
  | OAuthelia p => Authelia_DeepCopyObject p
  | OAutheliaList p => AutheliaList_DeepCopyObject p
  | OAutheliaOAuthClient p => AutheliaOAuthClient_DeepCopyObject p
  | OAutheliaOAuthClientList p => AutheliaOAuthClientList_DeepCopyObject p
  end.

Definition observe_object (h : heap cell) (x : runtime_Object) : option (tree * gset loc) :=
  match x with
  | OAuthelia p => observe h p | OAutheliaList p => observe h p
  | OAutheliaOAuthClient p => observe h p | OAutheliaOAuthClientList p => observe h p
  end.

Definition nil_object (x : runtime_Object) : Prop :=
  match x with
  | OAuthelia p => p = Nil | OAutheliaList p => p = Nil
  | OAutheliaOAuthClient p => p = Nil | OAutheliaOAuthClientList p => p = Nil
  end.

Definition same_type (x y : runtime_Object) : Prop :=
  match x, y with
  | OAuthelia _, OAuthelia _ | OAutheliaList _, OAutheliaList _
  | OAutheliaOAuthClient _, OAutheliaOAuthClient _ | OAutheliaOAuthClientList _, OAutheliaOAuthClientList _ => True
  | _, _ => False
  end.

(** What [DeepCopyObject] makes of [x]. *)
Definition object_copied (x : runtime_Object) (h : heap cell) (r : option runtime_Object) (h' : heap cell) (t :
    tree) : Prop :=
  (forall l, l ∈ dom h -> h' !! l = h !! l) /\
  match r with
  | None => nil_object x
  | Some y => ~ nil_object x /\ ~ nil_object y /\ same_type x y /\ exists L', observe_object h' y = Some (t, L') /\
    L' ## dom h
  end.

(** Shared by the four types. *)
Lemma object_copy {T} `{Cell cell T, Shape cell T} (zero : T) body (O : ptr T -> runtime_Object) p h t L :
  Copies body -> (forall q h, observe_object h (O q) = observe h q) -> (forall q, nil_object (O q) <-> q = Nil) ->
  (forall q q', same_type (O q) (O q')) -> observe_object h (O p) = Some (t, L) ->
  exists r h', (c ← deep_copy zero body p; if c is Addr _ then mret (Some (O c)) else mret None) h = (Ok r, h') /\
    object_copied (O p) h r h' t.
Proof.
  intros Hb Ho Hn Hs Hobs. rewrite Ho in Hobs.
  destruct (deep_copy_independent zero body p h t L Hb Hobs) as (p' & h' & E & [Hnil Hold Hsame _ _]).
  unfold mbind, M_bind. rewrite E. destruct (Hsame t L Hobs) as (L' & E' & Hd). destruct p' as [|l'].
  - exists None, h'. split; [done|]. split; [done|]. apply Hn. by apply Hnil.
  - exists (Some (O (Addr l'))), h'. split; [done|]. split; [done|].
    split_and!; [|by rewrite Hn|done|by exists L'; rewrite Ho].
    rewrite Hn. intros ->. destruct Hnil as [_ Hnil]. by specialize (Hnil eq_refl).
Qed.

(** C40: the copy of an object is an object of the same type, and the copy of a nil
    pointer is the nil interface, never an interface that wraps a nil pointer and
    would compare unequal to nil. *)
Theorem DeepCopyObject_spec x h t L :
  observe_object h x = Some (t, L) ->
  exists r h', DeepCopyObject x h = (Ok r, h') /\ object_copied x h r h' t.
Proof.
  destruct x as [p|p|p|p]; simpl; intros Hobs.
  - by apply (object_copy zero_Authelia _ OAuthelia p h t L Authelia_copies).
  - by apply (object_copy zero_AutheliaList _ OAutheliaList p h t L AutheliaList_copies).
  - by apply (object_copy zero_AutheliaOAuthClient _ OAutheliaOAuthClient p h t L AutheliaOAuthClient_copies).
  - by apply (object_copy zero_AutheliaOAuthClientList _ OAutheliaOAuthClientList p h t L
    AutheliaOAuthClientList_copies).
Qed.
End deepcopy.

(** * A concrete instance *)

(** Types of other packages with one string and one map. *)
Record blob := mkBlob { b_name : string; b_map : ptr (gmap string string) }.

Definition toy_externals : Externals := {|
  TypeMeta := string; ObjectMeta := blob; ListMeta := blob; Condition := blob;
  ResourceRequirements := blob; PersistentVolumeClaimSpec := blob; RawExtension := blob;
  ext_cell := gmap string string;
  zero_TypeMeta := ""; zero_ObjectMeta := mkBlob "" Nil; zero_ListMeta := mkBlob "" Nil; zero_Condition := mkBlob "" Nil;
  zero_ResourceRequirements := mkBlob "" Nil; zero_PersistentVolumeClaimSpec := mkBlob "" Nil;
  zero_RawExtension := mkBlob "" Nil
|}.
#[local] Existing Instance toy_externals.

Definition map_tree (m : gmap string string) : tree :=
  TList ((fun p => TStruct [TStr p.1; TStr p.2]) <$> map_to_list m).
#[local] Instance map_cell : Cell cell (gmap string string) := Ext_cell.
#[local] Instance map_shape : Shape cell (gmap string string) := plain_shape map_tree.
#[local] Program Instance map_plain : Plain cell (gmap string string) := {| plain := map_tree |}.
Next Obligation. done. Qed.
#[local] Obligation Tactic := split; [done|done|by intros []].
#[local] Program Instance b_map_field : FieldOf b_map := {| setf v x := mkBlob (b_name x) v |}.

Definition blob_members : list (member (C:=cell) blob) := [Data (fun x => TStr (b_name x)); Part b_map].
#[local] Instance blob_shape : Shape cell blob := struct_shape blob_members.

Definition blob_DeepCopyInto (in_ out : ref cell blob) : M (heap cell) unit :=
  _ ← assign in_ out;
  copy_pointer ∅ assign (in_ @& b_map) (out @& b_map).

Lemma blob_copies : Copies blob_DeepCopyInto.
Proof.
  copy_start.
  copy_part (copy_pointer_copies _ _ assign_plain).
  copy_end.
Qed.

Definition name_shape : Shape cell string := plain_shape TStr.
Definition name_plain : @Plain cell string name_shape.
Proof. by exists TStr. Defined.

Definition toy_copies : ExternalCopies := {|
  TypeMeta_shape := name_shape; TypeMeta_plain := name_plain;
  ObjectMeta_copies := blob_copies; ListMeta_copies := blob_copies; Condition_copies := blob_copies;
  ResourceRequirements_copies := blob_copies; PersistentVolumeClaimSpec_copies := blob_copies;
  RawExtension_copies := blob_copies
|}.
#[local] Existing Instance toy_copies.

(** An Authelia in memory, two of whose parts share a cell: the reference to the
    users database is also the one of its only secret. *)
Definition memory : heap cell :=
  {[ 0 := CAuthelia (mkAuthelia "Authelia" (mkBlob "auth" (Addr 1))
            (mkAutheliaSpec "auth.example.com" zero_AutheliaDeploymentSpec
               (mkAutheliaSettings Nil (Addr 2) (Some (mkSlice 3 1 1))))
            zero_AutheliaStatus);
     1 := CExt {[ "app" := "authelia" ]};
     2 := CSecretKeyRef (mkSecretKeyRef "users" "users.yml");
     3 := CSecrets [zero_AutheliaSecret; mkAutheliaSecret "AUTHELIA_X_FILE" (Addr 2)] ]}.

Definition seen (m : heap cell) (p : ptr (mem T_Authelia)) : option tree := fst <$> observe m p.

(** The original's reference is overwritten; the copy still shows the old one. *)
Lemma DeepCopy_independent_witness :
  exists p' h', DeepCopy T_Authelia (Addr 0) memory = (Ok p', h') /\
    seen (<[2 := CSecretKeyRef (mkSecretKeyRef "evil" "key")]> h') p' = seen memory (Addr 0) /\
    seen memory (Addr 0) <> None.
Proof.
  destruct (observe memory (Addr 0 : ptr (mem T_Authelia))) as [[t L]|] eqn:E; [|exfalso; by vm_compute in E].
  destruct (DeepCopy_independent T_Authelia (Addr 0) memory t L E) as (p' & h' & E' & [_ _ _ Hap _]).
  exists p', h'. split; [exact E'|]. unfold seen. rewrite E.
  destruct (Hap t L (<[2 := CSecretKeyRef (mkSecretKeyRef "evil" "key")]> h') E) as [L' ->].
  - intros l Hl. rewrite lookup_insert_ne; [reflexivity|]. intros <-. apply Hl. apply elem_of_dom. by eexists.
  - split; [reflexivity|discriminate].
Defined.

Lemma DeepCopyObject_spec_witness :
  exists y h', DeepCopyObject (OAuthelia (Addr 0)) memory = (Ok (Some y), h') /\ ~ nil_object y.
Proof.
  destruct (observe_object memory (OAuthelia (Addr 0))) as [[t L]|] eqn:E; [|exfalso; by vm_compute in E].
  destruct (DeepCopyObject_spec (OAuthelia (Addr 0)) memory t L E) as (r & h' & E' & _ & Hr).
  destruct r as [y|]; [|discriminate Hr]. exists y, h'. split; [exact E'|]. exact (proj1 (proj2 Hr)).
Defined.
