(* ===== verification/Examples.v ===== *)
(** A concrete system: the in-memory API server with an Authelia, two clients
    and an Ingress.  The theorems about the controllers are applied to its runs. *)

From S2P Require Import Prelude GoSort GoJson GoCrypto ApiTypes Secrets Resources Render Ingress Cluster OAuthClientController AutheliaController System Script Discipline Concurrent Progress Watches Permissions.

#[local] Existing Instances Memory.api Memory.api_laws Memory.owners Memory.owners_laws.

(** A key generator that needs no entropy, and a YAML encoder. *)
Definition toy_rsa : RSA := {|
  PrivateKey := unit;
  GenerateKey := fun _ tape => (Ok tt, tape);
  MarshalPKCS1PrivateKey := fun _ => [48%N; 0%N];
  GenerateKey_no_panic := fun _ _ _ => ltac:(discriminate)
|}.
Definition toy_yaml : Yaml := fun _ => inl "rendered: true".

#[local] Existing Instances toy_rsa toy_yaml insertion_sort list_range.

Definition demo_authelia : Authelia := sample (sample_settings sample_secrets).
Definition demo_areq : NamespacedName := mkNamespacedName "sso" "auth".

(** A confidential client that has no Secret yet. *)
Definition waiting_client : AutheliaOAuthClient :=
  mkAutheliaOAuthClient (mkObjectMeta "grafana" "sso" "uid-2" None None [] ∅)
    (mkAutheliaOAuthClientSpec (mkAutheliaReference "auth" "") "" "Grafana" false "" "" "" ""
       [] [] [] [] "" "")
    (mkAutheliaOAuthClientStatus [] "").

Definition demo_ingress : Ingress := sample_ingress sample_annotations.

Definition world : cluster :=
  Memory.put KIngress demo_ingress (Memory.put KOAuthClient waiting_client
    (Memory.put KOAuthClient demo_client (Memory.put KAuthelia demo_authelia Memory.empty))).

(** Enough entropy for the three alphanumeric values. *)
Definition bytes : entropy := replicate 192 5%N.

Lemma bytes_are_ok : bytes_ok bytes.
Proof. by apply Forall_replicate. Qed.

Lemma world_authelia : find KAuthelia world demo_areq = Some demo_authelia.
Proof. by vm_compute. Qed.
Lemma world_client : find KOAuthClient world demo_req = Some demo_client.
Proof. by vm_compute. Qed.
Lemma world_ingresses : all_objects KIngress world = [demo_ingress].
Proof. by vm_compute. Qed.

Lemma demo_ingress_dns : dns_names demo_ingress.
Proof.
  split; [by apply (bool_decide_unpack _); vm_compute|].
  split; [by apply (bool_decide_unpack _); vm_compute|].
  intros h Hh. apply ingressDomains_inv in Hh.
  assert (Forall no_slash (ingressDomains demo_ingress)) as H.
  { change (ingressDomains demo_ingress) with ["app.example.com"; "www.example.com"].
    repeat constructor; apply (bool_decide_unpack _); by vm_compute. }
  rewrite Forall_forall in H. by apply H.
Qed.

Lemma world_dns : dns_cluster world.
Proof. unfold dns_cluster. rewrite world_ingresses. constructor; [apply demo_ingress_dns|constructor]. Qed.

(** The run of the Authelia controller: it succeeds, and asks to be called
    again, since one client waits for its digest. *)
Lemma world_run : (AutheliaController.Reconcile demo_areq (world, bytes)).1 = Ok (mkResult 10000000000).
Proof. by vm_compute. Qed.

(** * Secrets *)

Lemma core_run : is_ok (generatedCoreSecretData None bytes).1 = true.
Proof. by vm_compute. Qed.

Lemma generated : exists d rest, generatedCoreSecretData None bytes = (Ok d, rest).
Proof.
  destruct (generatedCoreSecretData None bytes) as [[d|e|p] rest] eqn:E; [by eauto|exfalso..];
    pose proof core_run as H; by rewrite E in H.
Qed.

Lemma extra_not_core : "extra" ∉ core_keys.
Proof. apply (bool_decide_unpack _). by vm_compute. Qed.

Lemma core_secret_never_rotated_witness :
  exists d d' rest rest', generatedCoreSecretData None bytes = (Ok d, rest) /\
    generatedCoreSecretData (Some (<["extra" := "kept"]> d)) bytes = (Ok d', rest') /\
    d' !! "extra" = Some "kept".
Proof.
  destruct generated as (d & rest & E).
  destruct (generatedCoreSecretData (Some (<["extra" := "kept"]> d)) bytes) as [r rest'] eqn:E'.
  pose proof (generatedCoreSecretData_no_panic (Some (<["extra" := "kept"]> d)) bytes) as Hp. rewrite E' in Hp.
  destruct r as [d'|e|p]; [|exfalso|exfalso; exact (Hp p eq_refl)].
  - exists d, d', rest, rest'. split; [exact E|]. split; [exact E'|].
    rewrite (core_secret_never_rotated (Some (<["extra" := "kept"]> d)) bytes d' rest' "extra" E'
      (or_intror extra_not_core)).
    simpl. by rewrite lookup_insert_eq.
  - assert (generatedCoreSecretData (Some (<["extra" := "kept"]> d)) bytes
            = (Ok (<["extra" := "kept"]> d), bytes)) as H; [|congruence].
    apply generatedCoreSecretData_id. intros k Hk.
    destruct (generatedCoreSecretData_ok _ _ _ _ E) as (_ & Hall & _). unfold has_value.
    rewrite lookup_insert_ne; [by apply Hall|]. intros <-. by apply extra_not_core.
Defined.

Lemma core_secret_complete_witness :
  exists d rest, generatedCoreSecretData None bytes = (Ok d, rest) /\ has_value d "OIDC_HMAC_SECRET".
Proof.
  destruct generated as (d & rest & E). exists d, rest. split; [exact E|].
  destruct (core_secret_complete None bytes d rest E) as [H _]. apply H.
  apply (bool_decide_unpack _). by vm_compute.
Defined.

Lemma core_secret_idempotent_witness :
  exists d rest, generatedCoreSecretData None bytes = (Ok d, rest) /\
    generatedCoreSecretData (Some d) [] = (Ok d, []).
Proof.
  destruct generated as (d & rest & E). exists d, rest. split; [exact E|].
  exact (core_secret_idempotent None bytes d rest [] E).
Defined.

Lemma hashClientSecret_spec_witness :
  exists d rest salt key, hashClientSecret "secret" bytes = (Ok d, rest) /\ parse_digest d = Some (salt, key).
Proof.
  destruct (hashClientSecret_enough "secret" bytes bytes_are_ok) as (d & E & _);
    [unfold bytes; rewrite length_replicate; lia|].
  pose proof (hashClientSecret_spec "secret" bytes bytes_are_ok) as H. rewrite E in H.
  destruct H as (salt & key & _ & _ & Hp & _). exists d, (drop 16 bytes), salt, key. split; [exact E|exact Hp].
Defined.

(** * Controllers *)

Lemma collectClients_spec_witness :
  exists clients missing, collectClients demo_authelia world = (Ok (clients, missing), world) /\
    length clients + missing = 2.
Proof.
  destruct (collectClients_spec demo_authelia world) as (r & E & Hr).
  destruct r as [[clients missing]|e|p]; [|exfalso|destruct Hr].
  - exists clients, missing. split; [exact E|]. destruct Hr as [_ Hl]. rewrite Hl. by vm_compute.
  - assert (is_ok (collectClients demo_authelia world).1 = true) as H by by vm_compute.
    by rewrite E in H.
Defined.

Lemma world_domains : cluster_rules world ≫= hosts_of = ["app.example.com"; "www.example.com"].
Proof. by vm_compute. Qed.

Lemma collectIngressRules_spec_witness :
  exists rules, collectIngressRules world = (Ok (rules, ["app.example.com"; "www.example.com"]), world).
Proof.
  destruct (collectIngressRules_spec world world_dns) as (r & E & Hr).
  destruct r as [[rules domains]|e|p]; [|exfalso|destruct Hr].
  - exists rules. rewrite E. destruct Hr as [_ ->]. by rewrite world_domains.
  - assert (is_ok (collectIngressRules world).1 = true) as H by by vm_compute.
    by rewrite E in H.
Defined.

Lemma Reconcile_authelia_safe_witness :
  find KOAuthClient (AutheliaController.Reconcile demo_areq (world, bytes)).2.1 demo_req = Some demo_client.
Proof.
  pose proof (Reconcile_authelia_safe demo_areq world bytes) as H.
  destruct (AutheliaController.Reconcile demo_areq (world, bytes)) as [r [c' t']].
  rewrite world_authelia in H. destruct H as [_ [H _]]. simpl.
  rewrite (H KOAuthClient demo_req (fun f : False => f)). exact world_client.
Defined.

Definition broken_authelia : Authelia := sample (config_settings "{'a':").
Definition broken_world : cluster := Memory.put KAuthelia broken_authelia Memory.empty.

Lemma Reconcile_parse_error_witness :
  exists e, AutheliaController.Reconcile demo_areq (broken_world, bytes) = (Err e, (broken_world, bytes)).
Proof.
  apply (Reconcile_parse_error demo_areq broken_world bytes broken_authelia
    (ErrWrap "parsing additionalConfig: " SyntaxError)); by vm_compute.
Defined.

Lemma Reconcile_authelia_ok_witness :
  exists c' st, (AutheliaController.Reconcile demo_areq (world, bytes)).2.1 = c' /\
    find KConfigMap c' (objectKey demo_authelia (configMapName demo_authelia)) = Some st /\
    content (cm_Data st) = {[ "configuration.yaml" := "rendered: true" ]}.
Proof.
  pose proof world_run as Hrun.
  destruct (AutheliaController.Reconcile demo_areq (world, bytes)) as [r [c' t']] eqn:E.
  simpl in Hrun. subst r.
  pose proof (Reconcile_authelia_ok demo_areq world bytes _ c' t' E) as H. rewrite world_authelia in H.
  destruct H as (clients & missing & rules & domains & rendered & _ & Hr & ((st & Hf & Hd & _) & _) & _).
  exists c', st. split; [reflexivity|]. split; [exact Hf|]. rewrite Hd.
  unfold render in Hr. rewrite renderConfig_eq in Hr. simpl in Hr. by injection Hr as <-.
Defined.

Lemma client_routing_witness : mkNamespacedName "sso" "auth" ∈ mapClientToAuthelia (AnObject KOAuthClient demo_client).
Proof.
  apply (client_routing demo_client demo_authelia); [discriminate|by vm_compute].
Defined.

(** * The system *)

Lemma demo_client_run : (OAuthClientController.Reconcile demo_req (world, [] : entropy)).1 = Ok (mkResult 0).
Proof. by vm_compute. Qed.

Lemma client_becomes_ready_witness :
  exists c' oc' ready, (OAuthClientController.Reconcile demo_req (world, [] : entropy)).2.1 = c' /\
    find KOAuthClient c' demo_req = Some oc' /\ ready_client c' oc' = Some ready /\
    ClientID (spec ready) = "argocd".
Proof.
  pose proof demo_client_run as Hrun.
  destruct (OAuthClientController.Reconcile demo_req (world, [] : entropy)) as [r [c' t']] eqn:E.
  simpl in Hrun. subst r.
  destruct (client_becomes_ready demo_req world [] _ c' t' demo_client (List.Forall_nil _) E world_client)
    as (oc' & st & ready & Hoc & _ & Hr & Hs & _).
  exists c', oc', ready. split; [reflexivity|]. split; [exact Hoc|]. split; [exact Hr|]. by rewrite Hs.
Defined.

Definition nothing_else : cluster -> cluster -> Prop := fun _ _ => False.

(** The value a Secret of the cluster has. *)
Definition secret_value (c : cluster) (key : NamespacedName) (k : string) : option string :=
  s ← find KSecret c key; content (sec_Data s) !! k.

Lemma value_kept_at key k c c' v :
  value_kept key k c c' -> secret_value c key k = Some v -> v <> "" -> secret_value c' key k = Some v.
Proof.
  unfold secret_value. intros Hkept Hv Hne. destruct (find KSecret c key) as [s|] eqn:Hs; [|done].
  simpl in Hv. destruct (Hkept s Hs) as (s' & Hs' & E); [unfold has_value; by rewrite Hv|].
  rewrite Hs'. simpl. by rewrite E.
Qed.

(** A first reconcile of the Authelia generates its core Secret; further
    reconciles, with other bytes, are a run of the system. *)
Definition other_bytes : entropy := replicate 192 9%N.
Definition world2 : cluster := (AutheliaController.Reconcile demo_areq (world, bytes)).2.1.
Definition world3 : cluster := (AutheliaController.Reconcile demo_areq (world2, other_bytes)).2.1.
Definition core_value : string := String.concat "" (replicate 64 "F").

Lemma world2_core : secret_value world2 (coreSecretKey "sso" "auth") "SESSION_ENCRYPTION_KEY" = Some core_value.
Proof. by vm_compute. Qed.

Lemma authelia_step c t : bytes_ok t ->
  system_step nothing_else c (AutheliaController.Reconcile demo_areq (c, t)).2.1.
Proof.
  intros Ht. destruct (AutheliaController.Reconcile demo_areq (c, t)) as [r [c' t']] eqn:E.
  eapply step_authelia; [exact Ht|exact E].
Qed.

Lemma client_step req c t : bytes_ok t ->
  system_step nothing_else c (OAuthClientController.Reconcile req (c, t)).2.1.
Proof.
  intros Ht. destruct (OAuthClientController.Reconcile req (c, t)) as [r [c' t']] eqn:E.
  eapply step_client; [exact Ht|exact E].
Qed.

Lemma other_bytes_ok : bytes_ok other_bytes.
Proof. by apply Forall_replicate. Qed.

Lemma core_secrets_stable_witness :
  secret_value world3 (coreSecretKey "sso" "auth") "SESSION_ENCRYPTION_KEY" = Some core_value.
Proof.
  apply (value_kept_at _ _ world2); [|exact world2_core|discriminate].
  apply (core_secrets_stable nothing_else "sso" "auth" "SESSION_ENCRYPTION_KEY" world2 world3).
  - intros c1 c2 [].
  - apply rtc_once. exact (authelia_step world2 other_bytes other_bytes_ok).
Defined.

(** A cluster in which the confidential client has its credentials. *)
Definition grafana_req : NamespacedName := mkNamespacedName "sso" "grafana".
Definition grafana_secret : Secret :=
  mkSecret (newMeta "grafana-oauth-secret" "sso") "Opaque"
    (Some {[ "client_secret" := "s3cret"; "client_secret_digest" := "$pbkdf2" ]}) ∅.
Definition world_c : cluster := Memory.put KSecret grafana_secret world.
Definition world_c2 : cluster := (OAuthClientController.Reconcile grafana_req (world_c, bytes)).2.1.
Definition world_c3 : cluster := (AutheliaController.Reconcile demo_areq (world_c2, bytes)).2.1.

Lemma waiting_found : find KOAuthClient world_c grafana_req = Some waiting_client.
Proof. by vm_compute. Qed.

Lemma client_secrets_stable_witness :
  secret_value world_c3 (clientSecretKey "sso" "grafana") "client_secret" = Some "s3cret".
Proof.
  apply (value_kept_at _ _ world_c); [|by vm_compute|discriminate].
  apply (client_secrets_stable nothing_else "sso" "grafana" "client_secret" world_c world_c3).
  - by left.
  - intros c1 c2 [].
  - intros oc Hoc. change (mkNamespacedName "sso" "grafana") with grafana_req in Hoc.
    rewrite waiting_found in Hoc. by injection Hoc as <-.
  - apply (rtc_l _ _ world_c2); [exact (client_step grafana_req world_c bytes bytes_are_ok)|].
    apply rtc_once. exact (authelia_step world_c2 bytes bytes_are_ok).
Defined.

Lemma world_distinct : distinct_ids demo_authelia world.
Proof. apply (bool_decide_unpack _). by vm_compute. Qed.

Lemma world_same : same_sources demo_areq world world.
Proof.
  split; [|reflexivity..]. intros a1 a2 H1 H2. pose proof (eq_trans (eq_sym H1) H2) as E. by injection E as ->.
Qed.

(** Two reconciles with different entropy. *)
Lemma world_run2 : (AutheliaController.Reconcile demo_areq (world, other_bytes)).1 = Ok (mkResult 10000000000).
Proof. by vm_compute. Qed.

Lemma no_spurious_rollout_witness :
  exists d1 d2,
    find KDeployment (AutheliaController.Reconcile demo_areq (world, bytes)).2.1
      (objectKey demo_authelia "auth") = Some d1 /\
    find KDeployment (AutheliaController.Reconcile demo_areq (world, other_bytes)).2.1
      (objectKey demo_authelia "auth") = Some d2 /\
    dep_Spec (kept KDeployment d2) = dep_Spec (kept KDeployment d1).
Proof.
  pose proof world_run as Hrun1. pose proof world_run2 as Hrun2.
  destruct (AutheliaController.Reconcile demo_areq (world, bytes)) as [r1 [c1' t1']] eqn:E1.
  destruct (AutheliaController.Reconcile demo_areq (world, other_bytes)) as [r2 [c2' t2']] eqn:E2.
  simpl in Hrun1, Hrun2. subst r1 r2.
  destruct (no_spurious_rollout demo_areq world bytes _ c1' t1' world other_bytes _ c2' t2'
    demo_authelia demo_authelia world_authelia world_authelia world_same world_dns world_distinct E1 E2)
    as (cm1 & cm2 & d1 & d2 & _ & _ & _ & H1 & H2 & H).
  exists d1, d2. split; [exact H1|]. split; [exact H2|exact H].
Defined.

Lemma generateAlphanumeric_unbiased_witness :
  outcomes 2 3 "A9" = outcomes 2 3 "zz" /\ 0 < outcomes 2 3 "A9".
Proof.
  destruct (generateAlphanumeric_unbiased 2 3 "A9" "zz") as [E H];
    [reflexivity|reflexivity|apply (bool_decide_unpack _); by vm_compute|apply (bool_decide_unpack _); by vm_compute|].
  split; [exact E|apply H; lia].
Defined.

(** * Reconciles at work at the same time *)

Definition versioned (v : string) (m : ObjectMeta) : ObjectMeta :=
  mkObjectMeta (om_Name m) (om_Namespace m) (om_UID m) (om_Labels m) (om_Annotations m) (om_OwnerReferences m)
    (<["resourceVersion" := v]> (om_rest m)).
Definition equal_objects (k : kind) (o o' : KObj k) : bool := bool_decide (o = o').
Definition no_others : server -> server -> Prop := fun _ _ => False.

Lemma one_answer s s' th q r :
  waits_for equal_objects th = Some q -> serves q r s s' ->
  concurrent_step equal_objects no_others (mkConfig s [th]) (mkConfig s' [receive r th]).
Proof. intros Hq Hr. exact (cs_answer equal_objects no_others s s' [th] 0 th q r eq_refl Hq Hr). Qed.

Lemma an_object_kind k k' o o' : AnObject k o = AnObject k' o' -> k = k'.
Proof. by intros [= -> _]. Qed.

Lemma no_others_wf : others_wf no_others.
Proof. intros s s' []. Qed.

Definition no_server : server := mkServer Memory.empty [].
Lemma no_server_wf : wf no_server.
Proof.
  split; [|by intros k o ?%elem_of_nil|by intros k o1 o2 ?%elem_of_nil].
  intros k key o Ho. unfold stored_at, find in Ho. simpl in Ho. unfold Memory.objects_of, Memory.empty in Ho.
  by rewrite map_filter_empty, lookup_empty in Ho.
Qed.

(** A server with two objects, of different versions. *)
Lemma two_objects_wf k1 k2 o1 o2 v1 v2 :
  version (KMeta k1 o1) = Some v1 -> version (KMeta k2 o2) = Some v2 -> v1 <> v2 ->
  wf (put k2 o2 (put k1 o1 no_server)).
Proof.
  intros H1 H2 Hv. eapply stores_wf; [eapply stores_wf; [exact no_server_wf|]|];
    (split; [reflexivity|]; split; [reflexivity|]; split; [|reflexivity]).
  - exists v1. split; [done|]. by intros o' ?%elem_of_nil.
  - exists v2. split; [done|]. intros o' [E|Hin]%elem_of_cons; [|by apply elem_of_nil in Hin].
    pose proof E as [= -> _]. apply an_object_inj in E as ->. congruence.
Qed.

Lemma fresh_start_sound s : wf s -> sound (mkConfig s []).
Proof. intros Hs. split; [exact Hs|]. by intros th o ?%elem_of_nil. Qed.

(** The Authelia and a core Secret that has one of its values. *)
Definition au_v1 : Authelia := mkAuthelia (versioned "1" (au_meta demo_authelia)) (au_Spec demo_authelia) (au_Status demo_authelia).
Definition core_v2 : Secret :=
  mkSecret (versioned "2" (newMeta "auth-secrets" "sso")) "Opaque" (Some {[ "SESSION_ENCRYPTION_KEY" := "s3cret" ]}) ∅.
Definition portal : server := put KSecret core_v2 (put KAuthelia au_v1 no_server).

(** What the reconcile of the Authelia is told, until it updates the Secret. *)
Definition portal_told : list reply :=
  [RObject (AnObject KAuthelia au_v1); RObjects KOAuthClient []; RObjects KIngress []; RObject (AnObject KSecret core_v2)].
Definition portal_thread (n : nat) : thread := mkThread (ReconcileAuthelia demo_areq) bytes (take n portal_told).
Definition core_sent : Secret :=
  match waits_for equal_objects (portal_thread 4) with Some (RUpdate KSecret o) => o | _ => core_v2 end.
Definition core_v3 : Secret := set_sec_meta (versioned "3" (sec_meta core_sent)) core_sent.
Definition portal_after : server := put KSecret core_v3 portal.

Lemma portal_wf : wf portal.
Proof. by apply (two_objects_wf KAuthelia KSecret au_v1 core_v2 "1" "2"). Qed.

Lemma core_update : waits_for equal_objects (portal_thread 4) = Some (RUpdate KSecret core_sent).
Proof. by vm_compute. Qed.
Lemma core_update_versions :
  version (sec_meta core_sent) = Some "2" /\ key_of KSecret core_sent = coreSecretKey "sso" "auth" /\
  stored_at KSecret portal (coreSecretKey "sso" "auth") = Some core_v2.
Proof. split_and!; by vm_compute. Qed.

Lemma core_served : serves (RUpdate KSecret core_sent) (RError (ErrNew "answer lost")) portal portal_after.
Proof.
  destruct core_update_versions as (Hv & Hk & Hst).
  apply (serves_update KSecret core_sent core_v3 core_v2); [by rewrite Hk|right; exact Hv| |right; by eexists].
  clear Hv Hk Hst. split; [by vm_compute|]. split; [by vm_compute|]. split; [|reflexivity].
  exists "3". split; [by vm_compute|]. intros o' Hin _. unfold portal in Hin. rewrite !elem_of_past_put in Hin.
  destruct Hin as [E|[E|Hin%elem_of_nil]]; [|apply an_object_kind in E; discriminate E|destruct Hin].
  apply an_object_inj in E as ->. by vm_compute.
Qed.

(** The Secret is updated, but the controller never hears of it. *)
Lemma portal_run :
  rtc (concurrent_step equal_objects no_others) (mkConfig portal [])
    (mkConfig portal_after [receive (RError (ErrNew "answer lost")) (portal_thread 4)]).
Proof.
  eapply rtc_l; [apply (cs_start _ _ portal [] (ReconcileAuthelia demo_areq) bytes bytes_are_ok)|].
  eapply rtc_l; [apply (one_answer portal portal (portal_thread 0) (RGet KAuthelia demo_areq)); [by vm_compute|]|].
  { apply (serves_get KAuthelia _ au_v1); [right; left|by vm_compute]. }
  eapply rtc_l; [apply (one_answer portal portal (portal_thread 1) (RList KOAuthClient)); [by vm_compute|]|].
  { by apply (serves_list KOAuthClient []). }
  eapply rtc_l; [apply (one_answer portal portal (portal_thread 2) (RList KIngress)); [by vm_compute|]|].
  { by apply (serves_list KIngress []). }
  eapply rtc_l; [apply (one_answer portal portal (portal_thread 3) (RGet KSecret (coreSecretKey "sso" "auth"))); [by vm_compute|]|].
  { apply (serves_get KSecret _ core_v2); [left|by vm_compute]. }
  apply rtc_once. exact (one_answer _ _ (portal_thread 4) _ _ core_update core_served).
Qed.

Lemma core_secrets_concurrent_witness :
  secret_value (live portal_after) (coreSecretKey "sso" "auth") "SESSION_ENCRYPTION_KEY" = Some "s3cret".
Proof.
  apply (value_kept_at _ _ (live portal)); [|by vm_compute|discriminate].
  apply (core_secrets_concurrent equal_objects no_others "sso" "auth" "SESSION_ENCRYPTION_KEY" _ _ no_others_wf
    (fun s s' H => match H with end) (fresh_start_sound _ portal_wf) portal_run).
Defined.

(** A client and its Secret, which has both credentials. *)
Definition grafana_v1 : AutheliaOAuthClient :=
  mkAutheliaOAuthClient (versioned "1" (oc_meta waiting_client)) (oc_Spec waiting_client) (oc_Status waiting_client).
Definition grafana_v2 : Secret := set_sec_meta (versioned "2" (sec_meta grafana_secret)) grafana_secret.
Definition shop : server := put KSecret grafana_v2 (put KOAuthClient grafana_v1 no_server).
Definition shop_told : list reply := [RObject (AnObject KOAuthClient grafana_v1); RObject (AnObject KSecret grafana_v2)].
Definition shop_thread (n : nat) : thread := mkThread (ReconcileClient grafana_req) bytes (take n shop_told).
Definition grafana_sent : Secret :=
  match waits_for equal_objects (shop_thread 2) with Some (RUpdate KSecret o) => o | _ => grafana_v2 end.
Definition grafana_v3 : Secret := set_sec_meta (versioned "3" (sec_meta grafana_sent)) grafana_sent.
Definition shop_after : server := put KSecret grafana_v3 shop.

Lemma shop_wf : wf shop.
Proof. by apply (two_objects_wf KOAuthClient KSecret grafana_v1 grafana_v2 "1" "2"). Qed.

Lemma grafana_update : waits_for equal_objects (shop_thread 2) = Some (RUpdate KSecret grafana_sent).
Proof. by vm_compute. Qed.
Lemma grafana_update_versions :
  version (sec_meta grafana_sent) = Some "2" /\ key_of KSecret grafana_sent = clientSecretKey "sso" "grafana" /\
  stored_at KSecret shop (clientSecretKey "sso" "grafana") = Some grafana_v2.
Proof. split_and!; by vm_compute. Qed.

Lemma grafana_served : serves (RUpdate KSecret grafana_sent) (RObject (AnObject KSecret grafana_v3)) shop shop_after.
Proof.
  destruct grafana_update_versions as (Hv & Hk & Hst).
  apply (serves_update KSecret grafana_sent grafana_v3 grafana_v2); [by rewrite Hk|right; exact Hv| |left; reflexivity].
  clear Hv Hk Hst. split; [by vm_compute|]. split; [by vm_compute|]. split; [|reflexivity].
  exists "3". split; [by vm_compute|]. intros o' Hin _. unfold shop in Hin. rewrite !elem_of_past_put in Hin.
  destruct Hin as [E|[E|Hin%elem_of_nil]]; [|apply an_object_kind in E; discriminate E|destruct Hin].
  apply an_object_inj in E as ->. by vm_compute.
Qed.

(** The Secret is read out of a cache while somebody else's answers are pending:
    two reconciles of the client have read the same state, one has written. *)
Lemma shop_run :
  rtc (concurrent_step equal_objects no_others) (mkConfig shop [])
    (mkConfig shop_after [receive (RObject (AnObject KSecret grafana_v3)) (shop_thread 2); shop_thread 2]).
Proof.
  assert (forall ths n q r, waits_for equal_objects (shop_thread n) = Some q -> serves q r shop shop ->
    receive r (shop_thread n) = shop_thread (S n) ->
    concurrent_step equal_objects no_others (mkConfig shop (shop_thread n :: ths)) (mkConfig shop (shop_thread (S n) :: ths)))
    as Hstep.
  { intros ths n q r Hq Hr <-. exact (cs_answer equal_objects no_others shop shop (shop_thread n :: ths) 0 _ q r eq_refl Hq Hr). }
  assert (forall ths, rtc (concurrent_step equal_objects no_others) (mkConfig shop ths) (mkConfig shop (shop_thread 2 :: ths)))
    as Hread.
  { intros ths.
    eapply rtc_l; [apply (cs_start _ _ shop ths (ReconcileClient grafana_req) bytes bytes_are_ok)|].
    eapply rtc_l; [eapply (Hstep ths 0); [by vm_compute| |reflexivity]; apply (serves_get KOAuthClient _ grafana_v1);
      [right; left|by vm_compute]|].
    apply rtc_once. eapply (Hstep ths 1); [by vm_compute| |reflexivity].
    apply (serves_get KSecret _ grafana_v2); [left|by vm_compute]. }
  etrans; [exact (Hread [])|]. etrans; [exact (Hread [shop_thread 2])|].
  apply rtc_once. exact (cs_answer equal_objects no_others shop shop_after [shop_thread 2; shop_thread 2] 0 _ _ _
    eq_refl grafana_update grafana_served).
Qed.

Lemma shop_confidential : always_confidential "sso" "grafana" shop.
Proof.
  intros oc Hin _. unfold shop in Hin. rewrite !elem_of_past_put in Hin.
  destruct Hin as [E|[E|Hin%elem_of_nil]]; [apply an_object_kind in E; discriminate E| |destruct Hin].
  by apply an_object_inj in E as ->.
Qed.

Lemma client_secrets_concurrent_witness :
  secret_value (live shop_after) (clientSecretKey "sso" "grafana") "client_secret" = Some "s3cret".
Proof.
  apply (value_kept_at _ _ (live shop)); [|by vm_compute|discriminate].
  apply (client_secrets_concurrent equal_objects no_others "sso" "grafana" "client_secret" (mkConfig shop [])
    (mkConfig shop_after [receive (RObject (AnObject KSecret grafana_v3)) (shop_thread 2); shop_thread 2])).
  - by left.
  - exact no_others_wf.
  - intros s s' [].
  - exact (fresh_start_sound _ shop_wf).
  - exact shop_confidential.
  - exact shop_run.
Defined.

(** * Ends *)


Lemma world_clients : Forall (.∈ [demo_client; waiting_client]) (all_objects KOAuthClient world).
Proof. apply (bool_decide_unpack _). by vm_compute. Qed.

Lemma world_all_clients : all_clients demo_authelia [demo_req; grafana_req] world.
Proof.
  split.
  - intros key oc Hoc _. pose proof (objects_key KOAuthClient _ _ _ Hoc) as <-.
    assert (oc ∈ all_objects KOAuthClient world) as Hin by (apply (elem_of_all_objects KOAuthClient); by eexists).
    pose proof world_clients as Hw. rewrite Forall_forall in Hw. specialize (Hw oc Hin).
    rewrite !elem_of_cons, elem_of_nil in Hw. destruct Hw as [->|[->|[]]]; [left|right; left].
  - intros key Hin. rewrite !elem_of_cons, elem_of_nil in Hin. destruct Hin as [->|[->|[]]].
    + exists demo_client. split; [exact world_client|]. eexists. by vm_compute.
    + exists waiting_client. split; [by vm_compute|]. eexists. by vm_compute.
Qed.

Lemma world_renderable : renderable demo_authelia.
Proof. split; [eexists; by vm_compute|]. intros root. by eexists. Qed.

Lemma world_accepted : authelia_accepted demo_authelia world bytes.
Proof.
  split; [by eexists; vm_compute|..|eexists; by vm_compute|eexists; by vm_compute|eexists; by vm_compute].
  intros _. split; [eexists; by vm_compute|by vm_compute].
Qed.

(** The confidential client gets its Secret, and then both are rendered. *)
Lemma system_converges_witness :
  exists c1 c2 t2 clients, rounds [demo_req; grafana_req] world c1 /\
    AutheliaController.Reconcile demo_areq (c1, bytes) = (Ok (mkResult 0), (c2, t2)) /\
    rendered_in clients waiting_client.
Proof.
  destruct (rounds_exist [demo_req; grafana_req] world) as [c1 Hr].
  destruct (system_converges demo_areq [demo_req; grafana_req] world c1 bytes demo_authelia world_authelia
    world_renderable world_accepted world_all_clients) as (clients & rules & domains & rendered & c2 & t2 & E & _ & _ & H).
  - repeat constructor; apply (bool_decide_unpack _); by vm_compute.
  - exact Hr.
  - exists c1, c2, t2, clients. split; [exact Hr|]. split; [exact E|].
    apply (H grafana_req waiting_client); by vm_compute.
Defined.

(** * Events *)

#[local] Existing Instances first_controller first_controller_laws.

(** The Deployment of the Authelia changes. *)
Definition demo_deployment : Deployment :=
  mkDeployment (mkObjectMeta "auth" "sso" "uid-9" None None [mkOwnerReference "Authelia" "auth" "uid-0" true] ∅)
    emptyDeploymentSpec 1 ∅.

Lemma events_reach_authelia_witness :
  exists reqs, requests_for AutheliaReconciler_SetupWithManager (AnObject KDeployment demo_deployment) world = (Ok reqs, world) /\
    demo_areq ∈ reqs.
Proof.
  destruct (events_reach_authelia demo_authelia (AnObject KDeployment demo_deployment) world) as (reqs & E & Hr).
  - apply (elem_of_all_objects KAuthelia). exists demo_areq. exact world_authelia.
  - apply concerns_owned; [left|reflexivity|]. exists (mkOwnerReference "Authelia" "auth" "uid-0" true).
    split; [left|]. split; [reflexivity|]. split; [reflexivity|]. split; [reflexivity|].
    intros ref' Hin _. apply elem_of_cons in Hin as [Hin|Hin]; [exact Hin|by apply elem_of_nil in Hin].
  - exists reqs. split; [exact E|]. destruct Hr as [[Hr _]|[_ [[ing Ei] _]]]; [exact Hr|discriminate Ei].
Defined.

(** * Rights *)

(** The update of grafana's Secret above is granted. *)
Lemma requests_permitted_witness :
  permitted manager_role (needs KOAuthClient (RUpdate KSecret grafana_sent)) = true.
Proof.
  apply (requests_permitted equal_objects (ReconcileClient grafana_req) bytes (take 2 shop_told) (RUpdate KSecret grafana_sent));
    [left; exact grafana_update|by right].
Defined.
